(* ===== verification/_CoqProject ===== *)
-Q . S2P
Prelude.v
JsString.v
Regex.v
Value.v
Rfc8949.v
Scan.v
Cbor.v
Profiles.v
Validation.v
Png.v
Payloads.v
Envelope.v
Bodies.v
ValidatePayload.v
Models.v
Soundness.v
ValidationErrors.v
ValidationRules.v
Base64Url.v
Diagnostic.v
Invariance.v
Roundtrip.v
Cose.v
CoseRules.v
WebCrypto.v
Images.v
ImageRules.v
Identity.v
Typed.v
Database.v
ServerBodies.v
Conversations.v
Envelopes.v
Grants.v
Delivery.v
Worker.v
Receiver.v
DeliveryRules.v
GrantRules.v
System.v
Safety.v
Liveness.v
Scenario.v
GrantScenario.v
Status.v
StatusRules.v
StatusSystem.v
StatusScenario.v
RateLimit.v
Schedule.v
Http.v
Retriever.v
RetrieverRules.v
Publisher.v
PublisherRules.v
GrantReceiver.v
GrantPublisher.v
GrantExchange.v
GrantArrival.v
ConversationRules.v
Service.v
ServiceRules.v
ServiceScenario.v
GrantService.v
GrantServiceRules.v
GrantWithdrawal.v
GrantServiceScenario.v
Permissions.v
PermissionRules.v
PermissionScenario.v
StrictJson.v
StrictJsonRules.v
SafeFetch.v
Discovery.v
Plc.v
DiscoveryRules.v
MediaType.v
SenderProfiles.v
ProfileRules.v
DiscoveryScenario.v
