(* ===== verification/Prelude.v ===== *)
(** * Hail: a verification development for the Hail reference implementation

    Hail is a federated messaging protocol.  A provider keeps accounts; the provider of a sender
    signs an envelope that announces a body, posts it to the provider of the recipient, which
    authenticates it, decides whether something authorizes it, fetches the body and reports what
    became of the message in signed statuses.  This library models the codec of the protocol
    (src/packages/hail-codec-ts/src) and the message path of the provider (src/apps/server/src) and
    proves what makes them correct.  A function keeps the name it has in the source where Rocq allows
    it; the doc comment of a file names its source.

    ** Foundations

    - [Prelude]: results ([Ok], [Err]) with the loops of the source, the rewrite database [bools], the
      hint database [hail] and the tactics that take a run apart.
    - [JsString], [Regex]: JavaScript strings as UTF-16 code units, UTF-8, UTF-16 order, and regular
      expressions with a matcher by derivatives.
    - [Value]: what the codec can see of a JavaScript value ([jsval]: getters, symbols, prototypes,
      holes), the values of the protocol ([hvalue]) and the errors.

    ** The codec

    - [Rfc8949]: deterministic CBOR by the RFC, with its round trip.  The package cborg is not part of
      the repository: the class [Cborg] has its two functions, [CborgSpec] states that they agree with
      the RFC on what the codec accepts, and [Reference.cborg] is an instance that satisfies it.
    - [Scan] (scan.ts), [Cbor] (cbor.ts): the resource scan and deterministic encoding and decoding.
    - [Profiles], [Validation], [Png], [Payloads], [Envelope], [Bodies], [ValidatePayload]
      (profiles.ts, validation.ts, payload.ts): the validators, in the order in which they throw.
    - [Models] (models.ts): the interfaces as records, and reading a value at its interface.
    - [Soundness], [ValidationErrors], [ValidationRules]: validation asserts a type rightly,
      what it throws, and the rules of the protocol on the typed payloads and on PNG images.
    - [Base64Url], [Diagnostic] (base64url.ts, diagnostic.ts, diagnostic-notation.ts).
    - [Invariance], [Roundtrip]: validation does not see the order of members; payload round trips.
    - [Cose], [CoseRules], [WebCrypto] (cose.ts, conversations.ts, webcrypto.ts): signatures.  SHA-256
      and Web Crypto are parameters; no theorem assumes that a hash or a signature cannot collide.

    ** The provider

    - [Typed]: payloads at their interface, with the proof that reading a validated payload so never
      fails.  [Database]: the tables as finite maps, transactions that commit or throw, what
      triggers refuse, and code outside transactions.
    - [Identity] (identity/address.ts, uuid-v7.ts): canonical addresses and fresh identifiers.
    - [Service] (envelopes/service.ts): the four ways to send, and the creation of a conversation.
    - [Receiver], [Envelopes] (envelopes/receiver.ts, repository.ts, admission.ts): authentication of
      what is posted, decision under lock, budgets, replay and queueing.
    - [Conversations] (accounts/connection-authorization.ts, conversation-memberships.ts,
      conversation-preferences.ts): what connections and conversations permit.
    - [ServerBodies], [Images] (bodies/service.ts, attachments.ts, image-attachments.ts).
    - [Delivery], [Worker] (delivery/repository.ts, worker.ts): leases, retrieval, delivery, holds.
      [Http], [Retriever] (delivery/retriever.ts): fetching a body from a provider that may answer
      anything.
    - [Status], [Publisher] (delivery/status.ts, status-receiver.ts, status-publisher.ts): the statuses,
      signed, received and published.
    - [Grants] (grants/repository.ts, revision.ts): the lineages of signed grants, what advances them,
      and the queue that publishes their revisions.  [GrantReceiver] (grants/receiver.ts, routes.ts) and
      [GrantPublisher] (grants/publisher.ts): the two ends of the exchange of grants between providers.
      [GrantService] (grants/service.ts): proposals, grants that users sign, grants that the provider
      signs for its accounts, and their withdrawal.
    - [StrictJson], [MediaType], [SafeFetch], [Discovery] (discovery/strict-json.ts, http/media-type.ts,
      discovery/safe-fetch.ts, delegation.ts, verifier.ts): what other parties write, the transport that
      asks them, and the verification of an address.  [Plc] (plc/client.ts, resolver.ts): the reads of the
      configured PLC directory, which do not use that transport, and the state of an identity that
      is resolved from them.  [SenderProfiles] (profiles/verifier.ts, routes.ts and the
      kept profiles of onboarding/repository.ts): verifying, keeping and serving profiles.
    - [Permissions] (accounts/permissions.ts): what a browser reviews, prepares and commits with the
      approval of a passkey, through the service of grants.
    - [RateLimit], [Schedule] (http/rate-limit.ts, protected-schedule.ts): limits on requests, and the
      schedule that hides what processing finds.
    - [System]: all transactions as one transition relation over the database and the claims of the
      workers, which run in any order; its invariant.  [StatusSystem]: two providers.

    ** What the theorems show

    - Codec: decoding inverts encoding and accepts only its image; two values have the same encoding
      exactly when they have the same canonical form; the scan stays inside its input and ends;
      validation asserts types soundly and throws only codec errors (and one type error); base64url is
      exact; diagnostics redact secrets; what was signed verifies, what verifies was signed by the key,
      and a signature determines type, key and payload.
    - Messages ([Safety], [Liveness]): every execution refines the status machine; a reply capability
      serves one message; what is delivered is what was announced, in time and under the lease; leases
      exclude each other; identifiers are reserved; budgets hold; due work is claimed and expired work
      fails.
    - Statuses ([StatusSystem]): the signer never contradicts itself, and the sender's provider records
      only what the recipient's provider went through, whatever the order in which statuses arrive.
    - Grants ([GrantRules]): a lineage is a chain of signed revisions; what is admitted under a grant,
      its current revision permits; a revocation is final; the recipient of a grant follows its grantor.
      Between providers ([GrantExchange], [GrantArrival]) what is answered for is kept, what is
      acknowledged is kept by the other side, and the next revision arrives in one round.  The service
      ([GrantServiceRules], [GrantWithdrawal]) runs as the machine of grants does whatever fails, issues
      what was asked on current evidence, and can always withdraw.
    - Discovery ([StrictJsonRules], [DiscoveryRules], [ProfileRules]): the parser accepts exactly JSON
      without duplicate members; in a lookup the transport connects to public addresses only, what is read
      beside it is what the resolver reads of one identity in its directory, and what is verified its owner
      has signed; the PLC resolver answers what the validated log says ([Plc.PlcHailDidResolver_Ok]); kept profiles never go back.  At the end [ProfileRules] joins these to the
      service of grants: what a new grant names, its grantee has signed.
    - Permissions ([PermissionRules]): nothing changes without the passkey, and what a commit reports is
      what was approved.
    - The rest: sending needs authority, and what is sent is received ([ServiceRules]); retrieval takes
      no more than its limit and what it returns can be delivered ([RetrieverRules]); publications end
      ([PublisherRules]); participation changes as the account may change it ([ConversationRules]);
      rate limits and the schedule ([RateLimit], [Schedule]).

    The files [Scenario], [GrantScenario], [GrantServiceScenario], [PermissionScenario],
    [DiscoveryScenario], [StatusScenario] and [ServiceScenario] run the model on concrete inputs and apply
    the theorems there.

    ** Conventions and bounds

    A call that reads a clock takes its readings as arguments; instants of the database are
    microseconds.  Other processes appear as a function on databases between two statements.  A
    collaborator that is not modelled (the resolver, key storage, the network, zlib, the SQL functions
    of connections) is a field of an environment record or a class, and may throw.  Fuel is used where
    the recursion of the source is bounded by a limit or by the offset into a buffer: the scan has the
    maximal depth plus two, and the loops over images and PNG chunks the length of the input, which
    each iteration consumes; that the fuel suffices is proved ([Scan.scan_total],
    [ImageRules.images_total]).

    ** Not modelled

    - Abort signals, the zeroing of secrets, logging and metrics: no result depends on them.
    - Connections and their federation (accounts/connections.ts, connection-federation.ts), the signing
      and storing of the bindings and profiles of local accounts (profiles/service.ts, discovery/routes.ts
      and others), resolution against several public readers and the evidence of it
      (plc/public-resolver.ts and others), the URL parser and the classification of addresses, sessions, passkeys and the custody
      of keys, onboarding, the migration of accounts and the operator interface: the code above uses
      them through its environments.  Of grants/ only the checks in front of the handler of PUT, and of
      accounts/permissions.ts the HTTP route are left out.
    - The retained PLC evidence and its tables, search, drafts, trash and the mailbox views.
    - The HTTP routes, the command line tools, the web client, scripts and SQL migrations; the
      constraints of the tables that matter are in the transactions that could violate them. *)

From stdpp Require Export base tactics option list numbers gmap sets strings sorting.
From Stdlib Require Export Strings.Byte.

#[global] Set Default Proof Using "Type".

(** ** Results: a value or a thrown error *)

Inductive result (E A : Type) : Type :=
| Ok (a : A)
| Err (e : E).
Arguments Ok {E A} a.
Arguments Err {E A} e.

Section result.
Context {E : Type}.

#[global] Instance result_ret : MRet (result E) := fun A a => Ok a.
#[global] Instance result_bind : MBind (result E) := fun A B f m =>
  match m with Ok a => f a | Err e => Err e end.
#[global] Instance result_fmap : FMap (result E) := fun A B f m =>
  match m with Ok a => Ok (f a) | Err e => Err e end.

Definition is_ok {A} (m : result E A) : bool :=
  match m with Ok _ => true | Err _ => false end.

(** [catch m h]: [try { m } catch (e) { h e }]. *)
Definition catch {A} (m : result E A) (h : E -> result E A) : result E A :=
  match m with Ok a => Ok a | Err e => h e end.

(** [throw_if b e]: [if (b) throw e;] as a statement. *)
Definition throw_if (b : bool) (e : E) : result E unit :=
  if b then Err e else Ok tt.

Lemma Ok_eq {A} (a b : A) : (Ok a : result E A) = Ok b -> a = b.
Proof. congruence. Qed.

Lemma bind_Ok {A B} (m : result E A) (f : A -> result E B) b :
  m ≫= f = Ok b <-> exists a, m = Ok a /\ f a = Ok b.
Proof. destruct m; naive_solver. Qed.

Lemma bind_Err {A B} (m : result E A) (f : A -> result E B) e :
  m ≫= f = Err e <-> m = Err e \/ exists a, m = Ok a /\ f a = Err e.
Proof. destruct m; naive_solver. Qed.

Lemma fmap_Ok {A B} (f : A -> B) (m : result E A) b :
  f <$> m = Ok b <-> exists a, m = Ok a /\ b = f a.
Proof. destruct m; naive_solver. Qed.

Lemma throw_if_Ok b e u : throw_if b e = Ok u <-> b = false.
Proof. destruct b, u; naive_solver. Qed.

Lemma is_ok_exists {A} (m : result E A) : is_ok m = true <-> exists a, m = Ok a.
Proof. destruct m; naive_solver. Qed.

(** ** Loops *)

(** [entries.forEach((entry, index) => ...)] starting at [index]. *)
Fixpoint iforM {A} (index : nat) (l : list A) (f : nat -> A -> result E unit)
  : result E unit :=
  match l with
  | [] => Ok tt
  | a :: l => _ ← f index a; iforM (S index) l f
  end.

(** The same loop threading the variables the callback assigns. *)
Fixpoint ifoldM {A S} (index : nat) (l : list A) (s : S)
    (f : nat -> A -> S -> result E S) : result E S :=
  match l with
  | [] => Ok s
  | a :: l => s' ← f index a s; ifoldM (Datatypes.S index) l s' f
  end.

Lemma iforM_Ok {A} (f : nat -> A -> result E unit) l : forall index,
  iforM index l f = Ok tt <->
  forall i a, l !! i = Some a -> f (index + i) a = Ok tt.
Proof.
  induction l as [|a l IH]; intros index; simpl.
  - split; [intros _ i a; rewrite lookup_nil; done | done].
  - rewrite bind_Ok. setoid_rewrite IH. split.
    + intros ([] & Ha & Hl) [|i] b Hb; simplify_eq/=.
      * by rewrite Nat.add_0_r.
      * rewrite <- Nat.add_succ_comm. eauto.
    + intros H. exists tt. split.
      * rewrite <- (Nat.add_0_r index). by apply (H 0).
      * intros i b Hb. rewrite Nat.add_succ_comm. by apply (H (Datatypes.S i)).
Qed.

Lemma iforM_Forall {A} (f : nat -> A -> result E unit) (P : A -> Prop) index l u :
  (forall i a, f i a = Ok tt -> P a) -> iforM index l f = Ok u -> Forall P l.
Proof.
  intros Hf H. destruct u. rewrite iforM_Ok in H. apply Forall_lookup. eauto.
Qed.

Lemma ifoldM_invariant {A S} (f : nat -> A -> S -> result E S)
    (Q : list A -> S -> Prop) :
  (forall i a s s' done, Q done s -> f i a s = Ok s' -> Q (done ++ [a]) s') ->
  forall l index done s s', Q done s -> ifoldM index l s f = Ok s' -> Q (done ++ l) s'.
Proof.
  intros Hf. induction l as [|a l IH]; intros index done s s' HQ H; simpl in H.
  - simplify_eq. by rewrite app_nil_r.
  - apply bind_Ok in H as (s1 & H1 & H2).
    rewrite (cons_middle a done l), app_assoc. eauto.
Qed.

(** An invariant of the variables that mentions the index. *)
Lemma ifoldM_indexed {A S} (f : nat -> A -> S -> result E S) (Q : nat -> S -> Prop) :
  (forall i a s s', Q i s -> f i a s = Ok s' -> Q (Datatypes.S i) s') ->
  forall l i s s', Q i s -> ifoldM i l s f = Ok s' -> Q (i + length l) s'.
Proof.
  intros Hf. induction l as [|a l IH]; intros i s s' HQ H; simpl in H.
  - simplify_eq. by rewrite Nat.add_0_r.
  - apply bind_Ok in H as (s1 & H1 & H2). cbn [length]. rewrite <- Nat.add_succ_comm. eauto.
Qed.
End result.

(** ** Automation *)

Create HintDb hail discriminated.
#[global] Hint Constants Opaque : hail.
#[global] Hint Variables Transparent : hail.

Create Rewrite HintDb bools.
#[export] Hint Rewrite andb_true_iff orb_false_iff negb_true_iff negb_false_iff
  Z.ltb_lt Z.ltb_ge Z.leb_le Z.leb_gt Z.eqb_eq Z.eqb_neq Nat.eqb_eq Nat.eqb_neq
  Nat.ltb_lt Nat.ltb_ge Nat.leb_le Nat.leb_gt N.eqb_eq N.eqb_neq N.leb_le N.leb_gt
  N.ltb_lt N.ltb_ge bool_decide_eq_true bool_decide_eq_false : bools.

(** Turn boolean equations into propositions. *)
Tactic Notation "bools" "in" hyp(H) := autorewrite with bools in H.
Ltac bools :=
  repeat match goal with
  | H : ?b = true |- _ => progress (autorewrite with bools in H)
  | H : ?b = false |- _ => progress (autorewrite with bools in H)
  end; destruct_and?.

(** Decompose successful runs: every [bind], guard and conditional on the way to an [Ok]. *)
Ltac inv_ok_step :=
  match goal with
  | H : Err _ = Ok _ |- _ => discriminate H
  | H : Ok _ = Err _ |- _ => discriminate H
  | H : Ok _ = Ok _ |- _ => injection H as H
  | H : _ ≫= _ = Ok _ |- _ =>
      let x := fresh "x" in let Hm := fresh "Hm" in let Hf := fresh "Hf" in
      apply bind_Ok in H as (x & Hm & Hf); simpl in Hf
  | H : throw_if _ _ = Ok _ |- _ => apply throw_if_Ok in H
  | H : (if ?b then _ else _) = Ok _ |- _ => let Hb := fresh "Hb" in destruct b eqn:Hb
  end.
Ltac inv_ok := repeat (inv_ok_step; simplify_eq).

(** ** Lists *)

(** Induction on the length of a list. *)
Lemma list_ind_length {A} (P : list A -> Prop) :
  (forall l, (forall l', length l' < length l -> P l') -> P l) -> forall l, P l.
Proof.
  intros H l. induction (well_founded_ltof _ (@length A) l) as [l _ IH]. eauto.
Qed.

Lemma existsb_eqb_elem {A} `{EqDecision A} (x : A) l :
  existsb (fun y => bool_decide (x = y)) l = true <-> x ∈ l.
Proof.
  rewrite existsb_exists. split.
  - intros (y & Hy & Hd). bools. subst. by apply list_elem_of_In.
  - intros Hx. exists x. rewrite bool_decide_eq_true. split; [by apply list_elem_of_In | done].
Qed.

(** ** Sorting *)

Section sort_by.
Context {A : Type} (leb : A -> A -> bool).

Fixpoint insert_by (x : A) (l : list A) : list A :=
  match l with
  | [] => [x]
  | y :: l => if leb x y then x :: y :: l else y :: insert_by x l
  end.

(** A stable sort, as [Array.prototype.sort]. *)
Definition sort_by (l : list A) : list A := foldr insert_by [] l.

Definition le_by : relation A := fun x y => leb x y = true.

Lemma insert_by_perm x l : insert_by x l ≡ₚ x :: l.
Proof.
  induction l as [|y l IH]; simpl; [done|]. case_match; [done|].
  rewrite IH. apply Permutation_swap.
Qed.

Lemma sort_by_perm l : sort_by l ≡ₚ l.
Proof. induction l as [|x l IH]; simpl; [done|]. by rewrite insert_by_perm, IH. Qed.

Lemma sort_by_length l : length (sort_by l) = length l.
Proof. by rewrite sort_by_perm. Qed.

Lemma insert_by_sorted `{!Transitive le_by, !Total le_by} x l :
  StronglySorted le_by l -> StronglySorted le_by (insert_by x l).
Proof.
  induction 1 as [|y l Hl IH Hy]; simpl; [by repeat constructor|].
  destruct (leb x y) eqn:Hxy.
  - constructor; [by constructor|]. constructor; [done|].
    eapply Forall_impl; [done|]. intros z Hz. by trans y.
  - constructor; [done|]. rewrite insert_by_perm. constructor; [|done].
    destruct (total le_by x y) as [H|H]; [|done]. unfold le_by in H. congruence.
Qed.

Lemma sort_by_sorted `{!Transitive le_by, !Total le_by} l :
  StronglySorted le_by (sort_by l).
Proof. induction l; simpl; [constructor | by apply insert_by_sorted]. Qed.

(** A list already sorted is left alone. *)
Lemma sort_by_id l : StronglySorted le_by l -> sort_by l = l.
Proof.
  induction 1 as [|x l Hl IH Hx]; [done|]. simpl. rewrite IH.
  destruct l as [|y l]; [done|]. simpl. apply Forall_cons in Hx as [Hxy _].
  unfold le_by in Hxy. by rewrite Hxy.
Qed.

(** Sorting forgets the order of the input when the order is antisymmetric on it. *)
Lemma sort_by_unique `{!Transitive le_by, !Total le_by} l1 l2 :
  (forall x y, x ∈ l1 -> y ∈ l1 -> le_by x y -> le_by y x -> x = y) ->
  l1 ≡ₚ l2 -> sort_by l1 = sort_by l2.
Proof.
  intros Hanti Hp. apply (StronglySorted_unique_strong le_by).
  - intros x y Hx Hy. rewrite sort_by_perm in Hx, Hy. rewrite <- Hp in Hy. auto.
  - apply sort_by_sorted.
  - apply sort_by_sorted.
  - by rewrite !sort_by_perm.
Qed.
End sort_by.

Lemma insert_by_fmap {A B} (f : A -> B) (leb : B -> B -> bool) x l :
  insert_by leb (f x) (f <$> l) = f <$> insert_by (fun a b => leb (f a) (f b)) x l.
Proof. induction l as [|y l IH]; simpl; [done|]. case_match; csimpl; by rewrite ?IH. Qed.

Lemma sort_by_fmap {A B} (f : A -> B) (leb : B -> B -> bool) l :
  sort_by leb (f <$> l) = f <$> sort_by (fun a b => leb (f a) (f b)) l.
Proof.
  induction l as [|x l IH]; [done|].
  change (insert_by leb (f x) (sort_by leb (f <$> l)) =
    f <$> insert_by (fun a b => leb (f a) (f b)) x (sort_by (fun a b => leb (f a) (f b)) l)).
  by rewrite IH, insert_by_fmap.
Qed.

Lemma sort_by_ext {A} (leb1 leb2 : A -> A -> bool) l :
  (forall a b, leb1 a b = leb2 a b) -> sort_by leb1 l = sort_by leb2 l.
Proof.
  intros Heq. induction l as [|x l IH]; simpl; [done|]. rewrite IH.
  generalize (sort_by leb2 l) as k. intros k.
  induction k as [|y k IHk]; simpl; [done|]. rewrite Heq. by rewrite IHk.
Qed.

Lemma concat_length_ge {A B} (f : B -> list A) l :
  Forall (fun b => 1 <= length (f b)) l -> length l <= length (concat (map f l)).
Proof.
  induction 1 as [|b l Hb Hl IH]; simpl; [done|]. rewrite length_app. lia.
Qed.

Lemma concat_length_elem {A B} (f : B -> list A) l b :
  b ∈ l -> length (f b) <= length (concat (map f l)).
Proof.
  induction 1 as [b l|b c l Hb IH]; simpl; rewrite length_app; lia.
Qed.

Lemma forallb_fmap {A B} (f : A -> B) (p : B -> bool) l :
  forallb p (map f l) = forallb (fun a => p (f a)) l.
Proof. induction l as [|a l IH]; simpl; [done|]. by rewrite IH. Qed.

Lemma forallb_Forall {A} (p : A -> bool) l : forallb p l = true <-> Forall (fun a => p a = true) l.
Proof. rewrite forallb_forall, Forall_forall. by setoid_rewrite <- list_elem_of_In. Qed.

(** ** Bitwise operators as arithmetic *)

Lemma lor_shiftl_low (v b k : Z) :
  (0 <= k -> 0 <= b < 2 ^ k -> Z.lor (Z.shiftl v k) b = v * 2 ^ k + b)%Z.
Proof.
  intros Hk Hb. rewrite Z.shiftl_mul_pow2 by lia.
  assert (Hl : Z.land (v * 2 ^ k) b = 0%Z).
  { apply Z.bits_inj'. intros i Hi. rewrite Z.land_spec, Z.bits_0.
    destruct (Z.ltb_spec i k); [by rewrite Z.mul_pow2_bits_low|].
    rewrite andb_comm, <- (Z.mod_small b (2 ^ k)) by lia.
    by rewrite Z.mod_pow2_bits_high by lia. }
  assert (Ha := Z.add_lor_land (v * 2 ^ k) b). lia.
Qed.
