(* ===== verification/JsString.v ===== *)
(** * JavaScript strings and bytes

    A JavaScript string is a sequence of 16-bit code units, here a [list N].  This file holds
    the string operations the sources use ([isWellFormed], [TextEncoder], [TextDecoder] in
    fatal mode, code-unit comparison, [includes], [split], [lastIndexOf], decimal printing)
    and the facts about UTF-8 the codec relies on. *)

From S2P Require Import Prelude.
From Stdlib Require Ascii String.

Notation jstr := (list N).
Notation bytes := (list byte).

Declare Scope hail_scope.
Delimit Scope hail_scope with hail.
#[global] Open Scope hail_scope.

(** ** Bytes *)

#[export] Instance byte_eq_dec : EqDecision byte := Byte.byte_eq_dec.
#[export] Program Instance byte_countable : Countable byte :=
  inj_countable Byte.to_N Byte.of_N _.
Next Obligation. intros b. apply Byte.of_to_N. Qed.

Definition byte_of_N (n : N) : byte :=
  match Byte.of_N (n mod 256) with Some b => b | None => x00 end.

Lemma to_N_byte_of_N n : Byte.to_N (byte_of_N n) = (n mod 256)%N.
Proof.
  unfold byte_of_N. destruct (Byte.of_N (n mod 256)) as [b|] eqn:Hb.
  - by apply Byte.to_of_N in Hb.
  - apply Byte.of_N_None_iff in Hb.
    assert (n mod 256 < 256)%N by (apply N.mod_lt; lia). lia.
Qed.

Lemma to_N_byte_small n : (n < 256)%N -> Byte.to_N (byte_of_N n) = n.
Proof. intros H. rewrite to_N_byte_of_N. by apply N.mod_small. Qed.

Lemma byte_lt_256 b : (Byte.to_N b < 256)%N.
Proof. assert (H := Byte.to_N_bounded b). lia. Qed.

Lemma byte_of_to_N b : byte_of_N (Byte.to_N b) = b.
Proof.
  unfold byte_of_N. rewrite N.mod_small by apply byte_lt_256.
  by rewrite Byte.of_to_N.
Qed.

Lemma byte_to_N_inj a b : Byte.to_N a = Byte.to_N b -> a = b.
Proof. intros H. by rewrite <- (byte_of_to_N a), H, byte_of_to_N. Qed.

(** ** Literals *)

Definition js (s : String.string) : jstr :=
  Ascii.N_of_ascii <$> String.list_ascii_of_string s.
Arguments js s%_string.

(** ** Numbers as text *)

Fixpoint decimal_digits (fuel : nat) (n : N) (acc : jstr) : jstr :=
  match fuel with
  | O => acc
  | S fuel =>
      let acc := (48 + n mod 10)%N :: acc in
      if (n <? 10)%N then acc else decimal_digits fuel (n / 10) acc
  end.

(** [String(n)] for a non-negative integer. *)
Definition show_N (n : N) : jstr := decimal_digits (S (N.to_nat (N.size n))) n [].
Definition show_nat (n : nat) : jstr := show_N (N.of_nat n).
Definition show_Z (z : Z) : jstr :=
  if (z <? 0)%Z then js "-" ++ show_N (Z.to_N (- z)) else show_N (Z.to_N z).

Example show_N_255 : show_N 255 = js "255".
Proof. reflexivity. Qed.

(** ** Surrogates and code points *)

Definition is_high (u : N) : bool := ((0xD800 <=? u) && (u <=? 0xDBFF))%N.
Definition is_low (u : N) : bool := ((0xDC00 <=? u) && (u <=? 0xDFFF))%N.
Definition surrogate_pair (h l : N) : N :=
  (0x10000 + (h - 0xD800) * 0x400 + (l - 0xDC00))%N.

(** The code points of a string; an unpaired surrogate stands for itself. *)
Fixpoint code_points (s : jstr) : list N :=
  match s with
  | [] => []
  | u :: s' =>
      match s' with
      | l :: s'' =>
          if is_high u && is_low l then surrogate_pair u l :: code_points s''
          else u :: code_points s'
      | [] => [u]
      end
  end.

(** [String.prototype.isWellFormed]: no unpaired surrogate (and 16-bit code units). *)
Fixpoint isWellFormed (s : jstr) : bool :=
  match s with
  | [] => true
  | u :: s' =>
      if is_high u then
        match s' with
        | l :: s'' => is_low l && isWellFormed s''
        | [] => false
        end
      else negb (is_low u) && (u <? 0x10000)%N && isWellFormed s'
  end.

(** ** UTF-8 *)

Definition is_scalar (c : N) : bool :=
  ((c <? 0xD800) || ((0xE000 <=? c) && (c <? 0x110000)))%N.

Definition utf8_char (c : N) : bytes :=
  (if c <? 0x80 then [byte_of_N c]
   else if c <? 0x800 then
     [byte_of_N (0xC0 + c / 0x40); byte_of_N (0x80 + c mod 0x40)]
   else if c <? 0x10000 then
     [byte_of_N (0xE0 + c / 0x1000); byte_of_N (0x80 + (c / 0x40) mod 0x40);
      byte_of_N (0x80 + c mod 0x40)]
   else
     [byte_of_N (0xF0 + c / 0x40000); byte_of_N (0x80 + (c / 0x1000) mod 0x40);
      byte_of_N (0x80 + (c / 0x40) mod 0x40); byte_of_N (0x80 + c mod 0x40)])%N.

(** [new TextEncoder().encode(s)]: unpaired surrogates become U+FFFD. *)
Definition text_encode (s : jstr) : bytes :=
  c ← code_points s; utf8_char (if is_scalar c then c else 0xFFFD%N).

Definition continuation (b : byte) : option N :=
  (if (0x80 <=? Byte.to_N b) && (Byte.to_N b <? 0xC0) then Some (Byte.to_N b - 0x80) else None)%N.

(** A code point of at least [minimum] that is a Unicode scalar value. *)
Definition accept_scalar (minimum c : N) : option N :=
  if ((minimum <=? c)%N && is_scalar c) then Some c else None.

Fixpoint utf8_decode (bs : bytes) : option (list N) :=
  match bs with
  | [] => Some []
  | b0 :: r0 =>
      let n := Byte.to_N b0 in
      if (n <? 0x80)%N then cons n <$> utf8_decode r0
      else if (n <? 0xC0)%N then None
      else if (n <? 0xE0)%N then
        match r0 with
        | b1 :: r1 =>
            c1 ← continuation b1;
            c ← accept_scalar 0x80 ((n - 0xC0) * 0x40 + c1);
            cons c <$> utf8_decode r1
        | [] => None
        end
      else if (n <? 0xF0)%N then
        match r0 with
        | b1 :: b2 :: r2 =>
            c1 ← continuation b1; c2 ← continuation b2;
            c ← accept_scalar 0x800 ((n - 0xE0) * 0x1000 + c1 * 0x40 + c2);
            cons c <$> utf8_decode r2
        | _ => None
        end
      else if (n <? 0xF8)%N then
        match r0 with
        | b1 :: b2 :: b3 :: r3 =>
            c1 ← continuation b1; c2 ← continuation b2; c3 ← continuation b3;
            c ← accept_scalar 0x10000
                  ((n - 0xF0) * 0x40000 + c1 * 0x1000 + c2 * 0x40 + c3);
            cons c <$> utf8_decode r3
        | _ => None
        end
      else None
  end.

Definition utf16_units (c : N) : jstr :=
  (if c <? 0x10000 then [c]
   else [0xD800 + (c - 0x10000) / 0x400; 0xDC00 + (c - 0x10000) mod 0x400])%N.

(** [new TextDecoder("utf-8", { fatal: true, ignoreBOM: true }).decode(bytes)];
    [None] when it throws. *)
Definition text_decode (bs : bytes) : option jstr :=
  cs ← utf8_decode bs; Some (cs ≫= utf16_units).

Definition utf8_length (s : jstr) : Z := Z.of_nat (length (text_encode s)).

(** ** Comparison and searching *)

(** The order of [<] on strings: lexicographic on code units. *)
Fixpoint jstr_compare (a b : jstr) : comparison :=
  match a, b with
  | [], [] => Eq
  | [], _ => Lt
  | _, [] => Gt
  | x :: a, y :: b =>
      match (x ?= y)%N with Eq => jstr_compare a b | c => c end
  end.
Definition jstr_le (a b : jstr) : bool :=
  match jstr_compare a b with Gt => false | _ => true end.
Definition jstr_eqb (a b : jstr) : bool := bool_decide (a = b).

(** [xs.includes(x)] on an array of strings. *)
Definition includes (xs : list jstr) (x : jstr) : bool := existsb (jstr_eqb x) xs.

(** The code unit of a one-character literal. *)
Definition char (s : String.string) : N := List.hd 0%N (js s).
Arguments char s%_string.

(** [s.includes(c)] for a one-character [c]. *)
Definition has_char (c : N) (s : jstr) : bool := existsb (N.eqb c) s.

(** [s.split(c)] for a one-character separator. *)
Fixpoint split_on (c : N) (s : jstr) : list jstr :=
  match s with
  | [] => [[]]
  | u :: s =>
      if (u =? c)%N then [] :: split_on c s
      else match split_on c s with
           | w :: ws => (u :: w) :: ws
           | [] => [[u]]
           end
  end.

(** [s.lastIndexOf(c)]: the index of the last occurrence, [None] for [-1]. *)
Fixpoint last_index (c : N) (s : jstr) : option nat :=
  match s with
  | [] => None
  | u :: s =>
      match last_index c s with
      | Some i => Some (S i)
      | None => if (u =? c)%N then Some 0 else None
      end
  end.

(** [s.startsWith(p)]. *)
Fixpoint starts_with (p s : jstr) : bool :=
  match p, s with
  | [], _ => true
  | c :: p, u :: s => (c =? u)%N && starts_with p s
  | _, [] => false
  end.

(** ** Facts about UTF-8 *)

Ltac n_arith := zify; Z.to_euclidean_division_equations; lia.

(** Decide the comparisons in the head of a goal by arithmetic. *)
Ltac n_cases :=
  repeat match goal with
  | |- context [N.ltb ?a ?b] => destruct (N.ltb_spec a b); try (exfalso; n_arith)
  | |- context [N.leb ?a ?b] => destruct (N.leb_spec a b); try (exfalso; n_arith)
  end; simpl.

Lemma is_scalar_spec c :
  is_scalar c = true <-> (c < 0xD800 \/ (0xE000 <= c /\ c < 0x110000))%N.
Proof. unfold is_scalar. rewrite orb_true_iff. by autorewrite with bools. Qed.

Lemma continuation_byte n :
  (n < 0x40)%N -> continuation (byte_of_N (0x80 + n)) = Some n.
Proof.
  intros Hn. unfold continuation. rewrite to_N_byte_small by lia. n_cases. f_equal. lia.
Qed.

Lemma accept_scalar_Some m c :
  (m <= c)%N -> is_scalar c = true -> accept_scalar m c = Some c.
Proof. intros Hm Hc. unfold accept_scalar. rewrite Hc. by n_cases. Qed.

Lemma utf8_decode_char c r :
  is_scalar c = true -> utf8_decode (utf8_char c ++ r) = cons c <$> utf8_decode r.
Proof.
  intros Hc. assert (Hb := proj1 (is_scalar_spec c) Hc). unfold utf8_char.
  destruct (N.ltb_spec c 0x80); [|destruct (N.ltb_spec c 0x800); [|destruct (N.ltb_spec c 0x10000)]];
    cbn [app utf8_decode]; rewrite ?to_N_byte_small by n_arith; n_cases;
    rewrite ?continuation_byte by n_arith; simpl; try done.
  - replace ((192 + c / 64 - 192) * 64 + c mod 64)%N with c by n_arith.
    by rewrite accept_scalar_Some.
  - replace ((224 + c / 4096 - 224) * 4096 + c / 64 mod 64 * 64 + c mod 64)%N with c by n_arith.
    by rewrite accept_scalar_Some.
  - replace ((240 + c / 262144 - 240) * 262144 + c / 4096 mod 64 * 4096 + c / 64 mod 64 * 64 +
      c mod 64)%N with c by n_arith.
    by rewrite accept_scalar_Some.
Qed.

Lemma includes_elem xs x : includes xs x = true <-> x ∈ xs.
Proof. apply existsb_eqb_elem. Qed.

Lemma jstr_eqb_eq a b : jstr_eqb a b = true <-> a = b.
Proof. apply bool_decide_eq_true. Qed.

Lemma jstr_eqb_refl a : jstr_eqb a a = true.
Proof. by apply jstr_eqb_eq. Qed.
#[export] Hint Rewrite jstr_eqb_eq includes_elem : bools.

Lemma isWellFormed_cons u s :
  isWellFormed (u :: s) = true ->
  (exists l s', s = l :: s' /\ is_high u = true /\ is_low l = true /\ isWellFormed s' = true) \/
  (is_high u = false /\ is_low u = false /\ (u < 0x10000)%N /\ isWellFormed s = true).
Proof.
  simpl. destruct (is_high u) eqn:Hu.
  - destruct s as [|l s]; [done|]. intros [??]%andb_true_iff. left. by exists l, s.
  - intros H. bools. right. by rewrite <- negb_true_iff.
Qed.

Lemma surrogate_pair_scalar h l :
  is_high h = true -> is_low l = true ->
  is_scalar (surrogate_pair h l) = true /\ utf16_units (surrogate_pair h l) = [h; l].
Proof.
  unfold is_high, is_low, utf16_units, surrogate_pair. intros Hh Hl. bools.
  rewrite is_scalar_spec. n_cases. split; [n_arith|]. repeat f_equal; n_arith.
Qed.

Lemma unit_scalar u :
  is_high u = false -> is_low u = false -> (u < 0x10000)%N ->
  is_scalar u = true /\ utf16_units u = [u].
Proof.
  unfold is_high, is_low, utf16_units. intros Hh Hl Hu. rewrite is_scalar_spec.
  rewrite andb_false_iff in Hh, Hl. bools. n_cases. split; [|done].
  destruct Hh as [Hh|Hh], Hl as [Hl|Hl]; bools; lia.
Qed.

Lemma code_points_unit u s :
  is_high u = false -> code_points (u :: s) = u :: code_points s.
Proof. intros Hu. destruct s as [|l s]; simpl; [done|]. by rewrite Hu. Qed.

(** A well-formed string consists of scalar values and is determined by them. *)
Lemma code_points_wf s :
  isWellFormed s = true ->
  Forall (fun c => is_scalar c = true) (code_points s) /\ code_points s ≫= utf16_units = s.
Proof.
  induction s as [[|u s] IH] using list_ind_length; intros Hs; [by simpl|].
  apply isWellFormed_cons in Hs as [(l & s' & -> & Hu & Hl & Hs)|(Hu & Hl & Hlt & Hs)].
  - destruct (IH s') as [IH1 IH2]; [simpl; lia|done|]. cbn [code_points].
    rewrite Hu, Hl. cbn [andb].
    destruct (surrogate_pair_scalar u l) as [Hc Hp]; [done..|].
    split; [by constructor|]. cbn [mbind list_bind]. by rewrite Hp, IH2.
  - destruct (IH s) as [IH1 IH2]; [simpl; lia|done|]. rewrite code_points_unit by done.
    destruct (unit_scalar u) as [Hc Hp]; [done..|].
    split; [by constructor|]. cbn [mbind list_bind]. by rewrite Hp, IH2.
Qed.

(** UTF-8 decoding inverts UTF-8 encoding of well-formed strings. *)
Lemma text_decode_encode s :
  isWellFormed s = true -> text_decode (text_encode s) = Some s.
Proof.
  intros [Hc Hs]%code_points_wf. unfold text_decode, text_encode.
  assert (Hd : utf8_decode (c ← code_points s; utf8_char (if is_scalar c then c else 0xFFFD%N))
               = Some (code_points s)).
  { clear Hs. induction Hc as [|c cs Hc _ IH]; [done|]. cbn [mbind list_bind].
    rewrite Hc, utf8_decode_char by done. by rewrite IH. }
  rewrite Hd. simpl. by rewrite Hs.
Qed.

Lemma text_encode_inj a b :
  isWellFormed a = true -> isWellFormed b = true -> text_encode a = text_encode b -> a = b.
Proof.
  intros Ha Hb Heq. assert (Hd := text_decode_encode a Ha).
  rewrite Heq, text_decode_encode in Hd by done. by simplify_eq.
Qed.

(** *** Decoding is strict: what decodes re-encodes to the same bytes *)

Lemma continuation_Some b n :
  continuation b = Some n -> (n < 0x40)%N /\ Byte.to_N b = (0x80 + n)%N.
Proof.
  unfold continuation. destruct (_ && _) eqn:Hb; [|done]. intros [= <-]. bools. lia.
Qed.

Lemma accept_scalar_inv m c c' :
  accept_scalar m c = Some c' -> c' = c /\ (m <= c)%N /\ is_scalar c = true.
Proof.
  unfold accept_scalar. destruct (_ && _) eqn:Hb; [|done]. intros [= <-]. by bools.
Qed.

Lemma byte_eq_of_N b n : Byte.to_N b = n -> b = byte_of_N n.
Proof. intros <-. by rewrite byte_of_to_N. Qed.

Ltac byte_list :=
  repeat (apply (f_equal2 cons); [symmetry; apply byte_eq_of_N; n_arith|]); reflexivity.

Lemma utf8_char_app2 n b1 c :
  (0xC0 <= Byte.to_N n)%N -> (Byte.to_N n < 0xE0)%N -> continuation b1 = Some c ->
  (0x80 <= (Byte.to_N n - 0xC0) * 0x40 + c)%N ->
  utf8_char ((Byte.to_N n - 0xC0) * 0x40 + c) = [n; b1].
Proof.
  intros H1 H2 [Hc Hb1]%continuation_Some Hm. unfold utf8_char. n_cases.
  byte_list.
Qed.

Lemma utf8_char_app3 n b1 b2 c1 c2 :
  (0xE0 <= Byte.to_N n)%N -> (Byte.to_N n < 0xF0)%N ->
  continuation b1 = Some c1 -> continuation b2 = Some c2 ->
  (0x800 <= (Byte.to_N n - 0xE0) * 0x1000 + c1 * 0x40 + c2)%N ->
  utf8_char ((Byte.to_N n - 0xE0) * 0x1000 + c1 * 0x40 + c2) = [n; b1; b2].
Proof.
  intros H1 H2 [Hc1 Hb1]%continuation_Some [Hc2 Hb2]%continuation_Some Hm.
  unfold utf8_char. n_cases.
  byte_list.
Qed.

Lemma utf8_char_app4 n b1 b2 b3 c1 c2 c3 :
  (0xF0 <= Byte.to_N n)%N -> (Byte.to_N n < 0xF8)%N ->
  continuation b1 = Some c1 -> continuation b2 = Some c2 -> continuation b3 = Some c3 ->
  (0x10000 <= (Byte.to_N n - 0xF0) * 0x40000 + c1 * 0x1000 + c2 * 0x40 + c3)%N ->
  utf8_char ((Byte.to_N n - 0xF0) * 0x40000 + c1 * 0x1000 + c2 * 0x40 + c3) = [n; b1; b2; b3].
Proof.
  intros H1 H2 [Hc1 Hb1]%continuation_Some [Hc2 Hb2]%continuation_Some
    [Hc3 Hb3]%continuation_Some Hm.
  unfold utf8_char. n_cases.
  byte_list.
Qed.

(** Inversion of the option-monad steps of the decoder. *)
Ltac inv_option :=
  repeat match goal with
  | H : None = Some _ |- _ => discriminate H
  | H : _ ≫= _ = Some _ |- _ =>
      let x := fresh "x" in let Hx := fresh "Hx" in apply bind_Some in H as (x & Hx & H)
  | H : _ <$> _ = Some _ |- _ =>
      let x := fresh "x" in let Hx := fresh "Hx" in apply fmap_Some in H as (x & Hx & H)
  | H : accept_scalar _ _ = Some _ |- _ =>
      let Hm := fresh "Hmin" in let Hs := fresh "Hsc" in
      apply accept_scalar_inv in H as (? & Hm & Hs)
  end; subst.

Lemma utf8_decode_inv bs : forall cs,
  utf8_decode bs = Some cs ->
  Forall (fun c => is_scalar c = true) cs /\ (c ← cs; utf8_char c) = bs.
Proof.
  induction bs as [[|n r] IH] using list_ind_length; intros cs Hd; [by simplify_eq/=|].
  cbn [utf8_decode] in Hd.
  assert (IH' : forall r' cs', length r' < S (length r) -> utf8_decode r' = Some cs' ->
    Forall (fun c => is_scalar c = true) cs' /\ (c ← cs'; utf8_char c) = r')
    by (intros r' cs' Hl; by apply IH).
  clear IH. revert Hd.
  destruct (N.ltb_spec (Byte.to_N n) 0x80);
    [|destruct (N.ltb_spec (Byte.to_N n) 0xC0); [done|];
      destruct (N.ltb_spec (Byte.to_N n) 0xE0);
      [|destruct (N.ltb_spec (Byte.to_N n) 0xF0);
        [|destruct (N.ltb_spec (Byte.to_N n) 0xF8); [|done]]]]; intros Hd.
  - inv_option. destruct (IH' r x) as [IH1 IH2]; [lia|done|]. split.
    + constructor; [apply is_scalar_spec; lia | done].
    + cbn [mbind list_bind]. unfold utf8_char at 1. n_cases. by rewrite byte_of_to_N, IH2.
  - destruct r as [|b1 r]; [done|]. inv_option.
    destruct (IH' r x1) as [IH1 IH2]; [simpl; lia|done|]. split; [by constructor|].
    cbn [mbind list_bind]. by erewrite utf8_char_app2, IH2.
  - destruct r as [|b1 [|b2 r]]; [done..|]. inv_option.
    destruct (IH' r x2) as [IH1 IH2]; [simpl; lia|done|]. split; [by constructor|].
    cbn [mbind list_bind]. by erewrite utf8_char_app3, IH2.
  - destruct r as [|b1 [|b2 [|b3 r]]]; [done..|]. inv_option.
    destruct (IH' r x3) as [IH1 IH2]; [simpl; lia|done|]. split; [by constructor|].
    cbn [mbind list_bind]. by erewrite utf8_char_app4, IH2.
Qed.

Lemma utf16_units_wf c s :
  is_scalar c = true -> isWellFormed (utf16_units c ++ s) = isWellFormed s /\
  code_points (utf16_units c ++ s) = c :: code_points s.
Proof.
  rewrite is_scalar_spec. intros Hc. unfold utf16_units.
  destruct (N.ltb_spec c 0x10000) as [Hlt|Hge]; cbn [app].
  - assert (Hh : is_high c = false) by (unfold is_high; n_cases; lia).
    assert (Hl : is_low c = false) by (unfold is_low; n_cases; lia).
    rewrite code_points_unit by done. cbn [isWellFormed]. rewrite Hh, Hl. by n_cases.
  - set (h := (0xD800 + (c - 0x10000) / 0x400)%N).
    set (l := (0xDC00 + (c - 0x10000) mod 0x400)%N).
    assert (Hh : is_high h = true) by (unfold is_high, h; by n_cases).
    assert (Hl : is_low l = true) by (unfold is_low, l; by n_cases).
    cbn [isWellFormed code_points]. rewrite Hh, Hl. cbn [andb]. split; [done|].
    f_equal. unfold surrogate_pair, h, l. n_arith.
Qed.

Lemma text_decode_inv bs s :
  text_decode bs = Some s -> isWellFormed s = true /\ text_encode s = bs.
Proof.
  unfold text_decode. intros H. inv_option. injection H as <-.
  apply utf8_decode_inv in Hx as [Hsc <-]. unfold text_encode.
  induction Hsc as [|c cs Hc Hcs [IH1 IH2]]; [done|]. cbn [mbind list_bind].
  destruct (utf16_units_wf c (cs ≫= utf16_units) Hc) as [Hw Hp].
  rewrite Hw, Hp. cbn [mbind list_bind]. by rewrite IH1, Hc, IH2.
Qed.

(** ** Facts about comparison *)

Lemma jstr_compare_eq a : forall b, jstr_compare a b = Eq <-> a = b.
Proof.
  induction a as [|x a IH]; intros [|y b]; simpl; [done..|].
  destruct (N.compare_spec x y) as [->|H|H]; [rewrite IH; naive_solver|split; [done|intros; simplify_eq; lia]..].
Qed.

Lemma jstr_compare_antisym a : forall b, jstr_compare b a = CompOpp (jstr_compare a b).
Proof.
  induction a as [|x a IH]; intros [|y b]; simpl; [done..|].
  rewrite (N.compare_antisym x y). destruct (x ?= y)%N; simpl; auto.
Qed.

Lemma jstr_compare_lt_trans a : forall b c,
  jstr_compare a b = Lt -> jstr_compare b c = Lt -> jstr_compare a c = Lt.
Proof.
  induction a as [|x a IH]; intros [|y b] [|z c]; simpl; try done.
  destruct (N.compare_spec x y), (N.compare_spec y z), (N.compare_spec x z);
    subst; try done; try lia; eauto.
Qed.

Definition jstr_lt (a b : jstr) : Prop := jstr_compare a b = Lt.

Lemma jstr_le_false a b : jstr_le a b = false <-> jstr_lt b a.
Proof.
  unfold jstr_le, jstr_lt. rewrite jstr_compare_antisym. by destruct (jstr_compare b a).
Qed.

#[export] Instance jstr_lt_strict : StrictOrder jstr_lt.
Proof.
  split.
  - intros a. unfold complement, jstr_lt.
    by rewrite (proj2 (jstr_compare_eq a a) eq_refl).
  - intros a b c. apply jstr_compare_lt_trans.
Qed.
