(* ===== verification/Regex.v ===== *)
(** * Regular expressions

    The sources test strings against regular-expression literals.  A literal is written here
    as a syntax tree and run by Brzozowski derivatives; [rx_test_spec] relates the matcher to
    the language the expression denotes. *)

From S2P Require Import Prelude JsString.

Inductive regex : Type :=
| RNone
| REmpty
| RClass (ranges : list (N * N))   (** one code unit in one of the ranges *)
| RNot (ranges : list (N * N))     (** one code unit outside the ranges: [[^...]] *)
| RSeq (r s : regex)
| RAlt (r s : regex)
| RStar (r : regex).

Definition in_ranges (ranges : list (N * N)) (u : N) : bool :=
  existsb (fun '(lo, hi) => (lo <=? u)%N && (u <=? hi)%N) ranges.

(** ** The language of an expression *)

Inductive rx_matches : regex -> jstr -> Prop :=
| MEmpty : rx_matches REmpty []
| MClass rs u : in_ranges rs u = true -> rx_matches (RClass rs) [u]
| MNot rs u : in_ranges rs u = false -> rx_matches (RNot rs) [u]
| MSeq r s a b : rx_matches r a -> rx_matches s b -> rx_matches (RSeq r s) (a ++ b)
| MAltL r s a : rx_matches r a -> rx_matches (RAlt r s) a
| MAltR r s a : rx_matches s a -> rx_matches (RAlt r s) a
| MStarNil r : rx_matches (RStar r) []
| MStarCons r a b : rx_matches r a -> rx_matches (RStar r) b -> rx_matches (RStar r) (a ++ b).
#[export] Hint Constructors rx_matches : hail.

(** ** The matcher *)

Fixpoint nullable (r : regex) : bool :=
  match r with
  | RNone | RClass _ | RNot _ => false
  | REmpty | RStar _ => true
  | RSeq r s => nullable r && nullable s
  | RAlt r s => nullable r || nullable s
  end.

Definition seq (r s : regex) : regex :=
  match r with RNone => RNone | REmpty => s | _ => RSeq r s end.
Definition alt (r s : regex) : regex :=
  match r, s with RNone, _ => s | _, RNone => r | _, _ => RAlt r s end.

Fixpoint deriv (u : N) (r : regex) : regex :=
  match r with
  | RNone | REmpty => RNone
  | RClass rs => if in_ranges rs u then REmpty else RNone
  | RNot rs => if in_ranges rs u then RNone else REmpty
  | RSeq r s =>
      if nullable r then alt (seq (deriv u r) s) (deriv u s) else seq (deriv u r) s
  | RAlt r s => alt (deriv u r) (deriv u s)
  | RStar r => seq (deriv u r) (RStar r)
  end.

(** [/^r$/.test(s)]. *)
Fixpoint rx_test (r : regex) (s : jstr) : bool :=
  match s with
  | [] => nullable r
  | u :: s => rx_test (deriv u r) s
  end.

(** ** Notation for literals *)

Definition range (lo hi : String.string) : N * N := (char lo, char hi).
Arguments range (lo hi)%_string.
Definition one (c : String.string) : N * N := (char c, char c).
Arguments one c%_string.

Fixpoint lit_units (s : jstr) : regex :=
  match s with
  | [] => REmpty
  | u :: s => seq (RClass [(u, u)]) (lit_units s)
  end.
Definition lit (s : String.string) : regex := lit_units (js s).
Arguments lit s%_string.

Fixpoint rep (r : regex) (n : nat) : regex :=
  match n with O => REmpty | S n => seq r (rep r n) end.
Definition opt (r : regex) : regex := RAlt r REmpty.
(** [r{lo,hi}]. *)
Fixpoint rep_upto (r : regex) (n : nat) : regex :=
  match n with O => REmpty | S n => opt (RSeq r (rep_upto r n)) end.
Definition rep_between (r : regex) (lo hi : nat) : regex :=
  RSeq (rep r lo) (rep_upto r (hi - lo)).
Definition plus (r : regex) : regex := RSeq r (RStar r).

Fixpoint seqs (rs : list regex) : regex :=
  match rs with [] => REmpty | [r] => r | r :: rs => RSeq r (seqs rs) end.

(** ** Correctness of the matcher *)

Lemma nullable_spec r : nullable r = true <-> rx_matches r [].
Proof.
  induction r; simpl; split; intros H; bools; try done; auto with hail;
    try (inversion H; subst; fail).
  - apply (MSeq _ _ [] []); naive_solver.
  - inversion H as [| | |? ? a b Ha Hb Heq Hn| | | |]; subst.
    apply app_eq_nil in Hn as [-> ->]. rewrite andb_true_iff. naive_solver.
  - apply orb_true_iff in H as [H|H]; [apply MAltL|apply MAltR]; naive_solver.
  - rewrite orb_true_iff. inversion H; subst; naive_solver.
Qed.

Lemma seq_spec r s a : rx_matches (seq r s) a <-> rx_matches (RSeq r s) a.
Proof.
  destruct r; simpl; try done; split; intros H.
  - inversion H.
  - inversion H as [| | |? ? a' b' Ha Hb Heq Hn| | | |]; subst. inversion Ha.
  - by apply (MSeq REmpty s [] a); [constructor|].
  - inversion H as [| | |? ? a' b' Ha Hb Heq Hn| | | |]; subst. by inversion Ha; subst.
Qed.

Lemma alt_spec r s a : rx_matches (alt r s) a <-> rx_matches (RAlt r s) a.
Proof.
  assert (Hn : forall b, ~ rx_matches RNone b) by (intros b Hb; inversion Hb).
  destruct r, s; simpl; split; intros H; auto with hail;
    inversion H; subst; try done; exfalso; eapply Hn; eauto.
Qed.

Lemma star_cons_inv r u s :
  rx_matches (RStar r) (u :: s) ->
  exists a b, s = a ++ b /\ rx_matches r (u :: a) /\ rx_matches (RStar r) b.
Proof.
  remember (RStar r) as q eqn:Hq. remember (u :: s) as w eqn:Hw. intros H.
  revert Hw. induction H as [| | | | | | |r' a b Ha _ Hb IHb]; intros Hw; simplify_eq.
  destruct a as [|v a]; simplify_eq/=; [by apply IHb|]. by exists a, b.
Qed.

Lemma deriv_spec u r : forall s, rx_matches (deriv u r) s <-> rx_matches r (u :: s).
Proof.
  induction r as [| |rs|rs|r IHr q IHq|r IHr q IHq|r IHr]; intros s; cbn [deriv].
  - split; intros H; inversion H.
  - split; intros H; inversion H.
  - destruct (in_ranges rs u) eqn:Hu; split; intros H; inversion H; subst;
      first [by apply MClass | by constructor | congruence].
  - destruct (in_ranges rs u) eqn:Hu; split; intros H; inversion H; subst;
      first [by apply MNot | by constructor | congruence].
  - assert (Hseq : rx_matches (seq (deriv u r) q) s <->
      exists a b, s = a ++ b /\ rx_matches r (u :: a) /\ rx_matches q b).
    { rewrite seq_spec. split.
      - intros H. inversion H as [| | |? ? a b Ha Hb| | | |]; subst.
        exists a, b. by rewrite <- IHr.
      - intros (a & b & -> & Ha & Hb). constructor; [by apply IHr | done]. }
    assert (Hcons : rx_matches (RSeq r q) (u :: s) <->
      rx_matches (seq (deriv u r) q) s \/ (rx_matches r [] /\ rx_matches (deriv u q) s)).
    { rewrite Hseq, IHq. split.
      - intros H. inversion H as [| | |? ? a b Ha Hb Heq Hn| | | |]; subst.
        destruct a as [|v a]; simplify_eq/=; [by right|]. left. eauto.
      - intros [(a & b & -> & Ha & Hb)|[Ha Hb]].
        + by apply (MSeq r q (u :: a) b).
        + by apply (MSeq r q [] (u :: s)). }
    rewrite Hcons. destruct (nullable r) eqn:Hn.
    + rewrite alt_spec. apply nullable_spec in Hn. split.
      * intros H. inversion H; subst; auto.
      * intros [H|[_ H]]; auto with hail.
    + split; [auto|]. intros [H|[H _]]; [done|]. apply nullable_spec in H. congruence.
  - rewrite alt_spec. split; intros H; inversion H; subst.
    + apply MAltL. by apply IHr.
    + apply MAltR. by apply IHq.
    + apply MAltL. by apply IHr.
    + apply MAltR. by apply IHq.
  - rewrite seq_spec. split.
    + intros H. inversion H as [| | |? ? a b Ha Hb| | | |]; subst.
      apply (MStarCons r (u :: a) b); [by apply IHr | done].
    + intros (a & b & -> & Ha & Hb)%star_cons_inv. constructor; [by apply IHr | done].
Qed.

Lemma rx_test_spec s : forall r, rx_test r s = true <-> rx_matches r s.
Proof.
  induction s as [|u s IH]; intros r; simpl.
  - apply nullable_spec.
  - rewrite IH. apply deriv_spec.
Qed.

(** ** Facts the validators use *)

Lemma matches_seq_inv r s w :
  rx_matches (seq r s) w -> exists a b, w = a ++ b /\ rx_matches r a /\ rx_matches s b.
Proof.
  rewrite seq_spec. intros H. inversion H; subst. eauto.
Qed.

Lemma matches_class_inv rs w :
  rx_matches (RClass rs) w -> exists u, w = [u] /\ in_ranges rs u = true.
Proof. intros H. inversion H; subst. eauto. Qed.

Lemma matches_lit_units l w : rx_matches (lit_units l) w -> w = l.
Proof.
  revert w. induction l as [|c l IH]; intros w H; cbn [lit_units] in H.
  - by inversion H.
  - apply matches_seq_inv in H as (a & b & -> & (u & -> & Hu)%matches_class_inv & Hb%IH).
    subst b. simpl in Hu. rewrite orb_false_r in Hu. bools. simpl. f_equal. lia.
Qed.

Lemma matches_rep_class rs n w :
  rx_matches (rep (RClass rs) n) w ->
  length w = n /\ Forall (fun u => in_ranges rs u = true) w.
Proof.
  revert w. induction n as [|n IH]; intros w H; cbn [rep] in H.
  - inversion H; subst. auto.
  - apply matches_seq_inv in H as (a & b & -> & (u & -> & Hu)%matches_class_inv & Hb).
    apply IH in Hb as [Hl Hf]. simpl. auto using Forall_cons.
Qed.
