(* ===== verification/Value.v ===== *)
(** * Values and errors of the codec

    [jsval] is an arbitrary JavaScript value as far as the codec can tell values apart
    (packages/hail-codec-ts/src/cbor.ts inspects prototypes, property descriptors and holes);
    [hvalue] is the type [HailValue] of types.ts; [HailCodecError] is the class of errors.ts. *)

From S2P Require Import Prelude JsString.

(** ** Errors *)

Inductive HailCodecErrorCode :=
| invalid_value | resource_limit | malformed_cbor | non_deterministic_cbor
| schema_violation | invalid_cose | unsupported_algorithm | wrong_content_type
| wrong_key_role | invalid_signature | invalid_diagnostic_json.

#[export] Instance HailCodecErrorCode_eq_dec : EqDecision HailCodecErrorCode.
Proof. solve_decision. Defined.

Record HailCodecError := mk_HailCodecError {
  code : HailCodecErrorCode;
  message : jstr;
  path : option jstr;
}.

(** The constructor: the path, when there is one, prefixes the message. *)
Definition new_HailCodecError (code : HailCodecErrorCode) (message : jstr)
    (path : option jstr) : HailCodecError :=
  {| code := code;
     message := match path with
                | None => message
                | Some path => path ++ js ": " ++ message
                end;
     path := path |}.

(** What a call can throw: a codec error, an error of the server that names the HTTP status it is
    answered with, any other [Error], or (never, by theorem) the end of the fuel that a Rocq fixpoint
    needs and the code does not have. *)
Inductive exn :=
| CodecError (e : HailCodecError)
| OtherError (message : jstr)
| StatusError (status : Z) (message : jstr)
| OutOfFuel.

Notation M := (result exn).

Definition throw {A} (c : HailCodecErrorCode) (m : String.string) (p : option jstr) : M A :=
  Err (CodecError (new_HailCodecError c (js m) p)).
Arguments throw {A} c m%_string p.

Definition throw_when (b : bool) (c : HailCodecErrorCode) (m : String.string)
    (p : option jstr) : M unit :=
  if b then throw c m p else Ok tt.
Arguments throw_when b c m%_string p.

Lemma throw_when_Ok b c m p u : throw_when b c m p = Ok u <-> b = false.
Proof. destruct b, u; naive_solver. Qed.

(** A call that throws nothing but a [HailCodecError]. *)
Definition codec_only {A} (m : M A) : Prop :=
  match m with Ok _ | Err (CodecError _) => True | _ => False end.

Lemma codec_only_bind {A B} (m : M A) (f : A -> M B) :
  codec_only m -> (forall a, m = Ok a -> codec_only (f a)) -> codec_only (m ≫= f).
Proof. destruct m as [a|[]]; simpl; auto. Qed.

Lemma codec_only_fmap {A B} (f : A -> B) (m : M A) : codec_only m -> codec_only (f <$> m).
Proof. by destruct m. Qed.

Lemma codec_only_Err {A} (m : M A) e :
  codec_only m -> m = Err e -> exists c, e = CodecError c.
Proof. intros H ->. destruct e; simpl in H; try done. by eexists. Qed.

Lemma codec_only_throw_when b c m p : codec_only (throw_when b c m p).
Proof. by destruct b. Qed.

Lemma codec_only_iforM {A} (f : nat -> A -> M unit) l : forall index,
  (forall i a, codec_only (f i a)) -> codec_only (iforM index l f).
Proof.
  induction l as [|a l IH]; intros index Hf; simpl; [done|].
  apply codec_only_bind; auto.
Qed.

Lemma codec_only_ifoldM {A S} (f : nat -> A -> S -> M S) l : forall index s,
  (forall i a s, codec_only (f i a s)) -> codec_only (ifoldM index l s f).
Proof.
  induction l as [|a l IH]; intros index s Hf; simpl; [done|].
  apply codec_only_bind; auto.
Qed.

#[export] Hint Resolve codec_only_bind codec_only_fmap codec_only_throw_when
  codec_only_iforM codec_only_ifoldM : hail.

(** Prove [codec_only] of straight-line code by following its structure. *)
Ltac codec_only :=
  repeat first
    [ exact I
    | progress intros
    | match goal with
      | |- codec_only (throw_when _ _ _ _) => apply codec_only_throw_when
      | |- codec_only (_ ≫= _) => apply codec_only_bind; [|intros ? _]
      | |- codec_only (_ <$> _) => apply codec_only_fmap
      | |- codec_only (iforM _ _ _) => apply codec_only_iforM
      | |- codec_only (ifoldM _ _ _ _) => apply codec_only_ifoldM
      end
    | solve [eauto with hail]
    | match goal with
      | |- codec_only (if ?b then _ else _) => destruct b
      | |- codec_only (match ?x with _ => _ end) => destruct x
      | |- codec_only (throw _ _ _) => exact I
      end ].

(** ** JavaScript values *)

(** A number is a safe or unsafe integer, negative zero, or something else (a fraction, an
    infinity or NaN). *)
Inductive jsnum := JInt (z : Z) | JNegZero | JNotInteger.

(** A property key. *)
Inductive pkey := KStr (s : jstr) | KSym (id : N).

(** An own property: a data property or an accessor, enumerable or not. *)
Inductive prop (A : Type) :=
| Data (enumerable : bool) (v : A)
| Accessor (enumerable : bool).
Arguments Data {A} enumerable v.
Arguments Accessor {A} enumerable.

Inductive proto := ProtoObject | ProtoNull | ProtoOther.

Inductive jsval :=
| JNull
| JUndefined
| JBool (b : bool)
| JNum (n : jsnum)
| JStr (s : jstr)
| JBytes (b : bytes)                                       (** a [Uint8Array] *)
| JArray (extra : list pkey) (slots : list (option (prop jsval)))
    (** the own keys other than the elements, and the elements, [None] for a hole *)
| JMap (entries : list (jsval * jsval))                    (** a native [Map] *)
| JTagged (tag : Z) (v : jsval)                            (** cborg's [Tagged] *)
| JObject (p : proto) (props : list (pkey * prop jsval))   (** any other object *)
| JPrimitive.                                              (** a symbol, bigint or function *)

(** [HailValue].  A map records whether its prototype is [null], and its entries in the
    order of [Object.entries]. *)
Inductive hvalue :=
| HNull
| HBool (b : bool)
| HNum (z : Z)
| HStr (s : jstr)
| HBytes (b : bytes)
| HArr (l : list hvalue)
| HMap (null_proto : bool) (m : list (jstr * hvalue)).

Definition HAIL_MAX_INTEGER : Z := 9007199254740991.
Definition HAIL_MIN_INTEGER : Z := - HAIL_MAX_INTEGER.

(** [Number.isSafeInteger] on an integer. *)
Definition isSafeInteger (z : Z) : bool := (Z.abs z <=? 9007199254740991)%Z.

(** ** Induction principles for the nested types *)

Section hvalue_ind.
Variable P : hvalue -> Prop.
Hypothesis Hnull : P HNull.
Hypothesis Hbool : forall b, P (HBool b).
Hypothesis Hnum : forall z, P (HNum z).
Hypothesis Hstr : forall s, P (HStr s).
Hypothesis Hbytes : forall b, P (HBytes b).
Hypothesis Harr : forall l, Forall P l -> P (HArr l).
Hypothesis Hmap : forall n m, Forall (fun e => P e.2) m -> P (HMap n m).

Fixpoint hvalue_ind' (v : hvalue) : P v :=
  match v with
  | HNull => Hnull
  | HBool b => Hbool b
  | HNum z => Hnum z
  | HStr s => Hstr s
  | HBytes b => Hbytes b
  | HArr l =>
      Harr l ((fix go l : Forall P l :=
        match l with
        | [] => Forall_nil_2 P
        | v :: l => Forall_cons_2 P v l (hvalue_ind' v) (go l)
        end) l)
  | HMap n m =>
      Hmap n m ((fix go m : Forall (fun e => P e.2) m :=
        match m with
        | [] => Forall_nil_2 _
        | e :: m => Forall_cons_2 (fun e => P e.2) e m (hvalue_ind' e.2) (go m)
        end) m)
  end.
End hvalue_ind.

Definition on_prop {A} (P : A -> Prop) (p : prop A) : Prop :=
  match p with Data _ v => P v | Accessor _ => True end.
Definition on_slot {A} (P : A -> Prop) (s : option (prop A)) : Prop :=
  match s with Some p => on_prop P p | None => True end.

Section jsval_ind.
Variable P : jsval -> Prop.
Hypothesis Hnull : P JNull.
Hypothesis Hundef : P JUndefined.
Hypothesis Hbool : forall b, P (JBool b).
Hypothesis Hnum : forall n, P (JNum n).
Hypothesis Hstr : forall s, P (JStr s).
Hypothesis Hbytes : forall b, P (JBytes b).
Hypothesis Harr : forall x l, Forall (on_slot P) l -> P (JArray x l).
Hypothesis Hmap : forall m, Forall (fun e => P e.1 /\ P e.2) m -> P (JMap m).
Hypothesis Htag : forall t v, P v -> P (JTagged t v).
Hypothesis Hobj : forall p l, Forall (fun e => on_prop P e.2) l -> P (JObject p l).
Hypothesis Hprim : P JPrimitive.

Fixpoint jsval_ind' (v : jsval) : P v :=
  match v with
  | JNull => Hnull
  | JUndefined => Hundef
  | JBool b => Hbool b
  | JNum n => Hnum n
  | JStr s => Hstr s
  | JBytes b => Hbytes b
  | JArray x l =>
      Harr x l ((fix go l : Forall (on_slot P) l :=
        match l with
        | [] => Forall_nil_2 _
        | s :: l => Forall_cons_2 (on_slot P) s l
            (match s with
             | Some (Data e v) => jsval_ind' v
             | Some (Accessor e) => I
             | None => I
             end) (go l)
        end) l)
  | JMap m =>
      Hmap m ((fix go m : Forall (fun e => P e.1 /\ P e.2) m :=
        match m with
        | [] => Forall_nil_2 _
        | e :: m => Forall_cons_2 (fun e => P e.1 /\ P e.2) e m
            (conj (jsval_ind' e.1) (jsval_ind' e.2)) (go m)
        end) m)
  | JTagged t v => Htag t v (jsval_ind' v)
  | JObject p l =>
      Hobj p l ((fix go l : Forall (fun e => on_prop P e.2) l :=
        match l with
        | [] => Forall_nil_2 _
        | e :: l => Forall_cons_2 (fun e => on_prop P e.2) e l
            (match e.2 as q return on_prop P q with
             | Data _ v => jsval_ind' v
             | Accessor _ => I
             end) (go l)
        end) l)
  | JPrimitive => Hprim
  end.
End jsval_ind.

(** ** Decidable equality *)

#[export] Instance hvalue_eq_dec : EqDecision hvalue.
Proof.
  unfold EqDecision, RelDecision. fix go 1. intros a b.
  assert (Harr : forall l k : list hvalue, Decision (l = k)).
  { apply (@list_eq_dec hvalue go). }
  assert (Hmap : forall l k : list (jstr * hvalue), Decision (l = k)).
  { apply (@list_eq_dec (jstr * hvalue) (@prod_eq_dec jstr _ hvalue go)). }
  unfold Decision in *.
  destruct a, b; try (right; discriminate).
  - by left.
  - destruct (decide (b0 = b)); [left; congruence | right; congruence].
  - destruct (decide (z = z0)); [left; congruence | right; congruence].
  - destruct (decide (s = s0)); [left; congruence | right; congruence].
  - destruct (decide (b0 = b)); [left; congruence | right; congruence].
  - destruct (Harr l l0); [left; congruence | right; congruence].
  - destruct (decide (null_proto = null_proto0)); [|right; congruence].
    destruct (Hmap m m0); [left; congruence | right; congruence].
Defined.

(** ** Embedding and narrowing *)

(** A [HailValue] as a JavaScript value. *)
Fixpoint of_hail (v : hvalue) : jsval :=
  match v with
  | HNull => JNull
  | HBool b => JBool b
  | HNum z => JNum (JInt z)
  | HStr s => JStr s
  | HBytes b => JBytes b
  | HArr l => JArray [] (map (fun v => Some (Data true (of_hail v))) l)
  | HMap n m =>
      JObject (if n then ProtoNull else ProtoObject)
        (map (fun '(k, v) => (KStr k, Data true (of_hail v))) m)
  end.

(** The TypeScript assertion [value as HailValue]: the value read at that type. *)
Fixpoint as_hail (v : jsval) : option hvalue :=
  match v with
  | JNull => Some HNull
  | JBool b => Some (HBool b)
  | JNum (JInt z) => Some (HNum z)
  | JStr s => Some (HStr s)
  | JBytes b => Some (HBytes b)
  | JArray _ slots =>
      HArr <$> mapM (fun s => match s with Some (Data true v) => as_hail v | _ => None end) slots
  | JObject p props =>
      match p with
      | ProtoOther => None
      | _ =>
          HMap (match p with ProtoNull => true | _ => false end) <$>
          mapM (fun e => match e with
                         | (KStr k, Data true v) => pair k <$> as_hail v
                         | _ => None
                         end) props
      end
  | _ => None
  end.

Lemma mapM_map_Forall {A B} (f : B -> option A) (g : A -> B) l :
  Forall (fun a => f (g a) = Some a) l -> mapM f (map g l) = Some l.
Proof. induction 1 as [|a l Ha _ IH]; simpl; [done|]. by rewrite Ha; simpl; rewrite IH. Qed.

Lemma as_hail_of_hail v : as_hail (of_hail v) = Some v.
Proof.
  induction v as [|b|z|s|b|l IH|n m IH] using hvalue_ind'; simpl; try done.
  - by rewrite mapM_map_Forall.
  - rewrite mapM_map_Forall.
    + by destruct n.
    + eapply Forall_impl; [apply IH|]. intros [k v] Hv. simpl in *. by rewrite Hv.
Qed.
