(* ===== verification/Rfc8949.v ===== *)
(** * RFC 8949 core deterministic encoding

    The codec hands encoding and decoding of CBOR to the package [cborg].  The package is not
    part of the repository; what the codec relies on is that [rfc8949EncodeOptions] produces
    the core deterministic encoding of RFC 8949 and that [decode] reads it back.  This file
    states that encoding over the CBOR data model ([item]) together with a reader for it, and
    proves that the reader inverts the encoder.  [Cbor.v] takes the package itself as a
    parameter specified by these functions. *)

From S2P Require Import Prelude JsString.
From Stdlib Require Import NArith ZArith.

(** ** The data model *)

Inductive item :=
| INull
| IBool (b : bool)
| IInt (z : Z)
| IBytes (b : bytes)
| IText (s : jstr)
| IArr (l : list item)
| IMap (m : list (item * item))
| ITag (tag : N) (i : item).

Section item_ind.
Variable P : item -> Prop.
Hypothesis Hnull : P INull.
Hypothesis Hbool : forall b, P (IBool b).
Hypothesis Hint : forall z, P (IInt z).
Hypothesis Hbytes : forall b, P (IBytes b).
Hypothesis Htext : forall s, P (IText s).
Hypothesis Harr : forall l, Forall P l -> P (IArr l).
Hypothesis Hmap : forall m, Forall (fun e => P e.1 /\ P e.2) m -> P (IMap m).
Hypothesis Htag : forall t i, P i -> P (ITag t i).

Fixpoint item_ind' (i : item) : P i :=
  match i with
  | INull => Hnull
  | IBool b => Hbool b
  | IInt z => Hint z
  | IBytes b => Hbytes b
  | IText s => Htext s
  | IArr l =>
      Harr l ((fix go l : Forall P l :=
        match l with
        | [] => Forall_nil_2 P
        | i :: l => Forall_cons_2 P i l (item_ind' i) (go l)
        end) l)
  | IMap m =>
      Hmap m ((fix go m : Forall (fun e => P e.1 /\ P e.2) m :=
        match m with
        | [] => Forall_nil_2 _
        | e :: m => Forall_cons_2 (fun e => P e.1 /\ P e.2) e m
            (conj (item_ind' e.1) (item_ind' e.2)) (go m)
        end) m)
  | ITag t i => Htag t i (item_ind' i)
  end.
End item_ind.

(** ** Heads *)

(** The [k] low-order bytes of [n], most significant first. *)
Fixpoint be (k : nat) (n : N) : bytes :=
  match k with
  | O => []
  | S k => be k (n / 256) ++ [byte_of_N n]
  end.

Definition of_be (bs : bytes) : N :=
  fold_left (fun acc b => acc * 256 + Byte.to_N b)%N bs 0%N.

(** The shortest head for a major type and its argument. *)
Definition head (major arg : N) : bytes :=
  (if arg <? 24 then [byte_of_N (major * 32 + arg)]
   else if arg <=? 0xff then byte_of_N (major * 32 + 24) :: be 1 arg
   else if arg <=? 0xffff then byte_of_N (major * 32 + 25) :: be 2 arg
   else if arg <=? 0xffffffff then byte_of_N (major * 32 + 26) :: be 4 arg
   else byte_of_N (major * 32 + 27) :: be 8 arg)%N.

(** The number of argument bytes that follow an initial byte with this low part. *)
Definition argument_bytes (info : N) : option nat :=
  (if info <? 24 then Some 0%nat
   else if info =? 24 then Some 1%nat
   else if info =? 25 then Some 2%nat
   else if info =? 26 then Some 4%nat
   else if info =? 27 then Some 8%nat
   else None)%N.

Definition read_head (bs : bytes) : option (N * N * bytes) :=
  match bs with
  | [] => None
  | b :: r =>
      let major := (Byte.to_N b / 32)%N in
      let info := (Byte.to_N b mod 32)%N in
      k ← argument_bytes info;
      if (info <? 24)%N then Some (major, info, r)
      else if (k <=? length r)%nat then Some (major, of_be (take k r), drop k r)
      else None
  end.

(** ** The order on encoded keys *)

(** Bytewise lexicographic order. *)
Fixpoint bytes_leb (a b : bytes) : bool :=
  match a, b with
  | [], _ => true
  | _, [] => false
  | x :: a, y :: b =>
      match (Byte.to_N x ?= Byte.to_N y)%N with
      | Lt => true
      | Eq => bytes_leb a b
      | Gt => false
      end
  end.

Lemma bytes_leb_refl a : bytes_leb a a = true.
Proof. induction a as [|x a IH]; simpl; [done|]. by rewrite N.compare_refl. Qed.

Lemma bytes_leb_total a : forall b, bytes_leb a b = true \/ bytes_leb b a = true.
Proof.
  induction a as [|x a IH]; intros [|y b]; simpl; auto.
  rewrite (N.compare_antisym (Byte.to_N x) (Byte.to_N y)).
  destruct (Byte.to_N x ?= Byte.to_N y)%N; simpl; auto.
Qed.

Lemma bytes_leb_trans a : forall b c,
  bytes_leb a b = true -> bytes_leb b c = true -> bytes_leb a c = true.
Proof.
  induction a as [|x a IH]; intros [|y b] [|z c]; simpl; try done.
  destruct (N.compare_spec (Byte.to_N x) (Byte.to_N y)),
    (N.compare_spec (Byte.to_N y) (Byte.to_N z)),
    (N.compare_spec (Byte.to_N x) (Byte.to_N z)); try done; try lia; eauto.
Qed.

Lemma bytes_leb_antisym a : forall b, bytes_leb a b = true -> bytes_leb b a = true -> a = b.
Proof.
  induction a as [|x a IH]; intros [|y b]; simpl; try done.
  rewrite (N.compare_antisym (Byte.to_N x) (Byte.to_N y)).
  destruct (N.compare_spec (Byte.to_N x) (Byte.to_N y)); simpl; try done.
  intros. f_equal; [by apply byte_to_N_inj | auto].
Qed.

(** Any order by encoded key is a total preorder. *)
Section key_order.
Context {A : Type} (key : A -> bytes).
Definition key_leb (x y : A) : bool := bytes_leb (key x) (key y).
#[export] Instance key_leb_trans : Transitive (le_by key_leb).
Proof. intros x y z. unfold le_by, key_leb. apply bytes_leb_trans. Qed.
#[export] Instance key_leb_total : Total (le_by key_leb).
Proof. intros x y. unfold le_by, key_leb. apply bytes_leb_total. Qed.
End key_order.

(** ** Encoding *)

Definition entry_leb : bytes * bytes -> bytes * bytes -> bool := key_leb fst.

Fixpoint encode_item (i : item) : bytes :=
  match i with
  | INull => [xf6]
  | IBool false => [xf4]
  | IBool true => [xf5]
  | IInt z => if (0 <=? z)%Z then head 0 (Z.to_N z) else head 1 (Z.to_N (-1 - z))
  | IBytes b => head 2 (N.of_nat (length b)) ++ b
  | IText s => head 3 (N.of_nat (length (text_encode s))) ++ text_encode s
  | IArr l => head 4 (N.of_nat (length l)) ++ concat (map encode_item l)
  | IMap m =>
      head 5 (N.of_nat (length m)) ++
      concat (map (fun e => e.1 ++ e.2)
        (sort_by entry_leb (map (fun e => (encode_item e.1, encode_item e.2)) m)))
  | ITag t i => head 6 t ++ encode_item i
  end.

(** The order of map entries in the encoding, and the item as the encoder lays it out. *)
Definition item_entry_leb : item * item -> item * item -> bool :=
  key_leb (fun e => encode_item e.1).

Fixpoint sort_item (i : item) : item :=
  match i with
  | IArr l => IArr (map sort_item l)
  | IMap m => IMap (sort_by item_entry_leb (map (fun e => (sort_item e.1, sort_item e.2)) m))
  | ITag t i => ITag t (sort_item i)
  | _ => i
  end.

(** ** Reading *)

(** Read [n] items with [step]. *)
Fixpoint read_many {A} (step : bytes -> option (A * bytes)) (n : nat) (bs : bytes)
  : option (list A * bytes) :=
  match n with
  | O => Some ([], bs)
  | S n => p ← step bs; q ← read_many step n p.2; Some (p.1 :: q.1, q.2)
  end.

Definition read_pair {A} (step : bytes -> option (A * bytes)) (bs : bytes)
  : option ((A * A) * bytes) :=
  p ← step bs; q ← step p.2; Some ((p.1, q.1), q.2).

Definition read_body (step : bytes -> option (item * bytes)) (major arg : N) (r : bytes)
  : option (item * bytes) :=
  let n := N.to_nat arg in
  if (major =? 0)%N then Some (IInt (Z.of_N arg), r)
  else if (major =? 1)%N then Some (IInt (-1 - Z.of_N arg)%Z, r)
  else if (major =? 6)%N then p ← step r; Some (ITag arg p.1, p.2)
  else if (major =? 7)%N then
    if (arg =? 20)%N then Some (IBool false, r)
    else if (arg =? 21)%N then Some (IBool true, r)
    else if (arg =? 22)%N then Some (INull, r)
    else None
  else if (N.of_nat (length r) <? arg)%N then None
  else if (major =? 2)%N then Some (IBytes (take n r), drop n r)
  else if (major =? 3)%N then s ← text_decode (take n r); Some (IText s, drop n r)
  else if (major =? 4)%N then p ← read_many step n r; Some (IArr p.1, p.2)
  else p ← read_many (read_pair step) n r; Some (IMap p.1, p.2).

Fixpoint read_item (fuel : nat) (bs : bytes) : option (item * bytes) :=
  match fuel with
  | O => None
  | S fuel => '(major, arg, r) ← read_head bs; read_body (read_item fuel) major arg r
  end.

(** A complete encoding: one item and nothing after it. *)
Definition read_all (bs : bytes) : option item :=
  p ← read_item (length bs) bs;
  match p.2 with [] => Some p.1 | _ => None end.

Example encode_example :
  encode_item (IMap [(IText (js "b"), IInt 500); (IText (js "a"), IArr [IInt (-1); INull])])
  = [xa2; x61; x61; x82; x20; xf6; x61; x62; x19; x01; xf4].
Proof. vm_compute. reflexivity. Qed.

(** ** Heads round-trip *)

Lemma length_be k n : length (be k n) = k.
Proof. revert n. induction k; intros n; simpl; [done|]. rewrite length_app, IHk. simpl. lia. Qed.

Lemma of_be_app a b : of_be (a ++ [b]) = (of_be a * 256 + Byte.to_N b)%N.
Proof. unfold of_be. by rewrite fold_left_app. Qed.

Lemma of_be_be k : forall n, (n < 256 ^ N.of_nat k)%N -> of_be (be k n) = n.
Proof.
  induction k as [|k IH]; intros n Hn; cbn [be].
  - assert (256 ^ N.of_nat 0 = 1)%N by done. unfold of_be; simpl; lia.
  - rewrite of_be_app, to_N_byte_of_N, IH.
    + n_arith.
    + rewrite Nat2N.inj_succ, N.pow_succ_r' in Hn. apply N.Div0.div_lt_upper_bound. lia.
Qed.

Lemma head_cons major arg :
  exists b r, head major arg = b :: r.
Proof. unfold head. repeat case_match; eauto. Qed.

Lemma head_length major arg : (1 <= length (head major arg))%nat.
Proof. destruct (head_cons major arg) as (b & r & ->). simpl. lia. Qed.

Lemma read_head_head major arg r :
  (major < 8)%N -> (arg < 2 ^ 64)%N -> read_head (head major arg ++ r) = Some (major, arg, r).
Proof.
  intros Hm Ha. unfold head.
  assert (Hread : forall k info rest, (24 <= info < 28)%N -> argument_bytes info = Some k ->
    (arg < 256 ^ N.of_nat k)%N -> rest = be k arg ++ r ->
    read_head (byte_of_N (major * 32 + info) :: rest) = Some (major, arg, r)).
  { intros k info rest Hi Hk Hlt ->. cbn [read_head]. rewrite to_N_byte_small by n_arith.
    replace ((major * 32 + info) mod 32)%N with info by n_arith.
    replace ((major * 32 + info) / 32)%N with major by n_arith.
    rewrite Hk. cbn [mbind option_bind]. destruct (N.ltb_spec info 24); [lia|].
    rewrite length_app, length_be. replace (k <=? k + length r)%nat with true
      by (symmetry; apply Nat.leb_le; lia).
    rewrite take_app_length', drop_app_length' by (by rewrite length_be). by rewrite of_be_be. }
  n_cases.
  - cbn [read_head]. rewrite to_N_byte_small by n_arith.
    replace ((major * 32 + arg) mod 32)%N with arg by n_arith.
    replace ((major * 32 + arg) / 32)%N with major by n_arith.
    unfold argument_bytes. by n_cases.
  - by apply (Hread 1%nat 24%N); try lia.
  - by apply (Hread 2%nat 25%N); try lia.
  - by apply (Hread 4%nat 26%N); try lia.
  - by apply (Hread 8%nat 27%N); try lia.
Qed.

(** ** The encoding is well-formed *)

(** What a head can carry: arguments below 2^64 and strings that are Unicode text. *)
Inductive item_ok : item -> Prop :=
| ok_null : item_ok INull
| ok_bool b : item_ok (IBool b)
| ok_int z : (- 2 ^ 64 <= z < 2 ^ 64)%Z -> item_ok (IInt z)
| ok_bytes b : (N.of_nat (length b) < 2 ^ 64)%N -> item_ok (IBytes b)
| ok_text s : isWellFormed s = true -> (N.of_nat (length (text_encode s)) < 2 ^ 64)%N ->
    item_ok (IText s)
| ok_arr l : (N.of_nat (length l) < 2 ^ 64)%N -> Forall item_ok l -> item_ok (IArr l)
| ok_map m : (N.of_nat (length m) < 2 ^ 64)%N ->
    Forall (fun e => item_ok e.1 /\ item_ok e.2) m -> item_ok (IMap m)
| ok_tag t i : (t < 2 ^ 64)%N -> item_ok i -> item_ok (ITag t i).
#[export] Hint Constructors item_ok : hail.

Lemma encode_item_length i : (1 <= length (encode_item i))%nat.
Proof.
  destruct i as [|[]|z|b|s|l|m|t i]; simpl; try lia;
    repeat case_match; rewrite ?length_app;
    match goal with |- context [head ?a ?b] => assert (H1 := head_length a b) end; lia.
Qed.

Definition encode_entry (e : item * item) : bytes * bytes := (encode_item e.1, encode_item e.2).
Definition sort_entry (e : item * item) : item * item := (sort_item e.1, sort_item e.2).

Lemma encode_entries_sorted m :
  map encode_entry (sort_by item_entry_leb m) = sort_by entry_leb (map encode_entry m).
Proof. symmetry. apply (sort_by_fmap encode_entry). Qed.

Lemma sort_by_idem {A} (key : A -> bytes) l :
  sort_by (key_leb key) (sort_by (key_leb key) l) = sort_by (key_leb key) l.
Proof. apply sort_by_id, sort_by_sorted; apply _. Qed.

Lemma map_id_Forall {A B} (f : A -> B) (g : A -> A) l :
  Forall (fun a => f (g a) = f a) l -> map f (map g l) = map f l.
Proof. intros H. rewrite map_map. induction H; simpl; congruence. Qed.

Lemma encode_sort_item i : encode_item (sort_item i) = encode_item i.
Proof.
  induction i as [|b|z|b|s|l IH|m IH|t i IH] using item_ind'; simpl; try done.
  - by rewrite length_map, map_id_Forall.
  - rewrite sort_by_length, length_map. do 3 f_equal.
    change (sort_by entry_leb (map encode_entry (sort_by item_entry_leb (map sort_entry m))) =
      sort_by entry_leb (map encode_entry m)).
    rewrite encode_entries_sorted, map_id_Forall.
    + apply (sort_by_idem fst).
    + eapply Forall_impl; [apply IH|]. intros [k v] [Hk Hv].
      unfold encode_entry, sort_entry; simpl in *. by rewrite Hk, Hv.
  - by rewrite IH.
Qed.

(** ** The reader inverts the encoder *)

Definition encode_pair (e : item * item) : bytes := encode_item e.1 ++ encode_item e.2.

Lemma encode_map_body m :
  concat (map (fun e => e.1 ++ e.2)
    (sort_by entry_leb (map (fun e => (encode_item e.1, encode_item e.2)) m))) =
  concat (map encode_pair (sort_by item_entry_leb m)).
Proof.
  f_equal. change (fun e : item * item => (encode_item e.1, encode_item e.2)) with encode_entry.
  by rewrite <- encode_entries_sorted, map_map.
Qed.

Lemma sort_item_map m :
  sort_item (IMap m) = IMap (map sort_entry (sort_by item_entry_leb m)).
Proof.
  cbn [sort_item]. f_equal.
  change (fun e : item * item => (sort_item e.1, sort_item e.2)) with sort_entry.
  etrans; [apply (sort_by_fmap sort_entry)|]. apply (f_equal (map sort_entry)).
  apply sort_by_ext. intros a b. unfold item_entry_leb, key_leb, sort_entry. simpl.
  by rewrite !encode_sort_item.
Qed.

Lemma read_many_spec {A B} (step : bytes -> option (B * bytes)) (enc : A -> bytes)
    (out : A -> B) l r :
  Forall (fun a => forall r, step (enc a ++ r) = Some (out a, r)) l ->
  read_many step (length l) (concat (map enc l) ++ r) = Some (map out l, r).
Proof.
  induction 1 as [|a l Ha _ IH]; simpl; [done|].
  rewrite <- app_assoc, Ha. simpl. by rewrite IH.
Qed.

Lemma encode_pair_length e : (1 <= length (encode_pair e))%nat.
Proof. unfold encode_pair. rewrite length_app. pose proof (encode_item_length e.1). lia. Qed.

Lemma read_item_spec i : forall fuel r,
  item_ok i -> (length (encode_item i) <= fuel)%nat ->
  read_item fuel (encode_item i ++ r) = Some (sort_item i, r).
Proof.
  induction i as [|b|z|b|s|l IH|m IH|t i IH] using item_ind'; intros [|fuel] r Hok Hfuel;
    try (match type of Hfuel with context [encode_item ?i] =>
           pose proof (encode_item_length i); lia end);
    inversion Hok; subst; cbn [read_item].
  - done.
  - by destruct b.
  - cbn [encode_item]. destruct (Z.leb_spec 0 z).
    + rewrite read_head_head by lia. simpl. unfold read_body. simpl. do 3 f_equal. lia.
    + rewrite read_head_head by lia. simpl. unfold read_body. simpl. do 3 f_equal. lia.
  - cbn [encode_item]. rewrite <- app_assoc, read_head_head by lia. simpl. unfold read_body.
    rewrite Nat2N.id, length_app. cbn [N.eqb Pos.eqb]. n_cases.
    by rewrite take_app_length, drop_app_length.
  - cbn [encode_item]. rewrite <- app_assoc, read_head_head by lia. simpl. unfold read_body.
    rewrite Nat2N.id, length_app. cbn [N.eqb Pos.eqb]. n_cases.
    rewrite take_app_length, drop_app_length. by rewrite text_decode_encode.
  - cbn [encode_item] in *. rewrite <- app_assoc, read_head_head by lia. simpl. unfold read_body.
    assert (Hlen := concat_length_ge encode_item l
      (list.Forall_true _ l (fun i => encode_item_length i))).
    rewrite Nat2N.id, length_app. cbn [N.eqb Pos.eqb]. n_cases.
    rewrite length_app in Hfuel. pose proof (head_length 4 (N.of_nat (length l))).
    rewrite (read_many_spec _ _ sort_item); [done|].
    rewrite Forall_forall in IH |- *. intros i Hi r'. apply IH; [done|by rewrite Forall_forall in *; auto|].
    pose proof (concat_length_elem encode_item l i Hi). lia.
  - rewrite sort_item_map. cbn [encode_item] in *. rewrite encode_map_body in *.
    rewrite <- app_assoc, read_head_head by lia. simpl. unfold read_body.
    rewrite <- (sort_by_length item_entry_leb m). set (sm := sort_by item_entry_leb m) in *.
    assert (Hlen := concat_length_ge encode_pair sm
      (list.Forall_true _ sm (fun e => encode_pair_length e))).
    rewrite Nat2N.id, length_app. cbn [N.eqb Pos.eqb]. n_cases.
    rewrite length_app in Hfuel. pose proof (head_length 5 (N.of_nat (length m))).
    rewrite (read_many_spec _ _ sort_entry); [done|].
    assert (Hsm : Forall (fun e => item_ok e.1 /\ item_ok e.2) sm)
      by (unfold sm; by rewrite sort_by_perm).
    assert (IHsm : Forall (fun e => (forall fuel r, item_ok e.1 ->
        (length (encode_item e.1) <= fuel)%nat ->
        read_item fuel (encode_item e.1 ++ r) = Some (sort_item e.1, r)) /\
      (forall fuel r, item_ok e.2 -> (length (encode_item e.2) <= fuel)%nat ->
        read_item fuel (encode_item e.2 ++ r) = Some (sort_item e.2, r))) sm)
      by (unfold sm; by rewrite sort_by_perm).
    rewrite Forall_forall in IHsm, Hsm |- *. intros [k v] He r'.
    destruct (IHsm _ He) as [IHk IHv], (Hsm _ He) as [Hk Hv]. simpl in *.
    pose proof (concat_length_elem encode_pair sm _ He) as Hle.
    unfold encode_pair in *. simpl in *. rewrite length_app in Hle.
    unfold read_pair. rewrite <- app_assoc, IHk by (done || lia). simpl.
    by rewrite IHv by (done || lia).
  - cbn [encode_item] in *. rewrite <- app_assoc, read_head_head by lia. simpl. unfold read_body.
    cbn [N.eqb Pos.eqb]. rewrite length_app in Hfuel. pose proof (head_length 6 t).
    rewrite IH by (done || lia). done.
Qed.

(** A complete encoding reads back as the item with its maps in encoded order. *)
Theorem read_all_encode i : item_ok i -> read_all (encode_item i) = Some (sort_item i).
Proof.
  intros Hok. unfold read_all.
  assert (H := read_item_spec i (length (encode_item i)) [] Hok (le_n _)).
  rewrite app_nil_r in H. by rewrite H.
Qed.
