(* ===== verification/Scan.v ===== *)
(** * The resource scan (packages/hail-codec-ts/src/scan.ts)

    [assertCborResourceLimits] walks the bytes of a CBOR item without building it and throws
    before anything is allocated when a limit is exceeded.  The walk terminates on every
    input, never reads past the end, and accepts the deterministic encoding of an item
    exactly when the item respects the limits. *)

From S2P Require Import Prelude JsString Value Rfc8949.
From Stdlib Require Import ZArith.
Open Scope Z_scope.

Record HailResourceLimits := {
  maximumBytes : Z;
  maximumDepth : Z;
  maximumItems : Z;
  maximumArrayLength : Z;
  maximumMapEntries : Z;
  maximumTextBytes : Z;
  maximumByteStringLength : Z;
}.

Definition resource {A} (m : String.string) : M A := throw resource_limit m None.
Arguments resource {A} m%_string.
Definition malformed {A} (m : String.string) : M A := throw malformed_cbor m None.
Arguments malformed {A} m%_string.

(** The two variables the nested functions share. *)
Record scan_state := { offset : nat; items : Z }.

Section scan.
Variable bs : bytes.
Variable limits : HailResourceLimits.
Variable allowedTags : option (list Z).   (** [options.allowedTags] *)

Definition byteCount (additional : Z) : nat :=
  (if additional =? 24 then 1%nat
   else if additional =? 25 then 2%nat
   else if additional =? 26 then 4%nat
   else if additional =? 27 then 8%nat
   else 0%nat).

(** [bytes[i] ?? 0]. *)
Definition byte_at (i : nat) : Z :=
  match bs !! i with Some b => Z.of_N (Byte.to_N b) | None => 0 end.

(** [value = (value << 8n) | BigInt(bytes[offset + index] ?? 0)] for each index. *)
Definition read_value (off count : nat) : Z :=
  fold_left (fun value index => Z.lor (Z.shiftl value 8) (byte_at (off + index)))
    (List.seq 0 count) 0.

(** The argument of a head, and the new offset. *)
Definition readLength (additional : Z) (off : nat) : M (Z * nat) :=
  if additional <? 24 then Ok (additional, off)
  else
    let n := byteCount additional in
    if (n =? 0)%nat then
      if additional =? 31 then malformed "indefinite lengths are prohibited"
      else malformed "invalid CBOR additional information"
    else if (length bs <? off + n)%nat then malformed "truncated CBOR argument"
    else
      let value := read_value off n in
      if 9007199254740991 <? value then resource "CBOR length or argument is too large"
      else Ok (value, (off + n)%nat).

(** [for (let index = 0; index < n; index += 1) body()]. *)
Fixpoint times (n : nat) (body : scan_state -> M scan_state) (st : scan_state) : M scan_state :=
  match n with
  | O => Ok st
  | S n => st ← body st; times n body st
  end.

Fixpoint scan (fuel : nat) (depth : Z) (st : scan_state) : M scan_state :=
  match fuel with
  | O => Err OutOfFuel
  | S fuel =>
      let n := items st + 1 in
      if maximumItems limits <? n then resource "too many CBOR items"
      else if maximumDepth limits <? depth then resource "maximum CBOR nesting depth exceeded"
      else
        match bs !! offset st with
        | None => malformed "truncated CBOR item"
        | Some b =>
            let initial := Z.of_N (Byte.to_N b) in
            let off := S (offset st) in
            let major := Z.shiftr initial 5 in
            let additional := Z.land initial 31 in
            if (major =? 0) || (major =? 1) then
              '(_, off) ← readLength additional off;
              Ok {| offset := off; items := n |}
            else if (major =? 2) || (major =? 3) then
              '(len, off) ← readLength additional off;
              let maximum :=
                if major =? 2 then maximumByteStringLength limits
                else maximumTextBytes limits in
              if maximum <? len then
                resource (if major =? 2 then "byte string is too large"
                          else "text string is too large")
              else if Z.of_nat (length bs) <? Z.of_nat off + len then
                malformed "truncated CBOR string"
              else Ok {| offset := off + Z.to_nat len; items := n |}
            else if major =? 4 then
              '(len, off) ← readLength additional off;
              if maximumArrayLength limits <? len then resource "array is too large"
              else times (Z.to_nat len) (scan fuel (depth + 1)) {| offset := off; items := n |}
            else if major =? 5 then
              '(len, off) ← readLength additional off;
              if maximumMapEntries limits <? len then resource "map has too many entries"
              else times (Z.to_nat len)
                (fun st => st ← scan fuel (depth + 1) st; scan fuel (depth + 1) st)
                {| offset := off; items := n |}
            else if major =? 6 then
              '(tag, off) ← readLength additional off;
              if negb (match allowedTags with
                       | Some tags => existsb (Z.eqb tag) tags
                       | None => false
                       end) then
                Err (CodecError (new_HailCodecError malformed_cbor
                  (js "CBOR tag " ++ show_Z tag ++ js " is prohibited") None))
              else scan fuel (depth + 1) {| offset := off; items := n |}
            else if major =? 7 then
              if additional <? 24 then Ok {| offset := off; items := n |}
              else
                let k := byteCount additional in
                if ((k =? 0) || (length bs <? off + k))%nat then
                  malformed "invalid or truncated CBOR simple value"
                else Ok {| offset := off + k; items := n |}
            else malformed "unknown CBOR major type"
        end
  end.

(** Every call deeper than [maximumDepth] throws, so that many nested calls are enough. *)
Definition scan_fuel : nat := S (S (Z.to_nat (maximumDepth limits))).

Definition assertCborResourceLimits : M unit :=
  if maximumBytes limits <? Z.of_nat (length bs) then resource "encoded value is too large"
  else
    st ← scan scan_fuel 0 {| offset := 0; items := 0 |};
    if negb (offset st =? length bs)%nat then malformed "trailing bytes are prohibited"
    else Ok tt.

(** ** Termination *)

Lemma times_codec_only n body :
  (forall st, codec_only (body st)) -> forall st, codec_only (times n body st).
Proof. intros Hb. induction n as [|n IH]; intros st; simpl; codec_only. Qed.

Lemma readLength_codec_only a off : codec_only (readLength a off).
Proof. unfold readLength, malformed, resource. codec_only. Qed.
#[local] Hint Resolve readLength_codec_only : hail.

Lemma scan_codec_only fuel : forall depth st,
  (Z.to_nat (maximumDepth limits + 2 - depth) <= fuel)%nat -> (1 <= fuel)%nat ->
  codec_only (scan fuel depth st).
Proof.
  induction fuel as [|fuel IH]; intros depth st Hd H1; [lia|]. cbn [scan].
  destruct (Z.ltb_spec (maximumItems limits) (items st + 1)); [done|].
  destruct (Z.ltb_spec (maximumDepth limits) depth); [done|].
  assert (Hrec : forall st, codec_only (scan fuel (depth + 1) st))
    by (intros st'; apply IH; lia).
  unfold malformed, resource. codec_only; apply times_codec_only; codec_only.
Qed.

Lemma assert_codec_only : codec_only assertCborResourceLimits.
Proof.
  unfold assertCborResourceLimits, malformed, resource.
  assert (codec_only (scan scan_fuel 0 {| offset := 0; items := 0 |}))
    by (apply scan_codec_only; unfold scan_fuel; lia).
  codec_only.
Qed.
End scan.

(** ** Reading back a head *)

Lemma lor_shiftl_byte v b : 0 <= b < 256 -> Z.lor (Z.shiftl v 8) b = v * 256 + b.
Proof. intros Hb. by apply (lor_shiftl_low v b 8). Qed.

Lemma of_be_nonneg bs : 0 <= Z.of_N (of_be bs).
Proof. lia. Qed.

Lemma read_value_be bs : forall pre post,
  read_value (pre ++ bs ++ post) (length pre) (length bs) = Z.of_N (of_be bs).
Proof.
  induction bs as [|b bs IH] using rev_ind; intros pre post; [done|].
  unfold read_value. rewrite length_app, Nat.add_1_r, seq_S, fold_left_app. simpl.
  rewrite <- app_assoc. simpl. specialize (IH pre (b :: post)). unfold read_value in IH.
  rewrite IH. unfold byte_at. rewrite lookup_app_r, lookup_app_r by lia.
  replace (length pre + length bs - length pre - length bs)%nat with 0%nat by lia. simpl.
  pose proof (byte_lt_256 b). rewrite lor_shiftl_byte, of_be_app; lia.
Qed.

(** The low and high parts of an initial byte. *)
Lemma initial_byte major info :
  (major < 8)%N -> (info < 32)%N ->
  let initial := Z.of_N (Byte.to_N (byte_of_N (major * 32 + info))) in
  Z.shiftr initial 5 = Z.of_N major /\ Z.land initial 31 = Z.of_N info.
Proof.
  intros Hm Hi. cbn zeta. rewrite to_N_byte_small by lia.
  rewrite Z.shiftr_div_pow2 by lia. change 31 with (Z.ones 5). rewrite Z.land_ones by lia.
  change (2 ^ 5) with 32. split; n_arith.
Qed.

Lemma readLength_head pre post major arg :
  (major < 8)%N -> Z.of_N arg <= 9007199254740991 ->
  exists b additional,
    (pre ++ head major arg ++ post) !! length pre = Some b /\
    Z.shiftr (Z.of_N (Byte.to_N b)) 5 = Z.of_N major /\
    Z.land (Z.of_N (Byte.to_N b)) 31 = additional /\
    readLength (pre ++ head major arg ++ post) additional (S (length pre)) =
      Ok (Z.of_N arg, (length pre + length (head major arg))%nat).
Proof.
  intros Hm Ha.
  assert (Hlong : forall k info,
    (24 <= info < 28)%N -> byteCount (Z.of_N info) = k -> (1 <= k)%nat ->
    (arg < 256 ^ N.of_nat k)%N ->
    let w := pre ++ (byte_of_N (major * 32 + info) :: be k arg) ++ post in
    exists b additional, w !! length pre = Some b /\
      Z.shiftr (Z.of_N (Byte.to_N b)) 5 = Z.of_N major /\
      Z.land (Z.of_N (Byte.to_N b)) 31 = additional /\
      readLength w additional (S (length pre)) = Ok (Z.of_N arg, (length pre + S k)%nat)).
  { intros k info Hi Hk Hk1 Hlt w. eexists _, _. split_and!.
    - unfold w. rewrite lookup_app_r by lia. by rewrite Nat.sub_diag.
    - by apply initial_byte; [|lia].
    - by apply initial_byte; [|lia].
    - unfold readLength. rewrite Hk. destruct (Z.ltb_spec (Z.of_N info) 24); [lia|].
      destruct (Nat.eqb_spec k 0); [lia|].
      assert (Hw : w = (pre ++ [byte_of_N (major * 32 + info)]) ++ be k arg ++ post)
        by (unfold w; by rewrite <- app_assoc).
      assert (Hl : length w = (S (length pre) + k + length post)%nat)
        by (rewrite Hw, !length_app, length_be; simpl; lia).
      replace (length w <? S (length pre) + k)%nat with false
        by (symmetry; apply Nat.ltb_ge; lia).
      assert (Hv := read_value_be (be k arg) (pre ++ [byte_of_N (major * 32 + info)]) post).
      rewrite <- Hw, length_be, of_be_be, length_app, Nat.add_1_r in Hv by done.
      rewrite Hv. destruct (Z.ltb_spec 9007199254740991 (Z.of_N arg)); [lia|].
      do 2 f_equal. lia. }
  unfold head.
  destruct (N.ltb_spec arg 24); [|destruct (N.leb_spec arg 0xff);
    [|destruct (N.leb_spec arg 0xffff); [|destruct (N.leb_spec arg 0xffffffff)]]].
  - eexists _, _. split_and!.
    + rewrite lookup_app_r by lia. by rewrite Nat.sub_diag.
    + by apply initial_byte; [|lia].
    + by apply initial_byte; [|lia].
    + unfold readLength. destruct (Z.ltb_spec (Z.of_N arg) 24); [|lia].
      simpl. do 2 f_equal. lia.
  - apply (Hlong 1%nat 24%N); (done || lia).
  - apply (Hlong 2%nat 25%N); (done || lia).
  - apply (Hlong 4%nat 26%N); (done || lia).
  - apply (Hlong 8%nat 27%N); try (done || lia).
Qed.

(** ** What the scan accepts *)

Fixpoint sum_Z (l : list Z) : Z := match l with [] => 0 | z :: l => z + sum_Z l end.

(** The number of items, map keys included. *)
Fixpoint item_count (i : item) : Z :=
  match i with
  | IArr l => 1 + sum_Z (map item_count l)
  | IMap m => 1 + sum_Z (map (fun e => item_count e.1 + item_count e.2) m)
  | ITag _ i => 1 + item_count i
  | _ => 1
  end.

Definition safe_length (n : nat) (maximum : Z) : bool :=
  (Z.of_nat n <=? maximum) && (Z.of_nat n <=? 9007199254740991).

(** An item at nesting depth [depth] respects the limits other than the total counts. *)
Fixpoint item_fits (limits : HailResourceLimits) (tags : option (list Z)) (depth : Z)
    (i : item) : bool :=
  (depth <=? maximumDepth limits) &&
  match i with
  | INull | IBool _ => true
  | IInt z => (-9007199254740992 <=? z) && (z <=? 9007199254740991)
  | IBytes b => safe_length (length b) (maximumByteStringLength limits)
  | IText s => safe_length (length (text_encode s)) (maximumTextBytes limits)
  | IArr l =>
      safe_length (length l) (maximumArrayLength limits) &&
      forallb (item_fits limits tags (depth + 1)) l
  | IMap m =>
      safe_length (length m) (maximumMapEntries limits) &&
      forallb (fun e => item_fits limits tags (depth + 1) e.1 &&
                        item_fits limits tags (depth + 1) e.2) m
  | ITag t i =>
      match tags with Some tags => existsb (Z.eqb (Z.of_N t)) tags | None => false end &&
      (Z.of_N t <=? 9007199254740991) && item_fits limits tags (depth + 1) i
  end.

Lemma item_count_pos i : 1 <= item_count i.
Proof.
  induction i as [|b|z|b|s|l IH|m IH|t i IH] using item_ind'; simpl; try lia.
  - assert (0 <= sum_Z (map item_count l)) by (induction IH; simpl; lia). lia.
  - assert (0 <= sum_Z (map (fun e => item_count e.1 + item_count e.2) m))
      by (induction IH as [|e m [??] ? ?]; simpl; lia). lia.
Qed.

Lemma sum_Z_app a b : sum_Z (a ++ b) = sum_Z a + sum_Z b.
Proof. induction a; simpl; lia. Qed.

Lemma sum_Z_nonneg {A} (f : A -> Z) l : (forall a, 0 <= f a) -> 0 <= sum_Z (map f l).
Proof. intros Hf. induction l as [|a l IH]; simpl; [lia|]. specialize (Hf a). lia. Qed.

#[export] Instance sum_Z_perm : Proper ((≡ₚ) ==> (=)) sum_Z.
Proof. intros a b Hp. induction Hp; simpl; lia. Qed.

Section accepts.
Variable limits : HailResourceLimits.
Variable tags : option (list Z).

(** Running [body] over the consecutive encodings of [l] consumes all of them. *)
Lemma times_consume {A} (enc : A -> bytes) (cost : A -> Z) body l :
  Forall (fun a => forall pre post n,
    0 <= cost a -> n + cost a <= maximumItems limits ->
    body (pre ++ enc a ++ post) {| offset := length pre; items := n |} =
      Ok {| offset := length pre + length (enc a); items := n + cost a |}) l ->
  (forall a, 0 <= cost a) ->
  forall pre post w off n,
    w = pre ++ concat (map enc l) ++ post -> off = length pre ->
    n + sum_Z (map cost l) <= maximumItems limits ->
    times (length l) (body w) {| offset := off; items := n |} =
    Ok {| offset := off + length (concat (map enc l));
          items := n + sum_Z (map cost l) |}.
Proof.
  intros Hl Hpos. induction Hl as [|a l Ha _ IH]; intros pre post w off n Hw Hoff Hn;
    cbn [map concat] in *; subst w off.
  - simpl. do 2 f_equal; simpl; lia.
  - cbn [times length]. simpl in Hn. assert (H0 := sum_Z_nonneg cost l Hpos).
    specialize (Hpos a). rewrite <- app_assoc, Ha by lia. cbn [mbind result_bind].
    rewrite (IH (pre ++ enc a) post); rewrite ?length_app, <- ?app_assoc; try done; try lia.
    do 2 f_equal; simpl; rewrite ?length_app; lia.
Qed.

Lemma scan_head (fuel : nat) depth n pre post major arg :
  n + 1 <= maximumItems limits -> depth <= maximumDepth limits ->
  (major < 8)%N -> Z.of_N arg <= 9007199254740991 ->
  exists b additional,
    (pre ++ head major arg ++ post) !! length pre = Some b /\
    Z.shiftr (Z.of_N (Byte.to_N b)) 5 = Z.of_N major /\
    Z.land (Z.of_N (Byte.to_N b)) 31 = additional /\
    readLength (pre ++ head major arg ++ post) additional (S (length pre)) =
      Ok (Z.of_N arg, (length pre + length (head major arg))%nat) /\
    (maximumItems limits <? n + 1) = false /\ (maximumDepth limits <? depth) = false.
Proof.
  intros Hn Hd Hm Ha. destruct (readLength_head pre post major arg Hm Ha)
    as (b & a & H1 & H2 & H3 & H4).
  exists b, a. split_and!; try done; apply Z.ltb_ge; lia.
Qed.

Lemma fits_depth depth i : item_fits limits tags depth i = true -> depth <= maximumDepth limits.
Proof. destruct i; simpl; intros H; bools; lia. Qed.


Lemma lookup_here (pre post : bytes) b : (pre ++ b :: post) !! length pre = Some b.
Proof. rewrite lookup_app_r by lia. by rewrite Nat.sub_diag. Qed.

(** Enter [scan] at a head and read its argument. *)
Ltac at_head fuel depth n pre post major arg :=
  let b := fresh "b" in let a := fresh "a" in
  destruct (scan_head fuel depth n pre post major arg)
    as (b & a & Hb & Hmajor & Ha & Hlen & Hi & Hd'); [lia|lia|lia|lia|];
  rewrite Hi, Hd', Hb, Hmajor, Ha; cbn [orb Z.eqb Z.of_N Pos.eqb];
  rewrite Hlen; cbn [mbind result_bind].

Lemma safe_length_spec k mx : safe_length k mx = true ->
  Z.of_nat k <= mx /\ Z.of_nat k <= 9007199254740991.
Proof. unfold safe_length. intros H. by bools. Qed.

Lemma scan_string major b fuel depth n pre post :
  (major = 2 \/ major = 3)%N ->
  depth <= maximumDepth limits -> n + 1 <= maximumItems limits ->
  safe_length (length b) (if (major =? 2)%N then maximumByteStringLength limits
    else maximumTextBytes limits) = true ->
  scan (pre ++ (head major (N.of_nat (length b)) ++ b) ++ post) limits tags (S fuel) depth
    {| offset := length pre; items := n |} =
  Ok {| offset := length pre + length (head major (N.of_nat (length b)) ++ b);
        items := n + 1 |}.
Proof.
  intros Hm Hd Hn [Hs1 Hs2]%safe_length_spec. cbn [scan offset items].
  rewrite <- app_assoc. set (arg := N.of_nat (length b)) in *.
  at_head fuel depth n pre (b ++ post) major arg.
  unfold arg. rewrite !length_app.
  destruct Hm as [-> | ->]; cbn [Z.eqb Pos.eqb N.eqb orb Z.of_N] in *;
    (match goal with |- context [Z.ltb ?x ?y] => destruct (Z.ltb_spec x y); [lia|] end);
    (match goal with |- context [Z.ltb ?x ?y] => destruct (Z.ltb_spec x y); [lia|] end);
    do 2 f_equal; lia.
Qed.

Lemma scan_accepts i : forall fuel depth n pre post,
  item_fits limits tags depth i = true -> n + item_count i <= maximumItems limits ->
  (Z.to_nat (maximumDepth limits + 2 - depth) <= fuel)%nat ->
  scan (pre ++ encode_item i ++ post) limits tags fuel depth
    {| offset := length pre; items := n |} =
  Ok {| offset := length pre + length (encode_item i); items := n + item_count i |}.
Proof.
  induction i as [|b|z|b|s|l IH|m IH|t i IH] using item_ind';
    intros fuel depth n pre post Hfit Hcount Hfuel;
    assert (Hd := fits_depth _ _ Hfit); destruct fuel as [|fuel]; try lia;
    cbn [item_fits item_count] in Hfit, Hcount; bools.
  - cbn [scan offset items encode_item app]. rewrite lookup_here.
    destruct (Z.ltb_spec (maximumItems limits) (n + 1)); [lia|].
    destruct (Z.ltb_spec (maximumDepth limits) depth); [lia|]. simpl.
    do 2 f_equal. lia.
  - cbn [scan offset items encode_item app].
    destruct (Z.ltb_spec (maximumItems limits) (n + 1)); [lia|].
    destruct (Z.ltb_spec (maximumDepth limits) depth); [lia|].
    destruct b; cbn [app]; rewrite lookup_here; simpl; do 2 f_equal; lia.
  - cbn [scan offset items encode_item].
    destruct (Z.leb_spec 0 z).
    + at_head fuel depth n pre post 0%N (Z.to_N z). done.
    + at_head fuel depth n pre post 1%N (Z.to_N (-1 - z)). done.
  - cbn [encode_item]. apply scan_string; auto.
  - cbn [encode_item]. apply scan_string; auto.
  - cbn [scan offset items encode_item].
    match goal with H : safe_length _ _ = true |- _ => apply safe_length_spec in H as [Hs1 Hs2] end.
    pose proof (sum_Z_nonneg item_count l (fun i => Z.le_trans _ _ _ Z.le_0_1 (item_count_pos i))).
    rewrite <- app_assoc.
    at_head fuel depth n pre (concat (map encode_item l) ++ post) 4%N (N.of_nat (length l)).
    destruct (Z.ltb_spec (maximumArrayLength limits) (Z.of_N (N.of_nat (length l)))); [lia|].
    rewrite nat_N_Z, Nat2Z.id.
    etrans; [apply (times_consume encode_item item_count
      (fun w => scan w limits tags fuel (depth + 1)) l) with
      (pre := pre ++ head 4 (N.of_nat (length l))) (post := post)|].
    + rewrite Forall_forall in IH |- *. intros i Hil pre' post' n' _ Hn'.
      apply IH; [done| |lia|lia].
      by match goal with H : forallb _ _ = true |- _ =>
        apply forallb_Forall in H; rewrite Forall_forall in H; apply H end.
    + intros i. pose proof (item_count_pos i). lia.
    + by rewrite <- app_assoc.
    + by rewrite length_app.
    + lia.
    + cbn [item_count]. do 2 f_equal; rewrite ?length_app; lia.
  - cbn [scan offset items encode_item]. rewrite encode_map_body.
    match goal with H : safe_length _ _ = true |- _ => apply safe_length_spec in H as [Hs1 Hs2] end.
    match goal with H : forallb _ _ = true |- _ => apply forallb_Forall in H as Hfits end.
    rewrite <- (sort_by_length item_entry_leb m) in *.
    rewrite <- (sort_by_perm item_entry_leb m) in IH, Hfits.
    assert (Hcost : sum_Z (map (fun e => item_count e.1 + item_count e.2) m) =
      sum_Z (map (fun e => item_count e.1 + item_count e.2) (sort_by item_entry_leb m)))
      by (by rewrite sort_by_perm).
    cbn [item_count]. rewrite Hcost in *. clear Hcost.
    set (sm := sort_by item_entry_leb m) in *.
    assert (Hpos : forall e : item * item, 0 <= item_count e.1 + item_count e.2).
    { intros e. pose proof (item_count_pos e.1). pose proof (item_count_pos e.2). lia. }
    pose proof (sum_Z_nonneg (fun e : item * item => item_count e.1 + item_count e.2) sm Hpos).
    rewrite <- app_assoc.
    at_head fuel depth n pre (concat (map encode_pair sm) ++ post) 5%N (N.of_nat (length sm)).
    destruct (Z.ltb_spec (maximumMapEntries limits) (Z.of_N (N.of_nat (length sm)))); [lia|].
    rewrite nat_N_Z, Nat2Z.id.
    etrans; [apply (times_consume encode_pair (fun e => item_count e.1 + item_count e.2)
      (fun w st => st ← scan w limits tags fuel (depth + 1) st;
                   scan w limits tags fuel (depth + 1) st) sm) with
      (pre := pre ++ head 5 (N.of_nat (length sm))) (post := post)|].
    + rewrite Forall_forall in IH, Hfits |- *. intros [k v] He pre' post' n' _ Hn'.
      destruct (IH _ He) as [IHk IHv]. specialize (Hfits _ He). simpl in *. bools.
      pose proof (item_count_pos k). pose proof (item_count_pos v).
      unfold encode_pair; simpl. rewrite <- app_assoc, IHk by (done || lia). simpl.
      assert (IHv' := IHv fuel (depth + 1) (n' + item_count k) (pre' ++ encode_item k) post').
      rewrite length_app, <- app_assoc in IHv'. rewrite IHv' by (done || lia).
      do 2 f_equal; rewrite ?length_app; lia.
    + done.
    + by rewrite <- app_assoc.
    + by rewrite length_app.
    + lia.
    + do 2 f_equal; rewrite ?length_app; lia.
  - cbn [scan offset items encode_item item_count]. pose proof (item_count_pos i).
    rewrite <- app_assoc. at_head fuel depth n pre (encode_item i ++ post) 6%N t.
    match goal with H : _ = true |- context [negb ?c] => replace c with true end.
    cbn [negb]. specialize (IH fuel (depth + 1) (n + 1) (pre ++ head 6 t) post).
    rewrite length_app, <- app_assoc in IH. rewrite IH by (done || lia).
    do 2 f_equal; rewrite ?length_app; lia.
Qed.
End accepts.

(** The scan accepts the deterministic encoding of every item within the limits. *)
Lemma assertCborResourceLimits_accepts limits tags i :
  item_fits limits tags 0 i = true -> item_count i <= maximumItems limits ->
  Z.of_nat (length (encode_item i)) <= maximumBytes limits ->
  assertCborResourceLimits (encode_item i) limits tags = Ok tt.
Proof.
  intros Hf Hc Hb. unfold assertCborResourceLimits.
  destruct (Z.ltb_spec (maximumBytes limits) (Z.of_nat (length (encode_item i)))); [lia|].
  assert (Hs := scan_accepts limits tags i (scan_fuel limits) 0 0 [] [] Hf).
  rewrite app_nil_r in Hs. cbn [app length] in Hs. rewrite Hs.
  - simpl. by rewrite Nat.eqb_refl.
  - lia.
  - unfold scan_fuel. lia.
Qed.

(** ** Bounds *)

Section bounds.
Variable bs : bytes.
Variable limits : HailResourceLimits.
Variable tags : option (list Z).

(** What one more scan may do to the shared variables. *)
Definition advances (st st' : scan_state) : Prop :=
  (offset st < offset st' <= length bs)%nat /\
  items st < items st' <= maximumItems limits.

Definition stays (st st' : scan_state) : Prop :=
  st' = st \/ advances st st'.

Lemma times_stays body n :
  (forall st st', body st = Ok st' -> advances st st') ->
  forall st st', times n body st = Ok st' -> stays st st'.
Proof.
  intros Hb. induction n as [|n IH]; intros st st' H; cbn [times] in H.
  - left. congruence.
  - apply bind_Ok in H as (st1 & H1 & H2). apply Hb in H1. apply IH in H2.
    unfold stays, advances in *. right. destruct H2 as [->|H2]; [done|lia].
Qed.

Lemma readLength_bound a off v off' :
  0 <= a -> readLength bs a off = Ok (v, off') -> 0 <= v /\ (off <= off')%nat /\
    ((off <= length bs)%nat -> (off' <= length bs)%nat).
Proof.
  intros Ha. unfold readLength, malformed, resource.
  destruct (a <? 24); [intros [= <- <-]; lia|].
  destruct (byteCount a =? 0)%nat; [destruct (a =? 31); discriminate|].
  destruct (Nat.ltb_spec (length bs) (off + byteCount a)); [discriminate|].
  destruct (_ <? _); [discriminate|]. intros [= <- <-]. split; [|lia].
  unfold read_value. assert (Hf : forall l acc, 0 <= acc ->
    0 <= fold_left (fun value index => Z.lor (Z.shiftl value 8) (byte_at bs (off + index))) l acc).
  { induction l as [|i l IH]; intros acc Hacc; simpl; [done|]. apply IH.
    apply Z.lor_nonneg. split; [by apply Z.shiftl_nonneg|].
    unfold byte_at. destruct (bs !! _); lia. }
  by apply Hf.
Qed.

Lemma scan_advances fuel : forall depth st st',
  scan bs limits tags fuel depth st = Ok st' -> advances st st' /\ depth <= maximumDepth limits.
Proof.
  induction fuel as [|fuel IH]; intros depth st st' H; [done|]. cbn [scan] in H.
  destruct (Z.ltb_spec (maximumItems limits) (items st + 1)) as [|Hi]; [done|].
  destruct (Z.ltb_spec (maximumDepth limits) depth) as [|Hd]; [done|]. split; [|done].
  destruct (bs !! offset st) as [b|] eqn:Hb; [|done]. apply lookup_lt_Some in Hb.
  set (additional := Z.land (Z.of_N (Byte.to_N b)) 31) in *.
  assert (Ha : 0 <= additional) by (apply Z.land_nonneg; lia).
  assert (Hrec : forall depth' st st', scan bs limits tags fuel depth' st = Ok st' -> advances st st')
    by (intros ??? Hs; by apply IH in Hs as [? _]).
  assert (Hat : forall off st1, (S (offset st) <= off)%nat -> (off <= length bs)%nat ->
    stays {| offset := off; items := items st + 1 |} st1 -> advances st st1).
  { intros off st1 H1 H2 [->|[H3 H4]]; unfold advances in *; simpl in *; lia. }
  repeat match type of H with
  | (if ?c then _ else _) = _ => destruct c eqn:?
  | Err _ = _ => discriminate H
  | malformed _ = _ => discriminate H
  | resource _ = _ => discriminate H
  | Ok _ = _ => injection H as <-
  | _ ≫= _ = _ => let off := fresh "off" in let len := fresh "len" in
      apply bind_Ok in H as ([len off] & Hr & H);
      apply readLength_bound in Hr as (Hv & Hr1 & Hr2); [|done]; simpl in H
  end; bools.
  all: try (eapply Hat; [| |left; reflexivity]; lia).
  - eapply Hat; [apply Hr1|lia|]. eapply times_stays; [|apply H]. apply Hrec.
  - eapply Hat; [apply Hr1|lia|]. eapply times_stays; [|apply H].
    intros s s' Hs. apply bind_Ok in Hs as (s1 & Hs1 & Hs2).
    apply Hrec in Hs1, Hs2. unfold advances in *. lia.
  - eapply Hat; [apply Hr1|lia|]. right. by eapply Hrec.
Qed.
End bounds.

(** ** Properties *)

(** C4: The resource scan terminates on every input, with every limit and tag set: it returns or
    throws a [HailCodecError], and the recursion depth is bounded by [maximumDepth], not by the
    input. *)
Theorem scan_total bs limits tags : codec_only (assertCborResourceLimits bs limits tags).
Proof. apply assert_codec_only. Qed.

(** The scan never reads outside the input and never counts past the limit: whenever the scan
    of an item succeeds, the offset has moved forward and is within the input, and the items
    counted are within [maximumItems]. *)
Theorem scan_in_bounds bs limits tags fuel depth st st' :
  scan bs limits tags fuel depth st = Ok st' ->
  (offset st < offset st' <= length bs)%nat /\
  items st < items st' <= maximumItems limits /\ depth <= maximumDepth limits.
Proof. intros H. apply scan_advances in H as [[H1 H2] H3]. done. Qed.

(** The scan accepts the deterministic encoding of every item that respects the limits on
    depth, number of items, lengths, tags and size. *)
Theorem scan_accepts_encoding limits tags i :
  item_fits limits tags 0 i = true -> item_count i <= maximumItems limits ->
  Z.of_nat (length (encode_item i)) <= maximumBytes limits ->
  assertCborResourceLimits (encode_item i) limits tags = Ok tt.
Proof. apply assertCborResourceLimits_accepts. Qed.

Definition example_limits : HailResourceLimits := {|
  maximumBytes := 64; maximumDepth := 3; maximumItems := 8; maximumArrayLength := 4;
  maximumMapEntries := 2; maximumTextBytes := 16; maximumByteStringLength := 16 |}.

Example scan_in_bounds_witness :
  (0 < 4 <= 4)%nat /\ 0 < 3 <= 8 /\ 0 <= 3.
Proof.
  apply (scan_in_bounds [x82; x01; x18; x64] example_limits None 5 0
    {| offset := 0; items := 0 |} {| offset := 4; items := 3 |}).
  vm_compute. reflexivity.
Defined.

Example scan_accepts_encoding_witness :
  assertCborResourceLimits (encode_item (ITag 18 (IMap [(IText (js "a"), IArr [IInt (-7)])])))
    example_limits (Some [18]) = Ok tt.
Proof.
  apply scan_accepts_encoding; vm_compute; first [reflexivity | discriminate].
Defined.
