(* ===== verification/Cbor.v ===== *)
(** * Deterministic CBOR (packages/hail-codec-ts/src/cbor.ts)

    [checkValue] and [assertHailValue] narrow an arbitrary JavaScript value to [HailValue];
    [encodeDeterministic] and [decodeDeterministic] are the codec's entry points.  The package
    [cborg] is a parameter ([Cborg]) specified by [Rfc8949.v] ([CborgSpec]). *)

From S2P Require Import Prelude JsString Regex Value Rfc8949 Scan.
From Stdlib Require Import ZArith.
Open Scope Z_scope.

Definition DEFAULT_HAIL_RESOURCE_LIMITS : HailResourceLimits := {|
  maximumBytes := 1048576;
  maximumDepth := 32;
  maximumItems := 16384;
  maximumArrayLength := 4096;
  maximumMapEntries := 256;
  maximumTextBytes := 1048576;
  maximumByteStringLength := 1048576;
|}.

Definition equalBytes (left right : bytes) : bool :=
  if negb (length left =? length right)%nat then false
  else forallb (fun '(value, other) => bool_decide (value = other)) (zip left right).

(** ** Sizes *)

Definition argumentSize (value : Z) : Z :=
  if value <? 24 then 1
  else if value <=? 0xff then 2
  else if value <=? 0xffff then 3
  else if value <=? 0xffffffff then 5
  else 9.

Fixpoint encodedSize (value : hvalue) : Z :=
  match value with
  | HNull | HBool _ => 1
  | HNum value => argumentSize (if 0 <=? value then value else -1 - value)
  | HStr value => let length := utf8_length value in argumentSize length + length
  | HBytes value => argumentSize (Z.of_nat (length value)) + Z.of_nat (length value)
  | HArr value =>
      argumentSize (Z.of_nat (length value)) +
      foldr (fun entry total => encodedSize entry + total) 0 value
  | HMap _ entries =>
      argumentSize (Z.of_nat (length entries)) +
      foldr (fun '(key, entry) total =>
        let keyLength := utf8_length key in
        argumentSize keyLength + keyLength + encodedSize entry + total) 0 entries
  end.

(** ** Checking *)

Definition number_ok (n : jsnum) : bool :=
  match n with
  | JInt z => isSafeInteger z && (HAIL_MIN_INTEGER <=? z) && (z <=? HAIL_MAX_INTEGER)
  | _ => false
  end.

(** A canonical array index: zero, or a digit other than zero and then digits. *)
Definition INDEX_PATTERN : regex :=
  RAlt (lit "0") (RSeq (RClass [range "1" "9"]) (RStar (RClass [range "0" "9"]))).

Definition bad_array_key (key : pkey) : bool :=
  match key with
  | KStr s => negb (jstr_eqb s (js "length")) && negb (rx_test INDEX_PATTERN s)
  | KSym _ => true
  end.

Definition is_symbol (key : pkey) : bool := match key with KSym _ => true | KStr _ => false end.

Definition at_index (path : jstr) (index : nat) : jstr :=
  path ++ js "[" ++ show_nat index ++ js "]".
Definition at_member (path key : jstr) : jstr := path ++ js "." ++ key.

Section check.
Variable limits : HailResourceLimits.
Variable allowMaps : bool.

Definition too_many {A} (path : jstr) : M A := throw resource_limit "too many values" (Some path).

Definition bad_key (key : jstr) : bool :=
  negb (isWellFormed key) || (maximumTextBytes limits <? utf8_length key).

(** The three loops; [check] is the recursive call. *)
Section loops.
Variable check : jsval -> jstr -> Z -> M Z.
Variable path : jstr.

Fixpoint array_loop (index : nat) (slots : list (option (prop jsval))) (count : Z) : M Z :=
  match slots with
  | [] => Ok count
  | None :: _ =>
      throw invalid_value "sparse arrays are prohibited" (Some (at_index path index))
  | Some (Data true v) :: slots =>
      count ← check v (at_index path index) count;
      array_loop (S index) slots count
  | Some _ :: _ =>
      throw invalid_value "array entries must be enumerable data properties"
        (Some (at_index path index))
  end.

Fixpoint map_loop (entries : list (jsval * jsval)) (count : Z) : M Z :=
  match entries with
  | [] => Ok count
  | (key, entry) :: entries =>
      let count := count + 1 in
      if maximumItems limits <? count then too_many path
      else
        match key with
        | JStr key =>
            if bad_key key then
              throw resource_limit "map key is invalid or too large" (Some path)
            else
              count ← check entry (at_member path key) count;
              map_loop entries count
        | _ => throw invalid_value "map keys must be text" (Some path)
        end
  end.

Fixpoint object_loop (props : list (pkey * prop jsval)) (count : Z) : M Z :=
  match props with
  | [] => Ok count
  | (KSym _, _) :: _ => (* excluded by the caller *)
      throw invalid_value "symbol map keys are prohibited" (Some path)
  | (KStr key, descriptor) :: props =>
      let count := count + 1 in
      if maximumItems limits <? count then too_many path
      else if bad_key key then
        throw resource_limit "map key is invalid or too large" (Some (at_member path key))
      else
        match descriptor with
        | Data true v =>
            count ← check v (at_member path key) count;
            object_loop props count
        | _ =>
            throw invalid_value "map members must be enumerable data properties"
              (Some (at_member path key))
        end
  end.
End loops.

(** Returns the updated [count.value]. *)
Fixpoint checkValue (value : jsval) (path : jstr) (depth count : Z) {struct value} : M Z :=
  let count := count + 1 in
  if maximumItems limits <? count then too_many path
  else if maximumDepth limits <? depth then
    throw resource_limit "maximum nesting depth exceeded" (Some path)
  else
    match value with
    | JNull | JBool _ => Ok count
    | JNum n =>
        if negb (number_ok n) then
          throw invalid_value "numbers must be safe, non-negative-zero integers" (Some path)
        else Ok count
    | JStr s =>
        if negb (isWellFormed s) then
          throw invalid_value "text contains an unpaired surrogate" (Some path)
        else if maximumTextBytes limits <? utf8_length s then
          throw resource_limit "text string is too large" (Some path)
        else Ok count
    | JBytes b =>
        if maximumByteStringLength limits <? Z.of_nat (length b) then
          throw resource_limit "byte string is too large" (Some path)
        else Ok count
    | JArray extra slots =>
        if maximumArrayLength limits <? Z.of_nat (length slots) then
          throw resource_limit "array is too large" (Some path)
        else if existsb bad_array_key extra then
          throw invalid_value "arrays may contain only indexed elements" (Some path)
        else
          array_loop (fun v path count => checkValue v path (depth + 1) count) path 0%nat slots count
    | JMap entries =>
        if negb allowMaps then
          throw invalid_value "native Map values are not accepted" (Some path)
        else if maximumMapEntries limits <? Z.of_nat (length entries) then
          throw resource_limit "map has too many entries" (Some path)
        else
          map_loop (fun v path count => checkValue v path (depth + 1) count) path entries count
    | JObject p props =>
        match p with
        | ProtoOther =>
            throw invalid_value "only plain objects are Hail maps" (Some path)
        | _ =>
            if existsb (fun e => is_symbol e.1) props then
              throw invalid_value "symbol map keys are prohibited" (Some path)
            else if maximumMapEntries limits <? Z.of_nat (length props) then
              throw resource_limit "map has too many entries" (Some path)
            else
              object_loop (fun v path count => checkValue v path (depth + 1) count)
                path props count
        end
    | JTagged _ _ => throw invalid_value "only plain objects are Hail maps" (Some path)
    | JUndefined | JPrimitive => throw invalid_value "unsupported Hail value" (Some path)
    end.
End check.

(** [asserts value is HailValue]: the result is the narrowed value.  The second branch of the
    match is never taken ([checkValue_narrows] below). *)
Definition assertHailValue (limits : HailResourceLimits) (value : jsval) : M hvalue :=
  _ ← checkValue limits false value (js "$") 0 0;
  match as_hail value with
  | Some value' =>
      if maximumBytes limits <? encodedSize value' then
        throw resource_limit "encoded value is too large" (Some (js "$"))
      else Ok value'
  | None => Err (OtherError (js "not a HailValue"))
  end.

(** ** Values as CBOR items *)

(** The item that cborg's encoder is given by a JavaScript value. *)
Fixpoint item_of_js (v : jsval) : option item :=
  match v with
  | JNull => Some INull
  | JBool b => Some (IBool b)
  | JNum (JInt z) => Some (IInt z)
  | JStr s => Some (IText s)
  | JBytes b => Some (IBytes b)
  | JArray _ slots =>
      IArr <$> mapM (fun s => match s with Some (Data true v) => item_of_js v | _ => None end) slots
  | JMap m =>
      IMap <$> mapM (fun e => i ← item_of_js e.1; pair i <$> item_of_js e.2) m
  | JTagged t v => if t <? 0 then None else ITag (Z.to_N t) <$> item_of_js v
  | JObject _ props =>
      IMap <$> mapM (fun e => match e with
                              | (KStr k, Data true v) => pair (IText k) <$> item_of_js v
                              | _ => None
                              end) props
  | _ => None
  end.

(** What its decoder makes of an item, with [useMaps]. *)
Fixpoint js_of_item (i : item) : jsval :=
  match i with
  | INull => JNull
  | IBool b => JBool b
  | IInt z => JNum (JInt z)
  | IBytes b => JBytes b
  | IText s => JStr s
  | IArr l => JArray [] (map (fun i => Some (Data true (js_of_item i))) l)
  | IMap m => JMap (map (fun e => (js_of_item e.1, js_of_item e.2)) m)
  | ITag t i => JTagged (Z.of_N t) (js_of_item i)
  end.

Fixpoint item_of_hail (v : hvalue) : item :=
  match v with
  | HNull => INull
  | HBool b => IBool b
  | HNum z => IInt z
  | HStr s => IText s
  | HBytes b => IBytes b
  | HArr l => IArr (map item_of_hail l)
  | HMap _ m => IMap (map (fun e => (IText e.1, item_of_hail e.2)) m)
  end.

(** The values the language admits: the keys of a map and of an object are distinct. *)
Definition str_key (k : jsval) : option jstr := match k with JStr s => Some s | _ => None end.

#[export] Instance pkey_eq_dec : EqDecision pkey.
Proof. solve_decision. Defined.

Fixpoint js_wf (v : jsval) : bool :=
  match v with
  | JArray _ slots =>
      forallb (fun s => match s with Some (Data _ v) => js_wf v | _ => true end) slots
  | JMap m =>
      bool_decide (NoDup (omap (fun e => str_key e.1) m)) &&
      forallb (fun e => js_wf e.1 && js_wf e.2) m
  | JObject _ props =>
      bool_decide (NoDup (map fst props)) &&
      forallb (fun e => match e.2 with Data _ v => js_wf v | _ => true end) props
  | JTagged _ v => js_wf v
  | _ => true
  end.

(** The values a decoder makes with [useMaps]: dense arrays, maps, tags, no plain object. *)
Fixpoint decoded_value (v : jsval) : bool :=
  match v with
  | JUndefined | JPrimitive | JObject _ _ => false
  | JArray extra slots =>
      bool_decide (extra = []) &&
      forallb (fun s => match s with Some (Data true v) => decoded_value v | _ => false end) slots
  | JMap m =>
      bool_decide (NoDup (omap (fun e => str_key e.1) m)) &&
      forallb (fun e => decoded_value e.1 && decoded_value e.2) m
  | JTagged _ v => decoded_value v
  | _ => true
  end.

(** The items the decoder accepts with the codec's options: safe integers, no tag but the one
    preserved, no duplicate key. *)
Fixpoint decodable (tag : option Z) (i : item) : bool :=
  match i with
  | IInt z => isSafeInteger z
  | IArr l => forallb (decodable tag) l
  | IMap m =>
      bool_decide (NoDup (map (fun e => encode_item e.1) m)) &&
      forallb (fun e => decodable tag e.1 && decodable tag e.2) m
  | ITag t i => bool_decide (tag = Some (Z.of_N t)) && decodable tag i
  | _ => true
  end.

Fixpoint safe_ints (i : item) : bool :=
  match i with
  | IInt z => isSafeInteger z
  | IArr l => forallb safe_ints l
  | IMap m => forallb (fun e => safe_ints e.1 && safe_ints e.2) m
  | ITag _ i => safe_ints i
  | _ => true
  end.

(** ** The package cborg *)

(** What a call into the package throws: an [Error] with a message, or any other value. *)
Inductive thrown := ErrorObject (message : jstr) | ThrownValue (as_string : jstr).

Definition thrown_string (t : thrown) : jstr :=
  match t with ErrorObject m => m | ThrownValue s => s end.

(** [encode(value, rfc8949EncodeOptions)] and [decode(bytes, {...options, tags})], where the
    options are the strict ones of cbor.ts and [tags] may preserve one tag. *)
Class Cborg := {
  cborg_encode : jsval -> result thrown bytes;
  cborg_decode : option Z -> bytes -> result thrown jsval;
}.

(** Documented behaviour: the encoder produces the core deterministic encoding of RFC 8949,
    the decoder reads it, and what it returns is made of dense arrays and maps. *)
Class CborgSpec `{Cborg} := {
  cborg_encode_item : forall v i,
    item_of_js v = Some i -> item_ok i -> safe_ints i = true ->
    cborg_encode v = Ok (encode_item i);
  cborg_decode_item : forall tag i,
    item_ok i -> decodable tag i = true ->
    cborg_decode tag (encode_item i) = Ok (js_of_item (sort_item i));
  cborg_decode_value : forall tag bs v, cborg_decode tag bs = Ok v -> decoded_value v = true;
}.

(** ** Encoding and decoding *)

Section codec.
Context `{Cborg}.

Definition encodeCbor (value : jsval) : M bytes :=
  match cborg_encode value with
  | Ok encoded => Ok encoded
  | Err cause => Err (OtherError (thrown_string cause))
  end.

Definition encodeDeterministic (limits : HailResourceLimits) (value : jsval) : M bytes :=
  _ ← assertHailValue limits value;
  encoded ← encodeCbor value;
  if maximumBytes limits <? Z.of_nat (length encoded) then
    throw resource_limit "encoded value is too large" None
  else Ok encoded.

(** The order of the own string keys of an object: array indices ascending, then the other
    keys in the order they were defined. *)
Definition digits_value (s : jstr) : N :=
  fold_left (fun acc u => acc * 10 + (u - char "0"))%N s 0%N.
Definition array_index (s : jstr) : option N :=
  if rx_test INDEX_PATTERN s then
    let n := digits_value s in if (n <? 4294967295)%N then Some n else None
  else None.
Definition index_leb {A} (a b : jstr * A) : bool :=
  (default 0 (array_index a.1) <=? default 0 (array_index b.1))%N.
Definition is_index {A} (e : jstr * A) : bool :=
  match array_index e.1 with Some _ => true | None => false end.
Definition own_key_order {A} (entries : list (jstr * A)) : list (jstr * A) :=
  sort_by index_leb (List.filter is_index entries) ++
  List.filter (fun e => negb (is_index e)) entries.

(** The last branch is the assertion [value as HailValue]; after [checkValue] it holds. *)
Fixpoint mapsToObjects (value : jsval) : M hvalue :=
  match value with
  | JBytes b => Ok (HBytes b)
  | JArray _ slots =>
      HArr <$> mapM (fun s => match s with
                              | Some (Data _ v) => mapsToObjects v
                              | _ => Err (OtherError (js "not a HailValue"))
                              end) slots
  | JMap entries =>
      output ← mapM (fun e => match e.1 with
                              | JStr key => pair key <$> mapsToObjects e.2
                              | _ => throw invalid_value "map keys must be text" None
                              end) entries;
      Ok (HMap true (own_key_order output))
  | _ =>
      match as_hail value with
      | Some h => Ok h
      | None => Err (OtherError (js "not a HailValue"))
      end
  end.

Definition decodeDeterministic (limits : HailResourceLimits) (bs : bytes) : M hvalue :=
  _ ← assertCborResourceLimits bs limits None;
  decoded ← match cborg_decode None bs with
            | Ok decoded => Ok decoded
            | Err cause =>
                Err (CodecError (new_HailCodecError malformed_cbor
                  (match cause with
                   | ErrorObject message => message
                   | ThrownValue _ => js "CBOR decoding failed"
                   end) None))
            end;
  _ ← checkValue limits true decoded (js "$") 0 0;
  reencoded ← encodeCbor decoded;
  if negb (equalBytes bs reencoded) then
    throw non_deterministic_cbor "input is not its deterministic RFC 8949 encoding" None
  else mapsToObjects decoded.
End codec.

(** ** Characterisation of [checkValue]

    A value passes when it narrows to a Hail item (plain containers, text keys, safe integers,
    well-formed text) that fits the limits, and the count grows by the size of the item. *)

(** The item a value narrows to, whatever its size. *)
Fixpoint narrow (allowMaps : bool) (v : jsval) : option item :=
  match v with
  | JNull => Some INull
  | JBool b => Some (IBool b)
  | JNum (JInt z) => Some (IInt z)
  | JStr s => Some (IText s)
  | JBytes b => Some (IBytes b)
  | JArray extra slots =>
      if existsb bad_array_key extra then None
      else IArr <$> mapM (fun s => match s with
                                   | Some (Data true v) => narrow allowMaps v
                                   | _ => None
                                   end) slots
  | JMap m =>
      if allowMaps then
        IMap <$> mapM (fun e => match e.1 with
                                | JStr k => pair (IText k) <$> narrow allowMaps e.2
                                | _ => None
                                end) m
      else None
  | JObject p props =>
      match p with
      | ProtoOther => None
      | _ => IMap <$> mapM (fun e => match e with
                                     | (KStr k, Data true v) =>
                                         pair (IText k) <$> narrow allowMaps v
                                     | _ => None
                                     end) props
      end
  | _ => None
  end.

(** The items of Hail values. *)
Fixpoint hail_item (i : item) : bool :=
  match i with
  | INull | IBool _ | IBytes _ => true
  | IInt z => isSafeInteger z
  | IText s => isWellFormed s
  | IArr l => forallb hail_item l
  | IMap m =>
      forallb (fun e => match e.1 with IText k => isWellFormed k | _ => false end &&
                        hail_item e.2) m
  | ITag _ _ => false
  end.

(** Limits are lengths of JavaScript arrays, strings and maps. *)
Definition limits_ok (limits : HailResourceLimits) : Prop :=
  maximumArrayLength limits <= 9007199254740991 /\
  maximumMapEntries limits <= 9007199254740991 /\
  maximumTextBytes limits <= 9007199254740991 /\
  maximumByteStringLength limits <= 9007199254740991.

(** The description of a successful run that [checkValue_spec] gives. *)
Definition passes (limits : HailResourceLimits) (allowMaps : bool) (v : jsval)
    (depth count count' : Z) : Prop :=
  exists i, narrow allowMaps v = Some i /\ hail_item i = true /\
    item_fits limits None depth i = true /\
    count' = count + item_count i /\ count' <= maximumItems limits.

Lemma item_fits_depth limits tags d i :
  item_fits limits tags d i = true -> d <= maximumDepth limits.
Proof. destruct i; simpl; intros; bools; lia. Qed.

Section check_spec.
Variable limits : HailResourceLimits.
Variable allowMaps : bool.
Hypothesis Hlimits : limits_ok limits.

(** The loops run [check] over the elements and add up the counts. *)
Lemma array_loop_spec path slots (check : jsval -> jstr -> Z -> M Z) depth :
  Forall (on_slot (fun v => forall path c c',
    check v path c = Ok c' <-> passes limits allowMaps v depth c c')) slots ->
  forall index c c', c <= maximumItems limits ->
  array_loop check path index slots c = Ok c' <->
  exists l, mapM (fun s => match s with Some (Data true v) => narrow allowMaps v
                                   | _ => None end) slots = Some l /\
    forallb hail_item l = true /\ forallb (item_fits limits None depth) l = true /\
    c' = c + sum_Z (map item_count l) /\ c' <= maximumItems limits.
Proof.
  induction 1 as [|s slots Hs _ IH]; intros index c c' Hc; cbn [array_loop].
  - split.
    + intros [= <-]. exists []. simpl. repeat split; lia.
    + intros (l & Hl & _ & _ & -> & _). injection Hl as <-. simpl. by rewrite Z.add_0_r.
  - destruct s as [[[] v|]|];
      try (split; [done | intros (l & Hl & _); simpl in Hl; done]).
    simpl in Hs. rewrite bind_Ok. setoid_rewrite Hs. split.
    + intros (c1 & (i & Hn & Hi & Hf & -> & Hm) & Hrest).
      apply IH in Hrest as (l & Hl & Hil & Hfl & -> & Hml); [|done].
      exists (i :: l). simpl. rewrite Hn. simpl. rewrite Hl. simpl.
      rewrite Hi, Hf. repeat split; try done; lia.
    + intros (l & Hl & Hi & Hf & -> & Hm). simpl in Hl.
      apply bind_Some in Hl as (i & Hn & Hl). apply bind_Some in Hl as (l' & Hl & [= <-]).
      simpl in *. bools.
      assert (0 <= sum_Z (map item_count l'))
        by (apply sum_Z_nonneg; intros a; pose proof (item_count_pos a); lia).
      exists (c + item_count i). split.
      * exists i. repeat split; try done; lia.
      * apply IH; [lia|]. exists l'. repeat split; try done; lia.
Qed.

Lemma key_fits d k :
  d <= maximumDepth limits ->
  bad_key limits k = false <->
  isWellFormed k = true /\ item_fits limits None d (IText k) = true.
Proof using Hlimits.
  destruct Hlimits as (_ & _ & Ht & _). intros Hd. unfold bad_key, utf8_length. simpl.
  unfold safe_length. rewrite orb_false_iff, negb_false_iff, !andb_true_iff. 
  rewrite Z.ltb_ge, !Z.leb_le. intuition lia.
Qed.

Lemma map_loop_spec path entries (check : jsval -> jstr -> Z -> M Z) depth :
  Forall (fun e => forall path c c',
    check e.2 path c = Ok c' <-> passes limits allowMaps e.2 depth c c') entries ->
  forall c c', c <= maximumItems limits ->
  map_loop limits check path entries c = Ok c' <->
  exists m, mapM (fun e => match e.1 with JStr k => pair (IText k) <$> narrow allowMaps e.2
                                   | _ => None end) entries = Some m /\
    forallb (fun e => match e.1 with IText k => isWellFormed k | _ => false end &&
                      hail_item e.2) m = true /\
    forallb (fun e => item_fits limits None depth e.1 && item_fits limits None depth e.2) m
      = true /\
    c' = c + sum_Z (map (fun e => item_count e.1 + item_count e.2) m) /\
    c' <= maximumItems limits.
Proof using Hlimits.
  induction 1 as [|[k v] entries Hv _ IH]; intros c c' Hc; cbn [map_loop].
  - split.
    + intros [= <-]. exists []. simpl. repeat split; lia.
    + intros (l & Hl & _ & _ & -> & _). injection Hl as <-. simpl. by rewrite Z.add_0_r.
  - simpl in Hv. destruct (Z.ltb_spec (maximumItems limits) (c + 1)) as [Hm|Hm].
    { split; [done|]. intros (l & Hl & _ & _ & -> & Hle). simpl in Hl.
      apply bind_Some in Hl as (i & Hn & Hl). apply bind_Some in Hl as (l' & Hl & [= <-]).
      assert (0 <= sum_Z (map (fun e => item_count e.1 + item_count e.2) l')).
      { apply sum_Z_nonneg. intros e.
        pose proof (item_count_pos e.1). pose proof (item_count_pos e.2). lia. }
      simpl in Hle. pose proof (item_count_pos i.1). pose proof (item_count_pos i.2). lia. }
    destruct k as [| | | |k| | | | | |];
      try (split; [done | intros (l & Hl & _); simpl in Hl; done]).
    split.
    + destruct (bad_key limits k) eqn:Hk; [done|]. intros Hok.
      apply bind_Ok in Hok as (c1 & Hcheck & Hrest).
      apply Hv in Hcheck as (i & Hn & Hi & Hf & -> & Hci).
      apply IH in Hrest as (l & Hl & Hil & Hfl & -> & Hml); [|done].
      apply (key_fits depth) in Hk as [Hwf Hkf]; [|by eapply item_fits_depth].
      exists ((IText k, i) :: l). simpl. rewrite Hn. simpl. rewrite Hl. simpl in *.
      rewrite Hi, Hf, Hwf, Hkf. repeat split; try done; lia.
    + intros (l & Hl & Hi & Hf & -> & Hm'). simpl in Hl.
      apply bind_Some in Hl as (e & Hn & Hl). apply bind_Some in Hl as (l' & Hl & [= <-]).
      apply fmap_Some in Hn as (i & Hn & ->).
      cbn [forallb fst snd map sum_Z] in *. rewrite !andb_true_iff in Hi, Hf.
      destruct Hi as [[Hwf Hi] Hil], Hf as [[Hkf Hf] Hfl].
      rewrite (proj2 (key_fits depth k (item_fits_depth _ _ _ _ Hf)) (conj Hwf Hkf)).
      assert (0 <= sum_Z (map (fun e => item_count e.1 + item_count e.2) l')).
      { apply sum_Z_nonneg. intros e.
        pose proof (item_count_pos e.1). pose proof (item_count_pos e.2). lia. }
      simpl in *. pose proof (item_count_pos i).
      apply bind_Ok. exists (c + 1 + item_count i). split.
      * apply Hv. exists i. repeat split; try done; lia.
      * apply IH; [lia|]. exists l'. repeat split; try done; lia.
Qed.

(** An object's members are the entries of the map with the same keys. *)
Definition member_entry (e : pkey * prop jsval) : jsval * jsval :=
  match e with
  | (KStr k, Data true v) => (JStr k, v)
  | _ => (JUndefined, JUndefined)
  end.

Lemma object_loop_map_loop path (check : jsval -> jstr -> Z -> M Z) props :
  forall c c',
  object_loop limits check path props c = Ok c' <->
  map_loop limits check path (map member_entry props) c = Ok c'.
Proof.
  induction props as [|[[k|n] d] props IH]; intros c c'; [done| |].
  - destruct d as [[] v|e]; cbn [object_loop map map_loop member_entry];
      destruct (_ <? _); try done; destruct (bad_key _ _); try done.
    rewrite !bind_Ok. by setoid_rewrite IH.
  - cbn [object_loop map map_loop member_entry]. by destruct (_ <? _).
Qed.

Lemma mapM_members props :
  mapM (fun e => match e.1 with JStr k => pair (IText k) <$> narrow allowMaps e.2
                                   | _ => None end) (map member_entry props) =
  mapM (fun e => match e with
                 | (KStr k, Data true v) => pair (IText k) <$> narrow allowMaps v
                 | _ => None
                 end) props.
Proof.
  induction props as [|[[k|n] [[] v|e]] props IH]; simpl; try done. by rewrite IH.
Qed.
End check_spec.

(** A container: one for itself, then the contents one level deeper. *)
Lemma passes_arr limits allowMaps extra slots depth c c' :
  limits_ok limits -> existsb bad_array_key extra = false -> depth <= maximumDepth limits ->
  passes limits allowMaps (JArray extra slots) depth c c' <->
  Z.of_nat (length slots) <= maximumArrayLength limits /\
  exists l, mapM (fun s => match s with Some (Data true v) => narrow allowMaps v
                                   | _ => None end) slots = Some l /\
    forallb hail_item l = true /\ forallb (item_fits limits None (depth + 1)) l = true /\
    c' = c + 1 + sum_Z (map item_count l) /\ c' <= maximumItems limits.
Proof.
  intros (Ha & _) Hx Hd. unfold passes. cbn [narrow]. rewrite Hx. split.
  - intros (i & Hn & Hi & Hf & Hc & Hm). apply fmap_Some in Hn as (l & Hl & ->).
    assert (length l = length slots) as Hlen by (apply mapM_Some_1, Forall2_length in Hl; done).
    simpl in *. unfold safe_length in Hf. bools. split; [lia|].
    exists l. repeat split; try done; lia.
  - intros (Hlen & l & Hl & Hi & Hf & Hc & Hm). exists (IArr l). rewrite Hl. simpl.
    assert (length l = length slots) as -> by (apply mapM_Some_1, Forall2_length in Hl; done).
    rewrite Hi, Hf. unfold safe_length. rewrite !andb_true_iff, !Z.leb_le.
    repeat split; try done; lia.
Qed.

Lemma passes_bounds limits allowMaps v depth c c' :
  passes limits allowMaps v depth c c' ->
  c + 1 <= maximumItems limits /\ depth <= maximumDepth limits.
Proof.
  intros (i & _ & _ & Hf & -> & Hm). pose proof (item_count_pos i).
  apply item_fits_depth in Hf. lia.
Qed.

Lemma passes_leaf limits allowMaps v i depth c c' :
  narrow allowMaps v = Some i -> depth <= maximumDepth limits -> item_count i = 1 ->
  c + 1 <= maximumItems limits ->
  passes limits allowMaps v depth c c' <->
  (hail_item i && item_fits limits None depth i = true /\ c' = c + 1).
Proof.
  intros Hn Hd H1 Hc. unfold passes. rewrite andb_true_iff. split.
  - intros (j & Hj & Hi & Hf & -> & _). simplify_eq. rewrite H1. auto.
  - intros [[Hi Hf] ->]. exists i. rewrite H1. repeat split; done.
Qed.

Lemma passes_entries limits allowMaps v entries depth c c' :
  limits_ok limits -> depth <= maximumDepth limits ->
  narrow allowMaps v =
    IMap <$> mapM (fun e => match e.1 with JStr k => pair (IText k) <$> narrow allowMaps e.2
                                     | _ => None end) entries ->
  passes limits allowMaps v depth c c' <->
  Z.of_nat (length entries) <= maximumMapEntries limits /\
  exists m, mapM (fun e => match e.1 with JStr k => pair (IText k) <$> narrow allowMaps e.2
                                     | _ => None end) entries = Some m /\
    forallb (fun e => match e.1 with IText k => isWellFormed k | _ => false end &&
                      hail_item e.2) m = true /\
    forallb (fun e => item_fits limits None (depth + 1) e.1 &&
                      item_fits limits None (depth + 1) e.2) m = true /\
    c' = c + 1 + sum_Z (map (fun e => item_count e.1 + item_count e.2) m) /\
    c' <= maximumItems limits.
Proof.
  intros (_ & Ha & _) Hd Hn. unfold passes. rewrite Hn. split.
  - intros (i & Hi' & Hi & Hf & Hc & Hm). apply fmap_Some in Hi' as (l & Hl & ->).
    assert (length entries = length l) as Hlen by (apply mapM_Some_1, Forall2_length in Hl; done).
    simpl in *. unfold safe_length in Hf. bools. split; [lia|].
    exists l. repeat split; try done; lia.
  - intros (Hlen & l & Hl & Hi & Hf & Hc & Hm). exists (IMap l). rewrite Hl. simpl.
    assert (length entries = length l) as Hlen' by (apply mapM_Some_1, Forall2_length in Hl; done).
    rewrite Hi, Hf. unfold safe_length. rewrite !andb_true_iff, !Z.leb_le.
    repeat split; try done; lia.
Qed.

Lemma number_ok_safe z : number_ok (JInt z) = isSafeInteger z.
Proof.
  unfold number_ok, isSafeInteger, HAIL_MIN_INTEGER, HAIL_MAX_INTEGER.
  apply eq_true_iff_eq. rewrite !andb_true_iff, !Z.leb_le. lia.
Qed.

(** The object branch of [checkValue]. *)
Lemma checkValue_object limits allowMaps p props path depth c c' :
  limits_ok limits -> p <> ProtoOther ->
  Forall (fun e => on_prop (fun v => forall path depth c c', limits_ok limits ->
    checkValue limits allowMaps v path depth c = Ok c' <->
    passes limits allowMaps v depth c c') e.2) props ->
  c + 1 <= maximumItems limits -> depth <= maximumDepth limits ->
  (if existsb (fun e => is_symbol e.1) props then
     throw invalid_value "symbol map keys are prohibited" (Some path)
   else if maximumMapEntries limits <? Z.of_nat (length props) then
     throw resource_limit "map has too many entries" (Some path)
   else object_loop limits (fun v path count => checkValue limits allowMaps v path (depth + 1) count)
     path props (c + 1)) = Ok c' <->
  passes limits allowMaps (JObject p props) depth c c'.
Proof.
  intros Hl Hp IH Hc Hd.
  rewrite (passes_entries _ _ _ (map member_entry props)); try done;
    [|rewrite mapM_members; by destruct p].
  rewrite length_map.
  destruct (existsb _ props) eqn:Hx.
  { split; [done|]. intros (_ & m & Hm & _). exfalso.
    apply existsb_exists in Hx as ([[k|n] d] & He & Hs); [done|].
    apply list_elem_of_In, list_elem_of_fmap_2 with (f := member_entry) in He.
    apply mapM_Some_1 in Hm. apply list_elem_of_lookup in He as [i Hi].
    eapply Forall2_lookup_l in Hm as (y & _ & Hy); [|apply Hi]. done. }
  destruct (Z.ltb_spec (maximumMapEntries limits) (Z.of_nat (length props)));
    [split; [done | lia]|].
  rewrite object_loop_map_loop, (map_loop_spec limits allowMaps Hl path _ _ (depth + 1));
    [naive_solver| |lia].
  apply Forall_fmap. eapply Forall_impl; [apply IH|].
  intros [[k|n] [[] v|e]] He path' d' c''; simpl in *; auto;
    (destruct allowMaps; cbn [checkValue]; repeat destruct (_ <? _);
     split; try done; by intros (? & ? & _)).
Qed.

Lemma checkValue_passes limits allowMaps v : forall path depth c c',
  limits_ok limits ->
  checkValue limits allowMaps v path depth c = Ok c' <-> passes limits allowMaps v depth c c'.
Proof.
  induction v as [| |b|n|s|b|x slots IH|m IH|t v IH|p props IH|] using jsval_ind';
    intros path depth c c' Hl; cbn [checkValue];
    (destruct (Z.ltb_spec (maximumItems limits) (c + 1)) as [Hc|Hc];
      [split; [done | intros Hp; apply passes_bounds in Hp; lia]|]);
    (destruct (Z.ltb_spec (maximumDepth limits) depth) as [Hd|Hd];
      [split; [done | intros Hp; apply passes_bounds in Hp; lia]|]);
    try (split; [done | by intros (? & ? & _)]).
  - rewrite (passes_leaf _ _ _ INull) by done. simpl. rewrite andb_true_r, Z.leb_le. naive_solver.
  - rewrite (passes_leaf _ _ _ (IBool b)) by done. simpl. rewrite andb_true_r, Z.leb_le.
    naive_solver.
  - destruct n as [z| |]; try (split; [done | by intros (? & ? & _)]).
    rewrite number_ok_safe, (passes_leaf _ _ _ (IInt z)) by done. simpl.
    destruct (isSafeInteger z) eqn:Hz; simpl; [|naive_solver].
    unfold isSafeInteger in Hz. rewrite !andb_true_iff, !Z.leb_le. bools.
    split; [intros [= <-]; repeat split; lia | naive_solver].
  - rewrite (passes_leaf _ _ _ (IText s)) by done. simpl. unfold safe_length.
    destruct (isWellFormed s) eqn:Hs; simpl; [|naive_solver].
    destruct Hl as (_ & _ & Ht & _). rewrite !andb_true_iff, !Z.leb_le.
    destruct (Z.ltb_spec (maximumTextBytes limits) (utf8_length s)) as [Hlt|Hge];
      unfold utf8_length in *.
    + split; [done | lia].
    + split; [intros [= <-]; repeat split; lia | by intros [_ ->]].
  - rewrite (passes_leaf _ _ _ (IBytes b)) by done. simpl. unfold safe_length.
    destruct Hl as (_ & _ & _ & Ht). rewrite !andb_true_iff, !Z.leb_le.
    destruct (Z.ltb_spec (maximumByteStringLength limits) (Z.of_nat (length b))) as [Hlt|Hge].
    + split; [done | lia].
    + split; [intros [= <-]; repeat split; lia | by intros [_ ->]].
  - destruct (existsb bad_array_key x) eqn:Hx.
    { destruct (_ <? _); (split; [done | intros (i & Hn & _); simpl in Hn; by rewrite Hx in Hn]). }
    rewrite passes_arr by done.
    destruct (Z.ltb_spec (maximumArrayLength limits) (Z.of_nat (length slots)));
      [split; [done | lia]|].
    rewrite (array_loop_spec limits allowMaps path slots _ (depth + 1)); [naive_solver| |lia].
    eapply Forall_impl; [apply IH|]. intros [[e v|]|]; simpl; auto.
  - destruct allowMaps; simpl negb; [|split; [done | by intros (? & ? & _)]].
    rewrite (passes_entries _ _ _ m) by done.
    destruct (Z.ltb_spec (maximumMapEntries limits) (Z.of_nat (length m)));
      [split; [done | lia]|].
    rewrite (map_loop_spec limits true Hl path m _ (depth + 1)); [naive_solver| |lia].
    eapply Forall_impl; [apply IH|]. naive_solver.
  - destruct p; [| |split; [done | by intros (? & ? & _)]].
    + by apply checkValue_object.
    + by apply checkValue_object.
Qed.

(** ** What a value that passes is *)

Lemma mapM_impl {A B C} (f : A -> option B) (g : A -> option C) (h : B -> C) (l : list A) k :
  mapM f l = Some k ->
  Forall (fun a => forall b, f a = Some b -> g a = Some (h b)) l ->
  mapM g l = Some (map h k).
Proof.
  intros Hk Hl. revert Hk. revert k. induction Hl as [|a l Ha _ IH]; intros k Hk; simpl in *.
  { by injection Hk as <-. }
  apply bind_Some in Hk as (b & Hb & Hk). apply bind_Some in Hk as (k' & Hk & [= <-]).
  rewrite (Ha _ Hb). simpl. by rewrite (IH _ Hk).
Qed.

Lemma narrow_item_of_js allowMaps v : forall i, narrow allowMaps v = Some i -> item_of_js v = Some i.
Proof.
  induction v as [| |b|n|s|b|x slots IH|m IH|t v IH|p props IH|] using jsval_ind';
    intros i Hi; simpl in *; try done.
  - destruct (existsb _ x); [done|]. apply fmap_Some in Hi as (l & Hl & ->).
    rewrite (mapM_impl _ _ id _ _ Hl); [by rewrite map_id|].
    eapply Forall_impl; [apply IH|]. intros [[[] v|]|]; simpl; naive_solver.
  - destruct allowMaps; [|done]. apply fmap_Some in Hi as (l & Hl & ->).
    rewrite (mapM_impl _ _ id _ _ Hl); [by rewrite map_id|].
    eapply Forall_impl; [apply IH|]. intros [k v] [_ Hv] b Hb. simpl in *.
    destruct k; try done. apply fmap_Some in Hb as (i & Hi & ->). simpl. by rewrite (Hv _ Hi).
  - assert (Hi' : IMap <$> mapM (fun e => match e with
                                     | (KStr k, Data true v) =>
                                         pair (IText k) <$> narrow allowMaps v
                                     | _ => None
                                     end) props = Some i) by (by destruct p).
    clear Hi. apply fmap_Some in Hi' as (l & Hl & ->).
    rewrite (mapM_impl _ _ id _ _ Hl); [by rewrite map_id|].
    eapply Forall_impl; [apply IH|]. intros [[k|] [[] v|]] Hv b Hb; simpl in *; try done.
    apply fmap_Some in Hb as (i & Hi & ->). by rewrite (Hv _ Hi).
Qed.

Lemma hail_item_safe i : hail_item i = true -> safe_ints i = true.
Proof.
  induction i as [|b|z|b|s|l IH|m IH|t i IH] using item_ind'; simpl; try done.
  - rewrite !forallb_forall. rewrite Forall_forall in IH. intros H i Hi. 
    apply IH; [by apply list_elem_of_In | auto].
  - rewrite !forallb_forall. rewrite Forall_forall in IH. intros H e He.
    specialize (H e He). bools. apply list_elem_of_In in He.
    destruct e as [k v]; simpl in *. destruct (IH _ He) as [_ IHv]. simpl in IHv.
    destruct k; try done. simpl. auto.
Qed.

Lemma hail_item_ok limits d i :
  hail_item i = true -> item_fits limits None d i = true -> item_ok i.
Proof.
  revert d. induction i as [|b|z|b|s|l IH|m IH|t i IH] using item_ind'; intros d Hi Hf;
    simpl in *; unfold safe_length, isSafeInteger in *; rewrite ?andb_true_iff, ?Z.leb_le in *;
    try (constructor; done || lia); try done.
  - destruct Hf as (_ & Hlen & Hf). constructor; [lia|]. rewrite forallb_forall in Hi, Hf.
    rewrite Forall_forall in IH |- *. intros i Hin.
    eapply (IH _ Hin (d + 1)); [apply Hi | apply Hf]; by apply list_elem_of_In.
  - destruct Hf as (_ & Hlen & Hf). constructor; [lia|]. rewrite forallb_forall in Hi, Hf.
    rewrite Forall_forall in IH |- *. intros [k v] Hin.
    destruct (IH _ Hin) as [IHk IHv]. apply list_elem_of_In in Hin.
    specialize (Hi _ Hin). specialize (Hf _ Hin). simpl in *. bools.
    split; [|eapply (IHv (d + 1)); done]. destruct k; try done. eapply (IHk (d + 1)); done.
Qed.

(** ** Items that encode alike *)

Record sim (i j : item) : Prop := {
  sim_encode : encode_item i = encode_item j;
  sim_count : item_count i = item_count j;
  sim_fits : forall limits tags d, item_fits limits tags d i = item_fits limits tags d j;
  sim_hail : hail_item i = hail_item j;
}.

#[export] Instance sim_equivalence : Equivalence sim.
Proof.
  split.
  - done.
  - intros i j []. by split.
  - intros i j k [] []. split; congruence.
Qed.

Lemma sim_arr l l' : Forall2 sim l l' -> sim (IArr l) (IArr l').
Proof.
  intros H. split; simpl; rewrite ?(Forall2_length _ _ _ H).
  - do 2 f_equal. induction H as [|i j l l' Hij _ IH]; [done|]. simpl. by rewrite IH, (sim_encode _ _ Hij).
  - f_equal. induction H as [|i j l l' Hij _ IH]; [done|]. simpl. by rewrite IH, (sim_count _ _ Hij).
  - intros limits tags d. do 2 f_equal.
    induction H as [|i j l l' Hij _ IH]; [done|]. simpl. by rewrite IH, (sim_fits _ _ Hij).
  - induction H as [|i j l l' Hij _ IH]; [done|]. simpl. by rewrite IH, (sim_hail _ _ Hij).
Qed.

#[export] Instance forallb_perm {A} (f : A -> bool) : Proper ((≡ₚ) ==> (=)) (forallb f).
Proof.
  intros l k Hp. induction Hp; simpl; try congruence.
  by rewrite !andb_assoc, (andb_comm (f y)).
Qed.

(** The keys of a map, encoded, are distinct. *)
Definition distinct_keys (m : list (item * item)) : Prop :=
  NoDup (map (fun e => encode_item e.1) m).

Lemma encode_entries_perm m m' :
  distinct_keys m -> m ≡ₚ m' ->
  sort_by entry_leb (map encode_entry m) = sort_by entry_leb (map encode_entry m').
Proof.
  intros Hd Hp. apply sort_by_unique; try apply _; [|by rewrite Hp].
  intros x y Hx Hy Hxy Hyx. apply list_elem_of_fmap in Hx as ([k v] & -> & Hx).
  apply list_elem_of_fmap in Hy as ([k' v'] & -> & Hy).
  assert (Hk : encode_item k = encode_item k') by (apply bytes_leb_antisym; done).
  apply list_elem_of_lookup in Hx as [a Ha], Hy as [b Hb].
  assert (a = b) as ->.
  { apply (NoDup_lookup _ a b (encode_item k) Hd).
    - rewrite list_lookup_fmap, Ha. done.
    - rewrite list_lookup_fmap, Hb. simpl. by rewrite Hk. }
  by simplify_eq.
Qed.

Lemma sim_map m m' m'' :
  Forall2 (fun e e' => e.1 = e'.1 /\ sim e.2 e'.2) m m' -> distinct_keys m' -> m' ≡ₚ m'' ->
  sim (IMap m) (IMap m'').
Proof.
  intros H Hd Hp. trans (IMap m').
  - clear Hd Hp. split; simpl; rewrite ?(Forall2_length _ _ _ H).
    + do 4 f_equal. induction H as [|i j l l' [H1 H2] _ IH]; [done|]. simpl.
      by rewrite IH, H1, (sim_encode _ _ H2).
    + f_equal. induction H as [|i j l l' [H1 H2] _ IH]; [done|]. simpl.
      by rewrite IH, H1, (sim_count _ _ H2).
    + intros limits tags d. do 2 f_equal. induction H as [|i j l l' [H1 H2] _ IH]; [done|]. simpl.
      by rewrite IH, H1, (sim_fits _ _ H2).
    + induction H as [|i j l l' [H1 H2] _ IH]; [done|]. simpl.
      by rewrite IH, H1, (sim_hail _ _ H2).
  - clear H. assert (Hlen : length m' = length m'') by (by rewrite Hp).
    split; simpl; rewrite ?Hlen.
    + do 3 f_equal. by apply encode_entries_perm.
    + by rewrite Hp.
    + intros limits tags d. by rewrite (forallb_perm _ _ _ Hp).
    + by rewrite (forallb_perm _ _ _ Hp).
Qed.

Lemma encode_item_inj i j :
  item_ok i -> item_ok j -> encode_item i = encode_item j -> sort_item i = sort_item j.
Proof.
  intros Hi Hj Heq. apply read_all_encode in Hi, Hj. rewrite Heq in Hi. congruence.
Qed.

Lemma distinct_text_keys (m : list (jstr * item)) :
  Forall (fun e => item_ok (IText e.1)) m -> NoDup (map fst m) ->
  distinct_keys (map (fun e => (IText e.1, e.2)) m).
Proof.
  intros Hok Hnd. unfold distinct_keys. rewrite map_map. cbn [fst].
  induction m as [|[k v] m IH]; simpl; [constructor|].
  apply Forall_cons in Hok as [Hk Hok]. apply NoDup_cons in Hnd as [Hnin Hnd].
  apply NoDup_cons. split; [|by apply IH].
  intros Hin. apply list_elem_of_fmap in Hin as ([k' v'] & Heq & Hin).
  apply Hnin. rewrite Forall_forall in Hok.
  assert (Hs := encode_item_inj _ _ Hk (Hok _ Hin) Heq). injection Hs as ->.
  apply (list_elem_of_fmap_2 fst _ _ Hin).
Qed.

Lemma own_key_order_perm {A} (l : list (jstr * A)) : own_key_order l ≡ₚ l.
Proof.
  unfold own_key_order. rewrite sort_by_perm.
  induction l as [|e l IH]; simpl; [done|].
  destruct (is_index e); simpl; [by rewrite IH|]. by rewrite <- Permutation_middle, IH.
Qed.

(** ** Sizes *)

Lemma head_size major n : Z.of_nat (length (head major n)) = argumentSize (Z.of_N n).
Proof.
  unfold head, argumentSize.
  repeat match goal with
  | |- context [(n <? ?k)%N] => destruct (N.ltb_spec n k)
  | |- context [(n <=? ?k)%N] => destruct (N.leb_spec n k)
  | |- context [Z.of_N n <? ?k] => destruct (Z.ltb_spec (Z.of_N n) k); try lia
  | |- context [Z.of_N n <=? ?k] => destruct (Z.leb_spec (Z.of_N n) k); try lia
  end; cbn [length]; rewrite ?length_be; lia.
Qed.

Lemma concat_length_sum {A B} (f : B -> list A) l :
  Z.of_nat (length (concat (map f l))) = foldr (fun b n => Z.of_nat (length (f b)) + n) 0 l.
Proof. induction l as [|b l IH]; simpl; [done|]. rewrite length_app. lia. Qed.

Lemma concat_perm_length {A} (l k : list (list A)) :
  l ≡ₚ k -> length (concat l) = length (concat k).
Proof. intros H. induction H; simpl; rewrite ?length_app; lia. Qed.

(** [encodedSize] is exact. *)
Lemma encodedSize_length v :
  encodedSize v = Z.of_nat (length (encode_item (item_of_hail v))).
Proof.
  induction v as [|b|z|s|b|l IH|n m IH] using hvalue_ind'; cbn [encodedSize item_of_hail encode_item].
  - done.
  - by destruct b.
  - destruct (Z.leb_spec 0 z); rewrite head_size; f_equal; lia.
  - rewrite length_app, Nat2Z.inj_add, head_size, nat_N_Z. done.
  - rewrite length_app, Nat2Z.inj_add, head_size, nat_N_Z. done.
  - rewrite length_app, Nat2Z.inj_add, head_size, nat_N_Z, length_map. f_equal.
    rewrite map_map, concat_length_sum.
    induction IH as [|v l Hv _ IH]; simpl; congruence.
  - rewrite length_app, Nat2Z.inj_add, head_size, nat_N_Z, length_map. f_equal.
    rewrite (concat_perm_length _ (map (fun e => e.1 ++ e.2)
        (map encode_entry (map (fun e => (IText e.1, item_of_hail e.2)) m)))).
    2: { apply Permutation_map, sort_by_perm. }
    rewrite !map_map. rewrite concat_length_sum.
    induction IH as [|[k v] m Hv _ IH]; [done|].
    cbn [foldr fst snd encode_entry encode_item] in *. rewrite IH, Hv.
    rewrite !length_app, !Nat2Z.inj_add, head_size, nat_N_Z. unfold utf8_length. lia.
Qed.

(** ** Embedding and reading back *)

(** The keys of every map are distinct. *)
Fixpoint hail_wf (v : hvalue) : bool :=
  match v with
  | HArr l => forallb hail_wf l
  | HMap _ m => bool_decide (NoDup (map fst m)) && forallb (fun e => hail_wf e.2) m
  | _ => true
  end.

Lemma narrow_of_hail v : narrow false (of_hail v) = Some (item_of_hail v).
Proof.
  induction v as [|b|z|s|b|l IH|n m IH] using hvalue_ind'; simpl; try done.
  - replace (mapM _ _) with (Some (map item_of_hail l)); [done|]. symmetry.
    induction IH as [|v l Hv _ IH]; simpl; [done|]. by rewrite Hv; simpl; rewrite IH.
  - replace (mapM _ _) with (Some (map (fun e => (IText e.1, item_of_hail e.2)) m)).
    { by destruct n. }
    symmetry. induction IH as [|[k v] l Hv _ IH]; simpl in *; [done|].
    by rewrite Hv; simpl; rewrite IH.
Qed.

Lemma js_wf_of_hail v : js_wf (of_hail v) = hail_wf v.
Proof.
  induction v as [|b|z|s|b|l IH|n m IH] using hvalue_ind'; simpl; try done.
  - induction IH as [|v l Hv _ IH]; simpl; [done|]. by rewrite Hv, IH.
  - f_equal.
    + apply bool_decide_ext. rewrite map_map.
      replace (map _ m) with (map KStr (map fst m)) by (rewrite map_map; apply map_ext; by intros []).
      split; [apply NoDup_fmap_1 | apply NoDup_fmap_2; intros ?? [=]; done].
    + induction IH as [|[k v] l Hv _ IH]; simpl in *; [done|]. by rewrite Hv, IH.
Qed.

Lemma mapM_Forall2_map {A B C} (f : A -> option B) (g : C -> B) l k :
  Forall2 (fun a c => f a = Some (g c)) l k -> mapM f l = Some (map g k).
Proof. induction 1 as [|a c l k Hac _ IH]; simpl; [done|]. by rewrite Hac; simpl; rewrite IH. Qed.

Lemma mapM_choice {A B C} (f : A -> option B) (g : A -> option C) (P : B -> C -> Prop) l :
  forall k, mapM f l = Some k ->
  Forall (fun a => forall b, f a = Some b -> exists c, g a = Some c /\ P b c) l ->
  exists k', mapM g l = Some k' /\ Forall2 P k k'.
Proof.
  intros k0 Hk0 Hl. revert k0 Hk0. induction Hl as [|a l Ha _ IH]; intros k Hk; simpl in *.
  { injection Hk as <-. exists []. by split. }
  apply bind_Some in Hk as (b & Hb & Hk). apply bind_Some in Hk as (k' & Hk & [= <-]).
  destruct (Ha _ Hb) as (c & Hc & HP), (IH _ Hk) as (k2 & Hk2 & HP2).
  exists (c :: k2). rewrite Hc; simpl. rewrite Hk2; simpl. split; [done|by constructor].
Qed.

(** A value that narrows is a [HailValue]. *)
Lemma narrow_as_hail v : forall i, narrow false v = Some i -> js_wf v = true ->
  exists h, as_hail v = Some h /\ item_of_hail h = i /\ hail_wf h = true.
Proof.
  induction v as [| |b|n|s|b|x slots IH|m IH|t v IH|p props IH|] using jsval_ind';
    intros i Hi Hwf; simpl in *; try done.
  all: try (injection Hi as <-; eexists; done).
  - destruct n; [|done..]. injection Hi as <-. by eexists.
  - destruct (existsb _ x); [done|]. apply fmap_Some in Hi as (l & Hl & ->).
    rewrite forallb_forall in Hwf.
    edestruct (mapM_choice _ (fun s => match s with Some (Data true v) => as_hail v | _ => None end)
      (fun i h => item_of_hail h = i /\ hail_wf h = true) _ _ Hl) as (k & Hk & HP).
    { rewrite Forall_forall in IH |- *. intros s Hs. specialize (IH s Hs).
      apply list_elem_of_In in Hs. specialize (Hwf _ Hs).
      destruct s as [[[] v|]|]; simpl in *; try done. intros i Hi. naive_solver. }
    rewrite Hk. exists (HArr k). split; [done|]. split.
    + simpl. f_equal. clear Hl Hk. induction HP as [|i h l k [H1 H2] _ IHP]; simpl; congruence.
    + simpl. clear Hl Hk. induction HP as [|i h l k [H1 H2] _ IHP]; simpl; [done|]. by rewrite H2.
  - apply andb_true_iff in Hwf as [Hnd Hwf]. apply bool_decide_eq_true in Hnd.
    assert (Hi' : IMap <$> mapM (fun e => match e with
                                     | (KStr k, Data true v) => pair (IText k) <$> narrow false v
                                     | _ => None
                                     end) props = Some i) by (by destruct p).
    assert (Hp : p <> ProtoOther) by (by destruct p). clear Hi.
    apply fmap_Some in Hi' as (l & Hl & ->). rewrite forallb_forall in Hwf.
    edestruct (mapM_choice _ (fun e => match e with
                         | (KStr k, Data true v) => pair k <$> as_hail v
                         | _ => None
                         end)
      (fun i h => (IText h.1, item_of_hail h.2) = i /\ hail_wf h.2 = true) _ _ Hl)
      as (k & Hk & HP).
    { rewrite Forall_forall in IH |- *. intros e He. specialize (IH e He).
      apply list_elem_of_In in He. specialize (Hwf _ He).
      destruct e as [[key|] [[] v|]]; simpl in *; try done. intros i Hi.
      apply fmap_Some in Hi as (j & Hj & ->). destruct (IH _ Hj Hwf) as (h & Hh & <- & Hw).
      exists (key, h). by rewrite Hh. }
    rewrite Hk. exists (HMap (match p with ProtoNull => true | _ => false end) k). split; [by destruct p|]. split.
    + simpl. f_equal. clear Hl Hk. induction HP as [|i h l k [H1 H2] _ IHP]; simpl; congruence.
    + simpl. apply andb_true_iff. split.
      * apply bool_decide_eq_true. clear Hl HP IH Hwf.
        assert (Hkeys : map fst props = map KStr (map fst k)).
        { revert k Hk. induction props as [|[[key|] [[] v|]] props IHp]; intros k Hk; simpl in Hk;
            try done; [by injection Hk as <-|].
          apply bind_Some in Hk as (b & Hb & Hk). apply bind_Some in Hk as (k' & Hk & [= <-]).
          apply fmap_Some in Hb as (h & _ & ->). simpl.
          f_equal. apply IHp; [|done]. by apply NoDup_cons in Hnd as [_ ?]. }
        rewrite Hkeys in Hnd. by apply NoDup_fmap_1 in Hnd.
      * clear Hl Hk. induction HP as [|i h l k [H1 H2] _ IHP]; simpl; [done|]. by rewrite H2.
Qed.

(** ** [mapsToObjects] *)

Lemma mapM_Ok {E A B} (f : A -> result E B) l k :
  mapM f l = Ok k <-> Forall2 (fun a b => f a = Ok b) l k.
Proof.
  revert k. induction l as [|a l IH]; intros k; simpl.
  - split; [intros [= <-]; constructor | by inversion 1].
  - rewrite bind_Ok. split.
    + intros (b & Hb & Hk). apply bind_Ok in Hk as (k' & Hk & [= <-]).
      constructor; [done | by apply IH].
    + inversion 1; subst. eexists; split; [done|]. apply bind_Ok. eexists. split; [by apply IH|done].
Qed.

Lemma Forall2_choice {A B C} (l : list A) (k : list B) (R : A -> B -> Prop) (P : A -> C -> Prop)
    (Q : B -> C -> Prop) :
  Forall2 R l k -> Forall (fun a => forall b, b ∈ k -> R a b -> exists c, P a c /\ Q b c) l ->
  exists k', Forall2 P l k' /\ Forall2 Q k k'.
Proof.
  induction 1 as [|a b l k Hab _ IH]; intros H.
  { exists []. by split. }
  apply Forall_cons in H as [Ha Hl]. destruct (Ha b) as (c & Hc & HQ); [left|done|].
  destruct IH as (k' & Hk & HQk).
  { eapply Forall_impl; [apply Hl|]. intros a' Ha' b' Hb'. apply Ha'. by right. }
  exists (c :: k'). split; by constructor.
Qed.

Lemma forallb_Forall2_r {A B} (f : B -> bool) (Q : A -> B -> Prop) l k :
  (forall a b, Q a b -> f b = true) -> Forall2 Q l k -> forallb f k = true.
Proof. intros Hf H. induction H as [|a b l k Hab _ IH]; simpl; [done|]. by rewrite (Hf _ _ Hab). Qed.

Lemma own_key_order_fmap {A B} (f : A -> B) (l : list (jstr * A)) :
  own_key_order (map (fun e => (e.1, f e.2)) l) = map (fun e => (e.1, f e.2)) (own_key_order l).
Proof.
  unfold own_key_order. rewrite map_app. f_equal.
  - rewrite (sort_by_ext _ (fun a b => index_leb (a.1, f a.2) (b.1, f b.2)) (List.filter _ l)) by done.
    rewrite <- (sort_by_fmap (fun e : jstr * A => (e.1, f e.2)) index_leb). f_equal.
    induction l as [|e l IH]; simpl; [done|]. unfold is_index in *. simpl.
    destruct (array_index e.1); csimpl; by rewrite IH.
  - induction l as [|e l IH]; simpl; [done|]. unfold is_index in *. simpl.
    destruct (array_index e.1); csimpl; by rewrite IH.
Qed.

Lemma Forall2_map_l {A B C} (f : A -> B) (R : B -> C -> Prop) l k :
  Forall2 R (map f l) k <-> Forall2 (fun a c => R (f a) c) l k.
Proof. apply Forall2_fmap_l. Qed.

Lemma mapsToObjects_spec v : forall i,
  decoded_value v = true -> narrow true v = Some i -> item_ok i ->
  exists h, mapsToObjects v = Ok h /\ sim (item_of_hail h) i /\ hail_wf h = true.
Proof.
  induction v as [| |b|n|s|b|x slots IH|m IH|t v IH|p props IH|] using jsval_ind';
    intros i Hd Hi Hok; simpl in *; try done.
  all: try (injection Hi as <-; by eexists).
  - destruct n; [|done..]. injection Hi as <-. by eexists.
  - destruct (existsb _ x); [done|]. apply fmap_Some in Hi as (l & Hl & ->).
    apply mapM_Some_1 in Hl. apply andb_true_iff in Hd as [_ Hd]. rewrite forallb_forall in Hd.
    inversion Hok as [| | | | |l' Hlen Hall| |]; subst. rewrite Forall_forall in Hall.
    destruct (Forall2_choice _ _ _ (fun s h => (match s with
                                | Some (Data _ v) => mapsToObjects v
                                | _ => Err (OtherError (js "not a HailValue"))
                                end) = Ok h)
      (fun i h => sim (item_of_hail h) i /\ hail_wf h = true) Hl) as (k & Hk & HQ).
    { rewrite Forall_forall in IH |- *. intros s Hs j Hj Hsj. specialize (IH s Hs).
      apply list_elem_of_In in Hs. specialize (Hd _ Hs). specialize (Hall _ Hj).
      destruct s as [[[] v|]|]; simpl in *; try done. naive_solver. }
    apply mapM_Ok in Hk. rewrite Hk. simpl. eexists. split; [done|]. split.
    + simpl. apply sim_arr. clear -HQ. induction HQ as [|i h l k [H1 H2] _ IH]; simpl; by constructor.
    + simpl. eapply forallb_Forall2_r, HQ. naive_solver.
  - apply fmap_Some in Hi as (l & Hl & ->). apply mapM_Some_1 in Hl.
    apply andb_true_iff in Hd as [Hnd Hd]. apply bool_decide_eq_true in Hnd.
    rewrite forallb_forall in Hd.
    inversion Hok as [| | | | | |l' Hlen Hall|]; subst. rewrite Forall_forall in Hall.
    destruct (Forall2_choice _ _ _ (fun e h => (match e.1 with
                                | JStr key => pair key <$> mapsToObjects e.2
                                | _ => throw invalid_value "map keys must be text" None
                                end) = Ok h)
      (fun i h => i.1 = IText h.1 /\ sim (item_of_hail h.2) i.2 /\ hail_wf h.2 = true) Hl)
      as (k & Hk & HQ).
    { rewrite Forall_forall in IH |- *. intros e He j Hj Hej. specialize (IH e He).
      apply list_elem_of_In in He. specialize (Hd _ He). specialize (Hall _ Hj).
      destruct e as [[] v]; simpl in *; try done. destruct IH as [_ IH].
      apply fmap_Some in Hej as (i & Hi & ->). simpl in *.
      destruct (IH i Hd Hi) as (h & Hh & Hs & Hw); [naive_solver|].
      exists (s, h). by rewrite Hh. }
    assert (Hkeys : omap (fun e => str_key e.1) m = map fst k).
    { clear -Hk. induction Hk as [|[[] v] h m k Hh _ IH]; csimpl; try done.
      simpl in Hh. rewrite IH. apply fmap_Ok in Hh as (? & _ & ->). done. }
    rewrite Hkeys in Hnd.
    assert (Hkok : Forall (fun e => item_ok (IText e.1)) k).
    { clear -HQ Hall. induction HQ as [|i h l k [H1 _] _ IH]; [constructor|]. constructor.
      - rewrite <- H1. apply (Hall i). left.
      - apply IH. intros. apply Hall. by right. }
    apply mapM_Ok in Hk. rewrite Hk. simpl. eexists. split; [done|]. split.
    + cbn [item_of_hail]. symmetry.
      rewrite <- (map_map (fun e => (e.1, item_of_hail e.2)) (fun e => (IText e.1, e.2))).
      eapply sim_map; [| |apply Permutation_map, Permutation_map; by rewrite own_key_order_perm].
      * clear -HQ. induction HQ as [|i h l k (H1 & H2 & _) _ IH]; constructor; auto.
        by split; [|symmetry].
      * apply distinct_text_keys.
        -- apply Forall_fmap. eapply Forall_impl; [apply Hkok|]. done.
        -- rewrite map_map. done.
    + simpl. apply andb_true_iff. split.
      * apply bool_decide_eq_true. by rewrite own_key_order_perm.
      * rewrite own_key_order_perm. eapply forallb_Forall2_r, HQ. naive_solver.
Qed.

(** ** Canonical form *)

(** Map entries in the order of their encoded keys. *)
Definition key_order_leb {A} : jstr * A -> jstr * A -> bool := key_leb (fun e => encode_item (IText e.1)).

(** What decoding returns for a value: maps without a prototype, their members defined in
    encoded order. *)
Fixpoint canonical (v : hvalue) : hvalue :=
  match v with
  | HArr l => HArr (map canonical l)
  | HMap _ m =>
      HMap true (own_key_order (sort_by key_order_leb (map (fun e => (e.1, canonical e.2)) m)))
  | _ => v
  end.

Lemma hail_ok_arr l :
  item_ok (item_of_hail (HArr l)) -> Forall (fun v => item_ok (item_of_hail v)) l.
Proof. inversion 1; subst. by apply Forall_fmap. Qed.

Lemma hail_ok_map n m :
  item_ok (item_of_hail (HMap n m)) ->
  Forall (fun e => item_ok (IText e.1) /\ item_ok (item_of_hail e.2)) m.
Proof. inversion 1 as [| | | | | |? ? Hm|]; subst. by apply Forall_fmap in Hm. Qed.

Lemma hail_distinct_keys n (m : list (jstr * hvalue)) :
  item_ok (item_of_hail (HMap n m)) -> NoDup (map fst m) ->
  distinct_keys (map (fun e => (IText e.1, item_of_hail e.2)) m).
Proof.
  intros Hok Hnd. rewrite <- (map_map (fun e => (e.1, item_of_hail e.2)) (fun e => (IText e.1, e.2))).
  apply distinct_text_keys; [|by rewrite map_map].
  apply hail_ok_map in Hok. apply Forall_fmap.
  eapply Forall_impl; [apply Hok|]. naive_solver.
Qed.

(** Induction over values with distinct keys whose encoding is well-formed. *)
Lemma hail_wf_ind (P : hvalue -> Prop) :
  P HNull -> (forall b, P (HBool b)) -> (forall z, P (HNum z)) -> (forall s, P (HStr s)) ->
  (forall b, P (HBytes b)) -> (forall l, Forall P l -> P (HArr l)) ->
  (forall n m, Forall (fun e => P e.2) m -> NoDup (map fst m) ->
     distinct_keys (map (fun e => (IText e.1, item_of_hail e.2)) m) -> P (HMap n m)) ->
  forall v, hail_wf v = true -> item_ok (item_of_hail v) -> P v.
Proof.
  intros Hn Hb Hz Hs Hby Ha Hm.
  induction v as [|b|z|s|b|l IH|n m IH] using hvalue_ind'; intros Hwf Hok; simpl in Hwf; auto.
  - apply Ha. apply hail_ok_arr in Hok. apply forallb_Forall in Hwf.
    rewrite Forall_forall in *. auto.
  - apply andb_true_iff in Hwf as [Hnd Hwf]. apply bool_decide_eq_true in Hnd.
    apply Hm; [|done|by eapply hail_distinct_keys].
    apply hail_ok_map in Hok. apply forallb_Forall in Hwf.
    rewrite Forall_forall in *. intros e He. apply IH; [done|by apply (Hwf _ He)|by apply (Hok _ He)].
Qed.

Lemma sim_sort v : hail_wf v = true -> item_ok (item_of_hail v) ->
  sim (sort_item (item_of_hail v)) (item_of_hail v).
Proof.
  revert v. apply hail_wf_ind; try done.
  - intros l IH. apply sim_arr. rewrite map_map. by apply Forall2_fmap, Forall_Forall2_diag.
  - intros n m IH Hnd Hd. cbn [item_of_hail sort_item]. symmetry.
    eapply sim_map; [| |symmetry; apply sort_by_perm].
    + rewrite map_map. apply Forall2_fmap, Forall_Forall2_diag.
      eapply Forall_impl; [apply IH|]. intros e He. by split; [|symmetry].
    + unfold distinct_keys in *. by rewrite !map_map in *.
Qed.

Lemma hail_decodable tag v :
  hail_wf v = true -> item_ok (item_of_hail v) -> hail_item (item_of_hail v) = true ->
  decodable tag (item_of_hail v) = true.
Proof.
  revert v. apply (hail_wf_ind (fun v => hail_item (item_of_hail v) = true -> _)); try done.
  - intros l IH. simpl. rewrite !forallb_fmap, !forallb_Forall, !Forall_forall in *. auto.
  - intros n m IH Hnd Hd. simpl. rewrite andb_true_iff, bool_decide_eq_true.
    rewrite !forallb_fmap, !forallb_Forall, !Forall_forall in *. intros Hi.
    split; [done|]. intros e He. specialize (Hi e He). simpl in *. bools. by apply IH.
Qed.

Lemma narrow_js_of_item i : hail_item i = true -> narrow true (js_of_item i) = Some i.
Proof.
  induction i as [|b|z|b|s|l IH|m IH|t i IH] using item_ind'; simpl; try done; intros Hi.
  - apply forallb_Forall in Hi. rewrite (mapM_Forall2_map _ id _ l); [by rewrite map_id|].
    apply Forall2_fmap_l, Forall_Forall2_diag. rewrite Forall_forall in *. naive_solver.
  - apply forallb_Forall in Hi. rewrite (mapM_Forall2_map _ id _ m); [by rewrite map_id|].
    apply Forall2_fmap_l, Forall_Forall2_diag. rewrite Forall_forall in *. intros [k v] He.
    specialize (Hi _ He). destruct (IH _ He) as [_ IHv]. simpl in *. bools.
    destruct k; try done. simpl. by rewrite IHv.
Qed.

Lemma mapM_map_Ok {E A B C} (f : A -> result E B) (g : C -> A) (h : C -> B) l :
  Forall (fun c => f (g c) = Ok (h c)) l -> mapM f (map g l) = Ok (map h l).
Proof. intros H. apply mapM_Ok. induction H; simpl; by constructor. Qed.

Lemma mapsToObjects_canonical v :
  mapsToObjects (js_of_item (sort_item (item_of_hail v))) = Ok (canonical v).
Proof.
  induction v as [|b|z|s|b|l IH|n m IH] using hvalue_ind'; try done.
  - simpl. rewrite !map_map. by rewrite (mapM_map_Ok _ _ canonical).
  - cbn [item_of_hail canonical]. rewrite sort_item_map.
    set (m' := sort_by key_order_leb m).
    assert (Hf : forall {B} (f : jstr * hvalue -> B) (leb : B -> B -> bool),
      (forall a b, leb (f a) (f b) = key_order_leb a b) -> sort_by leb (map f m) = map f m').
    { intros B f leb Hleb. etrans; [apply (sort_by_fmap f)|]. apply (f_equal (map f)).
      by apply sort_by_ext. }
    rewrite !Hf by done. assert (IH' : Forall (fun e => mapsToObjects (js_of_item
      (sort_item (item_of_hail e.2))) = Ok (canonical e.2)) m') by (unfold m'; by rewrite sort_by_perm).
    clearbody m'. rewrite !map_map. cbn [js_of_item mapsToObjects]. rewrite map_map.
    rewrite (mapM_map_Ok _ _ (fun e => (e.1, canonical e.2))); [done|].
    eapply Forall_impl; [apply IH'|]. intros [k v] Hv. simpl in *. by rewrite Hv.
Qed.

(** ** Correctness of the codec *)

(** A value that respects the limits. *)
Record hail_fits (limits : HailResourceLimits) (v : hvalue) : Prop := {
  fits_wf : hail_wf v = true;
  fits_item : hail_item (item_of_hail v) = true;
  fits_depth : item_fits limits None 0 (item_of_hail v) = true;
  fits_count : item_count (item_of_hail v) <= maximumItems limits;
  fits_bytes : Z.of_nat (length (encode_item (item_of_hail v))) <= maximumBytes limits;
}.

Lemma hail_fits_ok limits v : hail_fits limits v -> item_ok (item_of_hail v).
Proof. intros []. by eapply hail_item_ok. Qed.

Lemma assertHailValue_fits limits x v :
  limits_ok limits -> js_wf x = true ->
  assertHailValue limits x = Ok v <->
  as_hail x = Some v /\ narrow false x = Some (item_of_hail v) /\ hail_fits limits v.
Proof.
  intros Hl Hwf. unfold assertHailValue. rewrite bind_Ok. setoid_rewrite checkValue_passes; [|done].
  split.
  - intros (c & (i & Hn & Hi & Hf & -> & Hm) & Hv).
    destruct (narrow_as_hail x i Hn Hwf) as (h & Hh & <- & Hw). rewrite Hh in Hv.
    rewrite encodedSize_length in Hv. destruct (Z.ltb_spec (maximumBytes limits)
      (Z.of_nat (length (encode_item (item_of_hail h))))); [done|].
    injection Hv as <-. by repeat split.
  - intros (Hv & Hn & [Hw Hi Hf Hc Hb]). eexists. split.
    + exists (item_of_hail v). repeat split; try done.
    + rewrite Hv, encodedSize_length. destruct (Z.ltb_spec (maximumBytes limits)
        (Z.of_nat (length (encode_item (item_of_hail v))))); [lia|done].
Qed.

Lemma equalBytes_eq a b : equalBytes a b = true <-> a = b.
Proof.
  unfold equalBytes. destruct (Nat.eqb_spec (length a) (length b)) as [Hlen|Hlen]; simpl.
  - revert b Hlen. induction a as [|x a IH]; intros [|y b] Hlen; simpl in *; try done.
    rewrite andb_true_iff, IH by lia. rewrite bool_decide_eq_true. naive_solver.
  - split; [done | by intros ->].
Qed.

Section codec_facts.
Context `{CborgSpec}.
#[local] Set Default Proof Using "All".

Lemma cborg_encode_hail x v limits :
  narrow false x = Some (item_of_hail v) -> hail_fits limits v ->
  encodeCbor x = Ok (encode_item (item_of_hail v)).
Proof.
  intros Hn Hf. unfold encodeCbor. rewrite (cborg_encode_item _ (item_of_hail v)); [done| | |].
  - by eapply narrow_item_of_js.
  - by eapply hail_fits_ok.
  - by apply hail_item_safe, Hf.
Qed.

Lemma encode_Ok limits x b :
  limits_ok limits -> js_wf x = true ->
  encodeDeterministic limits x = Ok b <->
  exists v, as_hail x = Some v /\ narrow false x = Some (item_of_hail v) /\
    hail_fits limits v /\ b = encode_item (item_of_hail v).
Proof.
  intros Hl Hwf. unfold encodeDeterministic. rewrite bind_Ok.
  setoid_rewrite (assertHailValue_fits limits x); [|done..]. split.
  - intros (v & (Hv & Hn & Hf) & Hb). exists v.
    rewrite (cborg_encode_hail x v limits Hn Hf) in Hb. simpl in Hb.
    destruct (_ <? _); [done|]. by injection Hb as <-.
  - intros (v & Hv & Hn & Hf & ->). exists v. split; [done|].
    rewrite (cborg_encode_hail x v limits Hn Hf). simpl.
    destruct Hf as [_ _ _ _ Hb]. destruct (Z.ltb_spec (maximumBytes limits)
      (Z.of_nat (length (encode_item (item_of_hail v))))); [lia|done].
Qed.

Lemma decode_fits limits v :
  limits_ok limits -> hail_fits limits v ->
  decodeDeterministic limits (encode_item (item_of_hail v)) = Ok (canonical v).
Proof.
  intros Hl Hf. assert (Hok := hail_fits_ok _ _ Hf). destruct Hf as [Hw Hi Hd Hc Hb].
  assert (Hsim := sim_sort v Hw Hok). set (j := sort_item (item_of_hail v)) in *.
  assert (Hij : hail_item j = true) by (by rewrite (sim_hail _ _ Hsim)).
  assert (Hdj : item_fits limits None 0 j = true) by (by rewrite (sim_fits _ _ Hsim)).
  unfold decodeDeterministic. rewrite assertCborResourceLimits_accepts by done. simpl.
  rewrite cborg_decode_item by (done || by apply hail_decodable). simpl. fold j.
  destruct (checkValue limits true (js_of_item j) (js "$") 0 0) as [c|e] eqn:Hcheck.
  2: { assert (checkValue limits true (js_of_item j) (js "$") 0 0 = Ok (0 + item_count j)) as Hcheck'.
       { apply checkValue_passes; [done|]. exists j. rewrite (sim_count _ _ Hsim).
         repeat split; try done. by apply narrow_js_of_item. }
       congruence. }
  simpl. unfold encodeCbor. rewrite (cborg_encode_item _ j).
  - simpl. rewrite (sim_encode _ _ Hsim). rewrite (proj2 (equalBytes_eq _ _) eq_refl). simpl.
    apply mapsToObjects_canonical.
  - by eapply narrow_item_of_js, narrow_js_of_item.
  - by eapply hail_item_ok.
  - by apply hail_item_safe.
Qed.

Lemma decode_Ok limits b h :
  limits_ok limits -> decodeDeterministic limits b = Ok h ->
  hail_fits limits h /\ b = encode_item (item_of_hail h).
Proof.
  intros Hl Hdec. unfold decodeDeterministic in Hdec.
  apply bind_Ok in Hdec as ([] & Hscan & Hdec).
  apply bind_Ok in Hdec as (d & Hd & Hdec).
  destruct (cborg_decode None b) as [d'|] eqn:Hcb; [|done]. injection Hd as ->.
  apply bind_Ok in Hdec as (c & Hcheck & Hdec).
  apply checkValue_passes in Hcheck as (i & Hn & Hi & Hf & -> & Hm); [|done].
  assert (Hok : item_ok i) by (by eapply hail_item_ok).
  apply bind_Ok in Hdec as (r & Hr & Hdec). unfold encodeCbor in Hr.
  rewrite (cborg_encode_item _ i) in Hr by
    (done || (by eapply narrow_item_of_js) || by apply hail_item_safe).
  injection Hr as <-. destruct (equalBytes b _) eqn:Heq; [|done]. simpl in Hdec.
  apply equalBytes_eq in Heq.
  destruct (mapsToObjects_spec d i (cborg_decode_value _ _ _ Hcb) Hn Hok)
    as (h' & Hh & Hsim & Hw). rewrite Hh in Hdec. injection Hdec as ->.
  assert (b = encode_item (item_of_hail h)) as Hb by (by rewrite (sim_encode _ _ Hsim)).
  split; [|done]. split.
  - done.
  - by rewrite (sim_hail _ _ Hsim).
  - by rewrite (sim_fits _ _ Hsim).
  - rewrite (sim_count _ _ Hsim). lia.
  - rewrite <- Hb. unfold assertCborResourceLimits in Hscan.
    destruct (Z.ltb_spec (maximumBytes limits) (Z.of_nat (length b))); [done|lia].
Qed.
End codec_facts.

(** ** A reference implementation of the package, for the examples *)

Module Reference.
Definition encode (v : jsval) : result thrown bytes :=
  match item_of_js v with
  | Some i => Ok (encode_item i)
  | None => Err (ErrorObject (js "unsupported value"))
  end.

Definition decode (tag : option Z) (b : bytes) : result thrown jsval :=
  match read_all b with
  | Some i =>
      if decodable tag i then Ok (js_of_item i) else Err (ErrorObject (js "unsupported item"))
  | None => Err (ErrorObject (js "malformed"))
  end.

Lemma decodable_sort tag i : decodable tag i = true -> decodable tag (sort_item i) = true.
Proof.
  induction i as [|b|z|b|s|l IH|m IH|t i IH] using item_ind'; simpl; try done.
  - rewrite forallb_fmap, !forallb_Forall, !Forall_forall in *. auto.
  - rewrite !andb_true_iff, !bool_decide_eq_true, !forallb_Forall. intros [Hnd Hd]. split.
    + rewrite sort_by_perm, map_map. cbn [fst]. 
      erewrite map_ext; [apply Hnd|]. intros e. apply encode_sort_item.
    + rewrite sort_by_perm. apply Forall_fmap. rewrite Forall_forall in *. intros e He.
      specialize (Hd e He). destruct (IH e He). simpl. bools. rewrite andb_true_iff. auto.
  - rewrite !andb_true_iff. naive_solver.
Qed.

Lemma decodable_decoded tag i : decodable tag i = true -> decoded_value (js_of_item i) = true.
Proof.
  induction i as [|b|z|b|s|l IH|m IH|t i IH] using item_ind'; simpl; try done.
  - rewrite forallb_fmap, !forallb_Forall, !Forall_forall in *. auto.
  - rewrite !andb_true_iff, !bool_decide_eq_true, forallb_fmap, !forallb_Forall. intros [Hnd Hd].
    split.
    + clear -Hnd. induction m as [|[k v] m IH]; csimpl; [constructor|].
      apply NoDup_cons in Hnd as [Hk Hnd]. specialize (IH Hnd).
      destruct k as [|b|z|b|s|l|m'|t i]; csimpl; try done.
      apply NoDup_cons. split; [|done]. intros Hin. apply Hk.
      apply list_elem_of_omap in Hin as ([k' v'] & Hin & Hs).
      apply list_elem_of_fmap in Hin as ([k2 v2] & [= -> ->] & Hin). simpl in Hs.
      destruct k2; try done. injection Hs as ->.
      apply (list_elem_of_fmap_2 (fun e : item * item => encode_item e.1) _ _ Hin).
    + rewrite Forall_forall in *. intros e He. specialize (Hd e He). destruct (IH e He).
      simpl. bools. rewrite andb_true_iff. auto.
  - rewrite !andb_true_iff. naive_solver.
Qed.

#[export] Instance cborg : Cborg := { cborg_encode := encode; cborg_decode := decode }.

#[export] Instance cborg_spec : CborgSpec.
Proof.
  split.
  - intros v i Hi _ _. simpl. unfold encode. by rewrite Hi.
  - intros tag i Hok Hd. simpl. unfold decode. rewrite read_all_encode by done.
    by rewrite decodable_sort.
  - intros tag b v Hv. simpl in Hv. unfold decode in Hv.
    destruct (read_all b) as [i|]; [|done]. destruct (decodable tag i) eqn:Hd; [|done].
    injection Hv as <-. by eapply decodable_decoded.
Qed.
End Reference.

(** ** Errors *)

Definition value_error (e : exn) : Prop :=
  match e with
  | CodecError c => code c = invalid_value \/ code c = resource_limit
  | _ => False
  end.

Definition value_errors {A} (m : M A) : Prop := match m with Ok _ => True | Err e => value_error e end.

Lemma value_errors_bind {A B} (m : M A) (f : A -> M B) :
  value_errors m -> (forall a, value_errors (f a)) -> value_errors (m ≫= f).
Proof. destruct m; simpl; auto. Qed.

Lemma checkValue_errors limits allowMaps v : forall path depth c,
  value_errors (checkValue limits allowMaps v path depth c).
Proof.
  induction v as [| |b|n|s|b|x slots IH|m IH|t v IH|p props IH|] using jsval_ind';
    intros path depth c; cbn [checkValue]; do 2 (destruct (_ <? _); [simpl; auto|]);
    try (simpl; by auto).
  - destruct (number_ok n); simpl; auto.
  - destruct (isWellFormed s); simpl; [|auto]. destruct (_ <? _); simpl; auto.
  - destruct (_ <? _); simpl; auto.
  - destruct (_ <? _); [simpl; auto|]. destruct (existsb _ _); [simpl; auto|].
    generalize 0%nat (c + 1). induction IH as [|s slots Hs _ IH]; intros index k; cbn [array_loop];
      [done|]. destruct s as [[[] v|]|]; try (simpl; by auto).
    apply value_errors_bind; auto.
  - destruct allowMaps; simpl negb; [|simpl; auto]. destruct (_ <? _); [simpl; auto|].
    generalize (c + 1). induction IH as [|[k v] m [_ Hv] _ IH]; intros n; cbn [map_loop]; [done|].
    destruct (_ <? _); [simpl; auto|]. destruct k; try (simpl; by auto).
    destruct (bad_key _ _); [simpl; auto|]. apply value_errors_bind; auto.
  - assert (Hloop : forall n, value_errors (object_loop limits
      (fun v path count => checkValue limits allowMaps v path (depth + 1) count) path props n)).
    { induction IH as [|[[k|] d] props Hv _ IH]; intros n; cbn [object_loop];
        [done| |simpl; by auto].
      destruct (_ <? _); [simpl; auto|]. destruct (bad_key _ _); [simpl; auto|].
      destruct d as [[] v|]; try (simpl; by auto). apply value_errors_bind; auto. }
    destruct p; [| |simpl; by auto];
      (destruct (existsb _ _); [simpl; auto|]; destruct (_ <? _); [simpl; auto|]; apply Hloop).
Qed.

(** ** Properties *)

Section properties.
Context `{CborgSpec}.
#[local] Set Default Proof Using "All".

(** C1: Decoding inverts encoding.  Whatever [encodeDeterministic] accepts is a HailValue, and
    [decodeDeterministic] with the same limits returns its canonical form: the same tree, with
    the members of every map in the order of the encoding. *)
Theorem decode_encode limits x b :
  limits_ok limits -> js_wf x = true ->
  encodeDeterministic limits x = Ok b ->
  exists v, as_hail x = Some v /\ decodeDeterministic limits b = Ok (canonical v).
Proof.
  intros Hl Hwf Henc. apply encode_Ok in Henc as (v & Hv & _ & Hf & ->); [|done..].
  exists v. split; [done|]. by apply decode_fits.
Qed.

(** C2: Encoding inverts decoding.  Every accepted byte string is the one encoding of the value
    it decodes to, and that value is already canonical. *)
Theorem encode_decode limits b h :
  limits_ok limits -> decodeDeterministic limits b = Ok h ->
  encodeDeterministic limits (of_hail h) = Ok b /\ canonical h = h.
Proof.
  intros Hl Hdec. destruct (decode_Ok limits b h Hl Hdec) as [Hf ->]. split.
  - apply encode_Ok; [done| |].
    + rewrite js_wf_of_hail. apply Hf.
    + exists h. repeat split; try apply Hf; [apply as_hail_of_hail | apply narrow_of_hail].
  - rewrite decode_fits in Hdec by done. congruence.
Qed.

(** C3: The encoding identifies values up to the order of map members (and the prototype of
    maps): two accepted values have the same bytes exactly when their canonical forms agree. *)
Theorem encoding_canonical limits x y v w b c :
  limits_ok limits -> js_wf x = true -> js_wf y = true ->
  as_hail x = Some v -> as_hail y = Some w ->
  encodeDeterministic limits x = Ok b -> encodeDeterministic limits y = Ok c ->
  b = c <-> canonical v = canonical w.
Proof.
  intros Hl Hx Hy Hv Hw Hb Hc.
  apply encode_Ok in Hb as (v' & Hv' & _ & Hfv & ->); [|done..].
  apply encode_Ok in Hc as (w' & Hw' & _ & Hfw & ->); [|done..]. simplify_eq.
  assert (Hdv := decode_fits limits v Hl Hfv). assert (Hdw := decode_fits limits w Hl Hfw).
  split; [intros Heq; congruence|]. intros Heq.
  apply decode_Ok in Hdv as [_ ->], Hdw as [_ ->]; [|done..]. by rewrite Heq.
Qed.

(** [encodeDeterministic] succeeds exactly when [assertHailValue] does, and the bytes are as
    many as [encodedSize] said: its own size check never fires and cborg never throws. *)
Theorem encode_total limits x :
  limits_ok limits -> js_wf x = true ->
  (forall e, assertHailValue limits x = Err e <-> encodeDeterministic limits x = Err e) /\
  (forall v, assertHailValue limits x = Ok v ->
    exists b, encodeDeterministic limits x = Ok b /\ Z.of_nat (length b) = encodedSize v).
Proof.
  intros Hl Hwf.
  assert (Hok : forall v, assertHailValue limits x = Ok v ->
    encodeDeterministic limits x = Ok (encode_item (item_of_hail v))).
  { intros v Ha. apply encode_Ok; [done..|]. exists v.
    apply assertHailValue_fits in Ha; [naive_solver|done..]. }
  split.
  - intros e. destruct (assertHailValue limits x) as [v|e'] eqn:Ha.
    + rewrite (Hok v eq_refl). split; intros [=].
    + unfold encodeDeterministic. rewrite Ha. simpl. split; intros [= ->]; done.
  - intros v Ha. eexists. split; [by apply Hok|]. by rewrite encodedSize_length.
Qed.

(** [decodeDeterministic] throws nothing but [HailCodecError], on any input. *)
Theorem decode_errors limits b e :
  limits_ok limits -> decodeDeterministic limits b = Err e -> exists c, e = CodecError c.
Proof.
  intros Hl. apply codec_only_Err. unfold decodeDeterministic.
  apply codec_only_bind; [apply assert_codec_only|]. intros [] _.
  apply codec_only_bind; [by repeat case_match|]. intros d Hd.
  apply codec_only_bind.
  { assert (He := checkValue_errors limits true d (js "$") 0 0).
    by destruct (checkValue _ _ _ _ _ _) as [|[]]. }
  intros c Hc. apply checkValue_passes in Hc as (i & Hn & Hi & Hf & _); [|done].
  assert (Hok : item_ok i) by (by eapply hail_item_ok).
  unfold encodeCbor. rewrite (cborg_encode_item _ i) by
    (done || (by eapply narrow_item_of_js) || by apply hail_item_safe).
  simpl. destruct (cborg_decode None b) as [d'|] eqn:Hcb; [|done]. injection Hd as ->.
  destruct (mapsToObjects_spec d i (cborg_decode_value _ _ _ Hcb) Hn Hok) as (h & -> & _).
  by case_match.
Qed.
End properties.

(** [assertHailValue] accepts an embedded HailValue exactly when every text is well-formed,
    every number safe, and the depth, the number of items, the lengths and the size of the
    encoding are within the limits. *)
Theorem assertHailValue_exact limits v :
  limits_ok limits -> hail_wf v = true ->
  assertHailValue limits (of_hail v) = Ok v <->
  hail_item (item_of_hail v) = true /\
  item_fits limits None 0 (item_of_hail v) = true /\
  item_count (item_of_hail v) <= maximumItems limits /\
  encodedSize v <= maximumBytes limits.
Proof.
  intros Hl Hwf. rewrite assertHailValue_fits, as_hail_of_hail, narrow_of_hail, encodedSize_length;
    [|done|by rewrite js_wf_of_hail].
  split; [intros (_ & _ & []); done|]. intros (? & ? & ? & ?). done.
Qed.

(** ** The properties at work *)

Lemma default_limits_ok : limits_ok DEFAULT_HAIL_RESOURCE_LIMITS.
Proof. by vm_compute. Qed.

Definition example_value : hvalue :=
  HMap false [(js "kind", HStr (js "note")); (js "10", HArr [HNum 500; HNull]); (js "2", HBytes [x00])].

Example decode_encode_witness : exists v,
  as_hail (of_hail example_value) = Some v /\
  decodeDeterministic (H := Reference.cborg) DEFAULT_HAIL_RESOURCE_LIMITS
    (encode_item (item_of_hail example_value)) = Ok (canonical v).
Proof.
  apply (decode_encode (H0 := Reference.cborg_spec) _ (of_hail example_value));
    [apply default_limits_ok | vm_compute; reflexivity ..].
Defined.

Example encode_decode_witness :
  encodeDeterministic (H := Reference.cborg) DEFAULT_HAIL_RESOURCE_LIMITS
    (of_hail (canonical example_value)) = Ok (encode_item (item_of_hail example_value)) /\
  canonical (canonical example_value) = canonical example_value.
Proof.
  apply (encode_decode (H0 := Reference.cborg_spec));
    [apply default_limits_ok | vm_compute; reflexivity].
Defined.

Example encoding_canonical_witness :
  encode_item (item_of_hail example_value) = encode_item (item_of_hail (canonical example_value))
  <-> canonical example_value = canonical (canonical example_value).
Proof.
  apply (encoding_canonical (H0 := Reference.cborg_spec) DEFAULT_HAIL_RESOURCE_LIMITS
    (of_hail example_value) (of_hail (canonical example_value)));
    [apply default_limits_ok | vm_compute; reflexivity ..].
Defined.

Example encode_total_witness :
  (forall e, assertHailValue DEFAULT_HAIL_RESOURCE_LIMITS (of_hail example_value) = Err e <->
     encodeDeterministic (H := Reference.cborg) DEFAULT_HAIL_RESOURCE_LIMITS
       (of_hail example_value) = Err e) /\
  (forall v, assertHailValue DEFAULT_HAIL_RESOURCE_LIMITS (of_hail example_value) = Ok v ->
    exists b, encodeDeterministic (H := Reference.cborg) DEFAULT_HAIL_RESOURCE_LIMITS
        (of_hail example_value) = Ok b /\ Z.of_nat (length b) = encodedSize v).
Proof.
  apply (encode_total (H0 := Reference.cborg_spec));
    [apply default_limits_ok | vm_compute; reflexivity].
Defined.

(** A map whose keys are out of order: 0xa2, 0x61 0x62, 1, 0x61 0x61, 2. *)
Example decode_errors_witness : exists c,
  CodecError (new_HailCodecError non_deterministic_cbor
    (js "input is not its deterministic RFC 8949 encoding") None) = CodecError c.
Proof.
  apply (decode_errors (H0 := Reference.cborg_spec) DEFAULT_HAIL_RESOURCE_LIMITS
    [xa2; x61; x62; x01; x61; x61; x02]); [apply default_limits_ok | vm_compute; reflexivity].
Defined.

Example assertHailValue_exact_witness :
  assertHailValue DEFAULT_HAIL_RESOURCE_LIMITS (of_hail example_value) = Ok example_value <->
  hail_item (item_of_hail example_value) = true /\
  item_fits DEFAULT_HAIL_RESOURCE_LIMITS None 0 (item_of_hail example_value) = true /\
  item_count (item_of_hail example_value) <= 16384 /\
  encodedSize example_value <= 1048576.
Proof.
  apply (assertHailValue_exact DEFAULT_HAIL_RESOURCE_LIMITS);
    [apply default_limits_ok | vm_compute; reflexivity].
Defined.
