(* ===== verification/Profiles.v ===== *)
(** * Payload types and signing profiles
    (packages/hail-codec-ts/src/profiles.ts, types.ts) *)

From S2P Require Import Prelude JsString.
From Stdlib Require Import ZArith.
Open Scope Z_scope.

Inductive HailSignedPayloadType :=
| address_binding | sender_profile | grant | connection_invitation | connection_confirmation
| connection_grant | connection_control | conversation | conversation_revival | envelope
| delivery_status.

Inductive HailPayloadType :=
| Signed (t : HailSignedPayloadType)
| body_spt_1 | body_spt_2 | body_spt_3.

#[export] Instance HailSignedPayloadType_eq_dec : EqDecision HailSignedPayloadType.
Proof. solve_decision. Defined.
#[export] Instance HailPayloadType_eq_dec : EqDecision HailPayloadType.
Proof. solve_decision. Defined.

Definition signed_types : list HailSignedPayloadType :=
  [address_binding; sender_profile; grant; connection_invitation; connection_confirmation;
   connection_grant; connection_control; conversation; conversation_revival; envelope;
   delivery_status].

Inductive HailKeyRole := hail_identity | hail_messaging.

#[export] Instance HailKeyRole_eq_dec : EqDecision HailKeyRole.
Proof. solve_decision. Defined.

Definition role_name (r : HailKeyRole) : jstr :=
  match r with
  | hail_identity => js "hail-identity"
  | hail_messaging => js "hail-messaging"
  end.

Record HailSignedProfile := {
  type_name : jstr;
  contentType : jstr;
  signerField : jstr;
  keyRole : HailKeyRole;
  maximumRepresentationBytes : option Z;
}.

Definition COSE_SIGN1_TAG : Z := 18.
Definition COSE_ALGORITHM_HEADER : Z := 1.
Definition COSE_CONTENT_TYPE_HEADER : Z := 3.
Definition COSE_KEY_ID_HEADER : Z := 4.
Definition COSE_ED25519_ALGORITHM : Z := -19.

Definition profile (t c s : String.string) (r : HailKeyRole) (m : Z) : HailSignedProfile := {|
  type_name := js t;
  contentType := js c;
  signerField := js s;
  keyRole := r;
  maximumRepresentationBytes := Some m;
|}.
Arguments profile (t c s)%_string r m.

Definition SIGNED_PROFILES (t : HailSignedPayloadType) : HailSignedProfile :=
  match t with
  | address_binding =>
      profile "hail.address-binding" "application/hail-address-binding+cbor"
        "did" hail_identity 16384
  | sender_profile =>
      profile "hail.sender-profile" "application/hail-sender-profile+cbor"
        "did" hail_messaging 65536
  | grant => profile "hail.grant" "application/hail-grant+cbor" "grantor" hail_identity 262144
  | connection_invitation =>
      profile "hail.connection-invitation" "application/hail-connection-invitation+cbor"
        "from" hail_identity 16384
  | connection_confirmation =>
      profile "hail.connection-confirmation" "application/hail-connection-confirmation+cbor"
        "from" hail_identity 16384
  | envelope =>
      profile "hail.envelope" "application/hail-envelope+cbor" "from" hail_messaging 16384
  | connection_grant =>
      profile "hail.connection-grant" "application/hail-connection-grant+cbor"
        "grantor" hail_identity 16384
  | connection_control =>
      profile "hail.connection-control" "application/hail-connection-control+cbor"
        "from" hail_messaging 16384
  | delivery_status =>
      profile "hail.delivery-status" "application/hail-delivery-status+cbor"
        "from" hail_messaging 16384
  | conversation =>
      profile "hail.conversation" "application/hail-conversation+cbor"
        "from" hail_messaging 16384
  | conversation_revival =>
      profile "hail.conversation-revival" "application/hail-conversation-revival+cbor"
        "from" hail_messaging 16384
  end.

(** The name of a payload type, as the member [type] of a payload spells it. *)
Definition payload_type_name (t : HailPayloadType) : jstr :=
  match t with
  | Signed t => type_name (SIGNED_PROFILES t)
  | body_spt_1 => js "hail.body.spt-1"
  | body_spt_2 => js "hail.body.spt-2"
  | body_spt_3 => js "hail.body.spt-3"
  end.

(** [value in SIGNED_PROFILES] also finds the members of [Object.prototype]. *)
Definition object_prototype_keys : list jstr :=
  map js ["constructor"; "__defineGetter__"; "__defineSetter__"; "hasOwnProperty";
          "__lookupGetter__"; "__lookupSetter__"; "isPrototypeOf"; "propertyIsEnumerable";
          "toString"; "valueOf"; "__proto__"; "toLocaleString"]%string.

Definition isSignedPayloadType (value : jstr) : bool :=
  includes (map (fun t => type_name (SIGNED_PROFILES t)) signed_types) value ||
  includes object_prototype_keys value.

(** A type is determined by its name and by its content type. *)
Lemma type_name_inj t u :
  type_name (SIGNED_PROFILES t) = type_name (SIGNED_PROFILES u) -> t = u.
Proof. destruct t, u; try done; vm_compute; discriminate. Qed.

Lemma contentType_inj t u :
  contentType (SIGNED_PROFILES t) = contentType (SIGNED_PROFILES u) -> t = u.
Proof. destruct t, u; try done; vm_compute; discriminate. Qed.
