(* ===== verification/Validation.v ===== *)
(** * Payload validation: primitives and text fields
    (packages/hail-codec-ts/src/validation.ts)

    A payload is a [HailValue]; a member is read as an option, [None] for [undefined].  Every
    validator throws [schema-violation] with the path of the offending member.  What the
    validators take from other packages and from Unicode tables is the class [HailEnv]. *)

From S2P Require Import Prelude JsString Regex Value Rfc8949 Scan Cbor Profiles.
From Stdlib Require Import ZArith.
Open Scope Z_scope.

(** ** The environment *)

Record DomainParts := {
  registrable : option jstr;   (** [parsedDomain.domain] *)
  isIcann : bool;
  isPrivate : bool;
}.

Record UrlParts := { protocol : jstr; username : jstr; password : jstr }.

Class HailEnv := {
  sha256 : bytes -> bytes;                     (** @noble/hashes *)
  normalize_NFC : jstr -> jstr;                (** [String.prototype.normalize("NFC")] *)
  toLowerCase : jstr -> jstr;                  (** [String.prototype.toLowerCase] *)
  toUnicode_error : jstr -> bool;              (** tr46, with the validator's options *)
  toASCII : jstr -> option jstr;               (** tr46, with the validator's options *)
  parseDomain : jstr -> DomainParts;           (** tldts, with the validator's options *)
  newURL : jstr -> option UrlParts;            (** the WHATWG parser; [None] when it throws *)
}.

(** ** Patterns *)

Definition lower_alnum : list (N * N) := [range "a" "z"; range "0" "9"].
Definition hex_digit : regex := RClass [range "0" "9"; range "a" "f"].

Definition DID_PATTERN : regex :=
  RSeq (lit "did:plc:") (rep (RClass [range "a" "z"; range "2" "7"]) 24).

Definition UUID_V7_PATTERN : regex :=
  seqs [rep hex_digit 8; lit "-"; rep hex_digit 4; lit "-7"; rep hex_digit 3; lit "-";
        RClass [one "8"; one "9"; one "a"; one "b"]; rep hex_digit 3; lit "-"; rep hex_digit 12].

Definition CATEGORY_PATTERN : regex :=
  RSeq (RClass lower_alnum) (rep_between (RClass (lower_alnum ++ [one "."; one "_"; one "-"])) 0 63).

(** The general categories Cc and Cf. *)
Definition CONTROL_OR_FORMAT : list (N * N) :=
  [(0x0, 0x1F); (0x7F, 0x9F); (0xAD, 0xAD); (0x600, 0x605); (0x61C, 0x61C); (0x6DD, 0x6DD);
   (0x70F, 0x70F); (0x890, 0x891); (0x8E2, 0x8E2); (0x180E, 0x180E); (0x200B, 0x200F);
   (0x202A, 0x202E); (0x2060, 0x2064); (0x2066, 0x206F); (0xFEFF, 0xFEFF); (0xFFF9, 0xFFFB);
   (0x110BD, 0x110BD); (0x110CD, 0x110CD); (0x13430, 0x1343F); (0x1BCA0, 0x1BCA3);
   (0x1D173, 0x1D17A); (0xE0001, 0xE0001); (0xE0020, 0xE007F)]%N.

Definition label_tail (inner : regex) : regex :=
  opt (RSeq inner (RClass lower_alnum)).
Definition ldh : regex := RClass (lower_alnum ++ [one "-"]).

Definition LOCAL_PART_PATTERN : regex :=
  let label := RSeq (RClass lower_alnum) (label_tail (RStar ldh)) in
  RSeq label (RStar (RSeq (lit ".") label)).

Definition DOMAIN_LABEL_PATTERN : regex :=
  RSeq (RClass lower_alnum) (label_tail (rep_between ldh 0 61)).

Definition MESSAGE_TYPES : list jstr :=
  map js ["personal"; "newsletter"; "promotion"; "receipt"; "invoice"; "ticket"; "boarding-pass";
          "account-alert"; "security-alert"; "package-update"; "calendar-event"]%string.
Definition DELIVERY_STATES : list jstr :=
  map js ["accepted"; "on-hold"; "delivered"; "failed"; "cancelled"]%string.
Definition HOLD_REASONS : list jstr :=
  map js ["sender-unreachable"; "body-temporarily-unavailable"; "body-transfer-interrupted";
          "sender-rate-limited"; "receiver-resource-constrained"]%string.
Definition FAILURE_REASONS : list jstr :=
  map js ["body-authorization-failed"; "body-integrity-failed"; "body-invalid";
          "body-unsupported"; "delivery-expired"; "receiver-policy-rejected"]%string.
Definition CANCELLATION_REASONS : list jstr :=
  map js ["recipient-cancelled"; "receiver-administrative-cancellation"]%string.

(** ** Primitive validators *)

Notation HailRecord := (list (jstr * hvalue)).
Notation field_value := (option hvalue).

Definition fail {A} (message path : jstr) : M A :=
  Err (CodecError (new_HailCodecError schema_violation message (Some path))).

(** [if (b) fail(message, path);] *)
Definition reject (b : bool) (message : String.string) (path : jstr) : M unit :=
  if b then fail (js message) path else Ok tt.
Arguments reject b message%_string path.

(** The member [key] of a record. *)
Definition get (r : HailRecord) (key : jstr) : field_value :=
  snd <$> List.find (fun e => jstr_eqb e.1 key) r.
Definition field (r : HailRecord) (key : String.string) : field_value := get r (js key).
Arguments field r key%_string.

(** [a === b] on primitives; two containers read from a payload are different objects. *)
Definition strict_eq (a b : field_value) : bool :=
  match a, b with
  | None, None => true
  | Some (HNull), Some (HNull) => true
  | Some (HBool x), Some (HBool y) => Bool.eqb x y
  | Some (HNum x), Some (HNum y) => x =? y
  | Some (HStr x), Some (HStr y) => jstr_eqb x y
  | _, _ => false
  end.

Definition is_str (v : field_value) (s : String.string) : bool := strict_eq v (Some (HStr (js s))).
Arguments is_str v s%_string.
Definition is_num (v : field_value) (z : Z) : bool := strict_eq v (Some (HNum z)).
Definition is_null (v : field_value) : bool := strict_eq v (Some HNull).
Definition is_undefined (v : field_value) : bool := match v with None => true | _ => false end.
(** [xs.includes(v)] with an array of strings. *)
Definition includes_value (xs : list jstr) (v : field_value) : bool :=
  match v with Some (HStr s) => includes xs s | _ => false end.

Definition member (path key : jstr) : jstr := path ++ js "." ++ key.
Definition dot (path : jstr) (key : String.string) : jstr := member path (js key).
Arguments dot path key%_string.
Definition root : jstr := js "$".

Definition record (value : field_value) (path : jstr) : M HailRecord :=
  match value with
  | Some (HMap _ entries) => Ok entries
  | _ => fail (js "must be a map") path
  end.

Definition exactKeys (value : HailRecord) (required optional : list jstr) (path : jstr) : M unit :=
  _ ← iforM 0 (map fst value) (fun _ key =>
        reject (negb (includes (required ++ optional) key)) "unknown member" (member path key));
  iforM 0 required (fun _ key =>
    reject (is_undefined (get value key)) "required member is absent" (member path key)).

Definition keys (ks : list String.string) : list jstr := map js ks.

Definition text (value : field_value) (path : jstr) : M jstr :=
  match value with Some (HStr s) => Ok s | _ => fail (js "must be text") path end.

Definition integer (value : field_value) (path : jstr) (minimum : Z) : M Z :=
  let bad := fail (js "must be an integer greater than or equal to " ++ show_Z minimum) path in
  match value with
  | Some (HNum z) => if negb (isSafeInteger z) || (z <? minimum) then bad else Ok z
  | _ => bad
  end.

Definition boolean (value : field_value) (path : jstr) : M bool :=
  match value with Some (HBool b) => Ok b | _ => fail (js "must be a boolean") path end.

Definition bytes_of (value : field_value) (len : Z) (path : jstr) : M bytes :=
  let bad := fail (js "must be exactly " ++ show_Z len ++ js " bytes") path in
  match value with
  | Some (HBytes b) => if Z.of_nat (length b) =? len then Ok b else bad
  | _ => bad
  end.

Definition array (value : field_value) (path : jstr) : M (list hvalue) :=
  match value with Some (HArr l) => Ok l | _ => fail (js "must be an array") path end.

Definition did (value : field_value) (path : jstr) : M jstr :=
  result ← text value path;
  _ ← reject (negb (rx_test DID_PATTERN result)) "must be a canonical did:plc identifier" path;
  Ok result.

Definition uuid (value : field_value) (path : jstr) : M jstr :=
  result ← text value path;
  _ ← reject (negb (rx_test UUID_V7_PATTERN result)) "must be a canonical UUIDv7" path;
  Ok result.

Definition category (value : field_value) (path : jstr) : M jstr :=
  result ← text value path;
  _ ← reject (negb (rx_test CATEGORY_PATTERN result)) "must be a canonical category ID" path;
  Ok result.

Definition digest (value : field_value) (path : jstr) : M unit :=
  item ← record value path;
  _ ← exactKeys item (keys ["algorithm"; "value"]%string) [] path;
  algorithm ← text (field item "algorithm") (dot path "algorithm");
  _ ← reject (negb (jstr_eqb algorithm (js "sha-256"))) "must equal sha-256" (dot path "algorithm");
  _ ← bytes_of (field item "value") 32 (dot path "value");
  Ok tt.

Definition keyId (value : field_value) (signer : jstr) (role : HailKeyRole) (path : jstr) : M unit :=
  result ← text value path;
  if negb (jstr_eqb result (signer ++ js "#" ++ role_name role)) then
    fail (js "must identify the signer's #" ++ role_name role ++ js " key") path
  else Ok tt.

Definition has_control_or_format (s : jstr) : bool :=
  existsb (in_ranges CONTROL_OR_FORMAT) (code_points s).

(** [address.slice(0, i)] and [address.slice(i + 1)] with [i] from [lastIndexOf]; without a
    match [i] is -1, which drops the last code unit from the first and nothing from the second. *)
Definition split_address (address : jstr) : jstr * jstr :=
  match last_index (char "@") address with
  | Some i => (take i address, drop (S i) address)
  | None => (take (length address - 1) address, address)
  end.

Section text_fields.
Context `{HailEnv}.

Definition hailAddress (value : field_value) (path : jstr) : M jstr :=
  address ← text value path;
  let '(local, domain) := split_address address in
  _ ← reject ((254 <? length address)%nat
        || (63 <? length local)%nat
        || negb (rx_test LOCAL_PART_PATTERN local)
        || (length domain =? 0)%nat
        || (253 <? length domain)%nat
        || negb (has_char (char ".") domain)
        || negb (jstr_eqb domain (toLowerCase domain))
        || existsb (fun label => negb (rx_test DOMAIN_LABEL_PATTERN label))
             (split_on (char ".") domain))
      "must be a canonical ASCII Hail address" path;
  match toASCII domain with
  | None => fail (js "must contain a valid IDNA domain") path
  | Some canonicalDomain =>
      _ ← reject (toUnicode_error domain) "must contain a valid IDNA domain" path;
      _ ← reject (negb (jstr_eqb canonicalDomain domain))
            "domain must use its canonical ASCII IDNA form" path;
      let parsedDomain := parseDomain domain in
      _ ← reject (match registrable parsedDomain with None => true | Some _ => false end
                  || negb (isIcann parsedDomain) && negb (isPrivate parsedDomain))
            "domain must end in a recognized public suffix" path;
      Ok address
  end.

Definition profileText (value : field_value) (minimum maximum : Z) (path : jstr) : M jstr :=
  result ← text value path;
  let size := utf8_length result in
  if (size <? minimum) || (maximum <? size) || negb (jstr_eqb (normalize_NFC result) result)
     || has_control_or_format result
  then fail (js "must be NFC plain text from " ++ show_Z minimum ++ js " through " ++
             show_Z maximum ++ js " UTF-8 bytes") path
  else Ok result.
End text_fields.

(** ** What a primitive that returns has seen *)

#[global] Arguments jstr_eqb : simpl never.
#[global] Arguments js : simpl never.
#[global] Arguments field : simpl never.
#[global] Arguments is_str : simpl never.
#[global] Arguments is_num : simpl never.
#[global] Arguments is_null : simpl never.

Lemma reject_Ok b m p u : reject b m p = Ok u <-> b = false.
Proof. destruct b, u; simpl; naive_solver. Qed.

Lemma text_Ok v p s : text v p = Ok s <-> v = Some (HStr s).
Proof. destruct v as [[]|]; simpl; naive_solver. Qed.

Lemma record_Ok v p m : record v p = Ok m <-> exists n, v = Some (HMap n m).
Proof. destruct v as [[]|]; simpl; naive_solver. Qed.

Lemma array_Ok v p l : array v p = Ok l <-> v = Some (HArr l).
Proof. destruct v as [[]|]; simpl; naive_solver. Qed.

Lemma boolean_Ok v p b : boolean v p = Ok b <-> v = Some (HBool b).
Proof. destruct v as [[]|]; simpl; naive_solver. Qed.

Lemma integer_Ok v p minimum z :
  integer v p minimum = Ok z <-> v = Some (HNum z) /\ isSafeInteger z = true /\ minimum <= z.
Proof.
  unfold integer. destruct v as [[]|]; try naive_solver.
  destruct (isSafeInteger z0) eqn:Hs, (Z.ltb_spec z0 minimum); simpl;
    split; intros; try discriminate; destruct_and?; simplify_eq; try done; try lia; try congruence.
Qed.

Lemma bytes_of_Ok v n p b :
  bytes_of v n p = Ok b <-> v = Some (HBytes b) /\ Z.of_nat (length b) = n.
Proof.
  unfold bytes_of. destruct v as [[]|]; try naive_solver.
  destruct (Z.eqb_spec (Z.of_nat (length b0)) n); naive_solver.
Qed.

Lemma did_Ok v p s : did v p = Ok s <-> v = Some (HStr s) /\ rx_test DID_PATTERN s = true.
Proof.
  unfold did. rewrite bind_Ok. setoid_rewrite text_Ok. split.
  - intros (s' & -> & H). apply bind_Ok in H as (u & Hr & [= ->]).
    apply reject_Ok in Hr. bools. done.
  - intros [-> Hs]. exists s. by rewrite Hs.
Qed.

Lemma uuid_Ok v p s : uuid v p = Ok s <-> v = Some (HStr s) /\ rx_test UUID_V7_PATTERN s = true.
Proof.
  unfold uuid. rewrite bind_Ok. setoid_rewrite text_Ok. split.
  - intros (s' & -> & H). apply bind_Ok in H as (u & Hr & [= ->]).
    apply reject_Ok in Hr. bools. done.
  - intros [-> Hs]. exists s. by rewrite Hs.
Qed.

Lemma category_Ok v p s :
  category v p = Ok s <-> v = Some (HStr s) /\ rx_test CATEGORY_PATTERN s = true.
Proof.
  unfold category. rewrite bind_Ok. setoid_rewrite text_Ok. split.
  - intros (s' & -> & H). apply bind_Ok in H as (u & Hr & [= ->]).
    apply reject_Ok in Hr. bools. done.
  - intros [-> Hs]. exists s. by rewrite Hs.
Qed.

Lemma exactKeys_Ok r required optional p u :
  exactKeys r required optional p = Ok u <->
  (forall k, k ∈ map fst r -> k ∈ required \/ k ∈ optional) /\
  (forall k, k ∈ required -> exists v, get r k = Some v).
Proof.
  unfold exactKeys. destruct u. rewrite bind_Ok. split.
  - intros ([] & H1 & H2). rewrite iforM_Ok in H1, H2. split.
    + intros k [i Hi]%list_elem_of_lookup. specialize (H1 _ _ Hi). apply reject_Ok in H1.
      apply negb_false_iff, includes_elem in H1. by apply elem_of_app in H1.
    + intros k [i Hi]%list_elem_of_lookup. specialize (H2 _ _ Hi). apply reject_Ok in H2.
      destruct (get r k); [by eexists|done].
  - intros [H1 H2]. exists tt. rewrite !iforM_Ok. split; intros i k Hi.
    + apply reject_Ok, negb_false_iff, includes_elem, elem_of_app, H1.
      by apply (list_elem_of_lookup_2 _ i).
    + apply reject_Ok. apply list_elem_of_lookup_2 in Hi. by destruct (H2 _ Hi) as [v ->].
Qed.

Lemma is_str_eq v s : is_str v s = true <-> v = Some (HStr (js s)).
Proof.
  unfold is_str, strict_eq. destruct v as [[]|]; try (split; naive_solver).
  rewrite jstr_eqb_eq. naive_solver.
Qed.

Lemma is_num_eq v z : is_num v z = true <-> v = Some (HNum z).
Proof.
  unfold is_num, strict_eq. destruct v as [[]|]; try (split; naive_solver).
  rewrite Z.eqb_eq. naive_solver.
Qed.

Lemma is_null_eq v : is_null v = true <-> v = Some HNull.
Proof. unfold is_null, strict_eq. destruct v as [[]|]; naive_solver. Qed.

Lemma strict_eq_strings a b x y :
  a = Some (HStr x) -> b = Some (HStr y) -> strict_eq a b = true <-> x = y.
Proof. intros -> ->. simpl. apply jstr_eqb_eq. Qed.

Lemma keyId_Ok v signer role p u :
  keyId v signer role p = Ok u <-> v = Some (HStr (signer ++ js "#" ++ role_name role)).
Proof.
  unfold keyId. destruct u. rewrite bind_Ok. setoid_rewrite text_Ok. split.
  - intros (s & -> & H). destruct (jstr_eqb s _) eqn:He; [|done].
    apply jstr_eqb_eq in He. by rewrite He.
  - intros ->. eexists. split; [done|]. by rewrite jstr_eqb_refl.
Qed.

Lemma digest_Ok v p u :
  digest v p = Ok u <->
  exists n m b, v = Some (HMap n m) /\
    (forall k, k ∈ map fst m -> k = js "algorithm" \/ k = js "value") /\
    field m "algorithm" = Some (HStr (js "sha-256")) /\
    field m "value" = Some (HBytes b) /\ length b = 32%nat.
Proof.
  destruct u. unfold digest. rewrite bind_Ok. setoid_rewrite record_Ok. split.
  - intros (m & (n & ->) & H). apply bind_Ok in H as (u & Hk & H).
    apply bind_Ok in H as (s & Hs & H). apply bind_Ok in H as (u' & Hr & H).
    apply bind_Ok in H as (b & Hb & _). apply text_Ok in Hs.
    apply reject_Ok, negb_false_iff, jstr_eqb_eq in Hr as ->.
    apply bytes_of_Ok in Hb as [Hb Hlen]. apply exactKeys_Ok in Hk as [Hk _].
    exists n, m, b. split_and!; try done; [|lia].
    intros k Hin. destruct (Hk k Hin) as [H|H]; [|by apply elem_of_nil in H].
    unfold keys in H. simpl in H. set_solver.
  - intros (n & m & b & -> & Hk & Ha & Hb & Hlen). exists m. split; [by eexists|].
    rewrite (proj2 (exactKeys_Ok m (keys ["algorithm"; "value"]%string) [] p tt)).
    + simpl. rewrite Ha. simpl. rewrite Hb. unfold bytes_of. by rewrite (proj2 (Z.eqb_eq (Z.of_nat (length b)) 32)) by lia.
    + unfold keys. simpl. split.
      * intros k Hin. left. destruct (Hk k Hin) as [-> | ->]; set_solver.
      * unfold field in *. intros k Hin.
        assert (k = js "algorithm" \/ k = js "value") as [-> | ->] by set_solver; eauto.
Qed.

Lemma hailAddress_text `{HailEnv} v p s : hailAddress v p = Ok s -> v = Some (HStr s).
Proof.
  unfold hailAddress. intros Ha. apply bind_Ok in Ha as (a & Ht & Ha). apply text_Ok in Ht as ->.
  destruct (split_address a) as [local domain]. apply bind_Ok in Ha as (u & _ & Ha).
  destruct (toASCII domain); [|done].
  apply bind_Ok in Ha as (? & _ & Ha). apply bind_Ok in Ha as (? & _ & Ha).
  apply bind_Ok in Ha as (? & _ & [= ->]). done.
Qed.

Lemma profileText_Ok `{HailEnv} v minimum maximum p s :
  profileText v minimum maximum p = Ok s <->
  v = Some (HStr s) /\ minimum <= utf8_length s <= maximum /\ normalize_NFC s = s /\
  has_control_or_format s = false.
Proof.
  unfold profileText. rewrite bind_Ok. setoid_rewrite text_Ok. split.
  - intros (s' & -> & Hs). destruct (_ || _) eqn:Hb; [done|]. injection Hs as ->.
    rewrite !orb_false_iff, negb_false_iff, jstr_eqb_eq, !Z.ltb_ge in Hb. naive_solver lia.
  - intros (-> & Hlen & Hn & Hc). exists s. split; [done|].
    destruct (_ || _) eqn:Hb; [|done].
    rewrite Hc, Hn, !orb_true_iff, !Z.ltb_lt, jstr_eqb_refl in Hb.
    naive_solver lia.
Qed.

(** Decompose a run of validators into what it has seen. *)
Ltac valid_step :=
  match goal with
  | H : _ ≫= _ = Ok _ |- _ =>
      let x := fresh "x" in let Hm := fresh "Hm" in apply bind_Ok in H as (x & Hm & H)
  | H : Err _ = Ok _ |- _ => discriminate H
  | H : fail _ _ = Ok _ |- _ => discriminate H
  | H : Ok _ = Ok _ |- _ => injection H as H
  | H : reject _ _ _ = Ok _ |- _ => apply reject_Ok in H
  | H : text _ _ = Ok _ |- _ => apply text_Ok in H
  | H : record _ _ = Ok _ |- _ => let n := fresh "n" in apply record_Ok in H as [n H]
  | H : array _ _ = Ok _ |- _ => apply array_Ok in H
  | H : boolean _ _ = Ok _ |- _ => apply boolean_Ok in H
  | H : integer _ _ _ = Ok _ |- _ => apply integer_Ok in H as (H & ? & ?)
  | H : bytes_of _ _ _ = Ok _ |- _ => apply bytes_of_Ok in H as (H & ?)
  | H : did _ _ = Ok _ |- _ => apply did_Ok in H as (H & ?)
  | H : uuid _ _ = Ok _ |- _ => apply uuid_Ok in H as (H & ?)
  | H : category _ _ = Ok _ |- _ => apply category_Ok in H as (H & ?)
  | H : keyId _ _ _ _ = Ok _ |- _ => apply keyId_Ok in H
  | H : profileText _ _ _ _ = Ok _ |- _ => apply profileText_Ok in H as (H & ? & ? & ?)
  | H : hailAddress _ _ = Ok _ |- _ => apply hailAddress_text in H
  | H : negb _ = false |- _ => apply negb_false_iff in H
  | H : _ || _ = false |- _ => apply orb_false_iff in H as [H ?]
  | H : is_str _ _ = true |- _ => apply is_str_eq in H
  | H : is_num _ _ = true |- _ => apply is_num_eq in H
  | H : is_null _ = true |- _ => apply is_null_eq in H
  | H : jstr_eqb _ _ = true |- _ => apply jstr_eqb_eq in H
  end.
Ltac valid := repeat (valid_step; cbv beta in *).

(** ** Members of a record *)

Lemma get_map (f : hvalue -> hvalue) (m : HailRecord) k :
  get (map (fun e => (e.1, f e.2)) m) k = f <$> get m k.
Proof.
  unfold get. induction m as [|e m IH]; [done|]. simpl. by case_match.
Qed.

Lemma get_In (m : HailRecord) k v : get m k = Some v -> (k, v) ∈ m.
Proof.
  unfold get. intros [e [He ->]]%fmap_Some. apply find_some in He as [He Hk].
  apply jstr_eqb_eq in Hk as <-. destruct e. by apply list_elem_of_In.
Qed.

Lemma get_None_iff (m : HailRecord) k : get m k = None <-> k ∉ map fst m.
Proof.
  unfold get. rewrite fmap_None. induction m as [|[k' v] m IH]; simpl; [by split; [set_solver|]|].
  rewrite not_elem_of_cons. destruct (jstr_eqb k' k) eqn:Hk; [apply jstr_eqb_eq in Hk|].
  - split; [done|]. by intros [? _].
  - rewrite IH. split; [|by intros [_ ?]]. intros Hm. split; [|done]. intros ->.
    by rewrite jstr_eqb_refl in Hk.
Qed.
