(* ===== verification/Png.v ===== *)
(** * PNG structure and asset manifests (packages/hail-codec-ts/src/validation.ts,
    [validatePngStructure], [validateAssetManifest])

    The validator walks the chunks of a PNG file: the lengths, the order of the chunks, the
    CRC of each and the header.  The loop is a fixpoint over fuel; the length of the data is
    always enough, because every chunk takes at least twelve bytes. *)

From S2P Require Import Prelude JsString Regex Value Scan Cbor Profiles Validation.
From Stdlib Require Import ZArith.
Open Scope Z_scope.

(** [data[i]!]; every index the code uses is within the data ([png_in_range] below). *)
Definition data_at (data : bytes) (i : nat) : Z :=
  match data !! i with Some b => Z.of_N (Byte.to_N b) | None => 0 end.

(** [view.getUint32(i)], big-endian. *)
Definition getUint32 (data : bytes) (i : nat) : Z :=
  data_at data i * 16777216 + data_at data (i + 1) * 65536 +
  data_at data (i + 2) * 256 + data_at data (i + 3).

(** *** CRC-32, on unsigned 32-bit integers *)

Definition crc_bit (crc : Z) : Z :=
  Z.lxor (Z.shiftr crc 1) (if Z.land crc 1 =? 0 then 0 else 0xedb88320).

Definition crc_byte (crc byte : Z) : Z := Nat.iter 8 crc_bit (Z.lxor crc byte).

Definition crc32 (data : bytes) (start stop : nat) : Z :=
  Z.lxor (fold_left (fun crc i => crc_byte crc (data_at data i))
            (List.seq start (stop - start)) 0xffffffff)
    0xffffffff.

(** ** The walk *)

Definition PNG_SIGNATURE : list Z := [137; 80; 78; 71; 13; 10; 26; 10].

Record png_state := {
  png_offset : nat;
  png_width : Z;
  png_height : Z;
  sawHeader : bool;
  sawData : bool;
  sawEnd : bool;
  sawPalette : bool;
  dataEnded : bool;
}.

Definition chunk_type (data : bytes) (offset : nat) : jstr :=
  map (fun i => Z.to_N (data_at data (offset + i))) [4; 5; 6; 7]%nat.

(** [valid[color]]: the bit depths of a color type. *)
Definition valid_depths (color : Z) : list Z :=
  match color with
  | 0 => [1; 2; 4; 8; 16]
  | 2 => [8; 16]
  | 3 => [1; 2; 4; 8]
  | 4 => [8; 16]
  | 6 => [8; 16]
  | _ => []
  end.

Section png.
Variable data : bytes.
Variable path : jstr.

(** The branch for one chunk of a type.  The result says whether to leave the loop. *)
Definition png_chunk (st : png_state) (type : jstr) (len : Z) (stop : nat) : M (png_state * bool) :=
  let offset := png_offset st in
  if jstr_eqb type (js "IHDR") then
    _ ← reject (sawHeader st || negb (len =? 13)) "contains an invalid PNG IHDR chunk" path;
    let depth := data_at data (offset + 16) in
    let color := data_at data (offset + 17) in
    _ ← reject (negb (existsb (Z.eqb depth) (valid_depths color))
                || negb (data_at data (offset + 18) =? 0)
                || negb (data_at data (offset + 19) =? 0)
                || negb (existsb (Z.eqb (data_at data (offset + 20))) [0; 1]))
          "contains an invalid PNG IHDR profile" path;
    Ok ({| png_offset := offset; png_width := getUint32 data (offset + 8);
           png_height := getUint32 data (offset + 12); sawHeader := true;
           sawData := sawData st; sawEnd := sawEnd st; sawPalette := sawPalette st;
           dataEnded := dataEnded st |}, false)
  else if jstr_eqb type (js "acTL") then fail (js "animated PNG is unsupported") path
  else if jstr_eqb type (js "PLTE") then
    _ ← reject (sawData st || sawPalette st || (len =? 0) || negb (len mod 3 =? 0) || (768 <? len))
          "contains an invalid PNG palette" path;
    Ok ({| png_offset := offset; png_width := png_width st; png_height := png_height st;
           sawHeader := sawHeader st; sawData := sawData st; sawEnd := sawEnd st;
           sawPalette := true; dataEnded := dataEnded st |}, false)
  else if jstr_eqb type (js "IDAT") then
    _ ← reject (dataEnded st) "contains nonconsecutive PNG image data" path;
    Ok ({| png_offset := offset; png_width := png_width st; png_height := png_height st;
           sawHeader := sawHeader st; sawData := true; sawEnd := sawEnd st;
           sawPalette := sawPalette st; dataEnded := dataEnded st |}, false)
  else if jstr_eqb type (js "IEND") then
    _ ← reject (negb (len =? 0) || negb (stop =? length data)%nat)
          "contains an invalid PNG IEND chunk" path;
    Ok ({| png_offset := offset; png_width := png_width st; png_height := png_height st;
           sawHeader := sawHeader st; sawData := sawData st; sawEnd := true;
           sawPalette := sawPalette st; dataEnded := dataEnded st |}, true)
  else
    let dataEnded' := if sawData st then true else dataEnded st in
    let first := match type with c :: _ => Z.of_N c | [] => 0 end in
    _ ← reject ((65 <=? first) && (first <=? 90)) "contains an unsupported critical PNG chunk" path;
    Ok ({| png_offset := offset; png_width := png_width st; png_height := png_height st;
           sawHeader := sawHeader st; sawData := sawData st; sawEnd := sawEnd st;
           sawPalette := sawPalette st; dataEnded := dataEnded' |}, false).

Definition at_offset (st : png_state) (offset : nat) : png_state :=
  {| png_offset := offset; png_width := png_width st; png_height := png_height st;
     sawHeader := sawHeader st; sawData := sawData st; sawEnd := sawEnd st;
     sawPalette := sawPalette st; dataEnded := dataEnded st |}.

Fixpoint png_loop (fuel : nat) (st : png_state) : M png_state :=
  let offset := png_offset st in
  if (offset + 12 <=? length data)%nat then
    match fuel with
    | O => Err OutOfFuel
    | S fuel =>
        let len := getUint32 data offset in
        let stop := Z.of_nat offset + 12 + len in
        _ ← reject (Z.of_nat (length data) <? stop) "contains a truncated PNG chunk" path;
        let stop := Z.to_nat stop in
        let type := chunk_type data offset in
        let body_end := (offset + 8 + Z.to_nat len)%nat in
        _ ← reject (negb (getUint32 data body_end =? crc32 data (offset + 4) body_end))
              "contains an invalid PNG chunk CRC" path;
        _ ← reject (negb (sawHeader st) && negb (jstr_eqb type (js "IHDR")))
              "must begin with a PNG IHDR chunk" path;
        '(st, break) ← png_chunk st type len stop;
        if break : bool then Ok st else png_loop fuel (at_offset st stop)
    end
  else Ok st.

Definition png_start : png_state :=
  {| png_offset := 8; png_width := 0; png_height := 0; sawHeader := false; sawData := false;
     sawEnd := false; sawPalette := false; dataEnded := false |}.

Definition png_incomplete (st : png_state) : bool :=
  let color := data_at data 25 in
  negb (sawHeader st) || negb (sawData st) || negb (sawEnd st) || (png_width st =? 0)
  || (png_height st =? 0) || (color =? 3) && negb (sawPalette st)
  || existsb (Z.eqb color) [0; 4] && sawPalette st.

Definition validatePngStructure : M (Z * Z) :=
  _ ← reject ((length data <? 45)%nat
        || existsb (fun '(i, byte) => negb (data_at data i =? byte)) (imap pair PNG_SIGNATURE))
        "must be a PNG image" path;
  st ← png_loop (length data) png_start;
  _ ← reject (png_incomplete st) "must be a complete PNG image" path;
  Ok (png_width st, png_height st).
End png.

(** ** Asset manifests (packages/hail-codec-ts/src/validation.ts, [validateAssetManifest]) *)

Definition ASSET_ID_PATTERN : regex :=
  RSeq (RClass [range "a" "z"]) (rep_between (RClass (lower_alnum ++ [one "-"])) 0 63).

(** The bounds on an asset in a role. *)
Record asset_bounds := { max_bytes : Z; max_width : Z; max_height : Z; max_pixels : Z }.

Definition asset_maximum (role : jstr) : asset_bounds :=
  if jstr_eqb role (js "avatar") then
    {| max_bytes := 32768; max_width := 512; max_height := 512; max_pixels := 262144 |}
  else
    {| max_bytes := 196608; max_width := 2400;
       max_height := if jstr_eqb role (js "image") then 2400 else 1200; max_pixels := 2000000 |}.

(** [actual.every((byte, index) => byte === expected[index])]. *)
Definition every_byte (actual expected : bytes) : bool :=
  forallb (fun '(i, byte) => bool_decide (expected !! i = Some byte)) (imap pair actual).

(** An [unknown] argument read from a member. *)
Definition js_of_field (v : field_value) : jsval :=
  match v with Some v => of_hail v | None => JUndefined end.

Section assets.
Context `{HailEnv}.

(** The callback for one asset; the sets of identifiers and roles seen so far. *)
Definition validate_asset (index : nat) (entry : hvalue) (seen : list jstr * list jstr)
    : M (list jstr * list jstr) :=
  let '(ids, roles) := seen in
  let path := js "$.assets[" ++ show_nat index ++ js "]" in
  asset ← record (Some entry) path;
  _ ← exactKeys asset (keys ["id"; "role"; "media_type"; "loading"; "size"; "digest"; "width";
        "height"; "data"]%string) [] path;
  id ← text (field asset "id") (dot path "id");
  role ← text (field asset "role") (dot path "role");
  _ ← reject (negb (rx_test ASSET_ID_PATTERN id) || includes ids id)
        "must be a unique canonical asset ID" (dot path "id");
  _ ← reject (negb (includes (keys ["avatar"; "header"; "image"]%string) role)
              || negb (jstr_eqb role (js "image")) && includes roles role)
        "must be a unique supported asset role" (dot path "role");
  _ ← reject (negb (is_str (field asset "media_type") "image/png")) "must equal image/png"
        (dot path "media_type");
  _ ← reject (negb (is_str (field asset "loading") "bundled")) "must equal bundled"
        (dot path "loading");
  data ← match field asset "data" with
         | Some (HBytes data) => Ok data
         | _ => fail (js "must be a byte string") (dot path "data")
         end;
  let maximum := asset_maximum role in
  size ← integer (field asset "size") (dot path "size") 1;
  _ ← reject (negb (size =? Z.of_nat (length data)) || (max_bytes maximum <? size))
        "does not match the bounded asset bytes" (dot path "size");
  _ ← digest (field asset "digest") (dot path "digest");
  digest_record ← record (field asset "digest") (dot path "digest");
  expected ← bytes_of (field digest_record "value") 32 (dot (dot path "digest") "value");
  _ ← reject (negb (every_byte (sha256 data) expected)) "does not match the asset bytes"
        (dot (dot path "digest") "value");
  '(png_w, png_h) ← validatePngStructure data (dot path "data");
  width ← integer (field asset "width") (dot path "width") 1;
  height ← integer (field asset "height") (dot path "height") 1;
  _ ← reject (negb (width =? png_w) || negb (height =? png_h) || (max_width maximum <? width)
              || (max_height maximum <? height) || (max_pixels maximum <? width * height))
        "does not match bounded PNG dimensions" (dot path "width");
  Ok (id :: ids, role :: roles).

Definition validateAssetManifest (value : jsval) : M hvalue :=
  value ← assertHailValue DEFAULT_HAIL_RESOURCE_LIMITS value;
  manifest ← record (Some value) root;
  _ ← exactKeys manifest (keys ["version"; "assets"]%string) [] root;
  _ ← reject (negb (is_num (field manifest "version") 1)) "must equal integer 1" (js "$.version");
  assets ← array (field manifest "assets") (js "$.assets");
  _ ← reject ((length assets <? 1)%nat || (8 <? length assets)%nat)
        "must contain one to eight assets" (js "$.assets");
  _ ← ifoldM 0 assets ([], []) validate_asset;
  Ok value.

(** [record(value, path).assets as HailRecord[]] after the manifest passed. *)
Definition manifest_assets (value : field_value) (path : jstr) : M (list HailRecord) :=
  manifest ← record value path;
  Ok (match field manifest "assets" with
      | Some (HArr l) => map (fun v => match v with HMap _ m => m | _ => [] end) l
      | _ => []
      end).
End assets.
