(* ===== verification/Payloads.v ===== *)
(** * Payload validators: identity, grants, connections, conversations, delivery status
    (packages/hail-codec-ts/src/validation.ts) *)

From S2P Require Import Prelude JsString Regex Value Cbor Profiles Validation Png.
From Stdlib Require Import ZArith.
Open Scope Z_scope.

(** [$.field] and [$.list[index]]. *)
Definition at_root (key : String.string) : jstr := dot root key.
Arguments at_root key%_string.
Definition at_entry (path : jstr) (index : nat) : jstr :=
  path ++ js "[" ++ show_nat index ++ js "]".

(** ** [String(value)]

    The conversion of an arbitrary payload value to a string.  A map without a prototype, or with
    a member [toString] of its own, has no callable [toString], and the conversion throws a
    [TypeError]. *)
Definition comma : jstr := js ",".
Fixpoint join (sep : jstr) (l : list jstr) : jstr :=
  match l with [] => [] | [s] => s | s :: l => s ++ sep ++ join sep l end.

Fixpoint js_String (v : hvalue) : M jstr :=
  match v with
  | HNull => Ok (js "null")
  | HBool b => Ok (if b then js "true" else js "false")
  | HNum z => Ok (show_Z z)
  | HStr s => Ok s
  | HBytes b => Ok (join comma (map (fun b => show_N (Byte.to_N b)) b))
  | HArr l =>
      join comma <$> mapM (fun v => match v with HNull => Ok [] | _ => js_String v end) l
  | HMap null_proto m =>
      if null_proto || includes (map fst m) (js "toString") then Err (OtherError (js "Cannot convert object to primitive value"))
      else Ok (js "[object Object]")
  end.

Definition String_of (v : field_value) : M jstr :=
  match v with Some v => js_String v | None => Ok (js "undefined") end.

Section payloads.
Context `{HailEnv}.

Definition validateAddressBinding (payload : HailRecord) : M unit :=
  _ ← exactKeys payload (keys ["version"; "type"; "address"; "did"; "issued_at"; "key_id"]%string)
        [] root;
  signer ← did (field payload "did") (at_root "did");
  _ ← hailAddress (field payload "address") (at_root "address");
  _ ← reject (negb (is_num (field payload "version") 2)) "must equal integer 2" (at_root "version");
  _ ← integer (field payload "issued_at") (at_root "issued_at") 0;
  keyId (field payload "key_id") signer hail_identity (at_root "key_id").

(** One entry of [categories]; the state is the previous identifier. *)
Definition profile_category (index : nat) (entry : hvalue) (previous : jstr) : M jstr :=
  let path := at_entry (at_root "categories") index in
  item ← record (Some entry) path;
  _ ← exactKeys item (keys ["id"; "label"]%string) (keys ["description"]%string) path;
  id ← category (field item "id") (dot path "id");
  _ ← reject (jstr_le id previous) "IDs must be unique and bytewise ascending" (dot path "id");
  _ ← profileText (field item "label") 1 128 (dot path "label");
  _ ← (if negb (is_undefined (field item "description")) then
         _ ← profileText (field item "description") 1 1024 (dot path "description"); Ok tt
       else Ok tt);
  Ok id.

Definition validateSenderProfile (payload : HailRecord) : M unit :=
  version ← integer (field payload "version") (at_root "version") 1;
  _ ← reject (negb (version =? 1) && negb (version =? 2)) "must equal integer 1 or 2"
        (at_root "version");
  _ ← exactKeys payload (keys ["type"; "version"; "did"; "revision"; "display_name"; "categories";
          "updated_at"; "key_id"]%string)
        (if version =? 1 then keys ["description"]%string
         else keys ["description"; "assets"]%string) root;
  signer ← did (field payload "did") (at_root "did");
  _ ← integer (field payload "revision") (at_root "revision") 1;
  _ ← profileText (field payload "display_name") 1 128 (at_root "display_name");
  _ ← (if negb (is_undefined (field payload "description")) then
         _ ← profileText (field payload "description") 1 1024 (at_root "description"); Ok tt
       else Ok tt);
  categories ← array (field payload "categories") (at_root "categories");
  _ ← reject (100 <? length categories)%nat "must contain at most 100 entries"
        (at_root "categories");
  _ ← ifoldM 0 categories [] profile_category;
  _ ← (if (version =? 2) && negb (is_undefined (field payload "assets")) then
         _ ← validateAssetManifest (js_of_field (field payload "assets"));
         assets ← manifest_assets (field payload "assets") (at_root "assets");
         reject (negb (length assets =? 1)%nat
                 || negb (is_str (match assets with a :: _ => field a "role" | [] => None end)
                            "avatar"))
           "must contain exactly one avatar asset" (at_root "assets")
       else Ok tt);
  _ ← integer (field payload "updated_at") (at_root "updated_at") 0;
  keyId (field payload "key_id") signer hail_messaging (at_root "key_id").

Definition scope_path : jstr := js "$.scope[0]".
Definition scope_category (index : nat) (entry : hvalue) (previous : jstr) : M jstr :=
  let path := at_entry (dot scope_path "values") index in
  current ← category (Some entry) path;
  _ ← reject (jstr_le current previous) "must be unique and bytewise ascending" path;
  Ok current.

Definition validateGrant (payload : HailRecord) : M unit :=
  _ ← exactKeys payload (keys ["type"; "version"; "grant_id"; "revision"; "previous"; "grantor";
        "grantee"; "scope"; "status"; "issued_at"; "updated_at"; "expires_at"; "consent_context";
        "key_id"]%string) [] root;
  _ ← uuid (field payload "grant_id") (at_root "grant_id");
  revision ← integer (field payload "revision") (at_root "revision") 1;
  _ ← reject (if revision =? 1 then negb (is_null (field payload "previous"))
              else negb (match field payload "previous" with Some (HBytes _) => true | _ => false end))
        "must be null for revision 1 and a digest for later revisions" (at_root "previous");
  _ ← (if 1 <? revision then
         _ ← bytes_of (field payload "previous") 32 (at_root "previous"); Ok tt
       else Ok tt);
  signer ← did (field payload "grantor") (at_root "grantor");
  _ ← did (field payload "grantee") (at_root "grantee");
  scope ← array (field payload "scope") (at_root "scope");
  _ ← reject (negb (length scope =? 1)%nat) "must contain exactly one selector" (at_root "scope");
  selector ← record (scope !! 0%nat) scope_path;
  selectorType ← text (field selector "type") (dot scope_path "type");
  _ ← (if jstr_eqb selectorType (js "categories") then
         _ ← exactKeys selector (keys ["type"; "values"]%string) [] scope_path;
         values ← array (field selector "values") (dot scope_path "values");
         _ ← reject (length values =? 0)%nat "must not be empty" (dot scope_path "values");
         _ ← ifoldM 0 values [] scope_category;
         Ok tt
       else fail (js "unknown scope selector") (dot scope_path "type"));
  status ← text (field payload "status") (at_root "status");
  _ ← reject (negb (jstr_eqb status (js "active")) && negb (jstr_eqb status (js "revoked")))
        "unknown grant status" (at_root "status");
  issuedAt ← integer (field payload "issued_at") (at_root "issued_at") 0;
  updatedAt ← integer (field payload "updated_at") (at_root "updated_at") 0;
  _ ← reject (updatedAt <? issuedAt) "must not precede issued_at" (at_root "updated_at");
  _ ← (if negb (is_null (field payload "expires_at")) then
         _ ← integer (field payload "expires_at") (at_root "expires_at") 0; Ok tt
       else Ok tt);
  consent ← record (field payload "consent_context") (at_root "consent_context");
  let path := at_root "consent_context" in
  _ ← exactKeys consent (keys ["grantee_address"; "address_binding_hash";
        "sender_profile_hash"]%string) [] path;
  _ ← hailAddress (field consent "grantee_address") (dot path "grantee_address");
  _ ← digest (field consent "address_binding_hash") (dot path "address_binding_hash");
  _ ← digest (field consent "sender_profile_hash") (dot path "sender_profile_hash");
  keyId (field payload "key_id") signer hail_identity (at_root "key_id").

Definition connectionExpiry (payload : HailRecord) (confirmation : bool) : M unit :=
  issued ← integer (field payload "issued_at") (at_root "issued_at") 0;
  if negb (is_null (field payload "expires_at")) then
    until ← integer (field payload "expires_at") (at_root "expires_at") 0;
    reject ((until <=? issued) || confirmation && (300 <? until - issued))
      "invalid connection validity window" (at_root "expires_at")
  else if confirmation then fail (js "confirmation must expire") (at_root "expires_at")
  else Ok tt.

Definition validateConnectionInvitation (payload : HailRecord) : M unit :=
  _ ← exactKeys payload (keys ["type"; "version"; "invitation_id"; "from"; "token_hash";
        "issued_at"; "expires_at"; "key_id"]%string) [] root;
  _ ← uuid (field payload "invitation_id") (at_root "invitation_id");
  owner ← did (field payload "from") (at_root "from");
  _ ← digest (field payload "token_hash") (at_root "token_hash");
  _ ← connectionExpiry payload false;
  keyId (field payload "key_id") owner hail_identity (at_root "key_id").

Definition validateConnectionConfirmation (payload : HailRecord) : M unit :=
  _ ← exactKeys payload (keys ["type"; "version"; "confirmation_id"; "from"; "to"; "invitation_id";
        "invitation_hash"; "issued_at"; "expires_at"; "key_id"]%string) [] root;
  _ ← uuid (field payload "confirmation_id") (at_root "confirmation_id");
  _ ← uuid (field payload "invitation_id") (at_root "invitation_id");
  actor ← did (field payload "from") (at_root "from");
  _ ← did (field payload "to") (at_root "to");
  _ ← reject (strict_eq (field payload "from") (field payload "to")) "cannot connect to self"
        (at_root "to");
  _ ← digest (field payload "invitation_hash") (at_root "invitation_hash");
  _ ← connectionExpiry payload true;
  keyId (field payload "key_id") actor hail_identity (at_root "key_id").

Definition conversation_member (index : nat) (entry : hvalue) (previous : jstr) : M jstr :=
  current ← did (Some entry) (at_entry (at_root "participants") index);
  _ ← reject (jstr_le current previous) "participants must be unique and sorted by DID"
        (at_root "participants");
  Ok current.

Definition validateConversation (payload : HailRecord) : M unit :=
  _ ← exactKeys payload (keys ["type"; "version"; "conversation_id"; "from"; "membership_revision";
        "participants"; "created_at"; "admission_until"]%string) [] root;
  _ ← uuid (field payload "conversation_id") (at_root "conversation_id");
  creator ← did (field payload "from") (at_root "from");
  _ ← reject (negb (is_num (field payload "membership_revision") 1))
        "fixed roster requires revision 1" (at_root "membership_revision");
  members ← array (field payload "participants") (at_root "participants");
  _ ← reject ((length members <? 3)%nat || (101 <? length members)%nat)
        "requires 3 to 101 participants" (at_root "participants");
  _ ← ifoldM 0 members [] conversation_member;
  _ ← reject (negb (existsb (fun m => strict_eq (Some m) (Some (HStr creator))) members))
        "creator must be a participant" (at_root "participants");
  created ← integer (field payload "created_at") (at_root "created_at") 0;
  until ← integer (field payload "admission_until") (at_root "admission_until") 0;
  reject ((until <=? created) || (604800 <? until - created))
    "admission window must be positive and at most 7 days" (at_root "admission_until").

Definition validateConversationRevival (payload : HailRecord) : M unit :=
  _ ← exactKeys payload (keys ["type"; "version"; "conversation_id"; "descriptor_hash"; "from";
        "to"; "request_id"; "issued_at"; "expires_at"]%string) [] root;
  _ ← uuid (field payload "conversation_id") (at_root "conversation_id");
  _ ← uuid (field payload "request_id") (at_root "request_id");
  _ ← digest (field payload "descriptor_hash") (at_root "descriptor_hash");
  from ← did (field payload "from") (at_root "from");
  to ← did (field payload "to") (at_root "to");
  _ ← reject (jstr_eqb from to) "revival requires a distinct recipient" (at_root "to");
  issued ← integer (field payload "issued_at") (at_root "issued_at") 0;
  expires ← integer (field payload "expires_at") (at_root "expires_at") 0;
  reject ((expires <=? issued) || (86400 <? expires - issued))
    "revival window must be positive and at most 24 hours" (at_root "expires_at").

Definition validateConnectionControl (payload : HailRecord) : M unit :=
  _ ← exactKeys payload (keys ["type"; "version"; "operation"; "from"; "to"; "request_id";
        "connection_id"; "epoch"; "state"; "proof_hash"; "issued_at"; "expires_at"; "key_id"]%string)
        [] root;
  actor ← did (field payload "from") (at_root "from");
  _ ← did (field payload "to") (at_root "to");
  _ ← reject (strict_eq (field payload "from") (field payload "to")) "distinct parties required"
        (at_root "to");
  _ ← uuid (field payload "request_id") (at_root "request_id");
  _ ← integer (field payload "epoch") (at_root "epoch") 0;
  operation ← String_of (field payload "operation");
  _ ← reject (negb (includes (keys ["probe"; "offer"; "connect"; "disconnect"; "snapshot";
        "admission"; "ack"]%string) operation)) "unknown operation" (at_root "operation");
  state ← String_of (field payload "state");
  _ ← reject (negb (includes (keys ["empty"; "active"; "disconnected"]%string) state))
        "unknown state" (at_root "state");
  _ ← (if is_str (field payload "state") "empty" then
         reject (negb (is_null (field payload "connection_id"))
                 || negb (is_num (field payload "epoch") 0))
           "empty pair has no epoch" (at_root "connection_id")
       else
         _ ← uuid (field payload "connection_id") (at_root "connection_id");
         _ ← integer (field payload "epoch") (at_root "epoch") 1;
         Ok tt);
  _ ← digest (field payload "proof_hash") (at_root "proof_hash");
  operation ← String_of (field payload "operation");
  let receipt := includes (keys ["snapshot"; "admission"; "ack"]%string) operation in
  _ ← integer (field payload "issued_at") (at_root "issued_at") 0;
  _ ← (if receipt then
         reject (negb (is_null (field payload "expires_at"))) "durable receipts do not expire"
           (at_root "expires_at")
       else connectionExpiry payload true);
  keyId (field payload "key_id") actor hail_messaging (at_root "key_id").

Definition validateConnectionGrant (payload : HailRecord) : M unit :=
  _ ← exactKeys payload (keys ["type"; "version"; "grant_id"; "connection_id"; "revision";
        "previous"; "grantor"; "grantee"; "status"; "issued_at"; "updated_at"; "expires_at";
        "consent_context"; "key_id"]%string) [] root;
  _ ← uuid (field payload "grant_id") (at_root "grant_id");
  _ ← uuid (field payload "connection_id") (at_root "connection_id");
  revision ← integer (field payload "revision") (at_root "revision") 1;
  _ ← (if revision =? 1 then
         reject (negb (is_null (field payload "previous"))) "initial revision has no predecessor"
           (at_root "previous")
       else _ ← bytes_of (field payload "previous") 32 (at_root "previous"); Ok tt);
  owner ← did (field payload "grantor") (at_root "grantor");
  _ ← did (field payload "grantee") (at_root "grantee");
  _ ← reject (strict_eq (field payload "grantor") (field payload "grantee"))
        "cannot connect to self" (at_root "grantee");
  _ ← reject (negb (is_str (field payload "status") "active")
              && negb (is_str (field payload "status") "revoked"))
        "unknown connection grant status" (at_root "status");
  _ ← connectionExpiry payload false;
  updatedAt ← integer (field payload "updated_at") (at_root "updated_at") 0;
  (* [Number(payload.issued_at)], an integer since [connectionExpiry] *)
  let issuedAt := match field payload "issued_at" with Some (HNum z) => z | _ => 0 end in
  _ ← reject (updatedAt <? issuedAt) "must not precede issued_at" (at_root "updated_at");
  let path := at_root "consent_context" in
  consent ← record (field payload "consent_context") path;
  _ ← exactKeys consent (keys ["grantee_address"; "address_binding_hash"; "invitation_hash";
        "confirmation_hash"]%string) [] path;
  _ ← hailAddress (field consent "grantee_address") (dot path "grantee_address");
  _ ← iforM 0 (keys ["address_binding_hash"; "invitation_hash"; "confirmation_hash"]%string)
        (fun _ key => digest (get consent key) (member path key));
  keyId (field payload "key_id") owner hail_identity (at_root "key_id").

Definition validateDeliveryStatus (payload : HailRecord) : M unit :=
  _ ← exactKeys payload (keys ["type"; "version"; "message_id"; "envelope_digest"; "from"; "to";
        "revision"; "state"; "occurred_at"]%string) (keys ["reason"; "retry_at"]%string) root;
  _ ← uuid (field payload "message_id") (at_root "message_id");
  _ ← digest (field payload "envelope_digest") (at_root "envelope_digest");
  _ ← did (field payload "from") (at_root "from");
  _ ← did (field payload "to") (at_root "to");
  revision ← integer (field payload "revision") (at_root "revision") 1;
  state ← text (field payload "state") (at_root "state");
  _ ← reject (negb (includes DELIVERY_STATES state)) "unknown delivery state" (at_root "state");
  _ ← reject (negb (Bool.eqb (revision =? 1) (jstr_eqb state (js "accepted"))))
        "accepted is required exactly for revision 1" (at_root "state");
  let reason := field payload "reason" in
  let needsReason := jstr_eqb state (js "on-hold") || jstr_eqb state (js "failed")
                     || jstr_eqb state (js "cancelled") in
  _ ← (if negb (Bool.eqb needsReason (negb (is_undefined reason))) then
         fail (if needsReason then js "is required for this state"
               else js "is prohibited for this state") (at_root "reason")
       else Ok tt);
  _ ← (if negb (is_undefined reason) then
         reason ← text reason (at_root "reason");
         let allowed :=
           if jstr_eqb state (js "on-hold") then HOLD_REASONS
           else if jstr_eqb state (js "failed") then FAILURE_REASONS
           else CANCELLATION_REASONS in
         reject (negb (includes allowed reason)) "reason is not valid for this state"
           (at_root "reason")
       else Ok tt);
  occurredAt ← integer (field payload "occurred_at") (at_root "occurred_at") 0;
  let retry_at := field payload "retry_at" in
  if jstr_eqb state (js "on-hold") then
    _ ← reject (is_undefined retry_at) "is required for on-hold" (at_root "retry_at");
    retry ← integer retry_at (at_root "retry_at") 0;
    reject (retry <? occurredAt) "must not precede occurred_at" (at_root "retry_at")
  else
    reject (negb (is_undefined retry_at)) "is prohibited for this state" (at_root "retry_at").
End payloads.
