(* ===== verification/Envelope.v ===== *)
(** * Envelope validation (packages/hail-codec-ts/src/validation.ts, [validateEnvelope])

    The validator is one function in the source; its consecutive parts (authorization, parent
    reference, body descriptor, reply permission) are definitions of their own here, run in the
    source's order by [validateEnvelope]. *)

From S2P Require Import Prelude JsString Regex Value Cbor Profiles Validation Png.
From S2P Require Import Payloads.
From Stdlib Require Import ZArith.
Open Scope Z_scope.

Section envelope.
Context `{HailEnv}.
Variable payload : HailRecord.

Definition version_is (z : Z) : bool := is_num (field payload "version") z.

(** The [conversation_introduction] member. *)
Definition validate_introduction (authorization : HailRecord) : M unit :=
  let path := at_root "conversation_introduction" in
  intro ← record (field payload "conversation_introduction") path;
  _ ← exactKeys intro (keys ["descriptor"; "connection_id"; "epoch"]%string) [] path;
  _ ← uuid (field intro "connection_id") (dot path "connection_id");
  _ ← integer (field intro "epoch") (dot path "epoch") 1;
  descriptor ← match field intro "descriptor" with
               | Some (HBytes d) =>
                   if (Z.of_nat (length d) <? 1) || (16384 <? Z.of_nat (length d)) then
                     fail (js "invalid signed descriptor bytes") (dot path "descriptor")
                   else Ok d
               | _ => fail (js "invalid signed descriptor bytes") (dot path "descriptor")
               end;
  _ ← reject (negb (strict_eq (field payload "from") (field authorization "creator"))
              || negb (is_undefined (field payload "in_reply_to"))
              || negb (strict_eq (field payload "conversation_message_id")
                         (field authorization "conversation_id")))
        "only the creator can introduce the root message" path;
  let hash_path := dot (at_root "authorization") "descriptor_hash" in
  expected ← record (field authorization "descriptor_hash") hash_path;
  (* [expected.value as Uint8Array], a digest since [validate_authorization] *)
  let value := match field expected "value" with Some (HBytes b) => b | _ => [] end in
  reject (negb (every_byte (sha256 descriptor) value)) "descriptor hash mismatch" hash_path.

Definition validate_authorization (authorization : HailRecord) (authorizationType : jstr) : M unit :=
  let path := at_root "authorization" in
  if jstr_eqb authorizationType (js "grant") then
    _ ← reject (negb (version_is 1)) "subscription authorization uses envelope version 1"
          (at_root "version");
    _ ← exactKeys authorization (keys ["type"; "grant_id"]%string) [] path;
    _ ← uuid (field authorization "grant_id") (dot path "grant_id");
    _ ← category (field payload "category") (at_root "category");
    Ok tt
  else if jstr_eqb authorizationType (js "reply") then
    _ ← reject (negb (version_is 1) && negb (version_is 3))
          "reply authorization uses envelope version 1 or 3" (at_root "version");
    _ ← exactKeys authorization (keys ["type"; "reply_to"]%string) [] path;
    _ ← uuid (field authorization "reply_to") (dot path "reply_to");
    reject (negb (is_undefined (field payload "category"))) "must be absent for replies"
      (at_root "category")
  else if jstr_eqb authorizationType (js "connection") then
    _ ← reject (negb (version_is 2) && negb (version_is 3))
          "connection authorization requires envelope version 2 or 3" (at_root "version");
    _ ← exactKeys authorization (keys ["type"; "connection_id"; "epoch"]%string) [] path;
    _ ← uuid (field authorization "connection_id") (dot path "connection_id");
    _ ← integer (field authorization "epoch") (dot path "epoch") 1;
    reject (negb (is_undefined (field payload "category")))
      "connections do not use subscription categories" (at_root "category")
  else if jstr_eqb authorizationType (js "conversation") then
    _ ← reject (negb (version_is 4)) "conversation authorization requires envelope version 4"
          (at_root "version");
    _ ← exactKeys authorization (keys ["type"; "creator"; "conversation_id"; "membership_revision";
          "descriptor_hash"]%string) [] path;
    _ ← did (field authorization "creator") (dot path "creator");
    _ ← uuid (field authorization "conversation_id") (dot path "conversation_id");
    _ ← reject (negb (is_num (field authorization "membership_revision") 1))
          "fixed roster requires revision 1" (dot path "membership_revision");
    _ ← digest (field authorization "descriptor_hash") (dot path "descriptor_hash");
    _ ← uuid (field payload "conversation_message_id") (at_root "conversation_message_id");
    _ ← reject (strict_eq (field payload "from") (field payload "to"))
          "distinct conversation participants required" (at_root "to");
    if negb (is_undefined (field payload "conversation_introduction")) then
      validate_introduction authorization
    else Ok tt
  else fail (js "unknown authorization type") (dot path "type").

Definition parent_reference : M HailRecord :=
  let path := at_root "in_reply_to" in
  parent ← record (field payload "in_reply_to") path;
  _ ← exactKeys parent (keys ["sender"; "message_id"]%string) [] path;
  _ ← did (field parent "sender") (dot path "sender");
  _ ← uuid (field parent "message_id") (dot path "message_id");
  Ok parent.

Definition validate_parent (authorization : HailRecord) (authorizationType : jstr) : M unit :=
  _ ← (if version_is 4 && negb (is_undefined (field payload "in_reply_to")) then
         parent ← parent_reference;
         reject (strict_eq (field parent "sender") (field payload "from")
                 && strict_eq (field parent "message_id") (field payload "conversation_message_id"))
           "conversation message cannot reply to itself" (at_root "in_reply_to")
       else Ok tt);
  if version_is 3 then
    parent ← parent_reference;
    _ ← reject (negb (strict_eq (field parent "sender") (field payload "to"))
                || strict_eq (field payload "from") (field payload "to"))
          "parent must be sent by the other participant" (dot (at_root "in_reply_to") "sender");
    reject (jstr_eqb authorizationType (js "reply")
            && negb (strict_eq (field parent "message_id") (field authorization "reply_to")))
      "parent must match reply authorization" (dot (at_root "in_reply_to") "message_id")
  else Ok tt.

Definition validate_body_descriptor (createdAt expiresAt : Z) : M unit :=
  let path := at_root "body" in
  body ← record (field payload "body") path;
  _ ← exactKeys body (keys ["digest"; "size"; "media_type"; "profile"; "available_until";
        "access"]%string) [] path;
  _ ← digest (field body "digest") (dot path "digest");
  size ← integer (field body "size") (dot path "size") 1;
  _ ← reject (1048576 <? size) "must not exceed 1048576 octets" (dot path "size");
  media_type ← text (field body "media_type") (dot path "media_type");
  _ ← reject (negb (jstr_eqb media_type (js "application/hail-body+cbor")))
        "unsupported body media type" (dot path "media_type");
  body_profile ← text (field body "profile") (dot path "profile");
  _ ← reject (negb (includes (keys ["spt-1"; "spt-2"; "spt-3"]%string) body_profile))
        "unsupported body profile" (dot path "profile");
  availableUntil ← integer (field body "available_until") (dot path "available_until") 0;
  _ ← reject ((availableUntil <? createdAt + 2592000) || (availableUntil <? expiresAt + 300)
              || (2678400 <? availableUntil - createdAt))
        "does not satisfy the required availability window" (dot path "available_until");
  let access_path := dot path "access" in
  access ← record (field body "access") access_path;
  _ ← exactKeys access (keys ["type"; "token"; "expires_at"]%string) [] access_path;
  access_type ← text (field access "type") (dot access_path "type");
  _ ← reject (negb (jstr_eqb access_type (js "bearer"))) "must equal bearer" (dot access_path "type");
  _ ← bytes_of (field access "token") 32 (dot access_path "token");
  expires ← integer (field access "expires_at") (dot access_path "expires_at") 0;
  reject ((expires <? availableUntil) || (2678400 <? expires - createdAt))
    "must be between available_until and created_at plus 31 days" (dot access_path "expires_at").

Definition validate_reply_permission (authorizationType : jstr) (createdAt : Z) : M unit :=
  let path := at_root "reply" in
  reply ← record (field payload "reply") path;
  allowed ← boolean (field reply "allowed") (dot path "allowed");
  _ ← reject ((jstr_eqb authorizationType (js "connection")
               || jstr_eqb authorizationType (js "conversation")) && allowed)
        "connection/conversation messages do not issue independent reply capabilities"
        (dot path "allowed");
  _ ← exactKeys reply (if allowed : bool then keys ["allowed"; "until"]%string
                       else keys ["allowed"]%string) [] path;
  if allowed : bool then
    until ← integer (field reply "until") (dot path "until") 0;
    reject (until <=? createdAt) "must be after created_at" (dot path "until")
  else Ok tt.

Definition validateEnvelope : M unit :=
  _ ← exactKeys payload (keys ["type"; "version"; "message_id"; "from"; "to"; "authorization";
        "created_at"; "expires_at"; "body"; "reply"]%string)
        (if version_is 4 then keys ["message_type"; "in_reply_to"; "conversation_message_id";
                                    "conversation_introduction"]%string
         else if version_is 3 then keys ["category"; "message_type"; "in_reply_to"]%string
         else keys ["category"; "message_type"]%string) root;
  _ ← uuid (field payload "message_id") (at_root "message_id");
  _ ← did (field payload "from") (at_root "from");
  _ ← did (field payload "to") (at_root "to");
  authorization ← record (field payload "authorization") (at_root "authorization");
  authorizationType ← text (field authorization "type") (dot (at_root "authorization") "type");
  _ ← validate_authorization authorization authorizationType;
  _ ← validate_parent authorization authorizationType;
  _ ← (if negb (is_undefined (field payload "category")) then
         _ ← category (field payload "category") (at_root "category"); Ok tt
       else Ok tt);
  _ ← (if negb (is_undefined (field payload "message_type")) then
         message_type ← text (field payload "message_type") (at_root "message_type");
         reject (negb (includes MESSAGE_TYPES message_type)) "unknown message type"
           (at_root "message_type")
       else Ok tt);
  createdAt ← integer (field payload "created_at") (at_root "created_at") 0;
  expiresAt ← integer (field payload "expires_at") (at_root "expires_at") 0;
  _ ← reject ((expiresAt <=? createdAt) || (604800 <? expiresAt - createdAt))
        "must be after created_at and no more than seven days later" (at_root "expires_at");
  _ ← validate_body_descriptor createdAt expiresAt;
  validate_reply_permission authorizationType createdAt.
End envelope.
