(* ===== verification/Bodies.v ===== *)
(** * Message bodies (packages/hail-codec-ts/src/validation.ts: attachments, spt-1, spt-2, spt-3) *)

From S2P Require Import Prelude JsString Regex Value Cbor Profiles Validation Png.
From S2P Require Import Payloads.
From Stdlib Require Import ZArith.
Open Scope Z_scope.

(** ** Patterns *)

(** A letter without regard to case, as the flag [i] matches ASCII letters. *)
Definition letter_ci (c : N) : regex :=
  if ((97 <=? c) && (c <=? 122))%N then RClass [(c, c); (c - 32, c - 32)%N] else RClass [(c, c)].
Definition lit_ci (s : String.string) : regex := foldr (fun c r => RSeq (letter_ci c) r) REmpty (js s).
Arguments lit_ci s%_string.
Definition any_unit : regex := RNot [].
(** [.]: anything but a line terminator. *)
Definition dot_unit : regex := RNot [(10, 10); (13, 13); (0x2028, 0x2029)]%N.
Definition alts (rs : list regex) : regex := foldr RAlt RNone rs.

Definition FILENAME_PATTERN : regex :=
  seqs [RNot [one "."]; RStar dot_unit; lit ".";
        alts (map lit_ci ["pdf"; "txt"; "log"; "png"; "jpg"; "jpeg"; "webp"]%string)].
Definition FILENAME_FORBIDDEN : list (N * N) := [one "\"; one "/"; (0x0, 0x1F); (0x7F, 0x7F)]%N.

Definition ends_with_ci (r : regex) (s : jstr) : bool := rx_test (RSeq (RStar any_unit) r) s.

Definition attachment_media_type (name : jstr) : String.string :=
  if ends_with_ci (lit_ci ".pdf") name then "application/pdf"%string
  else if ends_with_ci (lit_ci ".png") name then "image/png"%string
  else if ends_with_ci (seqs [lit_ci ".jp"; opt (lit_ci "e"); lit_ci "g"]) name then "image/jpeg"%string
  else if ends_with_ci (lit_ci ".webp") name then "image/webp"%string
  else "text/plain"%string.

Definition MARK_KEY_PATTERN : regex :=
  rep_between (RClass [range "A" "Z"; range "a" "z"; range "0" "9"; one "_"; one "-"]) 1 64.
Definition DECORATORS : list jstr := map js ["strong"; "em"; "code"]%string.

Definition whitespace : list (N * N) := [one " "; (9, 9); (13, 13); (10, 10)]%N.
Definition line_break : list (N * N) := [(13, 13); (10, 10)]%N.

Section bodies.
Context `{HailEnv}.

(** ** Attachments *)

(** One attachment; the state is the total size so far. *)
Definition validate_attachment (index : nat) (entry : hvalue) (total : Z) : M Z :=
  let path := at_entry (at_root "attachments") index in
  a ← record (Some entry) path;
  _ ← exactKeys a (keys ["filename"; "media_type"; "size"; "digest"]%string) [] path;
  name ← text (field a "filename") (dot path "filename");
  _ ← reject (negb (jstr_eqb (normalize_NFC name) name) || (255 <? utf8_length name)
              || existsb (in_ranges FILENAME_FORBIDDEN) name
              || negb (rx_test FILENAME_PATTERN name))
        "invalid attachment filename" path;
  _ ← reject (negb (is_str (field a "media_type") (attachment_media_type name)))
        "unsupported attachment type" path;
  size ← integer (field a "size") (dot path "size") 1;
  d ← record (field a "digest") (dot path "digest");
  _ ← exactKeys d (keys ["algorithm"; "value"]%string) [] (dot path "digest");
  _ ← reject (negb (is_str (field d "algorithm") "sha-256")
              || negb (match field d "value" with
                       | Some (HBytes b) => (length b =? 32)%nat
                       | _ => false
                       end))
        "invalid attachment digest" path;
  Ok (total + size).

Definition validateAttachments (value : field_value) : M unit :=
  entries ← array value (at_root "attachments");
  _ ← reject ((length entries =? 0)%nat || (20 <? length entries)%nat)
        "must contain 1 to 20 files" (at_root "attachments");
  total ← ifoldM 0 entries 0 validate_attachment;
  reject (26214400 <? total) "attachments exceed 25 MiB per message" (at_root "attachments").

Definition optional_attachments (payload : HailRecord) : M unit :=
  if negb (is_undefined (field payload "attachments")) then
    validateAttachments (field payload "attachments")
  else Ok tt.

(** ** Plain text *)

Definition spt1_span (path : jstr) (index : nat) (child : hvalue) : M unit :=
  let childPath := at_entry (dot path "children") index in
  span ← record (Some child) childPath;
  _ ← exactKeys span (keys ["_type"; "text"; "marks"]%string) [] childPath;
  _ ← reject (negb (is_str (field span "_type") "span")) "must equal span" (dot childPath "_type");
  _ ← text (field span "text") (dot childPath "text");
  marks ← array (field span "marks") (dot childPath "marks");
  reject (negb (length marks =? 0)%nat) "must be empty in spt-1" (dot childPath "marks").

Definition spt1_block (index : nat) (entry : hvalue) : M unit :=
  let path := at_entry (at_root "blocks") index in
  block ← record (Some entry) path;
  _ ← exactKeys block (keys ["_type"; "style"; "children"; "markDefs"]%string) [] path;
  _ ← reject (negb (is_str (field block "_type") "block")
              || negb (is_str (field block "style") "normal")) "unsupported text block" path;
  markDefs ← array (field block "markDefs") (dot path "markDefs");
  _ ← reject (negb (length markDefs =? 0)%nat) "must be empty in spt-1" (dot path "markDefs");
  children ← array (field block "children") (dot path "children");
  _ ← reject (length children =? 0)%nat "must contain at least one span" (dot path "children");
  iforM 0 children (spt1_span path).

Definition validateSpt1Body (payload : HailRecord) : M unit :=
  _ ← exactKeys payload (keys ["version"; "profile"; "blocks"]%string)
        (keys ["attachments"]%string) root;
  _ ← optional_attachments payload;
  _ ← reject (negb (is_num (field payload "version") 1)) "must equal integer 1" (at_root "version");
  _ ← reject (negb (is_str (field payload "profile") "spt-1")) "must equal spt-1"
        (at_root "profile");
  blocks ← array (field payload "blocks") (at_root "blocks");
  iforM 0 blocks spt1_block.

(** ** Structured text *)

(** One link definition; the state is the set of keys defined so far. *)
Definition spt2_definition (path : jstr) (index : nat) (entry : hvalue) (definitionKeys : list jstr)
    : M (list jstr) :=
  let definitionPath := at_entry (dot path "markDefs") index in
  definition ← record (Some entry) definitionPath;
  _ ← exactKeys definition (keys ["_key"; "_type"; "href"]%string) (keys ["title"]%string)
        definitionPath;
  key ← text (field definition "_key") (dot definitionPath "_key");
  _ ← reject (negb (rx_test MARK_KEY_PATTERN key) || includes DECORATORS key
              || includes definitionKeys key)
        "invalid or duplicate mark key" (dot definitionPath "_key");
  _ ← reject (negb (is_str (field definition "_type") "spt.link")) "unsupported mark definition"
        (dot definitionPath "_type");
  href ← text (field definition "href") (dot definitionPath "href");
  url ← match newURL href with
        | Some url => Ok url
        | None => fail (js "must be an absolute HTTPS URL") (dot definitionPath "href")
        end;
  _ ← reject (negb (starts_with (js "https://") href)
              || negb (jstr_eqb (protocol url) (js "https:"))
              || negb (length (username url) =? 0)%nat || negb (length (password url) =? 0)%nat)
        "must be an HTTPS URL without credentials" (dot definitionPath "href");
  _ ← (if negb (is_undefined (field definition "title")) then
         _ ← text (field definition "title") (dot definitionPath "title"); Ok tt
       else Ok tt);
  Ok (key :: definitionKeys).

Definition spt2_span (path : jstr) (definitionKeys : list jstr) (index : nat) (child : hvalue)
    : M unit :=
  let childPath := at_entry (dot path "children") index in
  span ← record (Some child) childPath;
  _ ← exactKeys span (keys ["_type"; "text"; "marks"]%string) [] childPath;
  _ ← reject (negb (is_str (field span "_type") "span")) "must equal span" (dot childPath "_type");
  _ ← text (field span "text") (dot childPath "text");
  marks ← array (field span "marks") (dot childPath "marks");
  marks ← ifoldM 0 marks [] (fun markIndex mark marks =>
            mark ← text (Some mark) (at_entry (dot childPath "marks") markIndex);
            Ok (marks ++ [mark]));
  reject (negb (bool_decide (NoDup marks))
          || existsb (fun mark => negb (includes DECORATORS mark)
                                  && negb (includes definitionKeys mark)) marks
          || (1 <? length (List.filter (includes definitionKeys) marks))%nat)
    "invalid, duplicate, or conflicting span mark" (dot childPath "marks").

(** The members the call-to-action checks read again; the casts hold since the checks above. *)
Definition text_of (v : field_value) : jstr := match v with Some (HStr s) => s | _ => [] end.

Definition spt2_cta (path : jstr) (block : HailRecord) (children : list hvalue) : M unit :=
  defs ← array (field block "markDefs") (dot path "markDefs");
  _ ← reject (negb (is_undefined (field block "listItem"))
              || negb (is_undefined (field block "level")) || negb (length defs =? 1)%nat)
        "call to action requires one link and cannot be a list" path;
  definition ← record (defs !! 0%nat) path;
  let key := field definition "_key" in
  texts ← mapM (fun entry => r ← record (Some entry) path; Ok (text_of (field r "text"))) children;
  let label := concat texts in
  _ ← (if forallb (in_ranges whitespace) label || existsb (in_ranges line_break) label
          || (128 <? utf8_length label)
       then fail (js "call-to-action label must be one line of 1" ++ [0x2013%N] ++
                  js "128 UTF-8 bytes") path
       else Ok tt);
  spans ← mapM (fun entry => r ← record (Some entry) path;
                  Ok (match field r "marks" with
                      | Some (HArr [mark]) => strict_eq (Some mark) key
                      | _ => false
                      end)) children;
  _ ← reject (existsb negb spans)
        "every call-to-action span must use its single link, without decorators" path;
  reject (2048 <? utf8_length (text_of (field definition "href")))
    "call-to-action URL exceeds 2048 UTF-8 bytes" path.

Definition spt2_block (index : nat) (entry : hvalue) : M unit :=
  let path := at_entry (at_root "blocks") index in
  block ← record (Some entry) path;
  _ ← exactKeys block (keys ["_type"; "style"; "children"; "markDefs"]%string)
        (keys ["listItem"; "level"; "alignment"]%string) path;
  _ ← reject (negb (is_str (field block "_type") "block")
              || negb (includes_value (keys ["normal"; "h1"; "h2"; "h3"; "blockquote"; "caption";
                   "cta"]%string) (field block "style")))
        "unsupported text block" path;
  let alignment := field block "alignment" in
  _ ← reject (negb (is_undefined alignment)
              && negb (includes_value (keys ["left"; "center"; "right"]%string) alignment))
        "unsupported text alignment" (dot path "alignment");
  let listItem := field block "listItem" in
  _ ← reject (negb (is_undefined listItem)
              && negb (includes_value (keys ["bullet"; "number"]%string) listItem))
        "unsupported list type" (dot path "listItem");
  _ ← (if negb (is_undefined (field block "level")) then
         if is_undefined listItem then fail (js "invalid list level") (dot path "level")
         else
           level ← integer (field block "level") (dot path "level") 1;
           reject (negb (existsb (Z.eqb level) [1; 2; 3])) "invalid list level" (dot path "level")
       else Ok tt);
  markDefs ← array (field block "markDefs") (dot path "markDefs");
  definitionKeys ← ifoldM 0 markDefs [] (spt2_definition path);
  children ← array (field block "children") (dot path "children");
  _ ← reject (length children =? 0)%nat "must contain at least one span" (dot path "children");
  _ ← iforM 0 children (spt2_span path definitionKeys);
  if is_str (field block "style") "cta" then spt2_cta path block children else Ok tt.

Definition validateSpt2Body (payload : HailRecord) : M unit :=
  _ ← exactKeys payload (keys ["version"; "profile"; "blocks"]%string)
        (keys ["attachments"]%string) root;
  _ ← optional_attachments payload;
  _ ← reject (negb (is_num (field payload "version") 1)) "must equal integer 1" (at_root "version");
  _ ← reject (negb (is_str (field payload "profile") "spt-2")) "must equal spt-2"
        (at_root "profile");
  blocks ← array (field payload "blocks") (at_root "blocks");
  iforM 0 blocks spt2_block.

(** ** Text with images *)

(** The variables the callback of [blocks.filter] assigns. *)
Record spt3_state := {
  used : list jstr;        (** the set of assets referenced, most recent first *)
  imageCount : nat;
  pixels : Z;
  textBlocks : list hvalue;
}.

Definition num_of (v : field_value) : Z := match v with Some (HNum z) => z | _ => 0 end.

Definition spt3_block (assets : list HailRecord) (index : nat) (entry : hvalue) (st : spt3_state)
    : M spt3_state :=
  let path := at_entry (at_root "blocks") index in
  block ← record (Some entry) path;
  if negb (is_str (field block "_type") "spt.image") then
    Ok {| used := used st; imageCount := imageCount st; pixels := pixels st;
          textBlocks := textBlocks st ++ [entry] |}
  else
    let count := S (imageCount st) in
    _ ← reject (8 <? count)%nat "at most eight image blocks are allowed" path;
    _ ← exactKeys block (keys ["_type"; "asset"; "alt"]%string) (keys ["caption"]%string) path;
    id ← text (field block "asset") (dot path "asset");
    let bad := fail (js "image must reference a bundled image, or a leading header")
                 (dot path "asset") in
    asset ← match List.find (fun asset => strict_eq (field asset "id") (Some (HStr id))) assets with
            | None => bad
            | Some asset =>
                if is_str (field asset "role") "header" && negb (index =? 0)%nat then bad
                else Ok asset
            end;
    _ ← profileText (field block "alt") 1 1024 (dot path "alt");
    _ ← (if negb (is_undefined (field block "caption")) then
           _ ← profileText (field block "caption") 1 1024 (dot path "caption"); Ok tt
         else Ok tt);
    Ok {| used := if includes (used st) id then used st else id :: used st;
          imageCount := count;
          pixels := pixels st + num_of (field asset "width") * num_of (field asset "height");
          textBlocks := textBlocks st |}.

Definition validateSpt3Body (payload : HailRecord) : M unit :=
  _ ← exactKeys payload (keys ["version"; "profile"; "assets"; "blocks"]%string)
        (keys ["attachments"]%string) root;
  _ ← optional_attachments payload;
  _ ← reject (negb (is_num (field payload "version") 1)) "must equal integer 1" (at_root "version");
  _ ← reject (negb (is_str (field payload "profile") "spt-3")) "must equal spt-3"
        (at_root "profile");
  _ ← validateAssetManifest (js_of_field (field payload "assets"));
  assets ← manifest_assets (field payload "assets") (at_root "assets");
  _ ← reject (existsb (fun asset => negb (includes_value (keys ["header"; "image"]%string)
                                            (field asset "role"))) assets)
        "message assets must have header or image role" (at_root "assets");
  blocks ← array (field payload "blocks") (at_root "blocks");
  st ← ifoldM 0 blocks {| used := []; imageCount := 0; pixels := 0; textBlocks := [] |}
         (spt3_block assets);
  _ ← reject ((imageCount st =? 0)%nat || negb (length (used st) =? length assets)%nat)
        "all assets must be referenced by image blocks" (at_root "assets");
  _ ← reject (8000000 <? pixels st) "image blocks exceed eight million decoded pixels"
        (at_root "blocks");
  validateSpt2Body [(js "version", HNum 1); (js "profile", HStr (js "spt-2"));
                    (js "blocks", HArr (textBlocks st))].
End bodies.
