(* ===== verification/ValidatePayload.v ===== *)
(** * Validating, encoding and decoding payloads
    (packages/hail-codec-ts/src/validation.ts [validatePayload], payload.ts) *)

From S2P Require Import Prelude JsString Regex Value Rfc8949 Scan Cbor Profiles Validation.
From S2P Require Import Png Payloads Envelope Bodies.
From Stdlib Require Import ZArith.
Open Scope Z_scope.

Section validate.
Context `{HailEnv}.

(** The check of [version] that the signed types share. *)
Definition wrong_version (t : HailSignedPayloadType) (payload : HailRecord) : bool :=
  let version := field payload "version" in
  negb (bool_decide (t = address_binding)) && negb (bool_decide (t = sender_profile))
  && negb (bool_decide (t = envelope)
           && (is_num version 2 || is_num version 3 || is_num version 4))
  && negb (is_num version 1).

Definition validate_signed (t : HailSignedPayloadType) (payload : HailRecord) : M unit :=
  match t with
  | address_binding => validateAddressBinding payload
  | sender_profile => validateSenderProfile payload
  | grant => validateGrant payload
  | connection_invitation => validateConnectionInvitation payload
  | connection_confirmation => validateConnectionConfirmation payload
  | connection_grant => validateConnectionGrant payload
  | connection_control => validateConnectionControl payload
  | conversation => validateConversation payload
  | conversation_revival => validateConversationRevival payload
  | envelope => validateEnvelope payload
  | delivery_status => validateDeliveryStatus payload
  end.

(** The checks on a narrowed payload. *)
Definition validate_record (expectedType : HailPayloadType) (payload : HailRecord) : M unit :=
  match expectedType with
  | body_spt_1 => validateSpt1Body payload
  | body_spt_2 => validateSpt2Body payload
  | body_spt_3 => validateSpt3Body payload
  | Signed t =>
      let name := type_name (SIGNED_PROFILES t) in
      _ ← (if negb (strict_eq (field payload "type") (Some (HStr name))) then
             fail (js "must equal " ++ name) (at_root "type")
           else Ok tt);
      _ ← reject (wrong_version t payload) "must equal integer 1" (at_root "version");
      validate_signed t payload
  end.

(** [asserts value is HailPayloadByType[T]]: the result is the narrowed value. *)
Definition validatePayload (expectedType : HailPayloadType) (value : jsval) : M hvalue :=
  value ← assertHailValue DEFAULT_HAIL_RESOURCE_LIMITS value;
  payload ← record (Some value) root;
  _ ← validate_record expectedType payload;
  Ok value.

Definition expectedKeyId (t : HailSignedPayloadType) (value : hvalue) : M jstr :=
  payload ← record (Some value) root;
  let profile := SIGNED_PROFILES t in
  signer ← did (get payload (signerField profile)) (member root (signerField profile));
  Ok (signer ++ js "#" ++ role_name (keyRole profile)).

Context `{Cborg}.

Definition encodePayload (t : HailPayloadType) (payload : jsval) (limits : HailResourceLimits)
    : M bytes :=
  _ ← validatePayload t payload;
  encodeDeterministic limits payload.

Definition decodePayload (t : HailPayloadType) (bs : bytes) (limits : HailResourceLimits)
    : M hvalue :=
  payload ← decodeDeterministic limits bs;
  validatePayload t (of_hail payload).
End validate.
