(* ===== verification/Models.v ===== *)
(** * The payload types (packages/hail-codec-ts/src/models.ts)

    The interfaces as records and inductive types.  A member whose type is a single literal
    carries no information and is left out of the record; the reader [as_*] of each type checks
    it.  A reader takes a [HailValue] at the type, as a TypeScript assertion claims to:
    [as_payload t v] is defined exactly when [v] has the type [HailPayloadByType[t]]. *)

From S2P Require Import Prelude JsString Value Profiles Validation.
From Stdlib Require Import ZArith.
Open Scope Z_scope.

(** ** Readers *)

Definition as_record (v : hvalue) : option HailRecord :=
  match v with HMap _ m => Some m | _ => None end.
Definition as_string (v : hvalue) : option jstr := match v with HStr s => Some s | _ => None end.
Definition as_number (v : hvalue) : option Z := match v with HNum z => Some z | _ => None end.
Definition as_bytes (v : hvalue) : option bytes := match v with HBytes b => Some b | _ => None end.
Definition as_list {A} (f : hvalue -> option A) (v : hvalue) : option (list A) :=
  match v with HArr l => mapM f l | _ => None end.
Definition as_nullable {A} (f : hvalue -> option A) (v : hvalue) : option (option A) :=
  match v with HNull => Some None | _ => Some <$> f v end.

(** A member, an optional member ([m?: T]), and members of literal type. *)
Definition req {A} (r : HailRecord) (k : String.string) (f : hvalue -> option A) : option A :=
  v ← field r k; f v.
Definition optional {A} (r : HailRecord) (k : String.string) (f : hvalue -> option A)
    : option (option A) :=
  match field r k with None => Some None | Some v => Some <$> f v end.
Definition lit_str (r : HailRecord) (k s : String.string) : option unit :=
  if is_str (field r k) s then Some tt else None.
Definition lit_num (r : HailRecord) (k : String.string) (z : Z) : option unit :=
  if is_num (field r k) z then Some tt else None.
Definition absent (r : HailRecord) (k : String.string) : option unit :=
  if is_undefined (field r k) then Some tt else None.
Arguments req {A} r k%_string f.
Arguments optional {A} r k%_string f.
Arguments lit_str r (k s)%_string.
Arguments lit_num r k%_string z.
Arguments absent r k%_string.

(** A union of string literals. *)
Fixpoint enum {A} (table : list (String.string * A)) (s : jstr) : option A :=
  match table with
  | [] => None
  | (name, a) :: table => if jstr_eqb s (js name) then Some a else enum table s
  end.
Definition as_enum {A} (table : list (String.string * A)) (v : hvalue) : option A :=
  s ← as_string v; enum table s.

(** ** Shared parts *)

Record HailDigest := { digest_value : bytes }.
Definition as_HailDigest (v : hvalue) : option HailDigest :=
  r ← as_record v;
  _ ← lit_str r "algorithm" "sha-256";
  value ← req r "value" as_bytes;
  Some {| digest_value := value |}.

Inductive asset_role := avatar | header | image.
Definition asset_roles : list (String.string * asset_role) :=
  [("avatar", avatar); ("header", header); ("image", image)]%string.

Record HailBundledImageAsset := {
  asset_id : jstr; asset_role_ : asset_role; asset_size : Z; asset_digest : HailDigest;
  asset_width : Z; asset_height : Z; asset_data : bytes;
}.
Definition as_HailBundledImageAsset (v : hvalue) : option HailBundledImageAsset :=
  r ← as_record v;
  _ ← lit_str r "media_type" "image/png";
  _ ← lit_str r "loading" "bundled";
  asset_id ← req r "id" as_string;
  asset_role_ ← req r "role" (as_enum asset_roles);
  asset_size ← req r "size" as_number;
  asset_digest ← req r "digest" as_HailDigest;
  asset_width ← req r "width" as_number;
  asset_height ← req r "height" as_number;
  asset_data ← req r "data" as_bytes;
  Some {| asset_id := asset_id; asset_role_ := asset_role_; asset_size := asset_size;
          asset_digest := asset_digest; asset_width := asset_width;
          asset_height := asset_height; asset_data := asset_data |}.

(** [[T, ...T[]]]. *)
Definition as_nonempty {A} (f : hvalue -> option A) (v : hvalue) : option (A * list A) :=
  l ← as_list f v; match l with [] => None | a :: l => Some (a, l) end.

Record HailAssetManifest := { manifest_list : HailBundledImageAsset * list HailBundledImageAsset }.
Definition as_HailAssetManifest (v : hvalue) : option HailAssetManifest :=
  r ← as_record v;
  _ ← lit_num r "version" 1;
  assets ← req r "assets" (as_nonempty as_HailBundledImageAsset);
  Some {| manifest_list := assets |}.

(** ** Identity *)

Record HailAddressBinding := {
  ab_address : jstr; ab_did : jstr; ab_issued_at : Z; ab_key_id : jstr;
}.
Definition as_HailAddressBinding (v : hvalue) : option HailAddressBinding :=
  r ← as_record v;
  _ ← lit_str r "type" "hail.address-binding";
  _ ← lit_num r "version" 2;
  ab_address ← req r "address" as_string;
  ab_did ← req r "did" as_string;
  ab_issued_at ← req r "issued_at" as_number;
  ab_key_id ← req r "key_id" as_string;
  Some {| ab_address := ab_address; ab_did := ab_did; ab_issued_at := ab_issued_at;
          ab_key_id := ab_key_id |}.

Record HailSenderCategory := { cat_id : jstr; cat_label : jstr; cat_description : option jstr }.
Definition as_HailSenderCategory (v : hvalue) : option HailSenderCategory :=
  r ← as_record v;
  cat_id ← req r "id" as_string;
  cat_label ← req r "label" as_string;
  cat_description ← optional r "description" as_string;
  Some {| cat_id := cat_id; cat_label := cat_label; cat_description := cat_description |}.

Record HailSenderProfileBase := {
  sp_did : jstr; sp_revision : Z; sp_display_name : jstr; sp_description : option jstr;
  sp_categories : list HailSenderCategory; sp_updated_at : Z; sp_key_id : jstr;
}.
Inductive HailSenderProfile :=
| HailSenderProfileV1 (base : HailSenderProfileBase)
| HailSenderProfileV2 (base : HailSenderProfileBase) (assets : option HailAssetManifest).

Definition as_HailSenderProfileBase (r : HailRecord) : option HailSenderProfileBase :=
  _ ← lit_str r "type" "hail.sender-profile";
  sp_did ← req r "did" as_string;
  sp_revision ← req r "revision" as_number;
  sp_display_name ← req r "display_name" as_string;
  sp_description ← optional r "description" as_string;
  sp_categories ← req r "categories" (as_list as_HailSenderCategory);
  sp_updated_at ← req r "updated_at" as_number;
  sp_key_id ← req r "key_id" as_string;
  Some {| sp_did := sp_did; sp_revision := sp_revision; sp_display_name := sp_display_name;
          sp_description := sp_description; sp_categories := sp_categories;
          sp_updated_at := sp_updated_at; sp_key_id := sp_key_id |}.
Definition as_HailSenderProfile (v : hvalue) : option HailSenderProfile :=
  r ← as_record v;
  base ← as_HailSenderProfileBase r;
  if is_num (field r "version") 1 then Some (HailSenderProfileV1 base)
  else
    _ ← lit_num r "version" 2;
    HailSenderProfileV2 base <$> optional r "assets" as_HailAssetManifest.

(** ** Grants and connections *)

Record HailGrantScope := { scope_values : list jstr }.
Definition as_HailGrantScope (v : hvalue) : option HailGrantScope :=
  r ← as_record v;
  _ ← lit_str r "type" "categories";
  scope_values ← req r "values" (as_list as_string);
  Some {| scope_values := scope_values |}.
(** [[T]]. *)
Definition as_singleton {A} (f : hvalue -> option A) (v : hvalue) : option A :=
  l ← as_list f v; match l with [a] => Some a | _ => None end.

Record HailConsentContext := {
  cc_grantee_address : jstr; cc_address_binding_hash : HailDigest; cc_sender_profile_hash : HailDigest;
}.
Definition as_HailConsentContext (v : hvalue) : option HailConsentContext :=
  r ← as_record v;
  cc_grantee_address ← req r "grantee_address" as_string;
  cc_address_binding_hash ← req r "address_binding_hash" as_HailDigest;
  cc_sender_profile_hash ← req r "sender_profile_hash" as_HailDigest;
  Some {| cc_grantee_address := cc_grantee_address;
          cc_address_binding_hash := cc_address_binding_hash;
          cc_sender_profile_hash := cc_sender_profile_hash |}.

Inductive grant_status := grant_active | grant_revoked.
Definition grant_statuses : list (String.string * grant_status) :=
  [("active", grant_active); ("revoked", grant_revoked)]%string.

Record HailGrant := {
  g_grant_id : jstr; g_revision : Z; g_previous : option bytes; g_grantor : jstr;
  g_grantee : jstr; g_scope : HailGrantScope; g_status : grant_status; g_issued_at : Z;
  g_updated_at : Z; g_expires_at : option Z; g_consent_context : HailConsentContext;
  g_key_id : jstr;
}.
Definition as_HailGrant (v : hvalue) : option HailGrant :=
  r ← as_record v;
  _ ← lit_str r "type" "hail.grant";
  _ ← lit_num r "version" 1;
  g_grant_id ← req r "grant_id" as_string;
  g_revision ← req r "revision" as_number;
  g_previous ← req r "previous" (as_nullable as_bytes);
  g_grantor ← req r "grantor" as_string;
  g_grantee ← req r "grantee" as_string;
  g_scope ← req r "scope" (as_singleton as_HailGrantScope);
  g_status ← req r "status" (as_enum grant_statuses);
  g_issued_at ← req r "issued_at" as_number;
  g_updated_at ← req r "updated_at" as_number;
  g_expires_at ← req r "expires_at" (as_nullable as_number);
  g_consent_context ← req r "consent_context" as_HailConsentContext;
  g_key_id ← req r "key_id" as_string;
  Some {| g_grant_id := g_grant_id; g_revision := g_revision; g_previous := g_previous;
          g_grantor := g_grantor; g_grantee := g_grantee; g_scope := g_scope;
          g_status := g_status; g_issued_at := g_issued_at; g_updated_at := g_updated_at;
          g_expires_at := g_expires_at; g_consent_context := g_consent_context;
          g_key_id := g_key_id |}.

Record HailConnectionInvitation := {
  ci_invitation_id : jstr; ci_from : jstr; ci_token_hash : HailDigest; ci_issued_at : Z;
  ci_expires_at : option Z; ci_key_id : jstr;
}.
Definition as_HailConnectionInvitation (v : hvalue) : option HailConnectionInvitation :=
  r ← as_record v;
  _ ← lit_str r "type" "hail.connection-invitation";
  _ ← lit_num r "version" 1;
  ci_invitation_id ← req r "invitation_id" as_string;
  ci_from ← req r "from" as_string;
  ci_token_hash ← req r "token_hash" as_HailDigest;
  ci_issued_at ← req r "issued_at" as_number;
  ci_expires_at ← req r "expires_at" (as_nullable as_number);
  ci_key_id ← req r "key_id" as_string;
  Some {| ci_invitation_id := ci_invitation_id; ci_from := ci_from;
          ci_token_hash := ci_token_hash; ci_issued_at := ci_issued_at;
          ci_expires_at := ci_expires_at; ci_key_id := ci_key_id |}.

Record HailConnectionConfirmation := {
  cf_confirmation_id : jstr; cf_from : jstr; cf_to : jstr; cf_invitation_id : jstr;
  cf_invitation_hash : HailDigest; cf_issued_at : Z; cf_expires_at : Z; cf_key_id : jstr;
}.
Definition as_HailConnectionConfirmation (v : hvalue) : option HailConnectionConfirmation :=
  r ← as_record v;
  _ ← lit_str r "type" "hail.connection-confirmation";
  _ ← lit_num r "version" 1;
  cf_confirmation_id ← req r "confirmation_id" as_string;
  cf_from ← req r "from" as_string;
  cf_to ← req r "to" as_string;
  cf_invitation_id ← req r "invitation_id" as_string;
  cf_invitation_hash ← req r "invitation_hash" as_HailDigest;
  cf_issued_at ← req r "issued_at" as_number;
  cf_expires_at ← req r "expires_at" as_number;
  cf_key_id ← req r "key_id" as_string;
  Some {| cf_confirmation_id := cf_confirmation_id; cf_from := cf_from; cf_to := cf_to;
          cf_invitation_id := cf_invitation_id; cf_invitation_hash := cf_invitation_hash;
          cf_issued_at := cf_issued_at; cf_expires_at := cf_expires_at;
          cf_key_id := cf_key_id |}.

Record connection_consent := {
  cn_grantee_address : jstr; cn_address_binding_hash : HailDigest;
  cn_invitation_hash : HailDigest; cn_confirmation_hash : HailDigest;
}.
Definition as_connection_consent (v : hvalue) : option connection_consent :=
  r ← as_record v;
  cn_grantee_address ← req r "grantee_address" as_string;
  cn_address_binding_hash ← req r "address_binding_hash" as_HailDigest;
  cn_invitation_hash ← req r "invitation_hash" as_HailDigest;
  cn_confirmation_hash ← req r "confirmation_hash" as_HailDigest;
  Some {| cn_grantee_address := cn_grantee_address;
          cn_address_binding_hash := cn_address_binding_hash;
          cn_invitation_hash := cn_invitation_hash;
          cn_confirmation_hash := cn_confirmation_hash |}.

Record HailConnectionGrant := {
  cg_grant_id : jstr; cg_connection_id : jstr; cg_revision : Z; cg_previous : option bytes;
  cg_grantor : jstr; cg_grantee : jstr; cg_status : grant_status; cg_issued_at : Z;
  cg_updated_at : Z; cg_expires_at : option Z; cg_consent_context : connection_consent;
  cg_key_id : jstr;
}.
Definition as_HailConnectionGrant (v : hvalue) : option HailConnectionGrant :=
  r ← as_record v;
  _ ← lit_str r "type" "hail.connection-grant";
  _ ← lit_num r "version" 1;
  cg_grant_id ← req r "grant_id" as_string;
  cg_connection_id ← req r "connection_id" as_string;
  cg_revision ← req r "revision" as_number;
  cg_previous ← req r "previous" (as_nullable as_bytes);
  cg_grantor ← req r "grantor" as_string;
  cg_grantee ← req r "grantee" as_string;
  cg_status ← req r "status" (as_enum grant_statuses);
  cg_issued_at ← req r "issued_at" as_number;
  cg_updated_at ← req r "updated_at" as_number;
  cg_expires_at ← req r "expires_at" (as_nullable as_number);
  cg_consent_context ← req r "consent_context" as_connection_consent;
  cg_key_id ← req r "key_id" as_string;
  Some {| cg_grant_id := cg_grant_id; cg_connection_id := cg_connection_id;
          cg_revision := cg_revision; cg_previous := cg_previous; cg_grantor := cg_grantor;
          cg_grantee := cg_grantee; cg_status := cg_status; cg_issued_at := cg_issued_at;
          cg_updated_at := cg_updated_at; cg_expires_at := cg_expires_at;
          cg_consent_context := cg_consent_context; cg_key_id := cg_key_id |}.

Inductive control_operation := probe | offer | connect | disconnect | snapshot | admission | ack.
Inductive control_state := pair_empty | pair_active | pair_disconnected.
Definition control_operations : list (String.string * control_operation) :=
  [("probe", probe); ("offer", offer); ("connect", connect); ("disconnect", disconnect);
   ("snapshot", snapshot); ("admission", admission); ("ack", ack)]%string.
Definition control_states : list (String.string * control_state) :=
  [("empty", pair_empty); ("active", pair_active); ("disconnected", pair_disconnected)]%string.

Record HailConnectionControl := {
  ct_operation : control_operation; ct_from : jstr; ct_to : jstr; ct_request_id : jstr;
  ct_connection_id : option jstr; ct_epoch : Z; ct_state : control_state;
  ct_proof_hash : HailDigest; ct_issued_at : Z; ct_expires_at : option Z; ct_key_id : jstr;
}.
Definition as_HailConnectionControl (v : hvalue) : option HailConnectionControl :=
  r ← as_record v;
  _ ← lit_str r "type" "hail.connection-control";
  _ ← lit_num r "version" 1;
  ct_operation ← req r "operation" (as_enum control_operations);
  ct_from ← req r "from" as_string;
  ct_to ← req r "to" as_string;
  ct_request_id ← req r "request_id" as_string;
  ct_connection_id ← req r "connection_id" (as_nullable as_string);
  ct_epoch ← req r "epoch" as_number;
  ct_state ← req r "state" (as_enum control_states);
  ct_proof_hash ← req r "proof_hash" as_HailDigest;
  ct_issued_at ← req r "issued_at" as_number;
  ct_expires_at ← req r "expires_at" (as_nullable as_number);
  ct_key_id ← req r "key_id" as_string;
  Some {| ct_operation := ct_operation; ct_from := ct_from; ct_to := ct_to;
          ct_request_id := ct_request_id; ct_connection_id := ct_connection_id;
          ct_epoch := ct_epoch; ct_state := ct_state; ct_proof_hash := ct_proof_hash;
          ct_issued_at := ct_issued_at; ct_expires_at := ct_expires_at;
          ct_key_id := ct_key_id |}.

(** ** Conversations *)

Record HailConversation := {
  cv_conversation_id : jstr; cv_from : jstr; cv_participants : list jstr; cv_created_at : Z;
  cv_admission_until : Z;
}.
Definition as_HailConversation (v : hvalue) : option HailConversation :=
  r ← as_record v;
  _ ← lit_str r "type" "hail.conversation";
  _ ← lit_num r "version" 1;
  _ ← lit_num r "membership_revision" 1;
  cv_conversation_id ← req r "conversation_id" as_string;
  cv_from ← req r "from" as_string;
  cv_participants ← req r "participants" (as_list as_string);
  cv_created_at ← req r "created_at" as_number;
  cv_admission_until ← req r "admission_until" as_number;
  Some {| cv_conversation_id := cv_conversation_id; cv_from := cv_from;
          cv_participants := cv_participants; cv_created_at := cv_created_at;
          cv_admission_until := cv_admission_until |}.

Record HailConversationRevival := {
  rv_conversation_id : jstr; rv_descriptor_hash : HailDigest; rv_from : jstr; rv_to : jstr;
  rv_request_id : jstr; rv_issued_at : Z; rv_expires_at : Z;
}.
Definition as_HailConversationRevival (v : hvalue) : option HailConversationRevival :=
  r ← as_record v;
  _ ← lit_str r "type" "hail.conversation-revival";
  _ ← lit_num r "version" 1;
  rv_conversation_id ← req r "conversation_id" as_string;
  rv_descriptor_hash ← req r "descriptor_hash" as_HailDigest;
  rv_from ← req r "from" as_string;
  rv_to ← req r "to" as_string;
  rv_request_id ← req r "request_id" as_string;
  rv_issued_at ← req r "issued_at" as_number;
  rv_expires_at ← req r "expires_at" as_number;
  Some {| rv_conversation_id := rv_conversation_id; rv_descriptor_hash := rv_descriptor_hash;
          rv_from := rv_from; rv_to := rv_to; rv_request_id := rv_request_id;
          rv_issued_at := rv_issued_at; rv_expires_at := rv_expires_at |}.

(** ** Envelopes *)

Inductive HailMessageType :=
| personal | newsletter | promotion | receipt | invoice | ticket | boarding_pass | account_alert
| security_alert | package_update | calendar_event.
Definition message_types : list (String.string * HailMessageType) :=
  [("personal", personal); ("newsletter", newsletter); ("promotion", promotion);
   ("receipt", receipt); ("invoice", invoice); ("ticket", ticket);
   ("boarding-pass", boarding_pass); ("account-alert", account_alert);
   ("security-alert", security_alert); ("package-update", package_update);
   ("calendar-event", calendar_event)]%string.

Inductive HailEnvelopeAuthorization :=
| AuthorizedByGrant (grant_id : jstr)
| AuthorizedByReply (reply_to : jstr)
| AuthorizedByConnection (connection_id : jstr) (epoch : Z)
| AuthorizedByConversation (creator conversation_id : jstr) (descriptor_hash : HailDigest).
Definition as_HailEnvelopeAuthorization (v : hvalue) : option HailEnvelopeAuthorization :=
  r ← as_record v;
  type ← req r "type" as_string;
  if jstr_eqb type (js "grant") then AuthorizedByGrant <$> req r "grant_id" as_string
  else if jstr_eqb type (js "reply") then AuthorizedByReply <$> req r "reply_to" as_string
  else if jstr_eqb type (js "connection") then
    connection_id ← req r "connection_id" as_string;
    AuthorizedByConnection connection_id <$> req r "epoch" as_number
  else if jstr_eqb type (js "conversation") then
    creator ← req r "creator" as_string;
    conversation_id ← req r "conversation_id" as_string;
    _ ← lit_num r "membership_revision" 1;
    AuthorizedByConversation creator conversation_id <$> req r "descriptor_hash" as_HailDigest
  else None.

Inductive body_profile := spt_1 | spt_2 | spt_3.
Definition body_profiles : list (String.string * body_profile) :=
  [("spt-1", spt_1); ("spt-2", spt_2); ("spt-3", spt_3)]%string.

Record bearer_access := { access_token : bytes; access_expires_at : Z }.
Definition as_bearer_access (v : hvalue) : option bearer_access :=
  r ← as_record v;
  _ ← lit_str r "type" "bearer";
  access_token ← req r "token" as_bytes;
  access_expires_at ← req r "expires_at" as_number;
  Some {| access_token := access_token; access_expires_at := access_expires_at |}.

Record HailBodyDescriptor := {
  bd_digest : HailDigest; bd_size : Z; bd_profile : body_profile; bd_available_until : Z;
  bd_access : bearer_access;
}.
Definition as_HailBodyDescriptor (v : hvalue) : option HailBodyDescriptor :=
  r ← as_record v;
  _ ← lit_str r "media_type" "application/hail-body+cbor";
  bd_digest ← req r "digest" as_HailDigest;
  bd_size ← req r "size" as_number;
  bd_profile ← req r "profile" (as_enum body_profiles);
  bd_available_until ← req r "available_until" as_number;
  bd_access ← req r "access" as_bearer_access;
  Some {| bd_digest := bd_digest; bd_size := bd_size; bd_profile := bd_profile;
          bd_available_until := bd_available_until; bd_access := bd_access |}.

Inductive HailReplyPermission := ReplyDenied | ReplyAllowed (until : Z).
Definition as_HailReplyPermission (v : hvalue) : option HailReplyPermission :=
  r ← as_record v;
  match field r "allowed" with
  | Some (HBool false) => Some ReplyDenied
  | Some (HBool true) => ReplyAllowed <$> req r "until" as_number
  | _ => None
  end.

Record HailMessageReference := { mr_sender : jstr; mr_message_id : jstr }.
Definition as_HailMessageReference (v : hvalue) : option HailMessageReference :=
  r ← as_record v;
  mr_sender ← req r "sender" as_string;
  mr_message_id ← req r "message_id" as_string;
  Some {| mr_sender := mr_sender; mr_message_id := mr_message_id |}.

Record conversation_introduction := {
  in_descriptor : bytes; in_connection_id : jstr; in_epoch : Z;
}.
Definition as_conversation_introduction (v : hvalue) : option conversation_introduction :=
  r ← as_record v;
  in_descriptor ← req r "descriptor" as_bytes;
  in_connection_id ← req r "connection_id" as_string;
  in_epoch ← req r "epoch" as_number;
  Some {| in_descriptor := in_descriptor; in_connection_id := in_connection_id;
          in_epoch := in_epoch |}.

Inductive envelope_version := v1 | v2 | v3 | v4.
Definition as_envelope_version (v : hvalue) : option envelope_version :=
  match v with
  | HNum 1 => Some v1 | HNum 2 => Some v2 | HNum 3 => Some v3 | HNum 4 => Some v4
  | _ => None
  end.

Record HailEnvelope := {
  e_version : envelope_version;
  e_conversation_message_id : option jstr;
  e_conversation_introduction : option conversation_introduction;
  e_in_reply_to : option HailMessageReference;
  e_message_id : jstr; e_from : jstr; e_to : jstr;
  e_authorization : HailEnvelopeAuthorization;
  e_category : option jstr; e_message_type : option HailMessageType;
  e_created_at : Z; e_expires_at : Z;
  e_body : HailBodyDescriptor; e_reply : HailReplyPermission;
}.
Definition as_HailEnvelope (v : hvalue) : option HailEnvelope :=
  r ← as_record v;
  _ ← lit_str r "type" "hail.envelope";
  e_version ← req r "version" as_envelope_version;
  e_conversation_message_id ← optional r "conversation_message_id" as_string;
  e_conversation_introduction ← optional r "conversation_introduction" as_conversation_introduction;
  e_in_reply_to ← optional r "in_reply_to" as_HailMessageReference;
  e_message_id ← req r "message_id" as_string;
  e_from ← req r "from" as_string;
  e_to ← req r "to" as_string;
  e_authorization ← req r "authorization" as_HailEnvelopeAuthorization;
  e_category ← optional r "category" as_string;
  e_message_type ← optional r "message_type" (as_enum message_types);
  e_created_at ← req r "created_at" as_number;
  e_expires_at ← req r "expires_at" as_number;
  e_body ← req r "body" as_HailBodyDescriptor;
  e_reply ← req r "reply" as_HailReplyPermission;
  Some {| e_version := e_version; e_conversation_message_id := e_conversation_message_id;
          e_conversation_introduction := e_conversation_introduction;
          e_in_reply_to := e_in_reply_to; e_message_id := e_message_id; e_from := e_from;
          e_to := e_to; e_authorization := e_authorization; e_category := e_category;
          e_message_type := e_message_type; e_created_at := e_created_at;
          e_expires_at := e_expires_at; e_body := e_body; e_reply := e_reply |}.

(** ** Delivery status *)

Inductive HailDeliveryState := accepted | on_hold | delivered | failed | cancelled.
Definition delivery_states : list (String.string * HailDeliveryState) :=
  [("accepted", accepted); ("on-hold", on_hold); ("delivered", delivered); ("failed", failed);
   ("cancelled", cancelled)]%string.

Inductive HailHoldReason :=
| sender_unreachable | body_temporarily_unavailable | body_transfer_interrupted
| sender_rate_limited | receiver_resource_constrained.
Definition hold_reasons : list (String.string * HailHoldReason) :=
  [("sender-unreachable", sender_unreachable);
   ("body-temporarily-unavailable", body_temporarily_unavailable);
   ("body-transfer-interrupted", body_transfer_interrupted);
   ("sender-rate-limited", sender_rate_limited);
   ("receiver-resource-constrained", receiver_resource_constrained)]%string.

Inductive HailFailureReason :=
| body_authorization_failed | body_integrity_failed | body_invalid | body_unsupported
| delivery_expired | receiver_policy_rejected.
Definition failure_reasons : list (String.string * HailFailureReason) :=
  [("body-authorization-failed", body_authorization_failed);
   ("body-integrity-failed", body_integrity_failed); ("body-invalid", body_invalid);
   ("body-unsupported", body_unsupported); ("delivery-expired", delivery_expired);
   ("receiver-policy-rejected", receiver_policy_rejected)]%string.

Inductive HailCancellationReason := recipient_cancelled | receiver_administrative_cancellation.
Definition cancellation_reasons : list (String.string * HailCancellationReason) :=
  [("recipient-cancelled", recipient_cancelled);
   ("receiver-administrative-cancellation", receiver_administrative_cancellation)]%string.

Inductive HailDeliveryReason :=
| HoldReason (r : HailHoldReason)
| FailureReason (r : HailFailureReason)
| CancellationReason (r : HailCancellationReason).

Record HailDeliveryStatusBase := {
  ds_message_id : jstr; ds_envelope_digest : HailDigest; ds_from : jstr; ds_to : jstr;
  ds_occurred_at : Z;
}.
Inductive delivery_status_variant :=
| StatusAccepted
| StatusOnHold (revision : Z) (reason : HailHoldReason) (retry_at : Z)
| StatusDelivered (revision : Z)
| StatusFailed (revision : Z) (reason : HailFailureReason)
| StatusCancelled (revision : Z) (reason : HailCancellationReason).
Definition HailDeliveryStatus : Type := HailDeliveryStatusBase * delivery_status_variant.

Definition as_status_variant (r : HailRecord) : option delivery_status_variant :=
  revision ← req r "revision" as_number;
  state ← req r "state" (as_enum delivery_states);
  match state with
  | accepted =>
      _ ← absent r "reason"; _ ← absent r "retry_at";
      _ ← lit_num r "revision" 1; Some StatusAccepted
  | on_hold =>
      reason ← req r "reason" (as_enum hold_reasons);
      StatusOnHold revision reason <$> req r "retry_at" as_number
  | delivered =>
      _ ← absent r "reason"; _ ← absent r "retry_at"; Some (StatusDelivered revision)
  | failed =>
      _ ← absent r "retry_at";
      StatusFailed revision <$> req r "reason" (as_enum failure_reasons)
  | cancelled =>
      _ ← absent r "retry_at";
      StatusCancelled revision <$> req r "reason" (as_enum cancellation_reasons)
  end.
Definition as_HailDeliveryStatus (v : hvalue) : option HailDeliveryStatus :=
  r ← as_record v;
  _ ← lit_str r "type" "hail.delivery-status";
  _ ← lit_num r "version" 1;
  ds_message_id ← req r "message_id" as_string;
  ds_envelope_digest ← req r "envelope_digest" as_HailDigest;
  ds_from ← req r "from" as_string;
  ds_to ← req r "to" as_string;
  ds_occurred_at ← req r "occurred_at" as_number;
  variant ← as_status_variant r;
  Some ({| ds_message_id := ds_message_id; ds_envelope_digest := ds_envelope_digest;
           ds_from := ds_from; ds_to := ds_to; ds_occurred_at := ds_occurred_at |}, variant).

(** ** Bodies *)

Definition as_empty_list (v : hvalue) : option unit :=
  match v with HArr [] => Some tt | _ => None end.

Record HailSptSpan := { span_text : jstr }.
Definition as_HailSptSpan (v : hvalue) : option HailSptSpan :=
  r ← as_record v;
  _ ← lit_str r "_type" "span";
  _ ← req r "marks" as_empty_list;
  span_text ← req r "text" as_string;
  Some {| span_text := span_text |}.

Record HailSptTextBlock := { block_children : HailSptSpan * list HailSptSpan }.
Definition as_HailSptTextBlock (v : hvalue) : option HailSptTextBlock :=
  r ← as_record v;
  _ ← lit_str r "_type" "block";
  _ ← lit_str r "style" "normal";
  _ ← req r "markDefs" as_empty_list;
  block_children ← req r "children" (as_nonempty as_HailSptSpan);
  Some {| block_children := block_children |}.

Inductive attachment_type := application_pdf | text_plain | image_png | image_jpeg | image_webp.
Definition attachment_types : list (String.string * attachment_type) :=
  [("application/pdf", application_pdf); ("text/plain", text_plain); ("image/png", image_png);
   ("image/jpeg", image_jpeg); ("image/webp", image_webp)]%string.

Record HailAttachment := {
  att_filename : jstr; att_media_type : attachment_type; att_size : Z; att_digest : HailDigest;
}.
Definition as_HailAttachment (v : hvalue) : option HailAttachment :=
  r ← as_record v;
  att_filename ← req r "filename" as_string;
  att_media_type ← req r "media_type" (as_enum attachment_types);
  att_size ← req r "size" as_number;
  att_digest ← req r "digest" as_HailDigest;
  Some {| att_filename := att_filename; att_media_type := att_media_type; att_size := att_size;
          att_digest := att_digest |}.

Record HailSptBody := {
  spt1_attachments : option (list HailAttachment); spt1_blocks : list HailSptTextBlock;
}.
Definition as_HailSptBody (v : hvalue) : option HailSptBody :=
  r ← as_record v;
  _ ← lit_num r "version" 1;
  _ ← lit_str r "profile" "spt-1";
  spt1_attachments ← optional r "attachments" (as_list as_HailAttachment);
  spt1_blocks ← req r "blocks" (as_list as_HailSptTextBlock);
  Some {| spt1_attachments := spt1_attachments; spt1_blocks := spt1_blocks |}.

Record HailSpt2Span := { span2_text : jstr; span2_marks : list jstr }.
Definition as_HailSpt2Span (v : hvalue) : option HailSpt2Span :=
  r ← as_record v;
  _ ← lit_str r "_type" "span";
  span2_text ← req r "text" as_string;
  span2_marks ← req r "marks" (as_list as_string);
  Some {| span2_text := span2_text; span2_marks := span2_marks |}.

Record HailSptLink := { link_key : jstr; link_href : jstr; link_title : option jstr }.
Definition as_HailSptLink (v : hvalue) : option HailSptLink :=
  r ← as_record v;
  _ ← lit_str r "_type" "spt.link";
  link_key ← req r "_key" as_string;
  link_href ← req r "href" as_string;
  link_title ← optional r "title" as_string;
  Some {| link_key := link_key; link_href := link_href; link_title := link_title |}.

Inductive block_style := normal | h1 | h2 | h3 | blockquote | caption | cta.
Definition block_styles : list (String.string * block_style) :=
  [("normal", normal); ("h1", h1); ("h2", h2); ("h3", h3); ("blockquote", blockquote);
   ("caption", caption); ("cta", cta)]%string.
Inductive alignment := align_left | align_center | align_right.
Definition alignments : list (String.string * alignment) :=
  [("left", align_left); ("center", align_center); ("right", align_right)]%string.
Inductive list_item := bullet | numbered.
Definition list_items : list (String.string * list_item) :=
  [("bullet", bullet); ("number", numbered)]%string.
Inductive list_level := level1 | level2 | level3.
Definition as_list_level (v : hvalue) : option list_level :=
  match v with
  | HNum 1 => Some level1 | HNum 2 => Some level2 | HNum 3 => Some level3
  | _ => None
  end.

Record HailSpt2TextBlock := {
  block2_style : block_style; block2_alignment : option alignment;
  block2_children : HailSpt2Span * list HailSpt2Span; block2_markDefs : list HailSptLink;
  block2_listItem : option list_item; block2_level : option list_level;
}.
Definition as_HailSpt2TextBlock (v : hvalue) : option HailSpt2TextBlock :=
  r ← as_record v;
  _ ← lit_str r "_type" "block";
  block2_style ← req r "style" (as_enum block_styles);
  block2_alignment ← optional r "alignment" (as_enum alignments);
  block2_children ← req r "children" (as_nonempty as_HailSpt2Span);
  block2_markDefs ← req r "markDefs" (as_list as_HailSptLink);
  block2_listItem ← optional r "listItem" (as_enum list_items);
  block2_level ← optional r "level" as_list_level;
  Some {| block2_style := block2_style; block2_alignment := block2_alignment;
          block2_children := block2_children; block2_markDefs := block2_markDefs;
          block2_listItem := block2_listItem; block2_level := block2_level |}.

Record HailSpt2Body := {
  spt2_attachments : option (list HailAttachment); spt2_blocks : list HailSpt2TextBlock;
}.
Definition as_HailSpt2Body (v : hvalue) : option HailSpt2Body :=
  r ← as_record v;
  _ ← lit_num r "version" 1;
  _ ← lit_str r "profile" "spt-2";
  spt2_attachments ← optional r "attachments" (as_list as_HailAttachment);
  spt2_blocks ← req r "blocks" (as_list as_HailSpt2TextBlock);
  Some {| spt2_attachments := spt2_attachments; spt2_blocks := spt2_blocks |}.

Record HailSptImageBlock := { img_asset : jstr; img_alt : jstr; img_caption : option jstr }.
Definition as_HailSptImageBlock (v : hvalue) : option HailSptImageBlock :=
  r ← as_record v;
  _ ← lit_str r "_type" "spt.image";
  img_asset ← req r "asset" as_string;
  img_alt ← req r "alt" as_string;
  img_caption ← optional r "caption" as_string;
  Some {| img_asset := img_asset; img_alt := img_alt; img_caption := img_caption |}.

Definition as_spt3_block (v : hvalue) : option (HailSptImageBlock + HailSpt2TextBlock) :=
  match as_HailSptImageBlock v with
  | Some b => Some (inl b)
  | None => inr <$> as_HailSpt2TextBlock v
  end.

Record HailSpt3Body := {
  spt3_attachments : option (list HailAttachment); spt3_assets : HailAssetManifest;
  spt3_blocks : list (HailSptImageBlock + HailSpt2TextBlock);
}.
Definition as_HailSpt3Body (v : hvalue) : option HailSpt3Body :=
  r ← as_record v;
  _ ← lit_num r "version" 1;
  _ ← lit_str r "profile" "spt-3";
  spt3_attachments ← optional r "attachments" (as_list as_HailAttachment);
  spt3_assets ← req r "assets" as_HailAssetManifest;
  spt3_blocks ← req r "blocks" (as_list as_spt3_block);
  Some {| spt3_attachments := spt3_attachments; spt3_assets := spt3_assets;
          spt3_blocks := spt3_blocks |}.

(** ** The payload type of a type name *)

Definition HailPayloadByType (t : HailPayloadType) : Type :=
  match t with
  | Signed address_binding => HailAddressBinding
  | Signed sender_profile => HailSenderProfile
  | Signed grant => HailGrant
  | Signed connection_invitation => HailConnectionInvitation
  | Signed connection_confirmation => HailConnectionConfirmation
  | Signed connection_grant => HailConnectionGrant
  | Signed connection_control => HailConnectionControl
  | Signed conversation => HailConversation
  | Signed conversation_revival => HailConversationRevival
  | Signed envelope => HailEnvelope
  | Signed delivery_status => HailDeliveryStatus
  | body_spt_1 => HailSptBody
  | body_spt_2 => HailSpt2Body
  | body_spt_3 => HailSpt3Body
  end.

Definition as_payload (t : HailPayloadType) : hvalue -> option (HailPayloadByType t) :=
  match t with
  | Signed address_binding => as_HailAddressBinding
  | Signed sender_profile => as_HailSenderProfile
  | Signed grant => as_HailGrant
  | Signed connection_invitation => as_HailConnectionInvitation
  | Signed connection_confirmation => as_HailConnectionConfirmation
  | Signed connection_grant => as_HailConnectionGrant
  | Signed connection_control => as_HailConnectionControl
  | Signed conversation => as_HailConversation
  | Signed conversation_revival => as_HailConversationRevival
  | Signed envelope => as_HailEnvelope
  | Signed delivery_status => as_HailDeliveryStatus
  | body_spt_1 => as_HailSptBody
  | body_spt_2 => as_HailSpt2Body
  | body_spt_3 => as_HailSpt3Body
  end.
