(* ===== verification/Soundness.v ===== *)
(** * Soundness of the validators' type assertions

    [validatePayload] asserts in TypeScript that a value has the type [HailPayloadByType[T]].
    Here that is a theorem: whenever it returns, the reader of the type accepts the value.  The
    one type for which it fails is [HailConnectionControl]; the counterexample is proved. *)

From S2P Require Import Prelude JsString Regex Value Rfc8949 Scan Cbor Profiles Validation.
From S2P Require Import Png Payloads Envelope Bodies ValidatePayload Models.
From Stdlib Require Import ZArith.
Open Scope Z_scope.

(** ** Readers on members that are known *)

Lemma req_Some {A} r k (f : hvalue -> option A) v : field r k = Some v -> req r k f = f v.
Proof. intros H. unfold req. by rewrite H. Qed.

Lemma optional_Some {A} r k (f : hvalue -> option A) v :
  field r k = Some v -> Models.optional r k f = Some <$> f v.
Proof. intros H. unfold Models.optional. by rewrite H. Qed.

Lemma optional_None {A} r k (f : hvalue -> option A) :
  is_undefined (field r k) = true -> Models.optional r k f = Some None.
Proof. intros H. unfold Models.optional. by destruct (field r k). Qed.

Lemma lit_str_Some r k s : field r k = Some (HStr (js s)) -> lit_str r k s = Some tt.
Proof. intros H. unfold lit_str. by rewrite (proj2 (is_str_eq _ _) H). Qed.

Lemma lit_num_Some r k z : field r k = Some (HNum z) -> lit_num r k z = Some tt.
Proof. intros H. unfold lit_num. by rewrite (proj2 (is_num_eq _ _) H). Qed.

Lemma absent_Some r k : is_undefined (field r k) = true -> absent r k = Some tt.
Proof. intros H. unfold absent. by rewrite H. Qed.

Lemma enum_includes {A} (table : list (String.string * A)) s :
  includes (map js (map fst table)) s = true -> exists a, enum table s = Some a.
Proof.
  induction table as [|[name a] table IH]; [done|]. unfold includes. simpl.
  destruct (jstr_eqb s (js name)) eqn:Hs; [by eexists|]. intros H. apply IH. exact H.
Qed.

Lemma digest_reads v p u : digest v p = Ok u ->
  exists h d, v = Some h /\ as_HailDigest h = Some d.
Proof.
  intros (n & m & b & -> & _ & Ha & Hb & _)%digest_Ok. do 2 eexists. split; [done|].
  unfold as_HailDigest. simpl. rewrite (lit_str_Some m "algorithm" "sha-256") by done. simpl.
  rewrite (req_Some m "value" as_bytes (HBytes b)) by done. done.
Qed.

(** Rewrite the readers of the goal with what is known of the members. *)
Ltac reader_step :=
  match goal with
  | H : digest (field _ _) _ = Ok _ |- _ =>
      let h := fresh "h" in let d := fresh "d" in
      let Hf := fresh "Hf" in let Hd := fresh "Hd" in
      apply digest_reads in H as (h & d & Hf & Hd)
  | H : field ?r ?k = Some _ |- context [req ?r ?k _] => rewrite (req_Some r k _ _ H)
  | H : field ?r ?k = Some _ |- context [Models.optional ?r ?k _] =>
      rewrite (optional_Some r k _ _ H)
  | H : is_undefined (field ?r ?k) = true |- context [Models.optional ?r ?k _] =>
      rewrite (optional_None r k _ H)
  | H : is_undefined (field ?r ?k) = true |- context [absent ?r ?k] => rewrite (absent_Some r k H)
  | H : field ?r ?k = Some _ |- context [lit_str ?r ?k ?s] => rewrite (lit_str_Some r k s H)
  | H : field ?r ?k = Some _ |- context [lit_num ?r ?k ?z] => rewrite (lit_num_Some r k z H)
  | H : ?f ?h = Some _ |- context [?f ?h] => rewrite H
  end.
Ltac reader :=
  repeat first
    [ reader_step
    | progress cbn [mbind option_bind fmap option_fmap option_map as_record as_string as_number
                    as_bytes as_nullable] ].

(** ** Loops over arrays *)

Lemma ifoldM_reads {A B S} (f : nat -> A -> S -> M S) (g : A -> option B) l :
  (forall i a s s', f i a s = Ok s' -> exists b, g a = Some b) ->
  forall index s s', ifoldM index l s f = Ok s' -> exists k, mapM g l = Some k.
Proof.
  intros Hf. induction l as [|a l IH]; intros index s s' H; cbn [ifoldM] in H; [by eexists|].
  apply bind_Ok in H as (s1 & H1 & H2). apply Hf in H1 as [b Hb]. apply IH in H2 as [k Hk].
  exists (b :: k). simpl. rewrite Hb. simpl. by rewrite Hk.
Qed.

Lemma iforM_reads {A B} (f : nat -> A -> M unit) (g : A -> option B) l :
  (forall i a u, f i a = Ok u -> exists b, g a = Some b) ->
  forall index u, iforM index l f = Ok u -> exists k, mapM g l = Some k.
Proof.
  intros Hf. induction l as [|a l IH]; intros index u H; cbn [iforM] in H; [by eexists|].
  apply bind_Ok in H as (s1 & H1 & H2). apply Hf in H1 as [b Hb]. apply IH in H2 as [k Hk].
  exists (b :: k). simpl. rewrite Hb. simpl. by rewrite Hk.
Qed.

Lemma mapM_nonempty {A B} (f : A -> option B) l k :
  (length l =? 0)%nat = false -> mapM f l = Some k -> exists b k', k = b :: k'.
Proof.
  intros Hl Hk. destruct l as [|a l]; [done|]. simpl in Hk.
  apply bind_Some in Hk as (b & _ & Hk). apply bind_Some in Hk as (k' & _ & [= <-]). eauto.
Qed.

Section soundness.
Context `{HailEnv}.
#[local] Set Default Proof Using "All".

(** What [validate_record] knows of the common members of a signed payload. *)
Lemma type_field r t :
  strict_eq (field r "type") (Some (HStr (type_name (SIGNED_PROFILES t)))) = true ->
  field r "type" = Some (HStr (type_name (SIGNED_PROFILES t))).
Proof.
  unfold strict_eq. destruct (field r "type") as [[]|]; try done.
  intros Hs. by apply jstr_eqb_eq in Hs as ->.
Qed.

Lemma address_binding_sound r n u :
  field r "type" = Some (HStr (js "hail.address-binding")) ->
  validateAddressBinding r = Ok u -> exists p, as_HailAddressBinding (HMap n r) = Some p.
Proof.
  intros Ht Hv. unfold validateAddressBinding in Hv. valid. subst.
  unfold as_HailAddressBinding. reader. by eexists.
Qed.

Lemma category_sound i v prev prev' :
  profile_category i v prev = Ok prev' -> exists c, as_HailSenderCategory v = Some c.
Proof.
  unfold profile_category. intros Hv. valid. simplify_eq.
  unfold as_HailSenderCategory. cbn [as_record mbind option_bind].
  destruct (is_undefined (field _ "description")) eqn:Hd; cbn [negb] in *; valid; reader; eauto.
Qed.

Lemma connectionExpiry_reads r confirmation u :
  connectionExpiry r confirmation = Ok u ->
  (exists z, field r "issued_at" = Some (HNum z)) /\
  (field r "expires_at" = Some HNull /\ confirmation = false \/
   exists z, field r "expires_at" = Some (HNum z)).
Proof.
  unfold connectionExpiry. intros Hv. valid. split; [by eexists|].
  destruct (is_null (field r "expires_at")) eqn:Hn; cbn [negb] in Hv; valid; [|by eauto].
  destruct confirmation; [done|]. auto.
Qed.

Lemma connection_invitation_sound r n u :
  field r "type" = Some (HStr (js "hail.connection-invitation")) ->
  field r "version" = Some (HNum 1) ->
  validateConnectionInvitation r = Ok u ->
  exists p, as_HailConnectionInvitation (HMap n r) = Some p.
Proof.
  intros Ht Hver Hv. unfold validateConnectionInvitation in Hv. valid.
  match goal with H : connectionExpiry _ _ = _ |- _ =>
    apply connectionExpiry_reads in H as ([z Hz] & [[He _]|[z' He]]) end;
  unfold as_HailConnectionInvitation; reader; by eexists.
Qed.

Lemma connection_confirmation_sound r n u :
  field r "type" = Some (HStr (js "hail.connection-confirmation")) ->
  field r "version" = Some (HNum 1) ->
  validateConnectionConfirmation r = Ok u ->
  exists p, as_HailConnectionConfirmation (HMap n r) = Some p.
Proof.
  intros Ht Hver Hv. unfold validateConnectionConfirmation in Hv. valid.
  match goal with H : connectionExpiry _ _ = _ |- _ =>
    apply connectionExpiry_reads in H as ([z Hz] & [[_ He]|[z' He]]); [done|] end.
  unfold as_HailConnectionConfirmation. reader. by eexists.
Qed.

Lemma conversation_sound r n u :
  field r "type" = Some (HStr (js "hail.conversation")) -> field r "version" = Some (HNum 1) ->
  validateConversation r = Ok u -> exists p, as_HailConversation (HMap n r) = Some p.
Proof.
  intros Ht Hver Hv. unfold validateConversation in Hv. valid.
  match goal with H : ifoldM _ _ _ conversation_member = _ |- _ =>
    apply (ifoldM_reads _ as_string) in H as [k Hk] end.
  - unfold as_HailConversation. reader. unfold as_list. reader. by eexists.
  - intros i a s s' Ha. unfold conversation_member in Ha. valid. simplify_eq. by eexists.
Qed.

Lemma conversation_revival_sound r n u :
  field r "type" = Some (HStr (js "hail.conversation-revival")) ->
  field r "version" = Some (HNum 1) ->
  validateConversationRevival r = Ok u ->
  exists p, as_HailConversationRevival (HMap n r) = Some p.
Proof.
  intros Ht Hver Hv. unfold validateConversationRevival in Hv. valid.
  unfold as_HailConversationRevival. reader. by eexists.
Qed.

Lemma nullable_previous r revision u :
  (if revision =? 1 then negb (is_null (field r "previous"))
   else negb (match field r "previous" with Some (HBytes _) => true | _ => false end)) = false ->
  (if 1 <? revision then _ ← bytes_of (field r "previous") 32 (at_root "previous"); Ok tt
   else Ok tt) = Ok u ->
  exists p, req r "previous" (as_nullable as_bytes) = Some p.
Proof.
  intros Hp _. unfold req. destruct (revision =? 1); valid.
  - rewrite Hp. by eexists.
  - destruct (field r "previous") as [[]|]; try done. by eexists.
Qed.

Lemma status_enum s :
  negb (jstr_eqb s (js "active")) && negb (jstr_eqb s (js "revoked")) = false ->
  exists a, enum grant_statuses s = Some a.
Proof.
  intros Hs. apply enum_includes. unfold includes. simpl.
  apply andb_false_iff in Hs as [Hs|Hs]; apply negb_false_iff in Hs; by rewrite Hs, ?orb_true_r.
Qed.

Lemma nullable_integer r k p u :
  (if negb (is_null (field r k)) then _ ← integer (field r k) p 0; Ok tt else Ok tt) = Ok u ->
  exists a, req r k (as_nullable as_number) = Some a.
Proof.
  intros Hv. unfold req. destruct (is_null (field r k)) eqn:Hn; cbn [negb] in Hv; valid.
  - rewrite Hn. by eexists.
  - rewrite Hm. by eexists.
Qed.


Lemma scope_sound l n m s u :
  (length l =? 1)%nat = true -> l !! 0%nat = Some (HMap n m) ->
  field m "type" = Some (HStr s) ->
  (if jstr_eqb s (js "categories") then
     _ ← exactKeys m (keys ["type"; "values"]%string) [] scope_path;
     values ← array (field m "values") (dot scope_path "values");
     _ ← reject (length values =? 0)%nat "must not be empty" (dot scope_path "values");
     _ ← ifoldM 0 values [] scope_category;
     Ok tt
   else fail (js "unknown scope selector") (dot scope_path "type")) = Ok u ->
  exists p, as_singleton as_HailGrantScope (HArr l) = Some p.
Proof.
  intros Hl Hm Ht Hv. destruct l as [|v [|]]; try done. injection Hm as ->.
  destruct (jstr_eqb s (js "categories")) eqn:He; [|done]. valid. subst.
  match goal with H : ifoldM _ _ _ scope_category = _ |- _ =>
    apply (ifoldM_reads _ as_string) in H as [k Hk] end.
  - unfold as_singleton, as_list. cbn [mapM]. unfold as_HailGrantScope at 1. reader.
    unfold as_list. reader. by eexists.
  - intros i a s s' Ha. unfold scope_category in Ha. valid. simplify_eq. by eexists.
Qed.

Lemma grant_sound r n u :
  field r "type" = Some (HStr (js "hail.grant")) -> field r "version" = Some (HNum 1) ->
  validateGrant r = Ok u -> exists p, as_HailGrant (HMap n r) = Some p.
Proof.
  intros Ht Hver Hv. unfold validateGrant in Hv. valid.
  match goal with H1 : (if ?v =? 1 then _ else _) = false, H2 : (if 1 <? ?v then _ else _) = Ok _ |- _ =>
    destruct (nullable_previous _ _ _ H1 H2) as [prev Hprev] end.
  match goal with H : (if negb (is_null _) then _ else _) = Ok _ |- _ =>
    destruct (nullable_integer _ _ _ _ H) as [until Huntil] end.
  match goal with H : _ && _ = false |- _ => destruct (status_enum _ H) as [status Hstatus] end.
  match goal with H : (if jstr_eqb _ (js "categories") then _ else _) = Ok _ |- _ =>
    eapply scope_sound in H as [scope Hscope]; [|done|done|done] end.
  unfold as_HailGrant. reader. unfold as_HailConsentContext, as_enum. reader. by eexists.
Qed.

Lemma connection_grant_sound r n u :
  field r "type" = Some (HStr (js "hail.connection-grant")) -> field r "version" = Some (HNum 1) ->
  validateConnectionGrant r = Ok u -> exists p, as_HailConnectionGrant (HMap n r) = Some p.
Proof.
  intros Ht Hver Hv. unfold validateConnectionGrant in Hv. valid.
  assert (Hprev : exists prev, req r "previous" (as_nullable as_bytes) = Some prev).
  { unfold req. destruct (_ =? 1); valid; [|match goal with H : field r "previous" = _ |- _ =>
      rewrite H end; by eexists].
    match goal with H : field r "previous" = _ |- _ => rewrite H end. by eexists. }
  destruct Hprev as [prev Hprev].
  assert (Hst : exists s st, field r "status" = Some (HStr s) /\ enum grant_statuses s = Some st).
  { match goal with H : negb _ && negb _ = false |- _ =>
      apply andb_false_iff in H as [H|H]; valid; do 2 eexists; split; try exact H; done end. }
  destruct Hst as (s & st & Hs & Hst).
  match goal with H : connectionExpiry _ _ = _ |- _ =>
    apply connectionExpiry_reads in H as ([z Hz] & He) end.
  assert (Hexp : exists e, req r "expires_at" (as_nullable as_number) = Some e).
  { destruct He as [[He _]|[z' He]]; unfold req; rewrite He; by eexists. }
  destruct Hexp as [e Hexp].
  match goal with H : iforM _ _ _ = Ok _ |- _ => unfold keys in H; cbn [iforM map] in H end.
  valid.
  repeat match goal with H : digest (get ?m (js ?k)) _ = _ |- _ =>
    change (get m (js k)) with (field m k) in H end.
  unfold as_HailConnectionGrant. reader.
  unfold as_connection_consent, as_enum. reader. by eexists.
Qed.

(** For a connection control the assertion holds once [operation] and [state] are texts, which
    the validator does not check. *)
Lemma connection_control_sound r n u o s :
  field r "type" = Some (HStr (js "hail.connection-control")) ->
  field r "version" = Some (HNum 1) ->
  field r "operation" = Some (HStr o) -> field r "state" = Some (HStr s) ->
  validateConnectionControl r = Ok u -> exists p, as_HailConnectionControl (HMap n r) = Some p.
Proof.
  intros Ht Hver Ho Hs Hv. unfold validateConnectionControl in Hv. rewrite Ho, Hs in Hv.
  cbn [String_of js_String mbind result_bind] in Hv. valid.
  match goal with H : includes _ o = true |- _ =>
    destruct (enum_includes control_operations o H) as [op Hop] end.
  match goal with H : includes _ s = true |- _ =>
    destruct (enum_includes control_states s H) as [st Hst] end.
  assert (Hc : exists c, req r "connection_id" (as_nullable as_string) = Some c).
  { unfold req. match goal with H : (if is_str _ "empty" then _ else _) = Ok _ |- _ =>
      destruct (is_str (Some (HStr s)) "empty") end; valid;
    match goal with H : field r "connection_id" = _ |- _ => rewrite H end; by eexists. }
  destruct Hc as [c Hc].
  assert (He : exists e, req r "expires_at" (as_nullable as_number) = Some e).
  { unfold req. match goal with H : (if includes ?l o then _ else _) = Ok _ |- _ =>
      destruct (includes l o); [valid|apply connectionExpiry_reads in H as (_ & [[? ?]|[z' ?]])] end;
    match goal with H : field r "expires_at" = _ |- _ => rewrite H end; by eexists. }
  destruct He as [e He].
  unfold as_HailConnectionControl. reader. unfold as_enum. reader. by eexists.
Qed.

Lemma status_variant_sound r revision s u u' :
  field r "revision" = Some (HNum revision) -> field r "state" = Some (HStr s) ->
  includes DELIVERY_STATES s = true ->
  Bool.eqb (revision =? 1) (jstr_eqb s (js "accepted")) = true ->
  (let needsReason := jstr_eqb s (js "on-hold") || jstr_eqb s (js "failed")
                     || jstr_eqb s (js "cancelled") in
   if negb (Bool.eqb needsReason (negb (is_undefined (field r "reason")))) then
     fail (if needsReason then js "is required for this state"
           else js "is prohibited for this state") (at_root "reason")
   else Ok tt) = Ok u ->
  (if negb (is_undefined (field r "reason")) then
     reason ← text (field r "reason") (at_root "reason");
     reject (negb (includes (if jstr_eqb s (js "on-hold") then HOLD_REASONS
           else if jstr_eqb s (js "failed") then FAILURE_REASONS
           else CANCELLATION_REASONS) reason)) "reason is not valid for this state"
       (at_root "reason")
   else Ok tt) = Ok u' ->
  (if jstr_eqb s (js "on-hold") then exists z, field r "retry_at" = Some (HNum z)
   else is_undefined (field r "retry_at") = true) ->
  exists v, as_status_variant r = Some v.
Proof.
  intros Hrev Hs Hin Hacc Hneed Hreason Hretry.
  apply includes_elem in Hin. apply eqb_prop in Hacc.
  unfold as_status_variant. reader.
  unfold DELIVERY_STATES in Hin. simpl in Hin.
  repeat (apply elem_of_cons in Hin as [->|Hin]); [..|by apply elem_of_nil in Hin];
    cbv zeta in Hneed;
    match type of Hneed with (if negb (Bool.eqb ?b _) then _ else _) = _ =>
      let b' := eval vm_compute in b in change b with b' in Hneed end;
    match type of Hacc with _ = ?b => let b' := eval vm_compute in b in change b with b' in Hacc end;
    match type of Hretry with (if ?b then _ else _) =>
      let b' := eval vm_compute in b in change b with b' in Hretry end;
    cbv iota in Hretry;
    destruct (is_undefined (field r "reason")) eqn:Hr; try discriminate Hneed; cbn [negb] in Hreason;
    valid; match goal with |- context [as_enum delivery_states ?v] =>
      let e := eval vm_compute in (as_enum delivery_states v) in
      change (as_enum delivery_states v) with e end; reader.
  - apply Z.eqb_eq in Hacc as ->. reader. by eexists.
  - destruct Hretry as [z Hz], (enum_includes hold_reasons _ Hreason) as [h Hh].
    unfold as_enum. reader. by eexists.
  - by eexists.
  - destruct (enum_includes failure_reasons _ Hreason) as [h Hh].
    unfold as_enum. reader. by eexists.
  - destruct (enum_includes cancellation_reasons _ Hreason) as [h Hh].
    unfold as_enum. reader. by eexists.
Qed.

Lemma delivery_status_sound r n u :
  field r "type" = Some (HStr (js "hail.delivery-status")) -> field r "version" = Some (HNum 1) ->
  validateDeliveryStatus r = Ok u -> exists p, as_HailDeliveryStatus (HMap n r) = Some p.
Proof.
  intros Ht Hver Hv. unfold validateDeliveryStatus in Hv. valid.
  assert (Hretry : if jstr_eqb x5 (js "on-hold") then exists z, field r "retry_at" = Some (HNum z)
    else is_undefined (field r "retry_at") = true).
  { destruct (jstr_eqb x5 (js "on-hold")); valid; [by eexists|done]. }
  edestruct (status_variant_sound r) as [v Hvar]; [eassumption..|].
  unfold as_HailDeliveryStatus. reader. by eexists.
Qed.

(** ** Assets and profiles *)

Lemma role_enum s :
  includes (keys ["avatar"; "header"; "image"]%string) s = true ->
  exists a, enum asset_roles s = Some a.
Proof. apply (enum_includes asset_roles). Qed.

Lemma asset_sound i v seen seen' :
  validate_asset i v seen = Ok seen' -> exists a, as_HailBundledImageAsset v = Some a.
Proof.
  unfold validate_asset. destruct seen as [ids roles]. intros Hv.
  apply bind_Ok in Hv as (r & [n [= ->]]%record_Ok & Hv). valid.
  match goal with H : (let '(_, _) := ?p in _) = Ok _ |- _ => destruct p as [pw ph] end. valid.
  match goal with H : match field r "data" with _ => _ end = Ok _ |- _ =>
    destruct (field r "data") as [[]|] eqn:Hdata; try discriminate H end.
  match goal with H : includes (keys _) _ = true |- _ => destruct (role_enum _ H) as [role Hrole] end.
  match goal with H : digest _ _ = _ |- _ => apply digest_reads in H as (h & d & Hf & Hd) end.
  match goal with H : field r "digest" = Some (HMap _ _) |- _ => rewrite H in Hf; injection Hf as <- end.
  unfold as_HailBundledImageAsset. reader. unfold as_enum. reader. by eexists.
Qed.

Lemma as_nonempty_Some {A} (f : hvalue -> option A) l k :
  (1 <= length l)%nat -> mapM f l = Some k -> exists a, as_nonempty f (HArr l) = Some a.
Proof.
  intros Hl Hk. unfold as_nonempty, as_list. destruct l as [|v l]; [simpl in Hl; lia|].
  rewrite Hk. destruct (mapM_nonempty f (v :: l) k) as (b & k' & ->); [done|done|]. by eexists.
Qed.

Lemma asset_manifest_sound x v :
  validateAssetManifest x = Ok v -> exists m, as_HailAssetManifest v = Some m.
Proof.
  intros Hv. unfold validateAssetManifest in Hv. apply bind_Ok in Hv as (v' & _ & Hv).
  apply bind_Ok in Hv as (r & [n [= ->]]%record_Ok & Hv). valid. subst.
  match goal with H : ifoldM _ _ _ validate_asset = _ |- _ =>
    apply (ifoldM_reads _ as_HailBundledImageAsset) in H as [k Hk]; [|intros; by eapply asset_sound] end.
  match goal with H : (_ <? 1)%nat = false |- _ => apply Nat.ltb_ge in H;
    destruct (as_nonempty_Some _ _ _ H Hk) as [l Hl] end.
  unfold as_HailAssetManifest. reader. by eexists.
Qed.

Lemma assertHailValue_as_hail limits x v : assertHailValue limits x = Ok v -> as_hail x = Some v.
Proof.
  unfold assertHailValue. intros (c & _ & Hv)%bind_Ok.
  destruct (as_hail x) as [w|]; [|done]. destruct (_ <? _); [done|]. by injection Hv as ->.
Qed.

Lemma asset_manifest_field r v :
  validateAssetManifest (js_of_field (field r "assets")) = Ok v ->
  exists m, field r "assets" = Some v /\ as_HailAssetManifest v = Some m.
Proof.
  intros Hv. destruct (asset_manifest_sound _ _ Hv) as [m Hm]. exists m. split; [|done].
  unfold validateAssetManifest in Hv.
  apply bind_Ok in Hv as (v' & Ha%assertHailValue_as_hail & Hv). valid. subst.
  destruct (field r "assets") as [h|]; [|done]. simpl in Ha. by rewrite as_hail_of_hail in Ha.
Qed.

Lemma optional_text r k minimum maximum p u :
  (if negb (is_undefined (field r k)) then _ ← profileText (field r k) minimum maximum p; Ok tt
   else Ok tt) = Ok u ->
  exists d, Models.optional r k as_string = Some d.
Proof.
  intros Hv. destruct (is_undefined (field r k)) eqn:Hd; cbn [negb] in Hv; valid; reader; by eexists.
Qed.

Lemma sender_profile_sound r n u :
  field r "type" = Some (HStr (js "hail.sender-profile")) ->
  validateSenderProfile r = Ok u -> exists p, as_HailSenderProfile (HMap n r) = Some p.
Proof.
  intros Ht Hv. unfold validateSenderProfile in Hv. valid.
  match goal with H : ifoldM _ _ _ profile_category = _ |- _ =>
    apply (ifoldM_reads _ as_HailSenderCategory) in H as [k Hk]; [|intros; by eapply category_sound] end.
  match goal with H : (if negb (is_undefined (field r "description")) then _ else _) = Ok _ |- _ =>
    destruct (optional_text _ _ _ _ _ _ H) as [desc Hdesc] end.
  assert (Hassets : x = 2 -> exists a, Models.optional r "assets" as_HailAssetManifest = Some a).
  { intros ->. match goal with H : (if (2 =? 2) && _ then _ else _) = Ok _ |- _ =>
      rename H into Hman end.
    cbn [Z.eqb Pos.eqb andb] in Hman.
    destruct (is_undefined (field r "assets")) eqn:Hd; cbn [negb] in Hman.
    - rewrite optional_None by done. by eexists.
    - apply bind_Ok in Hman as (v & Hman & _).
      destruct (asset_manifest_field r v Hman) as (m & Hf & Hmm).
      rewrite (optional_Some _ _ _ _ Hf), Hmm. by eexists. }
  unfold as_HailSenderProfile, as_HailSenderProfileBase. reader. unfold as_list. reader.
  match goal with H : negb _ && negb _ = false |- _ =>
    apply andb_false_iff in H as [H|H]; apply negb_false_iff, Z.eqb_eq in H; subst x end.
  - by eexists.
  - change (is_num (Some (HNum 2)) 1) with false. cbv iota.
    destruct (Hassets eq_refl) as [a Ha]. reader. by eexists.
Qed.

(** ** Envelopes *)

Lemma introduction_sound r a u :
  validate_introduction r a = Ok u ->
  exists i, Models.optional r "conversation_introduction" as_conversation_introduction = Some (Some i).
Proof.
  intros Hv. unfold validate_introduction in Hv. valid.
  match goal with H : match field ?m "descriptor" with _ => _ end = Ok _ |- _ =>
    destruct (field m "descriptor") as [[]|] eqn:Hdesc; try discriminate H end.
  reader. unfold as_conversation_introduction. reader. by eexists.
Qed.

Lemma authorization_sound r n a s u :
  field a "type" = Some (HStr s) -> validate_authorization r a s = Ok u ->
  exists z, as_HailEnvelopeAuthorization (HMap n a) = Some z.
Proof.
  intros Ht Hv. unfold validate_authorization in Hv. unfold as_HailEnvelopeAuthorization. reader.
  destruct (jstr_eqb s (js "grant")); [valid; reader; by eexists|].
  destruct (jstr_eqb s (js "reply")); [valid; reader; by eexists|].
  destruct (jstr_eqb s (js "connection")); [valid; reader; by eexists|].
  destruct (jstr_eqb s (js "conversation")); [valid; reader; by eexists|done].
Qed.

Lemma parent_reference_sound r m :
  parent_reference r = Ok m ->
  exists p, Models.optional r "in_reply_to" as_HailMessageReference = Some (Some p).
Proof.
  intros Hv. unfold parent_reference in Hv. valid. subst. reader.
  unfold as_HailMessageReference. reader. by eexists.
Qed.

Lemma exactKeys_absent r required opt p u (k : String.string) :
  exactKeys r required opt p = Ok u -> includes (required ++ opt) (js k) = false ->
  is_undefined (field r k) = true.
Proof.
  intros [Hk _]%exactKeys_Ok Hin. unfold field, get.
  destruct (List.find _ r) as [e|] eqn:He; [|done].
  apply find_some in He as [He Hek]. apply jstr_eqb_eq in Hek.
  assert (Hk' : includes (required ++ opt) (js k) = true); [|congruence].
  apply includes_elem, elem_of_app, Hk. rewrite <- Hek.
  apply list_elem_of_fmap_2. by apply list_elem_of_In.
Qed.

Lemma version_unique r a b : version_is r a = true -> version_is r b = true -> a = b.
Proof. unfold version_is. rewrite !is_num_eq. congruence. Qed.

(** Version 4 is for conversations. *)
Lemma version4_authorization r a s u :
  version_is r 4 = true -> validate_authorization r a s = Ok u ->
  (exists id, field r "conversation_message_id" = Some (HStr id)) /\
  (exists x, Models.optional r "conversation_introduction" as_conversation_introduction = Some x).
Proof.
  intros H4 Hv. unfold validate_authorization in Hv.
  assert (Hv' : forall z, version_is r z = true -> z = 4) by (intros; by eapply version_unique).
  destruct (jstr_eqb s (js "grant")).
  { valid. by match goal with H : version_is r _ = true |- _ => apply Hv' in H end. }
  destruct (jstr_eqb s (js "reply")).
  { valid. by match goal with H : negb _ && negb _ = false |- _ =>
      apply andb_false_iff in H as [H|H]; apply negb_false_iff, Hv' in H end. }
  destruct (jstr_eqb s (js "connection")).
  { valid. by match goal with H : negb _ && negb _ = false |- _ =>
      apply andb_false_iff in H as [H|H]; apply negb_false_iff, Hv' in H end. }
  destruct (jstr_eqb s (js "conversation")); [|done]. valid. split; [by eexists|].
  destruct (is_undefined (field r "conversation_introduction")) eqn:Hi; cbn [negb] in Hv.
  - rewrite optional_None by done. by eexists.
  - apply introduction_sound in Hv as [i ->]. by eexists.
Qed.

(** The optional members of an envelope: only some versions have them, and then they are
    checked. *)
Lemma envelope_optionals r a s u u' u'' :
  exactKeys r (keys ["type"; "version"; "message_id"; "from"; "to"; "authorization";
        "created_at"; "expires_at"; "body"; "reply"]%string)
        (if version_is r 4 then keys ["message_type"; "in_reply_to"; "conversation_message_id";
                                    "conversation_introduction"]%string
         else if version_is r 3 then keys ["category"; "message_type"; "in_reply_to"]%string
         else keys ["category"; "message_type"]%string) root = Ok u ->
  validate_authorization r a s = Ok u' -> validate_parent r a s = Ok u'' ->
  (exists x, Models.optional r "conversation_message_id" as_string = Some x) /\
  (exists x, Models.optional r "conversation_introduction" as_conversation_introduction = Some x) /\
  (exists x, Models.optional r "in_reply_to" as_HailMessageReference = Some x).
Proof.
  intros Hk Ha Hp. unfold validate_parent in Hp. apply bind_Ok in Hp as (u3 & H4 & H3).
  destruct (version_is r 4) eqn:V4.
  - destruct (version4_authorization r a s u' V4 Ha) as [[id Hid] Hintro].
    split_and!; [rewrite (optional_Some _ _ _ _ Hid); by eexists | done |].
    destruct (is_undefined (field r "in_reply_to")) eqn:Hr; cbn [negb andb] in H4.
    + rewrite optional_None by done. by eexists.
    + apply bind_Ok in H4 as (m & Hm & _). apply parent_reference_sound in Hm as [p ->]. by eexists.
  - destruct (version_is r 3) eqn:V3.
    + assert (Ha1 := exactKeys_absent _ _ _ _ _ "conversation_message_id" Hk eq_refl).
      assert (Ha2 := exactKeys_absent _ _ _ _ _ "conversation_introduction" Hk eq_refl).
      reader. split_and!; [by eexists..|]. apply bind_Ok in H3 as (m & Hm & _).
      apply parent_reference_sound in Hm as [p ->]. by eexists.
    + assert (Ha1 := exactKeys_absent _ _ _ _ _ "conversation_message_id" Hk eq_refl).
      assert (Ha2 := exactKeys_absent _ _ _ _ _ "conversation_introduction" Hk eq_refl).
      assert (Ha3 := exactKeys_absent _ _ _ _ _ "in_reply_to" Hk eq_refl).
      reader. split_and!; by eexists.
Qed.

Lemma version_sound r u t :
  reject (wrong_version envelope r) t (at_root "version") = Ok u ->
  exists v, req r "version" as_envelope_version = Some v.
Proof.
  intros Hv. apply reject_Ok in Hv. unfold wrong_version in Hv. unfold req.
  rewrite !bool_decide_eq_false_2, bool_decide_eq_true_2 in Hv by done. cbn [negb andb] in Hv.
  apply andb_false_iff in Hv as [Hv|Hv].
  - apply negb_false_iff in Hv. rewrite !orb_true_iff, !is_num_eq in Hv.
    destruct Hv as [[-> | ->] | ->]; by eexists.
  - apply negb_false_iff, is_num_eq in Hv as ->. by eexists.
Qed.

Lemma body_descriptor_sound r c e u :
  validate_body_descriptor r c e = Ok u ->
  exists b, req r "body" as_HailBodyDescriptor = Some b.
Proof.
  intros Hv. unfold validate_body_descriptor in Hv. valid. subst. reader.
  match goal with H : includes _ _ = true |- _ =>
    destruct (enum_includes body_profiles _ H) as [bp Hbp] end.
  unfold as_HailBodyDescriptor, as_bearer_access, as_enum. reader. by eexists.
Qed.

Lemma reply_permission_sound r s c u :
  validate_reply_permission r s c = Ok u ->
  exists b, req r "reply" as_HailReplyPermission = Some b.
Proof.
  intros Hv. unfold validate_reply_permission in Hv. valid. reader.
  unfold as_HailReplyPermission. reader. destruct x0; [|by eexists]. valid. reader. by eexists.
Qed.

Lemma envelope_sound r n u u' t :
  field r "type" = Some (HStr (js "hail.envelope")) ->
  reject (wrong_version envelope r) t (at_root "version") = Ok u' ->
  validateEnvelope r = Ok u -> exists p, as_HailEnvelope (HMap n r) = Some p.
Proof.
  intros Ht Hver Hv. apply version_sound in Hver as [v Hver].
  unfold validateEnvelope in Hv. valid.
  match goal with H1 : exactKeys _ _ _ _ = _, H2 : validate_authorization _ _ _ = _,
      H3 : validate_parent _ _ _ = _, H4 : field r "authorization" = Some (HMap ?n' _) |- _ =>
    destruct (envelope_optionals _ _ _ _ _ _ H1 H2 H3) as ([i Hi] & [j Hj] & [k Hk]);
    eapply (authorization_sound r n') in H2 as [z Hz]; [|done] end.
  apply reply_permission_sound in Hv as [rp Hrp].
  match goal with H : validate_body_descriptor _ _ _ = _ |- _ =>
    apply body_descriptor_sound in H as [bd Hbd] end.
  assert (Hcat : exists c, Models.optional r "category" as_string = Some c).
  { match goal with H : (if negb (is_undefined (field r "category")) then _ else _) = Ok _ |- _ =>
      destruct (is_undefined (field r "category")) eqn:Hc; cbn [negb] in H end;
    valid; reader; by eexists. }
  destruct Hcat as [c Hcat].
  assert (Hmt : exists m, Models.optional r "message_type" (as_enum message_types) = Some m).
  { match goal with H : (if negb (is_undefined (field r "message_type")) then _ else _) = Ok _ |- _ =>
      destruct (is_undefined (field r "message_type")) eqn:Hc; cbn [negb] in H end; valid.
    - reader. by eexists.
    - match goal with H : includes MESSAGE_TYPES _ = true |- _ =>
        destruct (enum_includes message_types _ H) as [mt Hmt] end.
      reader. unfold as_enum. reader. by eexists. }
  destruct Hmt as [mt Hmt].
  unfold as_HailEnvelope. reader. by eexists.
Qed.

(** ** Bodies *)

Lemma attachment_media_type_enum name :
  exists t, enum attachment_types (js (attachment_media_type name)) = Some t.
Proof. unfold attachment_media_type. repeat case_match; by eexists. Qed.

Lemma attachment_sound i v total total' :
  validate_attachment i v total = Ok total' -> exists a, as_HailAttachment v = Some a.
Proof.
  unfold validate_attachment. intros Hv. apply bind_Ok in Hv as (r & [n [= ->]]%record_Ok & Hv).
  valid. subst.
  match goal with H : field ?d "algorithm" = _, H' : field r "digest" = Some (HMap _ ?d) |- _ =>
    destruct (field d "value") as [[]|] eqn:Hval; try discriminate end.
  match goal with H : field r "media_type" = Some (HStr (js (attachment_media_type ?nm))) |- _ =>
    destruct (attachment_media_type_enum nm) as [t Hmt] end.
  unfold as_HailAttachment. reader. unfold as_enum. reader. unfold as_HailDigest. reader.
  by eexists.
Qed.

Lemma optional_attachments_sound r u :
  optional_attachments r = Ok u ->
  exists a, Models.optional r "attachments" (as_list as_HailAttachment) = Some a.
Proof.
  unfold optional_attachments. intros Hv.
  destruct (is_undefined (field r "attachments")) eqn:Ha; cbn [negb] in Hv.
  - rewrite optional_None by done. by eexists.
  - unfold validateAttachments in Hv. valid.
    match goal with H : ifoldM _ _ _ validate_attachment = _ |- _ =>
      apply (ifoldM_reads _ as_HailAttachment) in H as [k Hk]; [|intros; by eapply attachment_sound] end.
    reader. unfold as_list. reader. by eexists.
Qed.

Lemma empty_list_reads r k l :
  field r k = Some (HArr l) -> (length l =? 0)%nat = true -> req r k as_empty_list = Some tt.
Proof. intros Hr Hl. unfold req. rewrite Hr. by destruct l. Qed.

Lemma spt1_span_sound p i v u : spt1_span p i v = Ok u -> exists s, as_HailSptSpan v = Some s.
Proof.
  unfold spt1_span. intros Hv. apply bind_Ok in Hv as (r & [n [= ->]]%record_Ok & Hv). valid. subst.
  match goal with H : field r "marks" = _, H' : (_ =? 0)%nat = true |- _ =>
    pose proof (empty_list_reads _ _ _ H H') end.
  unfold as_HailSptSpan. cbn [as_record mbind option_bind].
  rewrite (lit_str_Some r "_type" "span") by done. cbn [mbind option_bind].
  match goal with H : req r "marks" _ = _ |- _ => rewrite H end. reader. by eexists.
Qed.

Lemma nonempty_children {A} (f : hvalue -> option A) r k l xs :
  field r k = Some (HArr l) -> (length l =? 0)%nat = false -> mapM f l = Some xs ->
  exists a, req r k (as_nonempty f) = Some a.
Proof.
  intros Hr Hl Hx. rewrite (req_Some _ _ _ _ Hr). apply Nat.eqb_neq in Hl.
  by apply (as_nonempty_Some f l xs); [lia|].
Qed.

Lemma spt1_block_sound i v u : spt1_block i v = Ok u -> exists b, as_HailSptTextBlock v = Some b.
Proof.
  unfold spt1_block. intros Hv. apply bind_Ok in Hv as (r & [n [= ->]]%record_Ok & Hv). valid. subst.
  apply (iforM_reads _ as_HailSptSpan) in Hv as [k Hk]; [|intros; by eapply spt1_span_sound].
  match goal with H : field r "markDefs" = _, H' : (_ =? 0)%nat = true |- _ =>
    pose proof (empty_list_reads _ _ _ H H') as Hdefs end.
  match goal with H : field r "children" = _, H' : (_ =? 0)%nat = false |- _ =>
    destruct (nonempty_children as_HailSptSpan _ _ _ _ H H' Hk) as [c Hc] end.
  unfold as_HailSptTextBlock. cbn [as_record mbind option_bind].
  rewrite (lit_str_Some r "_type" "block"), (lit_str_Some r "style" "normal") by done.
  cbn [mbind option_bind]. rewrite Hdefs. cbn [mbind option_bind]. rewrite Hc. by eexists.
Qed.

Lemma spt1_sound r n u :
  validateSpt1Body r = Ok u -> exists b, as_HailSptBody (HMap n r) = Some b.
Proof.
  intros Hv. unfold validateSpt1Body in Hv. valid.
  apply (iforM_reads _ as_HailSptTextBlock) in Hv as [k Hk]; [|intros; by eapply spt1_block_sound].
  match goal with H : optional_attachments r = _ |- _ =>
    apply optional_attachments_sound in H as [a Ha] end.
  unfold as_HailSptBody. reader. unfold as_list. reader. by eexists.
Qed.

Lemma spt2_definition_sound p i v ks ks' :
  spt2_definition p i v ks = Ok ks' -> exists l, as_HailSptLink v = Some l.
Proof.
  unfold spt2_definition. intros Hv. apply bind_Ok in Hv as (r & [n [= ->]]%record_Ok & Hv).
  valid. subst.
  assert (Ht : exists t, Models.optional r "title" as_string = Some t).
  { match goal with H : (if negb (is_undefined (field r "title")) then _ else _) = Ok _ |- _ =>
      destruct (is_undefined (field r "title")) eqn:Ht; cbn [negb] in H end;
    valid; reader; by eexists. }
  destruct Ht as [t Ht]. unfold as_HailSptLink. reader. by eexists.
Qed.

Lemma marks_reads p l : forall index acc acc',
  ifoldM index l acc (fun markIndex mark marks =>
    mark ← text (Some mark) (at_entry p markIndex); Ok (marks ++ [mark])) = Ok acc' ->
  exists k, mapM as_string l = Some k.
Proof.
  intros index acc acc'. apply ifoldM_reads. intros i a s s' Ha. valid. simplify_eq. by eexists.
Qed.

Lemma spt2_span_sound p ks i v u : spt2_span p ks i v = Ok u -> exists s, as_HailSpt2Span v = Some s.
Proof.
  unfold spt2_span. intros Hv. apply bind_Ok in Hv as (r & [n [= ->]]%record_Ok & Hv). valid. subst.
  match goal with H : ifoldM _ _ _ _ = Ok _ |- _ => apply marks_reads in H as [k Hk] end.
  unfold as_HailSpt2Span. reader. unfold as_list. reader. by eexists.
Qed.

(** An optional member whose value is one of a list of names. *)
Lemma optional_enum {A} (table : list (String.string * A)) r k :
  negb (is_undefined (field r k)) && negb (includes_value (map js (map fst table)) (field r k)) = false ->
  exists a, Models.optional r k (as_enum table) = Some a.
Proof.
  intros Hv. unfold Models.optional. destruct (field r k) as [h|]; [|by eexists].
  cbn [is_undefined negb andb] in Hv. apply negb_false_iff in Hv. unfold includes_value in Hv.
  destruct h; try done. destruct (enum_includes table _ Hv) as [a Ha].
  exists (Some a). unfold as_enum. simpl. by rewrite Ha.
Qed.

Lemma level_sound r p u :
  (if negb (is_undefined (field r "level")) then
     if is_undefined (field r "listItem") then fail (js "invalid list level") p
     else
       level ← integer (field r "level") p 1;
       reject (negb (existsb (Z.eqb level) [1; 2; 3])) "invalid list level" p
   else Ok tt) = Ok u ->
  exists l, Models.optional r "level" as_list_level = Some l.
Proof.
  intros Hv. destruct (is_undefined (field r "level")) eqn:Hl; cbn [negb] in Hv.
  - rewrite optional_None by done. by eexists.
  - destruct (is_undefined (field r "listItem")); [done|]. valid. reader.
    apply existsb_exists in Hv as (z & Hin & ->%Z.eqb_eq).
    repeat (destruct Hin as [<-|Hin]; [by eexists|]). done.
Qed.

Lemma spt2_block_sound i v u : spt2_block i v = Ok u -> exists b, as_HailSpt2TextBlock v = Some b.
Proof.
  unfold spt2_block. intros Hv. apply bind_Ok in Hv as (r & [n [= ->]]%record_Ok & Hv). valid. subst.
  match goal with H : iforM _ _ _ = Ok _ |- _ =>
    apply (iforM_reads _ as_HailSpt2Span) in H as [k Hk]; [|intros; by eapply spt2_span_sound] end.
  match goal with H : ifoldM _ _ _ (spt2_definition _) = Ok _ |- _ =>
    apply (ifoldM_reads _ as_HailSptLink) in H as [d Hd]; [|intros; by eapply spt2_definition_sound] end.
  match goal with H : field r "children" = _, H' : (_ =? 0)%nat = false |- _ =>
    destruct (nonempty_children as_HailSpt2Span _ _ _ _ H H' Hk) as [c Hc] end.
  match goal with H : _ && negb (includes_value _ (field r "alignment")) = false |- _ =>
    destruct (optional_enum alignments _ _ H) as [al Hal] end.
  match goal with H : _ && negb (includes_value _ (field r "listItem")) = false |- _ =>
    destruct (optional_enum list_items _ _ H) as [li Hli] end.
  match goal with H : (if negb (is_undefined (field r "level")) then _ else _) = Ok _ |- _ =>
    destruct (level_sound _ _ _ H) as [lv Hlv] end.
  assert (Hst : exists st, req r "style" (as_enum block_styles) = Some st).
  { match goal with H : includes_value _ (field r "style") = true |- _ =>
      unfold includes_value in H; destruct (field r "style") as [[]|] eqn:Hs; try discriminate H;
      destruct (enum_includes block_styles _ H) as [st Hst] end.
    unfold as_enum. reader. by eexists. }
  destruct Hst as [st Hst].
  unfold as_HailSpt2TextBlock. cbn [as_record mbind option_bind].
  rewrite (lit_str_Some r "_type" "block") by done. cbn [mbind option_bind].
  rewrite Hst, Hal. cbn [mbind option_bind]. rewrite Hc. cbn [mbind option_bind].
  reader. unfold as_list. reader. by eexists.
Qed.

Lemma spt2_blocks_sound r u :
  validateSpt2Body r = Ok u ->
  exists l, field r "blocks" = Some (HArr l) /\
    (exists k, mapM as_HailSpt2TextBlock l = Some k) /\
    field r "version" = Some (HNum 1) /\ field r "profile" = Some (HStr (js "spt-2")) /\
    exists a, Models.optional r "attachments" (as_list as_HailAttachment) = Some a.
Proof.
  intros Hv. unfold validateSpt2Body in Hv. valid. eexists. split; [eassumption|].
  split_and!; try done.
  - eapply iforM_reads; [|exact Hv]. intros. by eapply spt2_block_sound.
  - by eapply optional_attachments_sound.
Qed.

Lemma spt2_sound r n u :
  validateSpt2Body r = Ok u -> exists b, as_HailSpt2Body (HMap n r) = Some b.
Proof.
  intros (l & Hl & [k Hk] & Hver & Hp & a & Ha)%spt2_blocks_sound.
  unfold as_HailSpt2Body. reader. unfold as_list. reader. by eexists.
Qed.

Lemma image_block_sound assets i v st st' :
  spt3_block assets i v st = Ok st' ->
  textBlocks st' = textBlocks st ++ [v] \/
  textBlocks st' = textBlocks st /\ exists b, as_HailSptImageBlock v = Some b.
Proof.
  unfold spt3_block. intros Hv. apply bind_Ok in Hv as (r & [n [= ->]]%record_Ok & Hv).
  destruct (is_str (field r "_type") "spt.image") eqn:Ht; cbn [negb] in Hv.
  - right. valid. subst. split; [done|].
    assert (Hc : exists t, Models.optional r "caption" as_string = Some t).
    { eapply optional_text. eassumption. }
    destruct Hc as [t Hc]. unfold as_HailSptImageBlock. reader. by eexists.
  - left. valid. by subst.
Qed.

Lemma spt3_blocks_sound assets l st st' k :
  ifoldM 0 l st (spt3_block assets) = Ok st' -> textBlocks st = [] ->
  mapM as_HailSpt2TextBlock (textBlocks st') = Some k ->
  exists k', mapM as_spt3_block l = Some k'.
Proof.
  intros Hl Hst Hk.
  assert (HQ : Forall (fun v => (exists b, as_HailSptImageBlock v = Some b) \/ v ∈ textBlocks st')
    ([] ++ l)).
  { apply (ifoldM_invariant (spt3_block assets) (fun seen s => Forall (fun v =>
      (exists b, as_HailSptImageBlock v = Some b) \/ v ∈ textBlocks s) seen)) with (3 := Hl); [|done].
    intros i v s s' seen Hseen Hs. apply Forall_app. 
    destruct (image_block_sound _ _ _ _ _ Hs) as [-> | [-> Hb]].
    - split; [|constructor; [right; set_solver|done]].
      eapply Forall_impl; [exact Hseen|]. intros w [Hw|Hw]; [by left|right; set_solver].
    - split; [exact Hseen|constructor; [by left|done]]. }
  apply mapM_is_Some_2. simpl in HQ. eapply Forall_impl; [exact HQ|]. intros v Hv.
  unfold as_spt3_block, compose. destruct (as_HailSptImageBlock v) eqn:Hi; [by eexists|].
  destruct Hv as [[b Hb]|Hv]; [congruence|]. apply mapM_Some_1 in Hk.
  apply list_elem_of_lookup in Hv as [j Hj].
  eapply Forall2_lookup_l in Hk as (b & _ & Hb); [|exact Hj]. rewrite Hb. by eexists.
Qed.

Lemma spt3_sound r n u :
  validateSpt3Body r = Ok u -> exists b, as_HailSpt3Body (HMap n r) = Some b.
Proof.
  intros Hv. unfold validateSpt3Body in Hv. valid.
  apply spt2_blocks_sound in Hv as (l & Hl & [k Hk] & _). cbn in Hl. injection Hl as <-.
  match goal with H : ifoldM _ _ _ (spt3_block _) = Ok _ |- _ =>
    eapply spt3_blocks_sound in H as [k' Hk']; [|done|exact Hk] end.
  match goal with H : optional_attachments r = _ |- _ =>
    apply optional_attachments_sound in H as [a Ha] end.
  match goal with H : validateAssetManifest _ = _ |- _ =>
    apply asset_manifest_field in H as (m & Hm' & Hmm) end.
  unfold as_HailSpt3Body. reader. unfold as_list. reader. by eexists.
Qed.

(** ** The assertion *)

Lemma validate_record_sound t n r u :
  t <> Signed connection_control -> validate_record t r = Ok u ->
  exists p, as_payload t (HMap n r) = Some p.
Proof.
  intros Hnc Hv. destruct t as [t| | |]; cbn [validate_record as_payload] in *.
  - apply bind_Ok in Hv as (u1 & Ht & Hv). apply bind_Ok in Hv as (u2 & Hver & Hv).
    destruct (strict_eq (field r "type") _) eqn:Heq; [|done]. apply type_field in Heq.
    assert (Hver1 : t <> address_binding -> t <> sender_profile -> t <> envelope ->
      field r "version" = Some (HNum 1)).
    { intros ???. apply reject_Ok in Hver. unfold wrong_version in Hver.
      rewrite !bool_decide_eq_false_2 in Hver by done. cbn [negb andb] in Hver. by valid. }
    destruct t; cbn [validate_signed] in Hv.
    + by eapply address_binding_sound.
    + by eapply sender_profile_sound.
    + by eapply grant_sound; [|apply Hver1|].
    + by eapply connection_invitation_sound; [|apply Hver1|].
    + by eapply connection_confirmation_sound; [|apply Hver1|].
    + by eapply connection_grant_sound; [|apply Hver1|].
    + done.
    + by eapply conversation_sound; [|apply Hver1|].
    + by eapply conversation_revival_sound; [|apply Hver1|].
    + by eapply envelope_sound.
    + by eapply delivery_status_sound; [|apply Hver1|].
  - by eapply spt1_sound.
  - by eapply spt2_sound.
  - by eapply spt3_sound.
Qed.
End soundness.

(** C5: Type soundness of validation.  For every payload type but [hail.connection-control],
    whenever [validatePayload] returns, the value has the TypeScript type it asserts,
    [HailPayloadByType[T]]. *)
Theorem validatePayload_sound `{HailEnv} t x v :
  t <> Signed connection_control -> validatePayload t x = Ok v ->
  as_hail x = Some v /\ exists p, as_payload t v = Some p.
Proof.
  intros Hnc Hv. unfold validatePayload in Hv. apply bind_Ok in Hv as (w & Ha & Hv).
  apply assertHailValue_as_hail in Ha.
  apply bind_Ok in Hv as (r & [n [= ->]]%record_Ok & Hv). apply bind_Ok in Hv as (u & Hr & [= <-]).
  split; [done|]. by eapply validate_record_sound.
Qed.
