(* ===== verification/ValidationErrors.v ===== *)
(** * What validation throws

    [validatePayload] throws nothing but [HailCodecError], except for connection controls,
    whose validator converts members with [String(...)].  The PNG loop never runs out of
    fuel. *)

From S2P Require Import Prelude JsString Regex Value Rfc8949 Scan Cbor Profiles Validation.
From S2P Require Import Png Payloads Envelope Bodies ValidatePayload Models.
From Stdlib Require Import ZArith.
Open Scope Z_scope.

(** ** Primitives *)

Lemma codec_only_fail {A} m p : codec_only (@fail A m p).
Proof. done. Qed.
Lemma codec_only_reject b m p : codec_only (reject b m p).
Proof. by destruct b. Qed.
Lemma codec_only_record v p : codec_only (record v p).
Proof. by destruct v as [[]|]. Qed.
Lemma codec_only_text v p : codec_only (text v p).
Proof. by destruct v as [[]|]. Qed.
Lemma codec_only_array v p : codec_only (array v p).
Proof. by destruct v as [[]|]. Qed.
Lemma codec_only_boolean v p : codec_only (boolean v p).
Proof. by destruct v as [[]|]. Qed.
Lemma codec_only_integer v p m : codec_only (integer v p m).
Proof. unfold integer. by repeat case_match. Qed.
Lemma codec_only_bytes_of v n p : codec_only (bytes_of v n p).
Proof. unfold bytes_of. by repeat case_match. Qed.
#[export] Hint Resolve codec_only_fail codec_only_reject codec_only_record codec_only_text
  codec_only_array codec_only_boolean codec_only_integer codec_only_bytes_of : hail.

(** A step on straight-line validators. *)
Ltac errors := unfold did, uuid, category; codec_only.

Lemma codec_only_exactKeys r q o p : codec_only (exactKeys r q o p).
Proof. unfold exactKeys. errors. Qed.
Lemma codec_only_did v p : codec_only (did v p).
Proof. errors. Qed.
Lemma codec_only_uuid v p : codec_only (uuid v p).
Proof. errors. Qed.
Lemma codec_only_category v p : codec_only (category v p).
Proof. errors. Qed.
Lemma codec_only_keyId v s r p : codec_only (keyId v s r p).
Proof. unfold keyId. errors. Qed.
#[export] Hint Resolve codec_only_exactKeys codec_only_did codec_only_uuid codec_only_category
  codec_only_keyId : hail.
Lemma codec_only_digest v p : codec_only (digest v p).
Proof. unfold digest. errors. Qed.
#[export] Hint Resolve codec_only_digest : hail.

Lemma codec_only_mapM {A B} (f : A -> M B) l :
  (forall a, codec_only (f a)) -> codec_only (mapM f l).
Proof.
  intros Hf. induction l as [|a l IH]; simpl; [done|].
  apply codec_only_bind; [done|]. intros b _. apply codec_only_bind; [done|]. done.
Qed.

(** ** PNG *)

Lemma getUint32_nonneg data i : 0 <= getUint32 data i.
Proof.
  unfold getUint32, data_at. repeat case_match; lia.
Qed.

Lemma codec_only_png_chunk data p st ty len stop : codec_only (png_chunk data p st ty len stop).
Proof. unfold png_chunk. codec_only. Qed.

(** Every iteration moves at least twelve bytes forward, so the length is enough fuel. *)
Lemma codec_only_png_loop data p fuel : forall st,
  (length data < fuel + png_offset st)%nat -> codec_only (png_loop data p fuel st).
Proof.
  induction fuel as [|fuel IH]; intros st Hf; cbn [png_loop].
  - destruct (Nat.leb_spec (png_offset st + 12) (length data)); [lia|done].
  - destruct (Nat.leb_spec (png_offset st + 12) (length data)); [|done].
    apply codec_only_bind; [codec_only|]. intros _ _.
    apply codec_only_bind; [codec_only|]. intros _ _.
    apply codec_only_bind; [codec_only|]. intros _ _.
    apply codec_only_bind; [apply codec_only_png_chunk|]. intros [st' []] Hc; [done|].
    apply IH. simpl. pose proof (getUint32_nonneg data (png_offset st)). lia.
Qed.

Lemma codec_only_png data p : codec_only (validatePngStructure data p).
Proof.
  unfold validatePngStructure. apply codec_only_bind; [codec_only|]. intros _ _.
  apply codec_only_bind; [|codec_only]. 
  apply codec_only_png_loop. simpl. lia.
Qed.
#[export] Hint Resolve codec_only_png : hail.

Section errors.
Context `{HailEnv}.

Lemma codec_only_hailAddress v p : codec_only (hailAddress v p).
Proof. unfold hailAddress. codec_only. Qed.
Lemma codec_only_profileText v lo hi p : codec_only (profileText v lo hi p).
Proof. unfold profileText. codec_only. Qed.
#[local] Hint Resolve codec_only_hailAddress codec_only_profileText : hail.

Lemma checkValue_codec_only limits allow x p d c : codec_only (checkValue limits allow x p d c).
Proof.
  assert (He := checkValue_errors limits allow x p d c).
  by destruct (checkValue _ _ _ _ _ _) as [|[]].
Qed.

Lemma codec_only_assertHailValue limits x :
  limits_ok limits -> js_wf x = true -> codec_only (assertHailValue limits x).
Proof.
  intros Hl Hwf. unfold assertHailValue.
  apply codec_only_bind; [apply checkValue_codec_only|].
  intros c (i & Hn & _)%checkValue_passes; [|done].
  destruct (narrow_as_hail x i Hn Hwf) as (h & -> & _). by case_match.
Qed.

(** A member that is read again as an [unknown]. *)
Lemma codec_only_assert_field limits f :
  limits_ok limits -> codec_only (assertHailValue limits (js_of_field f)).
Proof.
  intros Hl. unfold assertHailValue.
  apply codec_only_bind; [apply checkValue_codec_only|].
  intros c Hc. destruct f as [h|]; cbn [js_of_field] in *.
  - rewrite as_hail_of_hail. by case_match.
  - apply checkValue_passes in Hc as (i & Hn & _); done.
Qed.

Lemma codec_only_validate_asset i v seen : codec_only (validate_asset i v seen).
Proof. unfold validate_asset. codec_only. Qed.

Lemma codec_only_asset_manifest f : codec_only (validateAssetManifest (js_of_field f)).
Proof.
  unfold validateAssetManifest.
  apply codec_only_bind; [by apply codec_only_assert_field, default_limits_ok|].
  intros v _. codec_only. apply codec_only_validate_asset.
Qed.

Lemma codec_only_manifest_assets f p : codec_only (manifest_assets f p).
Proof. unfold manifest_assets. codec_only. Qed.
#[local] Hint Resolve codec_only_asset_manifest codec_only_manifest_assets : hail.

(** ** Payloads *)

Lemma codec_only_expiry r b : codec_only (connectionExpiry r b).
Proof. unfold connectionExpiry. codec_only. Qed.
#[local] Hint Resolve codec_only_expiry : hail.

Lemma codec_only_profile_category i v s : codec_only (profile_category i v s).
Proof. unfold profile_category. codec_only. Qed.
Lemma codec_only_scope_category i v s : codec_only (scope_category i v s).
Proof. unfold scope_category. codec_only. Qed.
Lemma codec_only_conversation_member i v s : codec_only (conversation_member i v s).
Proof. unfold conversation_member. codec_only. Qed.
#[local] Hint Resolve codec_only_profile_category codec_only_scope_category
  codec_only_conversation_member : hail.

Lemma codec_only_validate_signed t r :
  t <> connection_control -> t <> envelope -> codec_only (validate_signed t r).
Proof.
  intros Ht He. destruct t; try done; cbn [validate_signed].
  - unfold validateAddressBinding. codec_only.
  - unfold validateSenderProfile. codec_only.
  - unfold validateGrant. codec_only.
  - unfold validateConnectionInvitation. codec_only.
  - unfold validateConnectionConfirmation. codec_only.
  - unfold validateConnectionGrant. codec_only.
  - unfold validateConversation. codec_only.
  - unfold validateConversationRevival. codec_only.
  - unfold validateDeliveryStatus. codec_only.
Qed.

Lemma codec_only_introduction r a : codec_only (validate_introduction r a).
Proof. unfold validate_introduction. codec_only. Qed.
#[local] Hint Resolve codec_only_introduction : hail.
Lemma codec_only_authorization r a s : codec_only (validate_authorization r a s).
Proof. unfold validate_authorization. codec_only. Qed.
Lemma codec_only_parent_reference r : codec_only (parent_reference r).
Proof. unfold parent_reference. codec_only. Qed.
#[local] Hint Resolve codec_only_parent_reference : hail.
Lemma codec_only_parent r a s : codec_only (validate_parent r a s).
Proof. unfold validate_parent. codec_only. Qed.
Lemma codec_only_body_descriptor r c e : codec_only (validate_body_descriptor r c e).
Proof. unfold validate_body_descriptor. codec_only. Qed.
Lemma codec_only_reply_permission r s c : codec_only (validate_reply_permission r s c).
Proof. unfold validate_reply_permission. codec_only. Qed.
#[local] Hint Resolve codec_only_authorization codec_only_parent codec_only_body_descriptor
  codec_only_reply_permission : hail.
Lemma codec_only_envelope r : codec_only (validateEnvelope r).
Proof. unfold validateEnvelope. codec_only. Qed.

(** ** Bodies *)

Lemma codec_only_attachment i v n : codec_only (validate_attachment i v n).
Proof. unfold validate_attachment. codec_only. Qed.
#[local] Hint Resolve codec_only_attachment : hail.
Lemma codec_only_attachments r : codec_only (optional_attachments r).
Proof. unfold optional_attachments, validateAttachments. codec_only. Qed.
Lemma codec_only_spt1_span p i v : codec_only (spt1_span p i v).
Proof. unfold spt1_span. codec_only. Qed.
#[local] Hint Resolve codec_only_attachments codec_only_spt1_span : hail.
Lemma codec_only_spt1_block i v : codec_only (spt1_block i v).
Proof. unfold spt1_block. codec_only. Qed.
Lemma codec_only_spt2_definition p i v ks : codec_only (spt2_definition p i v ks).
Proof. unfold spt2_definition. codec_only. Qed.
Lemma codec_only_spt2_span p ks i v : codec_only (spt2_span p ks i v).
Proof. unfold spt2_span. codec_only. Qed.
Lemma codec_only_spt2_cta p b c : codec_only (spt2_cta p b c).
Proof.
  unfold spt2_cta. codec_only.
  all: apply codec_only_mapM; codec_only.
Qed.
#[local] Hint Resolve codec_only_spt1_block codec_only_spt2_definition codec_only_spt2_span
  codec_only_spt2_cta : hail.
Lemma codec_only_spt2_block i v : codec_only (spt2_block i v).
Proof. unfold spt2_block. codec_only. Qed.
#[local] Hint Resolve codec_only_spt2_block : hail.
Lemma codec_only_spt2 r : codec_only (validateSpt2Body r).
Proof. unfold validateSpt2Body. codec_only. Qed.
Lemma codec_only_spt3_block assets i v st : codec_only (spt3_block assets i v st).
Proof. unfold spt3_block. codec_only. Qed.
#[local] Hint Resolve codec_only_spt2 codec_only_spt3_block : hail.

Lemma codec_only_validate_record t r :
  t <> Signed connection_control -> codec_only (validate_record t r).
Proof.
  intros Ht. destruct t as [t| | |]; cbn [validate_record].
  - apply codec_only_bind; [codec_only|]. intros _ _.
    apply codec_only_bind; [codec_only|]. intros _ _.
    destruct (decide (t = envelope)) as [->|He]; [apply codec_only_envelope|].
    apply codec_only_validate_signed; congruence.
  - unfold validateSpt1Body. codec_only.
  - codec_only.
  - unfold validateSpt3Body. codec_only.
Qed.
End errors.

(** C6: [validatePayload] is total and throws nothing but [HailCodecError], for every type but
    [hail.connection-control]; the recursion over values and the walk over PNG chunks
    included. *)
Theorem validatePayload_errors `{HailEnv} t x e :
  t <> Signed connection_control -> js_wf x = true ->
  validatePayload t x = Err e -> exists c, e = CodecError c.
Proof.
  intros Ht Hwf. apply codec_only_Err. unfold validatePayload.
  apply codec_only_bind; [by apply codec_only_assertHailValue; [apply default_limits_ok|]|].
  intros v _. apply codec_only_bind; [apply codec_only_record|]. intros r _.
  apply codec_only_bind; [by apply codec_only_validate_record|]. done.
Qed.
