(* ===== verification/ValidationRules.v ===== *)
(** * What a validated payload satisfies

    The rules of the protocol that [validatePayload] enforces beyond the types, stated on the
    typed payloads of [Models.v]; and the places where the validator enforces less than its type
    or its message says.  At the end, what a validated PNG image is. *)

From S2P Require Import Prelude JsString Regex Value Rfc8949 Scan Cbor Profiles Validation Png Payloads.
From S2P Require Import Envelope Bodies ValidatePayload Models Soundness ValidationErrors.
From Stdlib Require Import ZArith.
Open Scope Z_scope.

(** ** Reading a validated payload *)

(** From what is known of the members to what the reader returned. *)
Ltac read_inv :=
  repeat match goal with
  | H : req ?r ?k ?f = Some _, Hf : field ?r ?k = Some _ |- _ =>
      rewrite (req_Some r k f _ Hf) in H;
      cbn [as_string as_number as_bytes as_record mbind option_bind] in H
  | H : Models.optional ?r ?k ?f = Some _, Hf : field ?r ?k = Some _ |- _ =>
      rewrite (optional_Some r k f _ Hf) in H;
      cbn [as_string as_number as_bytes as_record mbind option_bind fmap option_fmap option_map] in H
  | H : Models.optional ?r ?k ?f = Some _, Hf : is_undefined (field ?r ?k) = true |- _ =>
      rewrite (optional_None r k f Hf) in H
  | H : Some _ = Some _ |- _ => injection H as H
  end.
Ltac read_fields H := repeat (apply bind_Some in H as (? & ? & H)).

Lemma as_record_HMap n r m : as_record (HMap n r) = Some m -> m = r.
Proof. by intros [= ->]. Qed.

(** What [validatePayload] ran. *)
Lemma validatePayload_inv `{HailEnv} t x v :
  validatePayload t x = Ok v -> exists n r u, v = HMap n r /\ validate_record t r = Ok u.
Proof.
  intros Hv. unfold validatePayload in Hv. apply bind_Ok in Hv as (w & Ha & Hv).
  apply bind_Ok in Hv as (r & [n [= ->]]%record_Ok & Hv). apply bind_Ok in Hv as (u & Hr & [= <-]).
  eauto.
Qed.

Lemma validate_signed_inv `{HailEnv} t r u :
  validate_record (Signed t) r = Ok u -> exists u', validate_signed t r = Ok u'.
Proof.
  intros Hv. cbn [validate_record] in Hv. apply bind_Ok in Hv as (u1 & _ & Hv).
  apply bind_Ok in Hv as (u2 & _ & Hv). eauto.
Qed.

(** The typed payload and the run of its validator. *)
Lemma signed_payload `{HailEnv} t x v :
  t <> connection_control -> validatePayload (Signed t) x = Ok v ->
  exists n r u p, v = HMap n r /\ validate_signed t r = Ok u /\ as_payload (Signed t) v = Some p.
Proof.
  intros Ht Hv. destruct (validatePayload_inv _ _ _ Hv) as (n & r & u & -> & Hr).
  destruct (validate_record_sound (Signed t) n r u) as [p Hp]; [congruence|done|].
  apply validate_signed_inv in Hr as [u' Hr]. eauto 10.
Qed.

(** ** Delivery status *)

Definition delivery_status_ok (s : HailDeliveryStatus) : Prop :=
  let '(base, variant) := s in
  length (digest_value (ds_envelope_digest base)) = 32%nat /\
  match variant with
  | StatusAccepted => True
  | StatusOnHold revision _ retry_at => 2 <= revision /\ 0 <= ds_occurred_at base <= retry_at
  | StatusDelivered revision | StatusFailed revision _ | StatusCancelled revision _ =>
      2 <= revision
  end.

Lemma digest_length v p u h d :
  digest v p = Ok u -> v = Some h -> as_HailDigest h = Some d -> length (digest_value d) = 32%nat.
Proof.
  intros (n & m & b & Hv & _ & Ha & Hb & Hlen)%digest_Ok -> Hd. injection Hv as ->.
  unfold as_HailDigest in Hd. cbn [as_record mbind option_bind] in Hd. read_fields Hd. read_inv. subst.
  done.
Qed.

Lemma req_digest r k p u d :
  digest (field r k) p = Ok u -> req r k as_HailDigest = Some d -> length (digest_value d) = 32%nat.
Proof.
  intros Hd Hr. unfold req in Hr. apply bind_Some in Hr as (h & Hf & Hr).
  by eapply digest_length.
Qed.

Lemma delivery_status_rules_record r n u s :
  validateDeliveryStatus r = Ok u -> as_HailDeliveryStatus (HMap n r) = Some s ->
  delivery_status_ok s.
Proof.
  intros Hv Hs. unfold validateDeliveryStatus in Hv. valid.
  unfold as_HailDeliveryStatus in Hs. cbn [as_record mbind option_bind] in Hs. read_fields Hs.
  injection Hs as <-. split; [by eapply req_digest|].
  match goal with H : as_status_variant r = Some ?v |- _ =>
    rename v into variant; rename H into Hvar end.
  match goal with H : Bool.eqb _ _ = true |- _ => apply eqb_prop in H; rename H into Hacc end.
  match goal with H : includes DELIVERY_STATES _ = true |- _ =>
    apply includes_elem in H; rename H into Hin end.
  unfold as_status_variant in Hvar. read_fields Hvar. read_inv. subst.
  unfold DELIVERY_STATES in Hin. cbn [map] in Hin.
  match type of Hacc with (?rev =? 1) = jstr_eqb ?s _ =>
    assert (Hrev : jstr_eqb s (js "accepted") = false -> 2 <= rev) end.
  { intros Hna. rewrite Hna in Hacc. bools. lia. }
  repeat (apply elem_of_cons in Hin as [->|Hin]); [..|by apply elem_of_nil in Hin];
    match goal with H : as_enum delivery_states (HStr ?s) = Some _ |- _ =>
      vm_compute in H; injection H as <- end; cbv iota in Hvar; read_fields Hvar;
    try (injection Hvar as <-); cbn [ds_occurred_at]; try done; try (by apply Hrev).
  split; [by apply Hrev|].
  change (jstr_eqb (js "on-hold") (js "on-hold")) with true in Hv. cbv iota in Hv. valid. read_inv.
  bools. lia.
Qed.

(** ** Envelopes *)

Section envelope_rules.
Context `{HailEnv}.
#[local] Set Default Proof Using "All".

Definition window_ok (e : HailEnvelope) : Prop :=
  let body := e_body e in
  let access := bd_access body in
  0 <= e_created_at e < e_expires_at e /\ e_expires_at e <= e_created_at e + 604800 /\
  1 <= bd_size body <= 1048576 /\
  e_created_at e + 2592000 <= bd_available_until body <= e_created_at e + 2678400 /\
  e_expires_at e + 300 <= bd_available_until body /\
  bd_available_until body <= access_expires_at access <= e_created_at e + 2678400 /\
  length (access_token access) = 32%nat /\ length (digest_value (bd_digest body)) = 32%nat.

Definition reply_ok (e : HailEnvelope) : Prop :=
  match e_reply e with
  | ReplyDenied => True
  | ReplyAllowed until =>
      e_created_at e < until /\
      match e_authorization e with
      | AuthorizedByGrant _ | AuthorizedByReply _ => True
      | AuthorizedByConnection _ _ | AuthorizedByConversation _ _ _ => False
      end
  end.

Definition authorization_ok (e : HailEnvelope) : Prop :=
  match e_authorization e with
  | AuthorizedByGrant _ => e_version e = v1 /\ exists c, e_category e = Some c
  | AuthorizedByReply _ => (e_version e = v1 \/ e_version e = v3) /\ e_category e = None
  | AuthorizedByConnection _ epoch =>
      (e_version e = v2 \/ e_version e = v3) /\ e_category e = None /\ 1 <= epoch
  | AuthorizedByConversation _ _ _ =>
      e_version e = v4 /\ e_from e <> e_to e /\ exists id, e_conversation_message_id e = Some id
  end.

Definition introduction_ok (e : HailEnvelope) : Prop :=
  forall i, e_conversation_introduction e = Some i ->
  exists id hash, e_authorization e = AuthorizedByConversation (e_from e) id hash /\
    e_in_reply_to e = None /\ e_conversation_message_id e = Some id /\
    1 <= Z.of_nat (length (in_descriptor i)) <= 16384 /\
    every_byte (sha256 (in_descriptor i)) (digest_value hash) = true.

Definition parent_ok (e : HailEnvelope) : Prop :=
  match e_version e with
  | v3 =>
      e_from e <> e_to e /\
      exists p, e_in_reply_to e = Some p /\ mr_sender p = e_to e /\
        forall id, e_authorization e = AuthorizedByReply id -> mr_message_id p = id
  | v4 =>
      forall p, e_in_reply_to e = Some p ->
      ~ (mr_sender p = e_from e /\ e_conversation_message_id e = Some (mr_message_id p))
  | _ => e_in_reply_to e = None /\ e_conversation_message_id e = None
  end.

Definition envelope_ok (e : HailEnvelope) : Prop :=
  window_ok e /\ reply_ok e /\ authorization_ok e /\ introduction_ok e /\ parent_ok e.

(** The members the typed envelope was read from. *)
Record envelope_view (r : HailRecord) (e : HailEnvelope) : Prop := {
  ev_version : req r "version" as_envelope_version = Some (e_version e);
  ev_cmid : Models.optional r "conversation_message_id" as_string = Some (e_conversation_message_id e);
  ev_intro : Models.optional r "conversation_introduction" as_conversation_introduction =
    Some (e_conversation_introduction e);
  ev_parent : Models.optional r "in_reply_to" as_HailMessageReference = Some (e_in_reply_to e);
  ev_from : req r "from" as_string = Some (e_from e);
  ev_to : req r "to" as_string = Some (e_to e);
  ev_auth : req r "authorization" as_HailEnvelopeAuthorization = Some (e_authorization e);
  ev_category : Models.optional r "category" as_string = Some (e_category e);
  ev_created : req r "created_at" as_number = Some (e_created_at e);
  ev_expires : req r "expires_at" as_number = Some (e_expires_at e);
  ev_body : req r "body" as_HailBodyDescriptor = Some (e_body e);
  ev_reply : req r "reply" as_HailReplyPermission = Some (e_reply e);
}.

Lemma as_envelope_view n r e : as_HailEnvelope (HMap n r) = Some e -> envelope_view r e.
Proof.
  intros He. unfold as_HailEnvelope in He. cbn [as_record mbind option_bind] in He.
  read_fields He. injection He as <-. by split.
Qed.

Lemma req_string r k s : req r k as_string = Some s -> field r k = Some (HStr s).
Proof. unfold req. destruct (field r k) as [[]|]; simpl; try done. by intros [= ->]. Qed.

Lemma req_number r k z : req r k as_number = Some z -> field r k = Some (HNum z).
Proof. unfold req. destruct (field r k) as [[]|]; simpl; try done. by intros [= ->]. Qed.

Lemma optional_string r k o :
  Models.optional r k as_string = Some o -> field r k = HStr <$> o.
Proof.
  unfold Models.optional. destruct (field r k) as [[]|]; simpl; try done; by intros [= <-].
Qed.

Lemma version_view r v z :
  req r "version" as_envelope_version = Some v -> version_is r z = true ->
  (z = 1 -> v = v1) /\ (z = 2 -> v = v2) /\ (z = 3 -> v = v3) /\ (z = 4 -> v = v4).
Proof.
  intros Hv Hz. apply is_num_eq in Hz. rewrite (req_Some _ _ _ _ Hz) in Hv.
  repeat split; intros ->; by injection Hv as <-.
Qed.

Lemma version_view_inv r v :
  req r "version" as_envelope_version = Some v ->
  version_is r (match v with v1 => 1 | v2 => 2 | v3 => 3 | v4 => 4 end) = true.
Proof.
  unfold req. intros Hv. apply bind_Some in Hv as (h & Hf & Hv). apply is_num_eq. rewrite Hf.
  destruct h as [| |z| | | |]; try done. cbn in Hv.
  repeat (case_match; try done); by injection Hv as <-.
Qed.

Lemma window_rules r e u :
  envelope_view r e ->
  validate_body_descriptor r (e_created_at e) (e_expires_at e) = Ok u ->
  0 <= e_created_at e -> e_created_at e < e_expires_at e <= e_created_at e + 604800 ->
  window_ok e.
Proof.
  intros Hview Hb Hc Hw. unfold validate_body_descriptor in Hb. valid. subst.
  pose proof (ev_body _ _ Hview) as Hbody. read_inv.
  unfold as_HailBodyDescriptor in Hbody. cbn [as_record mbind option_bind] in Hbody.
  read_fields Hbody. injection Hbody as Hbody.
  match goal with H : req _ "access" as_bearer_access = Some _ |- _ => rename H into Hacc end.
  read_inv. unfold as_bearer_access in Hacc. cbn [as_record mbind option_bind] in Hacc.
  read_fields Hacc. read_inv.
  subst. unfold window_ok. rewrite <- Hbody. cbn. bools.
  split_and!; try lia. by eapply req_digest.
Qed.

(** The type of the authorization and its members. *)
Inductive authorization_view (b : HailRecord) (a : jstr) : HailEnvelopeAuthorization -> Prop :=
| view_grant id : a = js "grant" -> authorization_view b a (AuthorizedByGrant id)
| view_reply id : a = js "reply" -> field b "reply_to" = Some (HStr id) ->
    authorization_view b a (AuthorizedByReply id)
| view_connection id epoch : a = js "connection" -> field b "epoch" = Some (HNum epoch) ->
    authorization_view b a (AuthorizedByConnection id epoch)
| view_conversation creator id hash : a = js "conversation" ->
    field b "creator" = Some (HStr creator) -> field b "conversation_id" = Some (HStr id) ->
    req b "descriptor_hash" as_HailDigest = Some hash ->
    authorization_view b a (AuthorizedByConversation creator id hash).

Lemma as_authorization_view n b a auth :
  field b "type" = Some (HStr a) -> as_HailEnvelopeAuthorization (HMap n b) = Some auth ->
  authorization_view b a auth.
Proof.
  intros Hty Ha. unfold as_HailEnvelopeAuthorization in Ha. cbn [as_record mbind option_bind] in Ha.
  rewrite (req_Some _ _ _ _ Hty) in Ha. cbn [as_string mbind option_bind] in Ha.
  repeat match type of Ha with (if jstr_eqb a ?s then _ else _) = _ =>
    destruct (jstr_eqb a s) eqn:?; [|] end; try done;
    read_fields Ha; injection Ha as <-;
    repeat match goal with H : jstr_eqb _ _ = true |- _ => apply jstr_eqb_eq in H end;
    repeat match goal with
    | H : req _ _ as_string = Some _ |- _ => apply req_string in H
    | H : req _ _ as_number = Some _ |- _ => apply req_number in H
    end; by constructor.
Qed.

Lemma reply_rules r e a b u :
  envelope_view r e -> authorization_view b a (e_authorization e) ->
  validate_reply_permission r a (e_created_at e) = Ok u -> reply_ok e.
Proof.
  intros Hview Ha Hv. unfold validate_reply_permission in Hv. valid.
  pose proof (ev_reply _ _ Hview) as Hr. read_inv.
  unfold as_HailReplyPermission in Hr. cbn [as_record mbind option_bind] in Hr.
  match goal with H : field ?x "allowed" = _ |- _ => rewrite H in Hr end.
  unfold reply_ok. destruct x0; [|by injection Hr as <-].
  apply fmap_Some in Hr as (z & Hz & ->). valid. read_inv. subst. bools. split; [lia|].
  rewrite andb_true_r, orb_false_iff in *.
  destruct Ha as [| |? ? ->|? ? ? ->]; naive_solver.
Qed.

Lemma not_both (b c : bool) : negb b && negb c = false -> b = true \/ c = true.
Proof. destruct b, c; simpl; auto. Qed.

Lemma authorization_rules r e a b u :
  envelope_view r e -> authorization_view b a (e_authorization e) ->
  validate_authorization r b a = Ok u -> authorization_ok e.
Proof.
  intros Hview Ha Hv. unfold authorization_ok.
  pose proof (ev_version _ _ Hview) as Hver. pose proof (ev_category _ _ Hview) as Hcat.
  assert (Hvers : forall z, version_is r z = true -> _) by (intros z; apply (version_view r _ z Hver)).
  destruct Ha as [id ->|id -> ?|id epoch -> ?|creator id hash -> ?];
    unfold validate_authorization in Hv;
    repeat match type of Hv with (if jstr_eqb (js ?s) (js ?t) then _ else _) = _ =>
      let c := eval vm_compute in (jstr_eqb (js s) (js t)) in
      change (jstr_eqb (js s) (js t)) with c in Hv; cbv iota in Hv end; valid.
  - read_inv. split; [|by eauto]. by apply (Hvers 1).
  - read_inv. split; [|done]. match goal with H : negb _ && negb _ = false |- _ =>
      apply not_both in H as [H|H]; apply Hvers in H end; naive_solver.
  - read_inv. simplify_eq. split; [|done]. match goal with H : negb _ && negb _ = false |- _ =>
      apply not_both in H as [H|H]; apply Hvers in H end; naive_solver.
  - pose proof (ev_cmid _ _ Hview) as Hid. read_inv. split; [by apply (Hvers 4)|].
    split; [|by eauto]. intros Heq. pose proof (req_string _ _ _ (ev_from _ _ Hview)) as Hf.
    pose proof (req_string _ _ _ (ev_to _ _ Hview)) as Ht.
    match goal with H : strict_eq _ _ = false |- _ => rewrite Hf, Ht, Heq in H end.
    simpl in *. rewrite jstr_eqb_refl in *. done.
Qed.

Lemma version_not r e z :
  envelope_view r e ->
  version_is r z = false ->
  (z = 1 -> e_version e <> v1) /\ (z = 2 -> e_version e <> v2) /\
  (z = 3 -> e_version e <> v3) /\ (z = 4 -> e_version e <> v4).
Proof.
  intros Hview Hz. pose proof (version_view_inv _ _ (ev_version _ _ Hview)) as Hv.
  repeat split; intros -> Heq; rewrite Heq in Hv; congruence.
Qed.

Lemma string_neq a b x y :
  a = Some (HStr x) -> b = Some (HStr y) -> strict_eq a b = false -> x <> y.
Proof. intros -> -> Hs ->. simpl in Hs. by rewrite jstr_eqb_refl in Hs. Qed.

Lemma string_eq a b x y :
  a = Some (HStr x) -> b = Some (HStr y) -> strict_eq a b = true -> x = y.
Proof. intros -> -> Hs. simpl in Hs. by apply jstr_eqb_eq in Hs. Qed.

Lemma reference_view n m p :
  as_HailMessageReference (HMap n m) = Some p ->
  field m "sender" = Some (HStr (mr_sender p)) /\
  field m "message_id" = Some (HStr (mr_message_id p)).
Proof.
  intros Hp. unfold as_HailMessageReference in Hp. cbn [as_record mbind option_bind] in Hp.
  read_fields Hp. injection Hp as <-. cbn.
  split; by apply req_string.
Qed.

Lemma parent_rules r e a b u u' t opt :
  envelope_view r e -> authorization_view b a (e_authorization e) ->
  exactKeys r (keys ["type"; "version"; "message_id"; "from"; "to"; "authorization";
        "created_at"; "expires_at"; "body"; "reply"]%string) opt t = Ok u' ->
  (version_is r 4 = false -> version_is r 3 = false ->
   opt = keys ["category"; "message_type"]%string) ->
  validate_parent r b a = Ok u -> parent_ok e.
Proof.
  intros Hview Ha Hk Hopt Hv. unfold validate_parent in Hv.
  pose proof (req_string _ _ _ (ev_from _ _ Hview)) as Hf.
  pose proof (req_string _ _ _ (ev_to _ _ Hview)) as Ht.
  pose proof (ev_parent _ _ Hview) as Hp. pose proof (ev_cmid _ _ Hview) as Hc.
  pose proof (version_view_inv _ _ (ev_version _ _ Hview)) as Hver.
  apply bind_Ok in Hv as (u1 & H4 & H3). unfold parent_ok.
  assert (Hother : forall z, version_is r z = true -> z <> 3 -> z <> 4 ->
    e_in_reply_to e = None /\ e_conversation_message_id e = None).
  { intros z Hz H3' H4'.
    assert (V4 : version_is r 4 = false) by
      (destruct (version_is r 4) eqn:V; [|done]; exfalso; eauto using version_unique).
    assert (V3 : version_is r 3 = false) by
      (destruct (version_is r 3) eqn:V; [|done]; exfalso; eauto using version_unique).
    rewrite (Hopt V4 V3) in Hk.
    assert (Ha1 := exactKeys_absent _ _ _ _ _ "conversation_message_id" Hk eq_refl).
    assert (Ha3 := exactKeys_absent _ _ _ _ _ "in_reply_to" Hk eq_refl).
    read_inv. by subst. }
  destruct (e_version e).
  - by apply (Hother 1).
  - by apply (Hother 2).
  - rewrite Hver in H3. unfold parent_reference in H3. valid. read_inv.
    subst. apply fmap_Some in Hp as (p & Hp & Hp'). destruct (reference_view _ _ _ Hp) as [Hs Hid].
    rewrite Hp'. split; [by eapply string_neq|]. exists p. split; [done|].
    split; [by eapply string_eq|]. intros id Hauth.
    rewrite Hauth in Ha. inversion Ha as [|? Hty Hr| |]; subst.
    match goal with H : jstr_eqb _ _ && negb _ = false |- _ =>
      rewrite jstr_eqb_refl in H; cbn [andb] in H; apply negb_false_iff in H end.
    by eapply string_eq.
  - intros p Hp' [Hs Hm]. rewrite Hver in H4.
    rewrite Hp' in Hp. unfold Models.optional in Hp.
    destruct (field r "in_reply_to") as [h|] eqn:Hin; [|done].
    cbn [is_undefined negb andb] in H4. unfold parent_reference in H4. rewrite Hin in H4. valid.
    simplify_eq. apply fmap_Some in Hp as (q & Hq & Hq'). injection Hq' as ->.
    destruct (reference_view _ _ _ Hq) as [Hqs Hqid].
    pose proof (optional_string _ _ _ Hc) as Hc'. rewrite Hm in Hc'. cbn in Hc'.
    rewrite Hqs, Hqid, Hf, Hc', Hs in H4. simpl in H4. by rewrite !jstr_eqb_refl in H4.
Qed.

Lemma digest_view n m d :
  as_HailDigest (HMap n m) = Some d -> field m "value" = Some (HBytes (digest_value d)).
Proof.
  intros Hd. unfold as_HailDigest in Hd. cbn [as_record mbind option_bind] in Hd.
  read_fields Hd. injection Hd as <-.
  match goal with H : req m "value" as_bytes = Some _ |- _ =>
    unfold req in H; destruct (field m "value") as [[]|]; try discriminate H;
    cbn in H; by injection H as -> end.
Qed.

Lemma introduction_rules r e b a u :
  envelope_view r e -> authorization_view b a (e_authorization e) ->
  validate_authorization r b a = Ok u -> version_is r 4 = true -> introduction_ok e.
Proof.
  intros Hview Ha Hv V4 i Hi.
  assert (Hv' : forall z, version_is r z = true -> z = 4) by (intros; by eapply version_unique).
  unfold validate_authorization in Hv.
  pose proof (ev_intro _ _ Hview) as Hintro. rewrite Hi in Hintro.
  pose proof (ev_parent _ _ Hview) as Hp.
  pose proof (optional_string _ _ _ (ev_cmid _ _ Hview)) as Hcm.
  pose proof (req_string _ _ _ (ev_from _ _ Hview)) as Hf.
  destruct Ha as [id ->|id -> ?|id epoch -> ?|creator id hash -> Hcr Hcid Hhash];
    repeat match type of Hv with (if jstr_eqb (js ?s) (js ?t) then _ else _) = _ =>
      let c := eval vm_compute in (jstr_eqb (js s) (js t)) in
      change (jstr_eqb (js s) (js t)) with c in Hv; cbv iota in Hv end; valid.
  1-3: exfalso; repeat match goal with
       | H : negb _ && negb _ = false |- _ => apply not_both in H as [H|H]
       | H : version_is _ _ = true |- _ => apply Hv' in H; discriminate
       end.
  unfold Models.optional in Hintro.
  destruct (field r "conversation_introduction") as [h|] eqn:Hin; [|done].
  cbn [is_undefined negb] in Hv. unfold validate_introduction in Hv. rewrite Hin in Hv. valid.
  match goal with H : Some h = Some (HMap ?n' ?m) |- _ => injection H as ->; rename m into intro end.
  apply fmap_Some in Hintro as (j & Hj & Hj'). injection Hj' as ->.
  unfold as_conversation_introduction in Hj. cbn [as_record mbind option_bind] in Hj.
  read_fields Hj. injection Hj as <-. cbn [in_descriptor].
  repeat match goal with H : req intro _ _ = Some _ |- _ => first
    [ unfold req in H; destruct (field intro "descriptor") as [[]|]; try discriminate H;
      cbn in H; injection H as -> | clear H ] end.
  match goal with H : (if (_ <? 1) || _ then _ else _) = Ok _ |- _ =>
    destruct (_ || _) eqn:Hlen in H; [discriminate H|]; injection H as <-;
    apply orb_false_iff in Hlen end.
  match goal with H : strict_eq (field r "from") (field b "creator") = true |- _ =>
    pose proof (string_eq _ _ _ _ Hf Hcr H) as <- end.
  match goal with H : strict_eq (field r "conversation_message_id") _ = true,
    H' : field r "conversation_message_id" = Some (HStr ?s) |- _ =>
    pose proof (string_eq _ _ _ _ H' Hcid H) as ->; rewrite H' in Hcm end.
  exists id, hash. split; [done|]. read_inv. split; [done|]. split.
  { destruct (e_conversation_message_id e); [|done]. cbn in Hcm. by injection Hcm as ->. }
  destruct Hlen as [Hl1 Hl2]. bools. split; [lia|].
  apply digest_view in Hhash.
  match goal with H : every_byte _ _ = true |- _ => by rewrite Hhash in H end.
Qed.

Lemma typed_envelope_rules r n u e :
  validateEnvelope r = Ok u -> as_HailEnvelope (HMap n r) = Some e -> envelope_ok e.
Proof.
  intros Hv He. apply as_envelope_view in He as Hview.
  pose proof (ev_auth _ _ Hview) as Hauth. pose proof (ev_created _ _ Hview) as Hc.
  pose proof (ev_expires _ _ Hview) as Hex.
  unfold validateEnvelope in Hv. valid. read_inv. subst.
  eapply as_authorization_view in Hauth; [|eassumption].
  split_and!.
  - bools. eapply window_rules; [done|eassumption|lia|lia].
  - by eapply reply_rules.
  - by eapply authorization_rules.
  - intros i Hi.
    destruct (version_is r 4) eqn:V4; [by eapply introduction_rules|].
    assert (Habs : is_undefined (field r "conversation_introduction") = true).
    { match goal with H : exactKeys r _ _ _ = _ |- _ =>
        eapply (exactKeys_absent _ _ _ _ _ "conversation_introduction"); [exact H|] end.
      by destruct (version_is r 3). }
    pose proof (ev_intro _ _ Hview) as Hin. read_inv. congruence.
  - eapply parent_rules; [done|eassumption|eassumption| |eassumption].
    by intros -> ->.
Qed.
End envelope_rules.

(** ** Ascending lists *)

(** A loop that compares each key with the previous one, starting from the empty text, accepts
    only strictly ascending keys. *)
Lemma ascending_loop (f : nat -> hvalue -> jstr -> M jstr) (key : hvalue -> option jstr) :
  (forall i v p p', f i v p = Ok p' -> key v = Some p' /\ jstr_lt p p') ->
  forall l i p, ifoldM i l [] f = Ok p ->
  exists ks, mapM key l = Some ks /\ StronglySorted jstr_lt ks.
Proof.
  intros Hf l i p Hl.
  set (Q := fun seen prev => exists ks, mapM key seen = Some ks /\
    StronglySorted jstr_lt ks /\ Forall (fun k => k = prev \/ jstr_lt k prev) ks).
  assert (HQ : Q ([] ++ l) p); [|by destruct HQ as (ks & Hk & Hs & _); exists ks].
  revert Hl. apply ifoldM_invariant; [|by exists []; repeat constructor].
  intros j v s s' seen (ks & Hk & Hs & Hle) Hstep. apply Hf in Hstep as [Hv Hlt].
  assert (Hall : Forall (fun k => jstr_lt k s') ks).
  { eapply Forall_impl; [exact Hle|]. intros k [->|Hk']; [done|]. by trans s. }
  exists (ks ++ [s']). split.
  { apply mapM_Some_2. apply mapM_Some_1 in Hk. apply Forall2_app; [done|]. by repeat constructor. }
  split.
  - clear Hk Hle. induction Hs as [|k ks Hks IH Hk]; simpl; [by repeat constructor|].
    apply Forall_cons in Hall as [Hk' Hall]. constructor; [by apply IH|].
    apply Forall_app. by repeat constructor.
  - apply Forall_app. split; [|by repeat constructor; left].
    eapply Forall_impl; [exact Hall|]. by right.
Qed.

(** ** Conversations *)

Definition conversation_ok (c : HailConversation) : Prop :=
  StronglySorted jstr_lt (cv_participants c) /\
  cv_from c ∈ cv_participants c /\
  (3 <= length (cv_participants c) <= 101)%nat /\
  0 <= cv_created_at c < cv_admission_until c /\
  cv_admission_until c <= cv_created_at c + 604800.

Lemma conversation_rules_record r n u c :
  validateConversation r = Ok u -> as_HailConversation (HMap n r) = Some c -> conversation_ok c.
Proof.
  intros Hv Hc. unfold validateConversation in Hv. valid.
  unfold as_HailConversation in Hc. cbn [as_record mbind option_bind] in Hc. read_fields Hc.
  injection Hc as <-. read_inv.
  match goal with H : ifoldM _ _ _ conversation_member = _ |- _ =>
    apply (ascending_loop _ as_string) in H as (ks & Hks & Hsorted) end.
  2: { intros i v p p' Hs. unfold conversation_member in Hs. valid. simplify_eq.
       split; [done|]. by apply jstr_le_false. }
  match goal with H : as_list as_string (HArr _) = Some ?l |- _ =>
    unfold as_list in H; rewrite Hks in H; injection H as <- end.
  assert (Hlen := Forall2_length _ _ _ (mapM_Some_1 _ _ _ Hks)).
  subst. unfold conversation_ok. cbn. bools. split_and!; try done; try lia.
  match goal with H : existsb _ _ = true |- _ => apply existsb_exists in H as (m & Hin & Heq) end.
  unfold strict_eq in Heq. destruct m; try done. apply jstr_eqb_eq in Heq as ->.
  apply list_elem_of_In, list_elem_of_lookup in Hin as [j Hj].
  apply mapM_Some_1 in Hks. eapply Forall2_lookup_l in Hks as (k & Hk & Hkk); [|exact Hj].
  injection Hkk as ->. by eapply list_elem_of_lookup_2.
Qed.

(** ** Grants *)

Definition grant_ok (g : HailGrant) : Prop :=
  1 <= g_revision g /\
  (g_previous g = None <-> g_revision g = 1) /\
  (forall p, g_previous g = Some p -> length p = 32%nat) /\
  scope_values (g_scope g) <> [] /\ StronglySorted jstr_lt (scope_values (g_scope g)) /\
  0 <= g_issued_at g <= g_updated_at g /\
  g_key_id g = g_grantor g ++ js "#hail-identity" /\
  rx_test UUID_V7_PATTERN (g_grant_id g) = true /\
  isSafeInteger (g_issued_at g) = true /\ isSafeInteger (g_updated_at g) = true /\
  (forall t, g_expires_at g = Some t -> isSafeInteger t = true).

Lemma grant_previous_rules r revision u p :
  1 <= revision ->
  (if revision =? 1 then negb (is_null (field r "previous"))
   else negb (match field r "previous" with Some (HBytes _) => true | _ => false end)) = false ->
  (if 1 <? revision then _ ← bytes_of (field r "previous") 32 (at_root "previous"); Ok tt
   else Ok tt) = Ok u ->
  req r "previous" (as_nullable as_bytes) = Some p ->
  (p = None <-> revision = 1) /\ (forall b, p = Some b -> length b = 32%nat).
Proof.
  intros H1 Hp Hb Hr. destruct (Z.eqb_spec revision 1) as [->|Hne].
  - valid. rewrite (req_Some _ _ _ _ Hp) in Hr. injection Hr as <-. naive_solver.
  - destruct (Z.ltb_spec 1 revision); [|lia]. valid. read_inv. subst. injection Hr as <-.
    split; [naive_solver|]. intros b' [= <-]. lia.
Qed.

Lemma grant_expiry_rules r u e :
  (if negb (is_null (field r "expires_at")) then
     _ ← integer (field r "expires_at") (at_root "expires_at") 0; Ok tt else Ok tt) = Ok u ->
  req r "expires_at" (as_nullable as_number) = Some e -> forall t, e = Some t -> isSafeInteger t = true.
Proof.
  intros Hv Hr t ->. destruct (is_null _) eqn:Hn; cbn [negb] in Hv.
  - valid. by rewrite (req_Some _ _ _ _ Hn) in Hr.
  - valid. read_inv. cbn in Hr. by simplify_eq.
Qed.

Lemma grant_scope_rules l n m s u g :
  (length l =? 1)%nat = true -> l !! 0%nat = Some (HMap n m) ->
  field m "type" = Some (HStr s) ->
  (if jstr_eqb s (js "categories") then
     _ ← exactKeys m (keys ["type"; "values"]%string) [] scope_path;
     values ← array (field m "values") (dot scope_path "values");
     _ ← reject (length values =? 0)%nat "must not be empty" (dot scope_path "values");
     _ ← ifoldM 0 values [] scope_category;
     Ok tt
   else fail (js "unknown scope selector") (dot scope_path "type")) = Ok u ->
  as_singleton as_HailGrantScope (HArr l) = Some g ->
  scope_values g <> [] /\ StronglySorted jstr_lt (scope_values g).
Proof.
  intros Hl Hm Ht Hv Hg. destruct l as [|v [|]]; try done. injection Hm as ->.
  unfold as_singleton, as_list in Hg. cbn [mapM] in Hg. 
  apply bind_Some in Hg as (l & Hl' & Hg). apply bind_Some in Hl' as (g' & Hg' & [= <-]).
  injection Hg as ->. unfold as_HailGrantScope in Hg'. cbn [as_record mbind option_bind] in Hg'.
  read_fields Hg'. injection Hg' as <-. cbn.
  destruct (jstr_eqb s (js "categories")) eqn:He; [|done]. valid.
  match goal with H : ifoldM _ _ _ scope_category = _ |- _ =>
    apply (ascending_loop _ as_string) in H as (ks & Hks & Hsorted) end.
  2: { intros i v p p' Hs. unfold scope_category in Hs. valid. simplify_eq.
       split; [done|]. by apply jstr_le_false. }
  read_inv. match goal with H : as_list as_string (HArr _) = Some _ |- _ =>
    unfold as_list in H; rewrite Hks in H; injection H as <- end.
  split; [|done]. intros ->. apply mapM_Some_1, Forall2_length in Hks. by bools.
Qed.

Lemma grant_rules_record `{HailEnv} r n u g :
  validateGrant r = Ok u -> as_HailGrant (HMap n r) = Some g -> grant_ok g.
Proof.
  intros Hv Hg. unfold validateGrant in Hv. valid.
  unfold as_HailGrant in Hg. cbn [as_record mbind option_bind] in Hg. read_fields Hg.
  injection Hg as <-. read_inv. subst. unfold grant_ok. cbn.
  match goal with H1 : (if ?v =? 1 then _ else _) = false, H2 : (if 1 <? ?v then _ else _) = Ok _,
      H3 : req r "previous" _ = Some _ |- _ =>
    destruct (grant_previous_rules r v _ _ ltac:(assumption) H1 H2 H3) as [Hprev Hlen] end.
  match goal with H : (if jstr_eqb _ (js "categories") then _ else _) = Ok _,
      H' : as_singleton _ _ = Some _ |- _ =>
    eapply grant_scope_rules in H as [Hne Hsorted]; [|done|done|done|exact H'] end.
  match goal with Hv : (if negb (is_null (field r "expires_at")) then _ else _) = Ok _,
      Hr : req r "expires_at" _ = Some _ |- _ => pose proof (grant_expiry_rules r _ _ Hv Hr) as Hexp end.
  bools. split_and!; done.
Qed.

(** ** Properties *)

(** C7: A validated envelope is within the protocol's windows (it expires after its creation and
    within seven days; the body stays available for 30 to 31 days, past the expiry, and the
    access token as long), its authorization fits its version, only grants and replies issue
    reply capabilities, an introduction comes from the conversation's creator with a descriptor
    that hashes to the signed digest, and a parent reference names the other participant. *)
Theorem envelope_rules `{HailEnv} x v :
  validatePayload (Signed envelope) x = Ok v ->
  exists e, as_HailEnvelope v = Some e /\ envelope_ok e.
Proof.
  intros Hv. destruct (signed_payload envelope _ _ ltac:(done) Hv) as (n & r & u & e & -> & Hr & He).
  exists e. split; [done|]. by eapply typed_envelope_rules.
Qed.

(** A validated delivery status is [accepted] exactly as revision 1, every later state has a
    later revision, a hold is not retried before it occurred, and each state carries a reason
    of its own kind or none. *)
Theorem delivery_status_rules `{HailEnv} x v :
  validatePayload (Signed delivery_status) x = Ok v ->
  exists s, as_HailDeliveryStatus v = Some s /\ delivery_status_ok s.
Proof.
  intros Hv. destruct (signed_payload delivery_status _ _ ltac:(done) Hv) as (n & r & u & s & -> & Hr & Hs).
  exists s. split; [done|]. by eapply delivery_status_rules_record.
Qed.

(** A validated conversation has 3 to 101 participants in strictly ascending order (so none
    twice), its creator among them, and an admission window of at most seven days. *)
Theorem conversation_rules `{HailEnv} x v :
  validatePayload (Signed conversation) x = Ok v ->
  exists c, as_HailConversation v = Some c /\ conversation_ok c.
Proof.
  intros Hv. destruct (signed_payload conversation _ _ ltac:(done) Hv) as (n & r & u & c & -> & Hr & Hc).
  exists c. split; [done|]. by eapply conversation_rules_record.
Qed.

(** A validated grant has no predecessor exactly when it is revision 1 and a 32-byte digest
    otherwise, a non-empty scope in strictly ascending order, an update that does not precede
    the issue, and the grantor's identity key. *)
Theorem grant_rules `{HailEnv} x v :
  validatePayload (Signed grant) x = Ok v ->
  exists g, as_HailGrant v = Some g /\ grant_ok g.
Proof.
  intros Hv. destruct (signed_payload grant _ _ ltac:(done) Hv) as (n & r & u & g & -> & Hr & Hg).
  exists g. split; [done|]. by eapply grant_rules_record.
Qed.

(** ** Where the validator falls short *)

Definition example_did (c : String.string) : hvalue :=
  HStr (js "did:plc:aaaaaaaaaaaaaaaaaaaaaaa" ++ js c).
Definition example_uuid (c : String.string) : hvalue :=
  HStr (js "00000000-0000-7000-8000-00000000000" ++ js c).
Definition example_digest : hvalue :=
  HMap false [(js "algorithm", HStr (js "sha-256")); (js "value", HBytes (repeat x00 32))].

Definition example_control (operation state : hvalue) : hvalue :=
  HMap true
    [(js "type", HStr (js "hail.connection-control")); (js "version", HNum 1);
     (js "operation", operation); (js "from", example_did "a"); (js "to", example_did "b");
     (js "request_id", example_uuid "1"); (js "connection_id", example_uuid "2");
     (js "epoch", HNum 1); (js "state", state); (js "proof_hash", example_digest);
     (js "issued_at", HNum 100); (js "expires_at", HNum 200);
     (js "key_id", HStr (js "did:plc:aaaaaaaaaaaaaaaaaaaaaaaa#hail-messaging"))].

(** The assertion of a connection control is not sound.  The validator tests
    [String(payload.operation)] and [String(payload.state)], so arrays of one text pass, and
    the value it asserts to be a [HailConnectionControl] is not one. *)
Theorem control_assertion_unsound `{HailEnv} :
  let v := example_control (HArr [HStr (js "probe")]) (HArr [HStr (js "active")]) in
  validatePayload (Signed connection_control) (of_hail v) = Ok v /\
  as_HailConnectionControl v = None.
Proof. split; vm_compute; reflexivity. Qed.

(** A connection control can make the validator throw a [TypeError] instead of a
    [HailCodecError]: a decoded map has no prototype, and [String(map)] throws. *)
Theorem control_type_error `{HailEnv} :
  let v := example_control (HMap true []) (HStr (js "active")) in
  validatePayload (Signed connection_control) (of_hail v) =
    Err (OtherError (js "Cannot convert object to primitive value")).
Proof. vm_compute. reflexivity. Qed.

(** An address without [@] is accepted when it is itself a public domain: [lastIndexOf]
    returns -1, the local part is the text without its last character and the domain is the
    whole text. *)
Theorem address_without_at `{HailEnv} path :
  let domain := js "example.com" in
  toLowerCase domain = domain -> toUnicode_error domain = false ->
  toASCII domain = Some domain -> registrable (parseDomain domain) = Some domain ->
  isIcann (parseDomain domain) = true ->
  hailAddress (Some (HStr domain)) path = Ok domain /\ has_char (char "@") domain = false.
Proof.
  intros domain Hlower Hunicode Hascii Hreg Hicann. split; [|done].
  unfold hailAddress. cbn [text mbind result_bind].
  change (split_address domain) with (js "example.co", domain). cbv beta iota zeta.
  rewrite Hlower, jstr_eqb_refl.
  match goal with |- context [reject ?b "must be a canonical ASCII Hail address" path] =>
    replace b with false by (vm_compute; reflexivity) end.
  cbn [reject mbind result_bind]. rewrite Hascii, Hunicode, jstr_eqb_refl, Hreg, Hicann. done.
Qed.

(** ** An environment for the examples *)

Definition example_env : HailEnv := {|
  sha256 := fun _ => repeat x00 32;
  normalize_NFC := fun s => s;
  toLowerCase := fun s => s;
  toUnicode_error := fun _ => false;
  toASCII := fun s => Some s;
  parseDomain := fun s => {| registrable := Some s; isIcann := true; isPrivate := false |};
  newURL := fun _ => Some {| protocol := js "https:"; username := []; password := [] |};
|}.

Definition example_envelope : hvalue :=
  HMap true
    [(js "type", HStr (js "hail.envelope")); (js "version", HNum 1);
     (js "message_id", example_uuid "1"); (js "from", example_did "a"); (js "to", example_did "b");
     (js "authorization", HMap true [(js "type", HStr (js "grant")); (js "grant_id", example_uuid "2")]);
     (js "category", HStr (js "news")); (js "created_at", HNum 1000); (js "expires_at", HNum 2000);
     (js "body", HMap true
        [(js "digest", example_digest); (js "size", HNum 10);
         (js "media_type", HStr (js "application/hail-body+cbor")); (js "profile", HStr (js "spt-1"));
         (js "available_until", HNum 2593000);
         (js "access", HMap true [(js "type", HStr (js "bearer")); (js "token", HBytes (repeat x00 32));
                                  (js "expires_at", HNum 2593000)])]);
     (js "reply", HMap true [(js "allowed", HBool true); (js "until", HNum 1001)])].

Definition example_status : hvalue :=
  HMap true
    [(js "type", HStr (js "hail.delivery-status")); (js "version", HNum 1);
     (js "message_id", example_uuid "1"); (js "envelope_digest", example_digest);
     (js "from", example_did "a"); (js "to", example_did "b"); (js "revision", HNum 2);
     (js "state", HStr (js "on-hold")); (js "occurred_at", HNum 100);
     (js "reason", HStr (js "sender-unreachable")); (js "retry_at", HNum 160)].

Definition example_conversation : hvalue :=
  HMap true
    [(js "type", HStr (js "hail.conversation")); (js "version", HNum 1);
     (js "conversation_id", example_uuid "1"); (js "from", example_did "b");
     (js "membership_revision", HNum 1);
     (js "participants", HArr [example_did "a"; example_did "b"; example_did "c"]);
     (js "created_at", HNum 0); (js "admission_until", HNum 604800)].

Definition example_grant : hvalue :=
  HMap true
    [(js "type", HStr (js "hail.grant")); (js "version", HNum 1); (js "grant_id", example_uuid "1");
     (js "revision", HNum 1); (js "previous", HNull); (js "grantor", example_did "a");
     (js "grantee", example_did "b");
     (js "scope", HArr [HMap true [(js "type", HStr (js "categories"));
                                   (js "values", HArr [HStr (js "a"); HStr (js "b")])]]);
     (js "status", HStr (js "active")); (js "issued_at", HNum 1); (js "updated_at", HNum 1);
     (js "expires_at", HNull);
     (js "consent_context", HMap true
        [(js "grantee_address", HStr (js "bob@example.com"));
         (js "address_binding_hash", example_digest); (js "sender_profile_hash", example_digest)]);
     (js "key_id", HStr (js "did:plc:aaaaaaaaaaaaaaaaaaaaaaaa#hail-identity"))].

Example envelope_rules_witness :
  exists e, as_HailEnvelope example_envelope = Some e /\ envelope_ok (H := example_env) e.
Proof.
  apply (envelope_rules (H := example_env) (of_hail example_envelope)). vm_compute. reflexivity.
Defined.

Example delivery_status_rules_witness :
  exists s, as_HailDeliveryStatus example_status = Some s /\ delivery_status_ok s.
Proof.
  apply (delivery_status_rules (H := example_env) (of_hail example_status)). vm_compute. reflexivity.
Defined.

Example conversation_rules_witness :
  exists c, as_HailConversation example_conversation = Some c /\ conversation_ok c.
Proof.
  apply (conversation_rules (H := example_env) (of_hail example_conversation)).
  vm_compute. reflexivity.
Defined.

Example grant_rules_witness : exists g, as_HailGrant example_grant = Some g /\ grant_ok g.
Proof.
  apply (grant_rules (H := example_env) (of_hail example_grant)). vm_compute. reflexivity.
Defined.

Example address_without_at_witness :
  hailAddress (H := example_env) (Some (HStr (js "example.com"))) root = Ok (js "example.com") /\
  has_char (char "@") (js "example.com") = false.
Proof. apply (address_without_at (H := example_env)); reflexivity. Defined.

Example validatePayload_sound_witness :
  as_hail (of_hail example_envelope) = Some example_envelope /\
  exists p, as_payload (Signed envelope) example_envelope = Some p.
Proof.
  apply (validatePayload_sound (H := example_env) (Signed envelope)).
  - done.
  - vm_compute. reflexivity.
Defined.

Example validatePayload_errors_witness : exists c,
  validatePayload (H := example_env) (Signed envelope) JNull = Err (CodecError c).
Proof.
  destruct (validatePayload (H := example_env) (Signed envelope) JNull) as [a|e] eqn:He.
  - vm_compute in He. discriminate He.
  - destruct (validatePayload_errors (H := example_env) (Signed envelope) JNull e) as [c Hc].
    + discriminate.
    + reflexivity.
    + exact He.
    + exists c. rewrite Hc. reflexivity.
Defined.

(** ** What a validated PNG image is

    An invariant of the chunk loop of [Png.v]: the header is the first chunk, the dimensions come
    from it, and the end chunk is the end of the data. *)

Section rules.
Variable data : bytes.
Variable path : jstr.

(** Checked facts about the header chunk, which starts at offset 8. *)
Definition header_ok : Prop :=
  getUint32 data 8 = 13 /\ chunk_type data 8 = js "IHDR" /\
  getUint32 data 29 = crc32 data 12 29 /\
  data_at data 24 ∈ valid_depths (data_at data 25).

Definition end_ok : Prop :=
  (20 <= length data)%nat /\ getUint32 data (length data - 12) = 0 /\
  chunk_type data (length data - 12) = js "IEND".

Definition png_invariant (st : png_state) : Prop :=
  (sawHeader st = false -> png_offset st = 8%nat) /\
  (8 <= png_offset st)%nat /\
  (sawHeader st = true -> header_ok /\ png_width st = getUint32 data 16 /\
     png_height st = getUint32 data 20) /\
  (sawEnd st = true -> end_ok).

Lemma png_chunk_step st len st' b :
  png_invariant st ->
  len = getUint32 data (png_offset st) -> 0 <= len ->
  let stop := Z.to_nat (Z.of_nat (png_offset st) + 12 + len) in
  getUint32 data (png_offset st + 8 + Z.to_nat len) =
    crc32 data (png_offset st + 4) (png_offset st + 8 + Z.to_nat len) ->
  (sawHeader st = false -> chunk_type data (png_offset st) = js "IHDR") ->
  png_chunk data path st (chunk_type data (png_offset st)) len stop = Ok (st', b) ->
  png_invariant (if b : bool then st' else at_offset st' stop) /\ sawHeader st' = true.
Proof.
  intros (Hoff & Hge & Hhead & Hend) Hlen Hpos stop Hcrc Hfirst Hv.
  assert (Hstop : (8 <= stop)%nat) by (unfold stop; lia). unfold png_chunk in Hv.
  assert (Hkeep : forall st1 (c : bool), sawHeader st = true -> sawHeader st1 = true ->
    png_width st1 = png_width st -> png_height st1 = png_height st ->
    (8 <= png_offset st1)%nat -> (sawEnd st1 = true -> end_ok) ->
    png_invariant (if c then st1 else at_offset st1 stop) /\ sawHeader st1 = true).
  { intros st1 c Hs Hs1 Hw Hh Ho He. split; [|done].
    assert (png_invariant st1).
    { unfold png_invariant. rewrite Hw, Hh. split_and!; try done; [congruence|auto]. }
    destruct c; [done|]. unfold png_invariant in *. simpl. rewrite Hw, Hh.
    split_and!; try done; [congruence|auto]. }
  assert (Hsaw : chunk_type data (png_offset st) <> js "IHDR" -> sawHeader st = true).
  { intros Hne. destruct (sawHeader st); [done|]. by destruct (Hne (Hfirst eq_refl)). }
  destruct (jstr_eqb (chunk_type data (png_offset st)) (js "IHDR")) eqn:Hty.
  { apply jstr_eqb_eq in Hty. valid. destruct (sawHeader st) eqn:Hs; [done|].
    specialize (Hoff eq_refl). simplify_eq. rewrite Hoff in *. cbn in *. bools.
    split; [|done]. unfold png_invariant. cbn. split_and!; try done; try lia.
    intros _. split; [|done]. unfold header_ok.
    replace (getUint32 data 8) with 13 in Hcrc by lia. cbn in Hcrc.
    split_and!; try done; try lia.
    match goal with H : existsb _ _ = true |- _ => apply existsb_exists in H as (d & Hin & Hd) end.
    apply Z.eqb_eq in Hd as ->. by apply list_elem_of_In. }
  assert (Hne : chunk_type data (png_offset st) <> js "IHDR")
    by (intros Heq; by rewrite Heq, jstr_eqb_refl in Hty).
  specialize (Hsaw Hne).
  destruct (jstr_eqb _ (js "acTL")); [done|].
  destruct (jstr_eqb _ (js "PLTE")).
  { valid. simplify_eq. apply (Hkeep _ false); done. }
  destruct (jstr_eqb _ (js "IDAT")).
  { valid. simplify_eq. apply (Hkeep _ false); done. }
  destruct (jstr_eqb _ (js "IEND")) eqn:Hie.
  { apply jstr_eqb_eq in Hie. valid. simplify_eq. apply (Hkeep _ true); try done. intros _. bools.
    unfold end_ok. replace (length data - 12)%nat with (png_offset st) by lia.
    split_and!; [lia|lia|done]. }
  valid. simplify_eq. apply (Hkeep _ false); done.
Qed.

Lemma getUint32_nonneg' i : 0 <= getUint32 data i.
Proof. unfold getUint32, data_at. repeat case_match; lia. Qed.

Lemma png_loop_invariant fuel : forall st st',
  png_invariant st -> png_loop data path fuel st = Ok st' -> png_invariant st'.
Proof.
  induction fuel as [|fuel IH]; intros st st' Hst Hv; cbn [png_loop] in Hv;
    destruct (_ <=? _)%nat; try done; [congruence| |congruence].
  apply bind_Ok in Hv as ([] & Hv1 & Hv). apply bind_Ok in Hv as ([] & Hcrc & Hv).
  apply bind_Ok in Hv as ([] & Hfirst & Hv). apply bind_Ok in Hv as ([st1 b] & Hc & Hv).
  apply reject_Ok, negb_false_iff, Z.eqb_eq in Hcrc. apply reject_Ok in Hfirst.
  eapply png_chunk_step in Hc as [Hinv _]; [|done|done|apply getUint32_nonneg'|done|].
  - destruct b; [congruence|]. by eapply IH.
  - intros Hs. rewrite Hs in Hfirst. cbn [negb andb] in Hfirst.
    by apply negb_false_iff, jstr_eqb_eq in Hfirst.
Qed.
End rules.

(** The dimensions returned for a PNG image are those of its first chunk, an IHDR chunk of
    thirteen bytes with a matching CRC and a permitted bit depth; they are positive; the data
    starts with the PNG signature and ends with an empty IEND chunk, with nothing after it. *)
Theorem png_dimensions data path w h :
  validatePngStructure data path = Ok (w, h) ->
  (forall i byte, PNG_SIGNATURE !! i = Some byte -> data_at data i = byte) /\
  header_ok data /\ end_ok data /\
  w = getUint32 data 16 /\ h = getUint32 data 20 /\ 0 < w /\ 0 < h.
Proof.
  intros Hv. unfold validatePngStructure in Hv.
  apply bind_Ok in Hv as ([] & Hsig & Hv). apply bind_Ok in Hv as (st & Hloop & Hv).
  apply bind_Ok in Hv as ([] & Hc & [= <- <-]). apply reject_Ok in Hsig, Hc.
  apply orb_false_iff in Hsig as [_ Hsig].
  assert (Hinv : png_invariant data st).
  { eapply png_loop_invariant; [|exact Hloop]. unfold png_invariant. simpl. repeat split; try done; lia. }
  destruct Hinv as (_ & _ & Hhead & Hend). unfold png_incomplete in Hc.
  rewrite !orb_false_iff, !negb_false_iff, !Z.eqb_neq in Hc.
  destruct Hc as ((((((Hsh & Hsd) & Hse) & Hw) & Hh) & _) & _).
  destruct (Hhead Hsh) as (Hok & Hw' & Hh').
  pose proof (getUint32_nonneg' data 16). pose proof (getUint32_nonneg' data 20).
  split_and!; try done; try lia; [|by apply Hend].
  intros i byte Hi. destruct (Z.eq_dec (data_at data i) byte) as [|Hne]; [done|]. exfalso.
  assert (Hex : existsb (fun '(i, byte) => negb (data_at data i =? byte)) (imap pair PNG_SIGNATURE)
    = true); [|congruence].
  apply existsb_exists. exists (i, byte). split.
  - apply list_elem_of_In, list_elem_of_lookup. exists i. by rewrite list_lookup_imap, Hi.
  - by apply negb_true_iff, Z.eqb_neq.
Qed.

(** A 1x1 grayscale image. *)
Definition example_png : bytes :=
  map byte_of_N
    [137; 80; 78; 71; 13; 10; 26; 10;
     0; 0; 0; 13; 73; 72; 68; 82; 0; 0; 0; 1; 0; 0; 0; 1; 8; 0; 0; 0; 0; 58; 126; 155; 85;
     0; 0; 0; 10; 73; 68; 65; 84; 120; 156; 99; 96; 0; 0; 0; 2; 0; 1; 72; 175; 164; 113;
     0; 0; 0; 0; 73; 69; 78; 68; 174; 66; 96; 130]%N.

Example example_png_ok : validatePngStructure example_png root = Ok (1, 1).
Proof. vm_compute. reflexivity. Qed.

Example png_dimensions_witness :
  (forall i byte, PNG_SIGNATURE !! i = Some byte -> data_at example_png i = byte) /\
  header_ok example_png /\ end_ok example_png /\
  1 = getUint32 example_png 16 /\ 1 = getUint32 example_png 20 /\ 0 < 1 /\ 0 < 1.
Proof. apply (png_dimensions example_png root 1 1). vm_compute. reflexivity. Defined.
