(* ===== verification/Base64Url.v ===== *)
(** * Unpadded base64url (packages/hail-codec-ts/src/base64url.ts)

    Encoding and decoding, with the 32-bit accumulator of the decoder written out, and the
    theorem that the decoder accepts exactly the encodings. *)

From S2P Require Import Prelude JsString Regex Value Rfc8949.
From Stdlib Require Import ZArith.
Open Scope Z_scope.

Definition ALPHABET : jstr :=
  js "ABCDEFGHIJKLMNOPQRSTUVWXYZabcdefghijklmnopqrstuvwxyz0123456789-_".

(** ** 32-bit integers *)

(** The result of a bitwise operator is a signed 32-bit integer. *)
Definition to_int32 (z : Z) : Z :=
  let m := z mod 2 ^ 32 in if m <? 2 ^ 31 then m else m - 2 ^ 32.
(** [z >>> k] reads its operand as an unsigned one. *)
Definition shift_right_u (z k : Z) : Z := Z.shiftr (z mod 2 ^ 32) k.

(** ** Encoding *)

(** [output += ALPHABET[i]]; an index out of range would append ["undefined"]. *)
Definition alphabet_at (i : Z) : jstr :=
  match ALPHABET !! Z.to_nat i with Some c => [c] | None => js "undefined" end.

Definition octet (b : byte) : Z := Z.of_N (Byte.to_N b).

Definition combine (first second third : Z) : Z :=
  Z.lor (Z.lor (Z.shiftl first 16) (Z.shiftl second 8)) third.
Definition digit_at (combined shift : Z) : jstr :=
  alphabet_at (Z.land (shift_right_u combined shift) 63).

(** One turn of the loop consumes three bytes; the last may find one or two. *)
Fixpoint encodeBase64Url (bs : bytes) : jstr :=
  match bs with
  | [] => []
  | [first] =>
      let combined := combine (octet first) 0 0 in
      digit_at combined 18 ++ digit_at combined 12
  | [first; second] =>
      let combined := combine (octet first) (octet second) 0 in
      digit_at combined 18 ++ digit_at combined 12 ++ digit_at combined 6
  | first :: second :: third :: rest =>
      let combined := combine (octet first) (octet second) (octet third) in
      digit_at combined 18 ++ digit_at combined 12 ++ digit_at combined 6 ++
      digit_at combined 0 ++ encodeBase64Url rest
  end.

(** ** Decoding *)

Definition BASE64URL_CLASS : list (N * N) :=
  [range "A" "Z"; range "a" "z"; range "0" "9"; one "_"; one "-"].
Definition BASE64URL_PATTERN : regex := RStar (RClass BASE64URL_CLASS).

(** [ALPHABET.indexOf(character)]. *)
Fixpoint index_in (s : jstr) (c : N) (from : Z) : Z :=
  match s with [] => -1 | u :: s => if N.eqb u c then from else index_in s c (from + 1) end.
Definition indexOf (c : N) : Z := index_in ALPHABET c 0.

Record decoder := { accumulator : Z; bits : Z; output : bytes }.

(** One turn of the loop.  The bytes are written at consecutive indices. *)
Definition decode_step (st : decoder) (character : N) : decoder :=
  let acc := to_int32 (Z.lor (to_int32 (Z.shiftl (accumulator st) 6)) (indexOf character)) in
  let n := bits st + 6 in
  if 8 <=? n then
    {| accumulator := acc; bits := n - 8;
       output := output st ++ [byte_of_N (Z.to_N (Z.land (shift_right_u acc (n - 8)) 0xff))] |}
  else {| accumulator := acc; bits := n; output := output st |}.

Definition decode_loop (value : jstr) : decoder :=
  fold_left decode_step value {| accumulator := 0; bits := 0; output := [] |}.

Definition wrong_length (expected : Z) : jstr :=
  js "decoded value must contain exactly " ++ show_Z expected ++ js " bytes".

(** The writes fill the array allocated beforehand ([decode_loop_length] below). *)
Definition decodeBase64Url (value : jstr) (expectedLength : option Z) : M bytes :=
  if negb (rx_test BASE64URL_PATTERN value) || (Z.of_nat (length value) mod 4 =? 1) then
    throw invalid_diagnostic_json "value is not unpadded base64url" None
  else
    let st := decode_loop value in
    if (0 <? bits st)
       && negb (Z.land (accumulator st) (Z.shiftl 1 (bits st) - 1) =? 0) then
      throw invalid_diagnostic_json "value uses a noncanonical base64url tail" None
    else if negb (jstr_eqb (encodeBase64Url (output st)) value) then
      throw invalid_diagnostic_json "value is not canonical unpadded base64url" None
    else
      match expectedLength with
      | Some expected =>
          if negb (Z.of_nat (length (output st)) =? expected) then
            Err (CodecError (new_HailCodecError invalid_diagnostic_json (wrong_length expected) None))
          else Ok (output st)
      | None => Ok (output st)
      end.

Example encode_hello : encodeBase64Url (map byte_of_N (js "hello")) = js "aGVsbG8".
Proof. reflexivity. Qed.
Example decode_hello : decodeBase64Url (js "aGVsbG8") None = Ok (map byte_of_N (js "hello")).
Proof. vm_compute. reflexivity. Qed.
Example decode_tail : decodeBase64Url (js "aGVsbG9") None =
  throw invalid_diagnostic_json "value uses a noncanonical base64url tail" None.
Proof. vm_compute. reflexivity. Qed.

(** ** The alphabet *)

(** The character of a digit. *)
Definition is_digit (d : Z) : Prop := 0 <= d < 64.
Definition char_of (d : Z) : N := default 0%N (ALPHABET !! Z.to_nat d).

Lemma char_of_spec d : is_digit d ->
  alphabet_at d = [char_of d] /\ indexOf (char_of d) = d /\
  in_ranges BASE64URL_CLASS (char_of d) = true.
Proof.
  intros Hd.
  assert (Hall : forallb (fun n => let d := Z.of_nat n in
            bool_decide (alphabet_at d = [char_of d]) && (indexOf (char_of d) =? d)
            && in_ranges BASE64URL_CLASS (char_of d)) (List.seq 0 64) = true) by (vm_compute; done).
  rewrite forallb_forall in Hall. specialize (Hall (Z.to_nat d)).
  rewrite Z2Nat.id in Hall by (unfold is_digit in Hd; lia).
  apply andb_prop in Hall as [[Ha Hi]%andb_prop Hr].
  - by apply bool_decide_eq_true in Ha; apply Z.eqb_eq in Hi.
  - apply List.in_seq. unfold is_digit in Hd. lia.
Qed.

(** The number a list of digits denotes. *)
Definition digits_Z (ds : list Z) : Z := fold_left (fun v d => v * 64 + d) ds 0.

(** ** 32-bit arithmetic *)

Lemma to_int32_mod z : to_int32 z mod 2 ^ 32 = z mod 2 ^ 32.
Proof.
  unfold to_int32. case_match; [by rewrite Z.mod_mod by lia|].
  replace (z mod 2 ^ 32 - 2 ^ 32) with (z mod 2 ^ 32 + (-1) * 2 ^ 32) by lia.
  by rewrite Z.mod_add, Z.mod_mod by lia.
Qed.

(** The low bits of a residue. *)
Lemma mod_low z k n : 0 <= k <= n -> (z mod 2 ^ n) mod 2 ^ k = z mod 2 ^ k.
Proof.
  intros Hk. replace n with (k + (n - k)) by lia.
  rewrite Z.pow_add_r, Z.rem_mul_r by lia.
  by rewrite (Z.mul_comm (2 ^ k)), Z.mod_add, Z.mod_mod by lia.
Qed.

Lemma div_mod_low z s k n : 0 <= s -> 0 <= k -> s + k <= n ->
  (z mod 2 ^ n / 2 ^ s) mod 2 ^ k = (z / 2 ^ s) mod 2 ^ k.
Proof.
  intros Hs Hk Hn. apply Z.bits_inj'. intros i Hi.
  destruct (Z.lt_ge_cases i k).
  - rewrite !Z.mod_pow2_bits_low, !Z.div_pow2_bits, Z.mod_pow2_bits_low by lia. done.
  - by rewrite !Z.mod_pow2_bits_high by lia.
Qed.

(** ** The decoder's loop *)

(** After reading digits that denote [v]: the output holds its leading octets, the accumulator
    its last 32 bits. *)
Record reads (ds : list Z) (st : decoder) : Prop := {
  reads_bits : 0 <= bits st < 8;
  reads_length : 8 * Z.of_nat (length (output st)) + bits st = 6 * Z.of_nat (length ds);
  reads_accumulator : accumulator st mod 2 ^ 32 = digits_Z ds mod 2 ^ 32;
  reads_output : Z.of_N (of_be (output st)) = digits_Z ds / 2 ^ bits st;
}.

Lemma digits_Z_snoc ds d : digits_Z (ds ++ [d]) = digits_Z ds * 64 + d.
Proof. unfold digits_Z. by rewrite fold_left_app. Qed.

(** The quotient of [v * 64 + d] by a power of two of at most six bits less. *)
Lemma shift_digit v d b : is_digit d -> 0 <= b -> (v * 64 + d) / 2 ^ (b + 6) = v / 2 ^ b.
Proof.
  intros Hd Hb. unfold is_digit in Hd. rewrite (Z.add_comm b), Z.pow_add_r by lia.
  rewrite <- Z.div_div by lia. f_equal. change (2 ^ 6) with 64.
  rewrite Z.div_add_l, Z.div_small by lia. lia.
Qed.

Lemma accumulate_spec a v d :
  is_digit d -> a mod 2 ^ 32 = v mod 2 ^ 32 ->
  to_int32 (Z.lor (to_int32 (Z.shiftl a 6)) d) mod 2 ^ 32 = (v * 64 + d) mod 2 ^ 32.
Proof.
  intros Hd Ha. rewrite to_int32_mod. apply Z.bits_inj'. intros i Hi.
  destruct (Z.lt_ge_cases i 32); [|by rewrite !Z.mod_pow2_bits_high by lia].
  change (v * 64) with (v * 2 ^ 6). rewrite <- lor_shiftl_low by (unfold is_digit in Hd; lia).
  rewrite !Z.mod_pow2_bits_low, !Z.lor_spec by lia. f_equal.
  rewrite <- (Z.mod_pow2_bits_low (to_int32 _) 32), to_int32_mod, Z.mod_pow2_bits_low by lia.
  rewrite !Z.shiftl_spec by lia. destruct (Z.lt_ge_cases i 6).
  { by rewrite !Z.testbit_neg_r by lia. }
  rewrite <- (Z.mod_pow2_bits_low a 32), Ha, Z.mod_pow2_bits_low by lia. done.
Qed.

Lemma decode_step_reads ds st d :
  is_digit d -> reads ds st -> reads (ds ++ [d]) (decode_step st (char_of d)).
Proof.
  intros Hd [Hb Hl Ha Ho]. destruct (char_of_spec d Hd) as (_ & Hi & _).
  unfold decode_step. rewrite Hi.
  assert (Hacc := accumulate_spec _ _ d Hd Ha). revert Hacc.
  generalize (to_int32 (Z.lor (to_int32 (Z.shiftl (accumulator st) 6)) d)) as acc. intros acc Hacc.
  case_match eqn:Hn; [apply Z.leb_le in Hn | apply Z.leb_gt in Hn].
  all: split; simpl; rewrite ?length_app, ?digits_Z_snoc; simpl length; try lia; try done.
  - rewrite of_be_app, N2Z.inj_add, N2Z.inj_mul, Ho.
    rewrite to_N_byte_of_N, <- (shift_digit _ d) by (done || lia).
    unfold shift_right_u. rewrite Hacc, Z.shiftr_div_pow2 by lia.
    change 0xff with (Z.ones 8). rewrite Z.land_ones, div_mod_low by lia.
    rewrite N2Z.inj_mod, Z2N.id by (apply Z.mod_pos_bound; lia).
    change (Z.of_N 256) with (2 ^ 8). rewrite Z.mod_mod by lia.
    replace (bits st + 6) with (bits st + 6 - 8 + 8) at 1 by lia.
    rewrite Z.pow_add_r, <- Z.div_div by lia. rewrite Z.mul_comm, <- Z.div_mod; lia.
  - rewrite Ho, shift_digit by (done || lia). done.
Qed.

Lemma decode_loop_reads ds :
  Forall is_digit ds -> reads ds (decode_loop (map char_of ds)).
Proof.
  unfold decode_loop. intros Hds. rewrite <- (app_nil_l ds) at 1.
  assert (H0 : reads [] {| accumulator := 0; bits := 0; output := [] |}) by (split; done).
  revert H0. generalize (@nil Z) as pre.
  generalize {| accumulator := 0; bits := 0; output := [] |} as st.
  induction Hds as [|d ds Hd Hds IH]; intros st pre Hpre; simpl; [by rewrite app_nil_r|].
  replace (pre ++ d :: ds) with ((pre ++ [d]) ++ ds) by by rewrite <- app_assoc.
  apply IH. by apply decode_step_reads.
Qed.

(** ** The encoder's digits *)

Definition digit_of (combined k : Z) : Z := (combined / 2 ^ k) mod 64.

Lemma digit_at_spec c k : 0 <= c < 2 ^ 24 -> 0 <= k -> digit_at c k = [char_of (digit_of c k)].
Proof.
  intros Hc Hk. unfold digit_at, shift_right_u, digit_of.
  rewrite (Z.mod_small c) by lia. rewrite Z.shiftr_div_pow2 by lia.
  change 63 with (Z.ones 6). rewrite Z.land_ones by lia.
  apply char_of_spec. apply Z.mod_pos_bound. lia.
Qed.

Lemma combine_spec a b c :
  0 <= a < 256 -> 0 <= b < 256 -> 0 <= c < 256 -> combine a b c = (a * 256 + b) * 256 + c.
Proof.
  intros Ha Hb Hc. unfold combine.
  replace (Z.lor (Z.shiftl a 16) (Z.shiftl b 8)) with (Z.shiftl (a * 256 + b) 8).
  - by rewrite lor_shiftl_low by lia.
  - replace (a * 256 + b) with (Z.lor (Z.shiftl a 8) b) by (rewrite lor_shiftl_low; lia).
    by rewrite Z.shiftl_lor, Z.shiftl_shiftl by lia.
Qed.

Lemma octet_bound b : 0 <= octet b < 256.
Proof. unfold octet. pose proof (byte_lt_256 b). lia. Qed.

Lemma digits_Z_app a b : digits_Z (a ++ b) = digits_Z a * 64 ^ Z.of_nat (length b) + digits_Z b.
Proof.
  induction b as [|d b IH] using rev_ind; [by rewrite app_nil_r, Z.mul_1_r, Z.add_0_r|].
  rewrite app_assoc, !digits_Z_snoc, IH, length_app. simpl length.
  rewrite Nat2Z.inj_add, Z.pow_add_r by lia. lia.
Qed.

Definition of_be_Z (bs : bytes) : Z := Z.of_N (of_be bs).

Lemma of_be_Z_snoc a b : of_be_Z (a ++ [b]) = of_be_Z a * 256 + octet b.
Proof. unfold of_be_Z. rewrite of_be_app. unfold octet. lia. Qed.

Lemma of_be_Z_app a b : of_be_Z (a ++ b) = of_be_Z a * 256 ^ Z.of_nat (length b) + of_be_Z b.
Proof.
  induction b as [|d b IH] using rev_ind; [by rewrite app_nil_r, Z.mul_1_r, Z.add_0_r|].
  rewrite app_assoc, !of_be_Z_snoc, IH, length_app. simpl length.
  rewrite Nat2Z.inj_add, Z.pow_add_r by lia. lia.
Qed.

Lemma of_be_Z_inj a : forall b, length a = length b -> of_be_Z a = of_be_Z b -> a = b.
Proof.
  induction a as [|x a IH] using rev_ind; intros b Hl Ho.
  - by destruct b.
  - destruct b as [|y b _] using rev_ind; [rewrite length_app in Hl; simpl in Hl; lia|].
    rewrite !length_app in Hl. simpl in Hl. rewrite !of_be_Z_snoc in Ho.
    pose proof (octet_bound x). pose proof (octet_bound y).
    rewrite (IH b) by lia. do 2 f_equal. apply byte_to_N_inj. unfold octet in *. lia.
Qed.

(** The digits of an encoding denote the octets, followed by [pad] zero bits. *)
Record spells (bs : bytes) (ds : list Z) (pad : Z) : Prop := {
  spells_text : encodeBase64Url bs = map char_of ds;
  spells_digits : Forall is_digit ds;
  spells_pad : 0 <= pad <= 4;
  spells_length : 6 * Z.of_nat (length ds) = 8 * Z.of_nat (length bs) + pad;
  spells_value : digits_Z ds = of_be_Z bs * 2 ^ pad;
}.

Lemma digit_of_is_digit c k : is_digit (digit_of c k).
Proof. apply Z.mod_pos_bound. lia. Qed.
#[local] Hint Resolve digit_of_is_digit : core.

Ltac octets :=
  repeat match goal with
         | b : byte |- _ =>
             lazymatch goal with
             | _ : 0 <= octet b < 256 |- _ => fail
             | _ => pose proof (octet_bound b)
             end
         end.

(** The first digits of a value of 24 bits. *)
Lemma four_digits c : 0 <= c < 2 ^ 24 ->
  digits_Z [digit_of c 18; digit_of c 12; digit_of c 6; digit_of c 0] = c.
Proof.
  intros Hc. unfold digits_Z, digit_of. simpl fold_left. Z.to_euclidean_division_equations. lia.
Qed.

Lemma spells_three a b c rest ds pad :
  spells rest ds pad ->
  let combined := combine (octet a) (octet b) (octet c) in
  spells (a :: b :: c :: rest)
    (digit_of combined 18 :: digit_of combined 12 :: digit_of combined 6 :: digit_of combined 0
     :: ds) pad.
Proof.
  intros [Ht Hd Hp Hl Hv] combined. octets.
  assert (Hc : combined = (octet a * 256 + octet b) * 256 + octet c) by by apply combine_spec.
  assert (0 <= combined < 2 ^ 24) by lia.
  split; [|by auto 6|done|simpl length in *; lia|].
  - cbn [encodeBase64Url]. rewrite Ht. fold combined. rewrite !digit_at_spec by lia. done.
  - etrans; [apply (digits_Z_app [_; _; _; _] ds)|]. rewrite four_digits, Hv by lia.
    rewrite (of_be_Z_app [a; b; c] rest : of_be_Z (a :: b :: c :: rest) = _).
    change 64 with (2 ^ 6). replace (256 ^ _) with (2 ^ (8 * Z.of_nat (length rest)))
      by (change 256 with (2 ^ 8); by rewrite Z.pow_mul_r by lia).
    rewrite <- Z.pow_mul_r, Hl, Z.pow_add_r, Z.mul_add_distr_r, Z.mul_assoc by lia.
    do 3 f_equal. rewrite Hc. unfold of_be_Z, of_be, octet. simpl fold_left. lia.
Qed.

Lemma spells_exists bs : exists ds pad, spells bs ds pad.
Proof.
  induction bs as [bs IH] using list_ind_length.
  destruct bs as [|a [|b [|c rest]]].
  - exists [], 0. by split.
  - octets. set (combined := combine (octet a) 0 0).
    assert (Hc : combined = octet a * 256 * 256) by (unfold combined; rewrite combine_spec; lia).
    assert (0 <= combined < 2 ^ 24) by lia.
    exists [digit_of combined 18; digit_of combined 12], 4.
    split; [|by auto|lia|done|].
    + cbn [encodeBase64Url]. fold combined. by rewrite !digit_at_spec by lia.
    + unfold digits_Z, digit_of, of_be_Z, of_be. simpl fold_left. unfold octet in *.
      clearbody combined. Z.to_euclidean_division_equations. lia.
  - octets. set (combined := combine (octet a) (octet b) 0).
    assert (Hc : combined = (octet a * 256 + octet b) * 256)
      by (unfold combined; rewrite combine_spec; lia).
    assert (0 <= combined < 2 ^ 24) by lia.
    exists [digit_of combined 18; digit_of combined 12; digit_of combined 6], 2.
    split; [|by auto|lia|done|].
    + cbn [encodeBase64Url]. fold combined. by rewrite !digit_at_spec by lia.
    + unfold digits_Z, digit_of, of_be_Z, of_be. simpl fold_left. unfold octet in *.
      clearbody combined. Z.to_euclidean_division_equations. lia.
  - destruct (IH rest) as (ds & pad & Hs); [simpl; lia|].
    eexists _, pad. by apply spells_three.
Qed.

(** ** The properties *)

Lemma decode_spelled bs ds pad : spells bs ds pad ->
  output (decode_loop (map char_of ds)) = bs /\ bits (decode_loop (map char_of ds)) = pad /\
  Z.land (accumulator (decode_loop (map char_of ds))) (Z.ones pad) = 0.
Proof.
  intros [Ht Hd Hp Hl Hv]. destruct (decode_loop_reads ds Hd) as [Hb Hl' Ha Ho].
  assert (Hpad : bits (decode_loop (map char_of ds)) = pad) by lia.
  assert (Hlen : length (output (decode_loop (map char_of ds))) = length bs) by lia.
  repeat split; [|done|].
  - apply of_be_Z_inj; [done|]. unfold of_be_Z at 1.
    rewrite Ho, Hpad, Hv, Z.div_mul by (apply Z.pow_nonzero; lia). done.
  - rewrite Z.land_ones, <- (mod_low _ pad 32), Ha, mod_low, Hv, Z.mod_mul by lia. lia.
Qed.

Lemma pattern_class s :
  Forall (fun u => in_ranges BASE64URL_CLASS u = true) s -> rx_test BASE64URL_PATTERN s = true.
Proof.
  rewrite rx_test_spec. unfold BASE64URL_PATTERN.
  induction 1 as [|u s Hu _ IH]; [constructor|].
  apply (MStarCons _ [u] s); [by constructor|done].
Qed.

(** Every write of the decoder falls within the array allocated for it, and fills it. *)
Lemma decode_loop_length ds : Forall is_digit ds ->
  Z.of_nat (length (output (decode_loop (map char_of ds)))) = (Z.of_nat (length ds) * 6) / 8.
Proof.
  intros Hd. destruct (decode_loop_reads ds Hd) as [Hb Hl _ _].
  Z.to_euclidean_division_equations. lia.
Qed.

Lemma decodeBase64Url_Ok value expectedLength bs :
  decodeBase64Url value expectedLength = Ok bs <->
  encodeBase64Url bs = value /\
  match expectedLength with Some n => Z.of_nat (length bs) = n | None => True end.
Proof.
  unfold decodeBase64Url. split.
  - do 3 (case_match; [done|]). intros Hok.
    assert (He : encodeBase64Url (output (decode_loop value)) = value)
      by (by apply jstr_eqb_eq, negb_false_iff).
    destruct expectedLength as [n|]; [case_match; [done|]|]; simplify_eq; bools; auto.
  - intros [<- Hn]. destruct (spells_exists bs) as (ds & pad & Hs).
    destruct (decode_spelled bs ds pad Hs) as (Ho & Hb & Ha).
    destruct Hs as [Ht Hd Hp Hl Hv]. rewrite Ht, pattern_class.
    + rewrite length_map. destruct (Z.eqb_spec (Z.of_nat (length ds) mod 4) 1) as [He|He].
      { exfalso. Z.to_euclidean_division_equations. lia. }
      simpl. rewrite Hb, Z.shiftl_1_l, Z.sub_1_r, <- Z.ones_equiv.
      rewrite Ha, Ho, Ht, jstr_eqb_refl, andb_false_r. simpl.
      destruct expectedLength as [n|]; [|done]. by rewrite Hn, Z.eqb_refl.
    + apply Forall_map. eapply Forall_impl; [done|]. intros d Hd'. by apply char_of_spec.
Qed.

(** [decodeBase64Url] throws nothing but [HailCodecError]. *)
Lemma codec_only_decodeBase64Url value expectedLength :
  codec_only (decodeBase64Url value expectedLength).
Proof. unfold decodeBase64Url. by repeat case_match. Qed.

(** the decoder is the inverse of the encoder, on every byte string and every text:
    [decodeBase64Url] returns [bs] exactly when [value] is the encoding of [bs] and the expected
    length, if there is one, is that of [bs].  In particular every byte string decodes back to
    itself, no two texts decode to the same bytes, and the checks of the tail and of the length
    modulo four reject nothing but texts that are no encoding. *)
Theorem base64url_exact value expectedLength bs :
  decodeBase64Url value expectedLength = Ok bs <->
  encodeBase64Url bs = value /\
  match expectedLength with Some n => Z.of_nat (length bs) = n | None => True end.
Proof. apply decodeBase64Url_Ok. Qed.
