(* ===== verification/Diagnostic.v ===== *)
(** * Diagnostic JSON and diagnostic notation
    (packages/hail-codec-ts/src/diagnostic.ts, diagnostic-notation.ts)

    The two renderings of a payload for people: JSON with bytes as base64url, which reads back,
    and a text in the style of CBOR diagnostic notation.  Both may redact bearer tokens. *)

From S2P Require Import Prelude JsString Regex Value Rfc8949 Scan Cbor Profiles Validation Png.
From S2P Require Import Payloads Envelope Bodies ValidatePayload Base64Url.
From Stdlib Require Import ZArith.
Open Scope Z_scope.

Definition REDACTED : jstr := js "[REDACTED]".
Definition is_token (key : jstr) : bool := jstr_eqb key (js "token").

(** ** Diagnostic JSON *)

(** [DiagnosticJson] is a [HailValue] without byte strings.  The members are defined one by one
    on an object without a prototype, in the order of [Object.entries]. *)
Fixpoint convertToDiagnostic (value : hvalue) (redactSecrets : bool) : hvalue :=
  match value with
  | HBytes b => HStr (encodeBase64Url b)
  | HArr l => HArr (map (fun entry => convertToDiagnostic entry redactSecrets) l)
  | HMap _ entries =>
      HMap true (map (fun e =>
        (e.1, if redactSecrets && is_token e.1 then HStr REDACTED
              else convertToDiagnostic e.2 redactSecrets)) entries)
  | _ => value
  end.

(** [parent?.algorithm === "sha-256"]. *)
Definition sha256_member (parent : option HailRecord) : bool :=
  match parent with Some r => is_str (field r "algorithm") "sha-256" | None => false end.

(** The length expected of the byte string that a text stands for, when it stands for one. *)
Definition binary_key (parent : option HailRecord) (key : option jstr) : option (option Z) :=
  match key with
  | None => None
  | Some key =>
      if is_token key then Some (Some 32)
      else if jstr_eqb key (js "previous") then Some (Some 32)
      else if jstr_eqb key (js "data") then Some None
      else if jstr_eqb key (js "descriptor") then Some None
      else if jstr_eqb key (js "value") && sha256_member parent then Some (Some 32)
      else None
  end.

(** A byte string, which the type excludes but nothing rejects, is an object with a member for
    each octet. *)
Definition octet_members (b : bytes) : HailRecord :=
  imap (fun i octet => (show_nat i, HNum (Z.of_N (Byte.to_N octet)))) b.

Fixpoint fromJson (value : hvalue) (parent : option HailRecord) (key : option jstr) : M hvalue :=
  match value with
  | HArr l => HArr <$> mapM (fun entry => fromJson entry None None) l
  | HMap _ entries =>
      HMap true <$> mapM (fun e => pair e.1 <$> fromJson e.2 (Some entries) (Some e.1)) entries
  | HBytes b => Ok (HMap true (octet_members b))
  | HStr s =>
      match binary_key parent key with
      | Some expectedLength => HBytes <$> decodeBase64Url s expectedLength
      | None => Ok value
      end
  | _ => Ok value
  end.

Section diagnostic.
Context `{HailEnv}.

Definition toDiagnosticJson (t : HailPayloadType) (value : jsval) (redactSecrets : bool)
    : M hvalue :=
  _ ← assertHailValue DEFAULT_HAIL_RESOURCE_LIMITS value;
  value ← validatePayload t value;
  Ok (convertToDiagnostic value redactSecrets).

Definition fromDiagnosticJson (t : HailPayloadType) (value : jsval) : M hvalue :=
  value ← assertHailValue DEFAULT_HAIL_RESOURCE_LIMITS value;
  converted ← match fromJson value None None with
              | Ok converted => Ok converted
              | Err (CodecError e) => Err (CodecError e)
              | Err (OtherError m) | Err (StatusError _ m) =>
                  Err (CodecError (new_HailCodecError invalid_diagnostic_json m None))
              | Err OutOfFuel => Err OutOfFuel
              end;
  validatePayload t (of_hail converted).
End diagnostic.

(** ** Diagnostic notation *)

(** Negative, zero or positive. *)
Fixpoint first_difference (leftBytes rightBytes : bytes) : Z :=
  match leftBytes, rightBytes with
  | l :: leftBytes, r :: rightBytes =>
      let difference := octet l - octet r in
      if negb (difference =? 0) then difference else first_difference leftBytes rightBytes
  | _, _ => 0
  end.

Definition compareKeys (left right : jstr) : Z :=
  let leftBytes := text_encode left in
  let rightBytes := text_encode right in
  if negb (length leftBytes =? length rightBytes)%nat then
    Z.of_nat (length leftBytes) - Z.of_nat (length rightBytes)
  else first_difference leftBytes rightBytes.

Definition hex_char (d : N) : N := if (d <? 10)%N then (48 + d)%N else (87 + d)%N.
(** [n.toString(16).padStart(width, "0")], for [n < 16 ^ width]. *)
Fixpoint hex_padded (width : nat) (n : N) : jstr :=
  match width with
  | O => []
  | S width => hex_padded width (n / 16)%N ++ [hex_char (n mod 16)%N]
  end.

Definition byteString (value : bytes) : jstr :=
  js "h'" ++ concat (map (fun b => hex_padded 2 (Byte.to_N b)) value) ++ js "'".

Definition unicode_escape (u : N) : jstr := js "\u" ++ hex_padded 4 u.

(** One code point in [JSON.stringify(s)]. *)
Definition json_char (c : N) : jstr :=
  (if c =? 0x22 then [0x5C; 0x22]
   else if c =? 0x5C then [0x5C; 0x5C]
   else if c =? 8 then js "\b"
   else if c =? 9 then js "\t"
   else if c =? 10 then js "\n"
   else if c =? 12 then js "\f"
   else if c =? 13 then js "\r"
   else if (c <? 0x20) || ((0xD800 <=? c) && (c <=? 0xDFFF)) then unicode_escape c
   else utf16_units c)%N.

Definition JSON_stringify (s : jstr) : jstr :=
  [0x22%N] ++ concat (map json_char (code_points s)) ++ [0x22%N].

(** The categories Cc, Cf, Zl and Zp. *)
Definition UNPRINTABLE : list (N * N) := CONTROL_OR_FORMAT ++ [(0x2028, 0x2028); (0x2029, 0x2029)]%N.

Definition textString (value : jstr) : jstr :=
  concat (map (fun c => if in_ranges UNPRINTABLE c then concat (map unicode_escape (utf16_units c))
                        else utf16_units c)
    (code_points (JSON_stringify value))).

(** ["  ".repeat(depth)]. *)
Definition indentation (depth : nat) : jstr := concat (replicate depth (js "  ")).
Definition newline : jstr := [10%N].
Definition comma_newline : jstr := js "," ++ newline.

(** The entries in the order of their keys. *)
Definition by_key {A} : list (jstr * A) -> list (jstr * A) :=
  sort_by (fun a b => compareKeys a.1 b.1 <=? 0).

(** The lines between a pair of brackets; without any, the brackets alone. *)
Definition bracketed (opening closing : String.string) (depth : nat) (lines : list jstr) : jstr :=
  match lines with
  | [] => js opening ++ js closing
  | _ =>
      js opening ++ newline ++
      join comma_newline (map (app (indentation (S depth))) lines) ++
      newline ++ indentation depth ++ js closing
  end.
Arguments bracketed (opening closing)%_string depth lines.

Definition member_line (e : jstr * jstr) : jstr := textString e.1 ++ js ": " ++ e.2.

(** Members are rendered where the code sorts first and renders after: the order depends on the
    keys only. *)
Fixpoint formatValue (value : hvalue) (depth : nat) (redactSecrets : bool) : jstr :=
  match value with
  | HNull => js "null"
  | HBool b => if b then js "true" else js "false"
  | HNum z => show_Z z
  | HStr s => textString s
  | HBytes b => byteString b
  | HArr l =>
      bracketed "[" "]" depth (map (fun entry => formatValue entry (S depth) redactSecrets) l)
  | HMap _ entries =>
      bracketed "{" "}" depth (map member_line (by_key (map (fun e =>
        (e.1, if redactSecrets && is_token e.1 then [0x22%N] ++ REDACTED ++ [0x22%N]
              else formatValue e.2 (S depth) redactSecrets)) entries)))
  end.

Definition toDiagnosticNotation (value : jsval) (redactSecrets : bool) : M jstr :=
  value ← assertHailValue DEFAULT_HAIL_RESOURCE_LIMITS value;
  Ok (formatValue value 0 redactSecrets).


(** ** Redaction *)

(** The value without what a redacted rendering may not show. *)
Fixpoint redact (value : hvalue) : hvalue :=
  match value with
  | HArr l => HArr (map redact l)
  | HMap _ entries =>
      HMap true (map (fun e => (e.1, if is_token e.1 then HNull else redact e.2)) entries)
  | _ => value
  end.

Lemma convert_redact v : convertToDiagnostic (redact v) true = convertToDiagnostic v true.
Proof.
  induction v as [| | | | |l IH|n m IH] using hvalue_ind'; simpl; try done.
  - rewrite map_map. f_equal. by apply map_ext_Forall.
  - rewrite map_map. f_equal. apply map_ext_Forall. eapply Forall_impl; [exact IH|].
    intros [k v] Hv. simpl in *. destruct (is_token k); simpl; congruence.
Qed.

Lemma format_redact v : forall depth, formatValue (redact v) depth true = formatValue v depth true.
Proof.
  induction v as [| | | | |l IH|n m IH] using hvalue_ind'; intros depth;
    cbn [redact formatValue]; try done; rewrite map_map.
  - f_equal. apply map_ext_Forall. eapply Forall_impl; [exact IH|]. auto.
  - do 3 f_equal. apply map_ext_Forall. eapply Forall_impl; [exact IH|].
    intros [k v] Hv. cbn in *. destruct (is_token k); cbn; [done|]. by rewrite Hv.
Qed.

(** ** The order of keys *)

Lemma first_difference_leb a : forall b, length a = length b ->
  (first_difference a b <=? 0) = bytes_leb a b.
Proof.
  induction a as [|x a IH]; intros [|y b] Hl; simpl in *; try done.
  unfold octet. destruct (N.compare_spec (Byte.to_N x) (Byte.to_N y)) as [He|Hlt|Hgt].
  - rewrite He, Z.sub_diag. simpl. apply IH. lia.
  - destruct (Z.eqb_spec (Z.of_N (Byte.to_N x) - Z.of_N (Byte.to_N y)) 0); [lia|].
    simpl. apply Z.leb_le. lia.
  - destruct (Z.eqb_spec (Z.of_N (Byte.to_N x) - Z.of_N (Byte.to_N y)) 0); [lia|].
    simpl. apply Z.leb_gt. lia.
Qed.

(** Big-endian numbers of one width compare as numbers. *)
Lemma bytes_leb_be a : forall b x y, length a = length b ->
  bytes_leb (a ++ x) (b ++ y) =
  match (of_be a ?= of_be b)%N with Lt => true | Eq => bytes_leb x y | Gt => false end.
Proof.
  assert (Hcons : forall z (l : bytes), of_be_Z (z :: l) =
            octet z * 256 ^ Z.of_nat (length l) + of_be_Z l).
  { intros z l. change (z :: l) with ([z] ++ l). rewrite of_be_Z_app. f_equal. }
  assert (Hbound : forall l, 0 <= of_be_Z l < 256 ^ Z.of_nat (length l)).
  { induction l as [|z l IH]; [done|]. rewrite Hcons. simpl length.
    rewrite Nat2Z.inj_succ, Z.pow_succ_r by lia. pose proof (octet_bound z). nia. }
  induction a as [|z a IH]; intros [|w b] x y Hl; try done.
  injection Hl as Hl. cbn [app bytes_leb]. rewrite IH by done.
  pose proof (Hcons z a) as Hz. pose proof (Hcons w b) as Hw. rewrite Hl in Hz.
  pose proof (Hbound a) as Ba. pose proof (Hbound b) as Bb. rewrite Hl in Ba.
  unfold of_be_Z, octet in *.
  destruct (N.compare_spec (Byte.to_N z) (Byte.to_N w)) as [He|Hlt|Hgt].
  + assert (Heq : (of_be (z :: a) ?= of_be (w :: b) = (of_be a ?= of_be b))%N).
    { destruct (N.compare_spec (of_be a) (of_be b)); [apply N.compare_eq_iff|
        apply N.compare_lt_iff | apply N.compare_gt_iff]; lia. }
    by rewrite Heq.
  + assert (Heq : (of_be (z :: a) ?= of_be (w :: b) = Lt)%N) by (apply N.compare_lt_iff; nia).
    by rewrite Heq.
  + assert (Heq : (of_be (z :: a) ?= of_be (w :: b) = Gt)%N) by (apply N.compare_gt_iff; nia).
    by rewrite Heq.
Qed.

Lemma text_head_order n m x y : (n < 2 ^ 64)%N -> (m < 2 ^ 64)%N ->
  bytes_leb (head 3 n ++ x) (head 3 m ++ y) =
  match (n ?= m)%N with Lt => true | Eq => bytes_leb x y | Gt => false end.
Proof.
  intros Hn Hm.
  assert (Hsame : forall i k, (n < 256 ^ N.of_nat k)%N -> (m < 256 ^ N.of_nat k)%N ->
    bytes_leb ((byte_of_N i :: be k n) ++ x) ((byte_of_N i :: be k m) ++ y) =
    match (n ?= m)%N with Lt => true | Eq => bytes_leb x y | Gt => false end).
  { intros i k Hnk Hmk. cbn [app bytes_leb]. rewrite N.compare_refl, bytes_leb_be.
    - by rewrite !of_be_be.
    - by rewrite !length_be. }
  unfold head.
  destruct (N.ltb_spec n 24), (N.ltb_spec m 24),
    (N.leb_spec n 0xff), (N.leb_spec m 0xff), (N.leb_spec n 0xffff), (N.leb_spec m 0xffff),
    (N.leb_spec n 0xffffffff), (N.leb_spec m 0xffffffff); try (exfalso; lia);
    try (apply Hsame; simpl; lia).
  all: cbn [app bytes_leb]; rewrite !to_N_byte_small by lia.
  all: repeat match goal with |- context [(?a ?= ?b)%N] => destruct (N.compare_spec a b) end;
    (done || lia).
Qed.

Lemma compareKeys_order l r :
  (N.of_nat (length (text_encode l)) < 2 ^ 64)%N -> (N.of_nat (length (text_encode r)) < 2 ^ 64)%N ->
  (compareKeys l r <=? 0) = bytes_leb (encode_item (IText l)) (encode_item (IText r)).
Proof.
  intros Hl Hr. cbn [encode_item]. rewrite text_head_order by done. unfold compareKeys.
  destruct (N.compare_spec (N.of_nat (length (text_encode l))) (N.of_nat (length (text_encode r))))
    as [He|Hlt|Hgt].
  all: destruct (Nat.eqb_spec (length (text_encode l)) (length (text_encode r)));
    try (exfalso; lia); cbn [negb].
  - by apply first_difference_leb.
  - apply Z.leb_le. lia.
  - apply Z.leb_gt. lia.
Qed.

(** ** Printable output *)

(** The text spells code points that satisfy [P]. *)
Definition made_of (P : N -> bool) (s : jstr) : Prop :=
  exists cs, s = cs ≫= utf16_units /\ Forall (fun c => P c = true) cs.

Lemma made_of_nil P : made_of P [].
Proof. by exists []. Qed.
Lemma made_of_app P a b : made_of P a -> made_of P b -> made_of P (a ++ b).
Proof.
  intros (ca & -> & Ha) (cb & -> & Hb). exists (ca ++ cb). split; [by rewrite bind_app|].
  by apply Forall_app.
Qed.
Lemma made_of_char (P : N -> bool) c : P c = true -> made_of P (utf16_units c).
Proof. intros Hc. exists [c]. split; [simpl; by rewrite app_nil_r|auto]. Qed.
Lemma made_of_concat P l : Forall (made_of P) l -> made_of P (concat l).
Proof. induction 1; simpl; auto using made_of_nil, made_of_app. Qed.
Lemma made_of_impl (P Q : N -> bool) s :
  (forall c, P c = true -> Q c = true) -> made_of P s -> made_of Q s.
Proof. intros HPQ (cs & -> & Hcs). exists cs. split; [done|]. eapply Forall_impl; eauto. Qed.
Lemma made_of_join P sep l : made_of P sep -> Forall (made_of P) l -> made_of P (join sep l).
Proof.
  intros Hs. induction 1 as [|s l Hsl Hl IH]; [apply made_of_nil|].
  destruct l as [|t l]; [done|]. change (made_of P (s ++ sep ++ join sep (t :: l))).
  auto using made_of_app.
Qed.

(** Such a text reads back as these code points, when they are scalar values. *)
Lemma made_of_code_points (P : N -> bool) s :
  (forall c, P c = true -> is_scalar c = true) ->
  made_of P s -> Forall (fun c => P c = true) (code_points s).
Proof.
  intros HP (cs & -> & Hcs). induction Hcs as [|c cs Hc _ IH]; [constructor|].
  cbn [mbind list_bind]. destruct (utf16_units_wf c (cs ≫= utf16_units) (HP c Hc)) as [_ ->].
  by constructor.
Qed.

(** Scalar values that are printable, and line feeds. *)
Definition plain (c : N) : bool := is_scalar c && ((c =? 10)%N || negb (in_ranges UNPRINTABLE c)).
Notation clean := (made_of plain).

Lemma plain_scalar c : plain c = true -> is_scalar c = true.
Proof. unfold plain. by intros [? _]%andb_prop. Qed.

(** Units below 128, none of them a control character. *)
Lemma clean_ascii s :
  forallb (fun u => ((u =? 10) || ((32 <=? u) && (u <? 127)))%N) s = true -> clean s.
Proof.
  intros Hs%forallb_Forall.
  assert (Hlt : Forall (fun u => u < 127)%N s).
  { eapply Forall_impl; [exact Hs|]. intros u Hu. cbn beta in Hu.
    apply orb_true_iff in Hu as [Hu|Hu]; bools; lia. }
  exists s. split.
  - clear Hs. induction Hlt as [|u s Hu _ IH]; [done|]. cbn [mbind list_bind]. rewrite <- IH.
    unfold utf16_units. by destruct (N.ltb_spec u 0x10000); [|lia].
  - eapply Forall_impl; [eapply Forall_and; split; [exact Hs|exact Hlt]|].
    intros u [Hu Hb]. cbn beta in Hu.
    assert (Hall : forallb (fun n => let u := N.of_nat n in
      negb ((u =? 10) || ((32 <=? u) && (u <? 127)))%N || plain u) (List.seq 0 127) = true)
      by (vm_compute; done).
    rewrite forallb_forall in Hall. specialize (Hall (N.to_nat u)).
    cbn zeta in Hall. rewrite N2Nat.id, Hu in Hall. apply Hall. apply List.in_seq. lia.
Qed.
#[local] Hint Resolve made_of_nil made_of_app made_of_char made_of_concat made_of_join : hail.

Lemma clean_hex width : forall n, clean (hex_padded width n).
Proof.
  induction width as [|width IH]; intros n; cbn [hex_padded]; [apply made_of_nil|].
  apply made_of_app; [apply IH|]. apply clean_ascii. cbn [forallb]. rewrite andb_true_r.
  unfold hex_char. pose proof (N.mod_lt n 16). n_cases; by rewrite ?orb_true_r.
Qed.
Lemma clean_escape u : clean (unicode_escape u).
Proof. apply made_of_app; [by apply clean_ascii|apply clean_hex]. Qed.
#[local] Hint Resolve clean_hex clean_escape : hail.

Lemma clean_decimal fuel : forall n acc, clean acc -> clean (decimal_digits fuel n acc).
Proof.
  induction fuel as [|fuel IH]; intros n acc Hacc; cbn [decimal_digits]; [done|].
  assert (Hd : clean ((48 + n mod 10)%N :: acc)).
  { apply (made_of_app _ [_] acc); [|done]. apply clean_ascii. cbn [forallb].
    rewrite andb_true_r. pose proof (N.mod_lt n 10). n_cases; by rewrite ?orb_true_r. }
  case_match; auto.
Qed.

Lemma clean_show_Z z : clean (show_Z z).
Proof.
  unfold show_Z. case_match; [apply made_of_app; [by apply clean_ascii|]|];
    apply clean_decimal, made_of_nil.
Qed.

Lemma clean_byteString b : clean (byteString b).
Proof.
  unfold byteString. apply made_of_app; [by apply clean_ascii|].
  apply made_of_app; [|by apply clean_ascii].
  apply made_of_concat, Forall_map, Forall_true. auto with hail.
Qed.

Lemma clean_indentation depth : clean (indentation depth).
Proof. unfold indentation. apply made_of_concat, Forall_replicate. by apply clean_ascii. Qed.
#[local] Hint Resolve clean_show_Z clean_byteString clean_indentation : hail.

Lemma clean_bracketed o c depth lines :
  clean (js o) -> clean (js c) -> Forall clean lines -> clean (bracketed o c depth lines).
Proof.
  intros Ho Hc Hl. assert (Hn : clean newline) by by apply clean_ascii.
  assert (Hs : clean comma_newline) by by apply clean_ascii.
  unfold bracketed. destruct lines; [auto with hail|].
  repeat apply made_of_app; auto with hail.
  apply made_of_join; [done|]. apply Forall_map. eapply Forall_impl; [exact Hl|].
  auto with hail.
Qed.

Lemma json_char_scalars c : is_scalar c = true -> made_of is_scalar (json_char c).
Proof.
  intros Hc. unfold json_char.
  repeat case_match; try (apply made_of_char; done);
    apply (made_of_impl plain); auto using plain_scalar, clean_escape; by apply clean_ascii.
Qed.

Lemma textString_clean s : isWellFormed s = true -> clean (textString s).
Proof.
  intros Hs. unfold textString. apply made_of_concat, Forall_map.
  assert (Hj : made_of is_scalar (JSON_stringify s)).
  { assert (Hquote : made_of is_scalar [0x22%N]).
    { apply (made_of_impl plain); [apply plain_scalar|]. by apply clean_ascii. }
    repeat apply made_of_app; try done. apply made_of_concat, Forall_map.
    eapply Forall_impl; [apply (code_points_wf s Hs)|]. intros c. apply json_char_scalars. }
  eapply Forall_impl; [by apply (made_of_code_points is_scalar)|].
  intros c Hc. cbn beta. destruct (in_ranges UNPRINTABLE c) eqn:Hu.
  - apply made_of_concat, Forall_map, Forall_true. auto with hail.
  - apply made_of_char. unfold plain. by rewrite Hc, Hu, orb_true_r.
Qed.

(** The strings of a value are well formed. *)
Fixpoint texts_wf (v : hvalue) : bool :=
  match v with
  | HStr s => isWellFormed s
  | HArr l => forallb texts_wf l
  | HMap _ m => forallb (fun e => isWellFormed e.1 && texts_wf e.2) m
  | _ => true
  end.

Lemma formatValue_clean r v : forall depth, texts_wf v = true -> clean (formatValue v depth r).
Proof.
  induction v as [|[]| | | |l IH|n m IH] using hvalue_ind'; intros depth Hv;
    cbn [formatValue texts_wf] in *; auto using textString_clean with hail;
    try (by apply clean_ascii).
  - apply forallb_Forall in Hv. apply clean_bracketed; [by apply clean_ascii..|].
    apply Forall_map. rewrite Forall_forall in *. auto.
  - apply forallb_Forall in Hv. apply clean_bracketed; [by apply clean_ascii..|].
    apply Forall_map. unfold by_key. rewrite sort_by_perm. apply Forall_map.
    rewrite Forall_forall in *. intros [k v] He. specialize (IH _ He). specialize (Hv _ He).
    cbn [fst snd] in *. apply andb_prop in Hv as [Hk Hv]. unfold member_line. cbn [fst snd].
    repeat apply made_of_app; auto using textString_clean.
    + by apply clean_ascii.
    + destruct (r && is_token k); [by apply clean_ascii|auto].
Qed.

Lemma hail_item_texts v : hail_item (item_of_hail v) = true -> texts_wf v = true.
Proof.
  induction v as [| | | | |l IH|n m IH] using hvalue_ind'; cbn [item_of_hail hail_item texts_wf];
    try done; rewrite ?forallb_fmap, ?forallb_Forall, ?Forall_forall in *.
  - intros Hl v Hv. auto.
  - intros Hm e He. specialize (Hm e He). cbn [fst snd hail_item] in Hm.
    apply andb_prop in Hm as [Hk Hv]. apply andb_true_intro. auto.
Qed.

(** ** Reading diagnostic JSON back *)

(** The value with every map an object without a prototype. *)
Fixpoint null_protos (value : hvalue) : hvalue :=
  match value with
  | HArr l => HArr (map null_protos l)
  | HMap _ m => HMap true (map (fun e => (e.1, null_protos e.2)) m)
  | _ => value
  end.

(** Byte strings are where the reader expects one, of the length it expects, and nowhere else;
    texts are not. *)
Fixpoint readable (value : hvalue) (parent : option HailRecord) (key : option jstr) : bool :=
  match value with
  | HBytes b =>
      match binary_key parent key with
      | Some (Some n) => Z.of_nat (length b) =? n
      | Some None => true
      | None => false
      end
  | HStr _ => bool_decide (binary_key parent key = None)
  | HArr l => forallb (fun v => readable v None None) l
  | HMap _ m => forallb (fun e => readable e.2 (Some m) (Some e.1)) m
  | _ => true
  end.

(** The algorithm of a digest reads the same in the diagnostic form. *)
Lemma sha256_member_convert m :
  forallb (fun e => readable e.2 (Some m) (Some e.1)) m = true ->
  sha256_member (Some (map (fun e => (e.1, convertToDiagnostic e.2 false)) m)) =
  sha256_member (Some m).
Proof.
  intros Hm. unfold sha256_member, field. rewrite (get_map (fun v => convertToDiagnostic v false)).
  destruct (get m (js "algorithm")) as [v|] eqn:Hg; [|done].
  apply get_In in Hg. rewrite forallb_forall in Hm. apply list_elem_of_In in Hg.
  specialize (Hm _ Hg). by destruct v.
Qed.

Lemma binary_key_ext p q k : sha256_member p = sha256_member q -> binary_key p k = binary_key q k.
Proof. intros Hpq. unfold binary_key. by rewrite Hpq. Qed.

Lemma fromJson_convert v : forall parent parent' key,
  sha256_member parent' = sha256_member parent -> readable v parent key = true ->
  fromJson (convertToDiagnostic v false) parent' key = Ok (null_protos v).
Proof.
  induction v as [| | |s|b|l IH|n m IH] using hvalue_ind'; intros parent parent' key Hp Hv;
    cbn [convertToDiagnostic fromJson null_protos readable] in *; try done.
  - rewrite (binary_key_ext _ _ _ Hp). by apply bool_decide_eq_true in Hv as ->.
  - rewrite (binary_key_ext _ _ _ Hp).
    destruct (binary_key parent key) as [expected|]; [|done].
    rewrite (proj2 (decodeBase64Url_Ok _ _ b)); [done|]. split; [done|].
    destruct expected; [by apply Z.eqb_eq in Hv|done].
  - rewrite (mapM_map_Ok _ _ null_protos); [done|].
    apply forallb_Forall in Hv. rewrite Forall_forall in *. eauto.
  - cbn [andb]. rewrite (mapM_map_Ok _ _ (fun e => (e.1, null_protos e.2))); [done|].
    pose proof (sha256_member_convert m Hv) as Hs. apply forallb_Forall in Hv.
    rewrite Forall_forall in *. intros [k v] He. cbn [fst snd].
    rewrite (IH _ He (Some m)); [done|exact Hs|exact (Hv _ He)].
Qed.

(** ** The properties *)

(** redaction hides tokens: two values that differ only in what their members [token] hold
    have the same redacted diagnostic JSON and the same redacted notation. *)
Theorem redaction v w : redact v = redact w ->
  convertToDiagnostic v true = convertToDiagnostic w true /\
  forall depth, formatValue v depth true = formatValue w depth true.
Proof.
  intros Hvw. split.
  - by rewrite <- (convert_redact v), Hvw, convert_redact.
  - intros depth. by rewrite <- (format_redact v), Hvw, format_redact.
Qed.

(** diagnostic JSON without redaction reads back: where byte strings and texts are at the
    members the reader expects them at, converting and reading gives the same value, its maps
    without a prototype. *)
Theorem diagnostic_roundtrip v : readable v None None = true ->
  fromJson (convertToDiagnostic v false) None None = Ok (null_protos v).
Proof. by apply fromJson_convert. Qed.

(** the notation lists members in the order of the deterministic encoding: comparing two keys
    by length and then by octets is comparing their encodings octet by octet. *)
Theorem notation_order l r :
  (N.of_nat (length (text_encode l)) < 2 ^ 64)%N -> (N.of_nat (length (text_encode r)) < 2 ^ 64)%N ->
  (compareKeys l r <= 0 <-> bytes_leb (encode_item (IText l)) (encode_item (IText r)) = true).
Proof. intros Hl Hr. rewrite <- compareKeys_order by done. symmetry. apply Z.leb_le. Qed.

(** the notation of a value holds no control or format character and no line or paragraph
    separator but the line feeds the formatter writes: no text in a value can move the cursor,
    reorder the output or start a line of its own that the formatter did not start. *)
Theorem notation_printable x r out :
  js_wf x = true -> toDiagnosticNotation x r = Ok out ->
  Forall (fun c => c = 10%N \/ in_ranges UNPRINTABLE c = false) (code_points out).
Proof.
  intros Hx. unfold toDiagnosticNotation. rewrite bind_Ok. intros (v & Hv & [= <-]).
  apply assertHailValue_fits in Hv as (_ & _ & Hf); [|apply default_limits_ok|done].
  eapply Forall_impl.
  - apply (made_of_code_points plain); [apply plain_scalar|].
    apply formatValue_clean, hail_item_texts, Hf.
  - intros c [_ Hc]%andb_prop. apply orb_true_iff in Hc as [Hc|Hc]; bools; auto.
Qed.

Definition example_secret (b : byte) : hvalue :=
  HMap false [(js "token", HBytes [b]); (js "a", HStr [10%N])].

Example redaction_witness :
  convertToDiagnostic (example_secret Byte.x00) true = convertToDiagnostic (example_secret Byte.x01) true /\
  forall depth, formatValue (example_secret Byte.x00) depth true =
    formatValue (example_secret Byte.x01) depth true.
Proof. apply redaction. reflexivity. Defined.

Definition example_digest_value : hvalue :=
  HMap false [(js "algorithm", HStr (js "sha-256")); (js "value", HBytes (replicate 32 Byte.x07));
              (js "name", HStr (js "x"))].

Example diagnostic_roundtrip_witness :
  fromJson (convertToDiagnostic example_digest_value false) None None =
  Ok (null_protos example_digest_value).
Proof. apply diagnostic_roundtrip. vm_compute. reflexivity. Defined.

Example notation_order_witness :
  compareKeys (js "b") (js "aa") <= 0 <->
  bytes_leb (encode_item (IText (js "b"))) (encode_item (IText (js "aa"))) = true.
Proof. apply notation_order; vm_compute; reflexivity. Defined.

Example notation_printable_witness : exists out,
  toDiagnosticNotation (of_hail (example_secret Byte.x00)) false = Ok out /\
  Forall (fun c => c = 10%N \/ in_ranges UNPRINTABLE c = false) (code_points out).
Proof.
  destruct (toDiagnosticNotation (of_hail (example_secret Byte.x00)) false) as [out|e] eqn:He.
  - exists out. split; [reflexivity|].
    apply (notation_printable (of_hail (example_secret Byte.x00)) false out); [reflexivity|exact He].
  - vm_compute in He. discriminate He.
Defined.
