(* ===== verification/Invariance.v ===== *)
(** * Validation does not see the order of members

    The validators read a payload by member name.  Two payloads that agree on every member, up to
    the order in which objects list their members and to their prototypes, pass or fail alike.
    Decoding what was encoded, and reading back diagnostic JSON, produce such a payload. *)

From S2P Require Import Prelude JsString Regex Value Rfc8949 Scan Cbor Profiles Validation Png.
From S2P Require Import Payloads Envelope Bodies ValidatePayload.
From Stdlib Require Import ZArith.
Open Scope Z_scope.

(** ** Values that agree member by member *)

Definition is_leaf (v : hvalue) : bool := match v with HArr _ | HMap _ _ => false | _ => true end.

Inductive same : hvalue -> hvalue -> Prop :=
| same_leaf v : is_leaf v = true -> same v v
| same_arr l l' : Forall2 same l l' -> same (HArr l) (HArr l')
| same_map n n' m m' :
    (forall k, option_Forall2 same (get m k) (get m' k)) -> same (HMap n m) (HMap n' m').

Notation osame := (option_Forall2 same).
Definition rec_same (m m' : HailRecord) : Prop := forall k, osame (get m k) (get m' k).

(** When the first run returns, so does the second, with a related result. *)
Definition mrel {A B} (R : A -> B -> Prop) (m : M A) (m' : M B) : Prop :=
  forall a, m = Ok a -> exists b, m' = Ok b /\ R a b.

Create HintDb same discriminated.
#[export] Hint Constants Opaque : same.
#[export] Hint Variables Transparent : same.

Lemma mrel_bind {A B C D} (R : A -> B -> Prop) (Q : C -> D -> Prop) m m' f f' :
  mrel R m m' -> (forall a b, R a b -> mrel Q (f a) (f' b)) -> mrel Q (m ≫= f) (m' ≫= f').
Proof.
  intros Hm Hf c Hc. apply bind_Ok in Hc as (a & Ha & Hc).
  destruct (Hm a Ha) as (b & Hb & Hab). destruct (Hf a b Hab c Hc) as (d & Hd & Hcd).
  exists d. split; [|done]. apply bind_Ok. eauto.
Qed.
Lemma mrel_Ok {A B} (R : A -> B -> Prop) a b : R a b -> mrel R (Ok a) (Ok b).
Proof. intros Hab ? [= <-]. eauto. Qed.
Lemma mrel_Err {A B} (R : A -> B -> Prop) e m : mrel R (Err e) m.
Proof. by intros ? ?. Qed.
Lemma mrel_eq {A} (m m' : M A) : m = m' -> mrel eq m m'.
Proof. intros -> a Ha. eauto. Qed.
Lemma mrel_reject b b' m p m' p' : b = b' -> mrel eq (reject b m p) (reject b' m' p').
Proof. intros <-. destruct b; [apply mrel_Err|]. by apply mrel_Ok. Qed.
Lemma mrel_if {A B} (R : A -> B -> Prop) (b b' : bool) x y x' y' :
  b = b' -> mrel R x x' -> mrel R y y' -> mrel R (if b then x else y) (if b' then x' else y').
Proof. intros <-. by destruct b. Qed.

Lemma mrel_ifoldM {S T} (R : S -> T -> Prop) (f : nat -> hvalue -> S -> M S) g l l' :
  (forall i v v' s t, same v v' -> R s t -> mrel R (f i v s) (g i v' t)) ->
  Forall2 same l l' -> forall i s t, R s t -> mrel R (ifoldM i l s f) (ifoldM i l' t g).
Proof.
  intros Hf. induction 1 as [|v v' l l' Hv _ IH]; intros i s t Hst; simpl; [by apply mrel_Ok|].
  eapply mrel_bind; [by apply Hf|]. auto.
Qed.

Lemma mrel_ifoldM_eq {S} (f : nat -> hvalue -> S -> M S) l l' :
  (forall i v v' s, same v v' -> mrel eq (f i v s) (f i v' s)) ->
  Forall2 same l l' -> forall i s, mrel eq (ifoldM i l s f) (ifoldM i l' s f).
Proof. intros Hf Hl i s. apply mrel_ifoldM; [|done..]. intros j v v' a b Hv <-. auto. Qed.

Lemma existsb_same (f g : hvalue -> bool) l l' :
  (forall v v', same v v' -> f v = g v') -> Forall2 same l l' -> existsb f l = existsb g l'.
Proof. intros Hf. induction 1 as [|v v' l l' Hv _ IH]; simpl; [done|]. by rewrite (Hf v v'), IH. Qed.

Lemma mrel_iforM (f g : nat -> hvalue -> M unit) l l' :
  (forall i v v', same v v' -> mrel eq (f i v) (g i v')) ->
  Forall2 same l l' -> forall i, mrel eq (iforM i l f) (iforM i l' g).
Proof.
  intros Hf. induction 1 as [|v v' l l' Hv _ IH]; intros i; simpl; [by apply mrel_Ok|].
  eapply mrel_bind; [by apply Hf|]. auto.
Qed.

Lemma mrel_iforM_same {A} (f g : nat -> A -> M unit) l :
  (forall i a, mrel eq (f i a) (g i a)) -> forall i, mrel eq (iforM i l f) (iforM i l g).
Proof.
  intros Hf. induction l as [|a l IH]; intros i; simpl; [by apply mrel_Ok|].
  eapply mrel_bind; [by apply Hf|]. auto.
Qed.

Lemma mrel_mapM {B} (f g : hvalue -> M B) l l' :
  (forall v v', same v v' -> mrel eq (f v) (g v')) ->
  Forall2 same l l' -> mrel eq (mapM f l) (mapM g l').
Proof.
  intros Hf. induction 1 as [|v v' l l' Hv _ IH]; simpl; [by apply mrel_Ok|].
  eapply mrel_bind; [by apply Hf|]. intros a b ->.
  eapply mrel_bind; [apply IH|]. intros k k' ->. by apply mrel_Ok.
Qed.

(** ** Primitives *)

Lemma rec_same_field r r' k : rec_same r r' -> osame (field r k) (field r' k).
Proof. intros Hr. apply Hr. Qed.
Lemma rec_same_get r r' k : rec_same r r' -> osame (get r k) (get r' k).
Proof. intros Hr. apply Hr. Qed.
Lemma osame_Some v v' : same v v' -> osame (Some v) (Some v').
Proof. by constructor. Qed.
Lemma osame_lookup l l' i : Forall2 same l l' -> osame (l !! i) (l' !! i).
Proof. intros Hl. revert i. induction Hl; intros [|i]; simpl; try constructor; auto. Qed.
#[export] Hint Resolve rec_same_field rec_same_get osame_Some osame_lookup : same.

Ltac osame_cases :=
  intros Hv; inversion Hv as [? ? Hs|]; subst; [|reflexivity];
  inversion Hs; subst; reflexivity.

Lemma same_text v v' p : osame v v' -> text v p = text v' p.
Proof. osame_cases. Qed.
Lemma same_integer v v' p z : osame v v' -> integer v p z = integer v' p z.
Proof. osame_cases. Qed.
Lemma same_boolean v v' p : osame v v' -> boolean v p = boolean v' p.
Proof. osame_cases. Qed.
Lemma same_bytes_of v v' p n : osame v v' -> bytes_of v n p = bytes_of v' n p.
Proof. osame_cases. Qed.
Lemma same_is_undefined v v' : osame v v' -> is_undefined v = is_undefined v'.
Proof. osame_cases. Qed.
Lemma same_includes xs v v' : osame v v' -> includes_value xs v = includes_value xs v'.
Proof. osame_cases. Qed.
Lemma same_num_of v v' : osame v v' -> num_of v = num_of v'.
Proof. osame_cases. Qed.
Lemma same_text_of v v' : osame v v' -> text_of v = text_of v'.
Proof. osame_cases. Qed.

Definition on_bytes {A} (f : bytes -> A) (x : A) (v : field_value) : A :=
  match v with Some (HBytes b) => f b | _ => x end.
Lemma same_on_bytes {A} (f : bytes -> A) x v v' : osame v v' -> on_bytes f x v = on_bytes f x v'.
Proof. osame_cases. Qed.

Lemma strict_eq_leaf v w :
  match v with Some v => is_leaf v = false | None => False end -> strict_eq v w = false.
Proof. by destruct v as [[]|]. Qed.
Lemma strict_eq_sym v w : strict_eq v w = strict_eq w v.
Proof.
  destruct v as [[|b|z|s|b|l|n m]|], w as [[|c|y|t|c|l'|n' m']|]; try done; simpl.
  - by destruct b, c.
  - apply Z.eqb_sym.
  - unfold jstr_eqb. by apply bool_decide_ext.
Qed.
Lemma same_strict_eq_l v v' w : osame v v' -> strict_eq v w = strict_eq v' w.
Proof.
  intros Hv. inversion Hv as [? ? Hs|]; subst; [|done]. inversion Hs; subst; [done| |];
    by rewrite !strict_eq_leaf.
Qed.
Lemma same_strict_eq v v' w w' : osame v v' -> osame w w' -> strict_eq v w = strict_eq v' w'.
Proof.
  intros Hv Hw. rewrite (same_strict_eq_l v v' w Hv), strict_eq_sym.
  by rewrite (same_strict_eq_l w w' v' Hw), strict_eq_sym.
Qed.
Lemma same_is_str v v' s : osame v v' -> is_str v s = is_str v' s.
Proof. apply same_strict_eq_l. Qed.
Lemma same_is_num v v' z : osame v v' -> is_num v z = is_num v' z.
Proof. apply same_strict_eq_l. Qed.
Lemma same_is_null v v' : osame v v' -> is_null v = is_null v'.
Proof. apply same_strict_eq_l. Qed.
#[export] Hint Resolve same_is_undefined same_includes same_num_of same_text_of same_strict_eq
  same_strict_eq_l same_is_str same_is_num same_is_null : same.


(** ** Primitive validators *)

Lemma rel_text v v' p : osame v v' -> mrel eq (text v p) (text v' p).
Proof. intros Hv. by apply mrel_eq, same_text. Qed.
Lemma rel_integer v v' p z : osame v v' -> mrel eq (integer v p z) (integer v' p z).
Proof. intros Hv. by apply mrel_eq, same_integer. Qed.
Lemma rel_boolean v v' p : osame v v' -> mrel eq (boolean v p) (boolean v' p).
Proof. intros Hv. by apply mrel_eq, same_boolean. Qed.
Lemma rel_bytes_of v v' p n : osame v v' -> mrel eq (bytes_of v n p) (bytes_of v' n p).
Proof. intros Hv. by apply mrel_eq, same_bytes_of. Qed.
Lemma rel_did v v' p : osame v v' -> mrel eq (did v p) (did v' p).
Proof. intros Hv. apply mrel_eq. unfold did. by rewrite (same_text v v'). Qed.
Lemma rel_uuid v v' p : osame v v' -> mrel eq (uuid v p) (uuid v' p).
Proof. intros Hv. apply mrel_eq. unfold uuid. by rewrite (same_text v v'). Qed.
Lemma rel_category v v' p : osame v v' -> mrel eq (category v p) (category v' p).
Proof. intros Hv. apply mrel_eq. unfold category. by rewrite (same_text v v'). Qed.
Lemma rel_keyId v v' s r p : osame v v' -> mrel eq (keyId v s r p) (keyId v' s r p).
Proof. intros Hv. apply mrel_eq. unfold keyId. by rewrite (same_text v v'). Qed.

Lemma rel_record v v' p : osame v v' -> mrel rec_same (record v p) (record v' p).
Proof.
  intros Hv. inversion Hv as [? ? Hs|]; subst; [|apply mrel_Err].
  destruct Hs as [w Hw| |]; simpl; try apply mrel_Err; [|by apply mrel_Ok].
  destruct w; try discriminate Hw; apply mrel_Err.
Qed.

Lemma rel_array v v' p : osame v v' -> mrel (Forall2 same) (array v p) (array v' p).
Proof.
  intros Hv. inversion Hv as [? ? Hs|]; subst; [|apply mrel_Err].
  destruct Hs as [w Hw| |]; simpl; try apply mrel_Err; [|by apply mrel_Ok].
  destruct w; try discriminate Hw; apply mrel_Err.
Qed.
#[export] Hint Resolve rel_text rel_integer rel_boolean rel_bytes_of rel_did rel_uuid rel_category
  rel_keyId rel_record rel_array : same.

Lemma rec_same_keys m m' k : rec_same m m' -> k ∈ map fst m' -> k ∈ map fst m.
Proof.
  intros Hm Hk. destruct (get m k) eqn:Hg.
  - destruct (decide (k ∈ map fst m)) as [|Hn]; [done|]. apply get_None_iff in Hn. congruence.
  - specialize (Hm k). rewrite Hg in Hm. inversion Hm as [|Hn]; subst.
    symmetry in H. by apply get_None_iff in H.
Qed.

Lemma rel_exactKeys r r' req opt p :
  rec_same r r' -> mrel eq (exactKeys r req opt p) (exactKeys r' req opt p).
Proof.
  intros Hr [] H. exists tt. split; [|done]. apply exactKeys_Ok in H as [H1 H2].
  apply exactKeys_Ok. split; intros k Hk.
  - apply H1. by eapply rec_same_keys.
  - destruct (H2 k Hk) as [v Hv]. specialize (Hr k). rewrite Hv in Hr.
    inversion Hr as [? v'|]; subst. eauto.
Qed.
Lemma rel_exactKeys_opt r r' req opt opt' p :
  rec_same r r' -> opt = opt' -> mrel eq (exactKeys r req opt p) (exactKeys r' req opt' p).
Proof. intros Hr <-. by apply rel_exactKeys. Qed.
#[export] Hint Resolve rel_exactKeys : same.

(** ** Automation *)

(** Equal conditions: the connectives are the same, the atoms read members that agree. *)
Ltac same_bool :=
  repeat first
    [ match goal with
      | |- ?b = ?b => reflexivity
      | |- negb _ = negb _ => f_equal
      | |- _ && _ = _ && _ => f_equal
      | |- _ || _ = _ || _ => f_equal
      | |- Bool.eqb _ _ = Bool.eqb _ _ => f_equal
      | |- every_byte _ _ = every_byte _ _ => f_equal
      | |- (_ =? _)%nat = (_ =? _)%nat => f_equal
      | |- (_ <? _)%nat = (_ <? _)%nat => f_equal
      | |- (_ <? _) = (_ <? _) => f_equal
      | |- (_ =? _) = (_ =? _) => f_equal
      | |- existsb _ _ = existsb _ _ =>
          apply existsb_same; [intros ? ? ?; solve [same_bool] | eassumption]
      | H : Forall2 same ?l ?l' |- length ?l = length ?l' => exact (Forall2_length _ _ _ H)
      | |- (if ?b then _ else _) = (if ?b' then _ else _) =>
          let E := fresh in assert (E : b = b') by same_bool; try rewrite E; clear E; destruct b'
      | |- match ?v with _ => _ end = match ?v' with _ => _ end =>
          first [ apply same_num_of | apply (same_on_bytes _ _ v v') ]; solve [eauto with same]
      end
    | reflexivity
    | solve [eauto with same] ].

(** Follow two runs of the same code on payloads that agree. *)
Ltac same_step :=
  match goal with
  | |- mrel _ ?m ?m => apply mrel_eq; reflexivity
  | |- mrel _ (Err _) _ => apply mrel_Err
  | |- mrel _ (fail _ _) _ => apply mrel_Err
  | |- mrel _ (Ok _) (Ok _) => apply mrel_Ok; first [reflexivity | eassumption | solve [eauto with same]]
  | |- mrel _ (reject _ _ _) (reject _ _ _) => apply mrel_reject; same_bool
  | |- mrel _ ((if _ then _ else _) ≫= _) ((if _ then _ else _) ≫= _) =>
      apply (mrel_bind eq); [solve [repeat same_step] | intros ? ? ?; subst; cbn beta]
  | |- mrel _ (_ ≫= _) (_ ≫= _) =>
      eapply mrel_bind; [solve [repeat same_step] | intros ? ? ?; subst; cbn beta]
  | |- mrel _ (iforM _ ?l _) (iforM _ ?l _) => apply mrel_iforM_same; intros; cbn beta
  | |- mrel _ (iforM _ _ _) (iforM _ _ _) => apply mrel_iforM; [intros; cbn beta | eassumption]
  | |- mrel _ (ifoldM _ _ ?s ?f) (ifoldM _ _ ?s ?f) =>
      apply mrel_ifoldM_eq; [intros; cbn beta; solve [repeat same_step] | eassumption]
  | |- mrel _ (exactKeys _ _ _ _) (exactKeys _ _ _ _) =>
      apply rel_exactKeys_opt; [solve [eauto with same] | solve [same_bool]]
  | |- mrel _ (if ?b then _ else _) (if ?b' then _ else _) =>
      apply mrel_if; [solve [same_bool] | |]
  | |- mrel _ (match ?p with (_, _) => _ end) (match ?p with (_, _) => _ end) => destruct p
  | |- mrel _ (mapM _ _) (mapM _ _) =>
      apply mrel_mapM; [intros; cbn beta; solve [repeat same_step] | eassumption]
  | |- mrel _ (match ?v with _ => _ end) (match ?v' with _ => _ end) =>
      apply mrel_eq, (same_on_bytes _ _ v v'); solve [eauto with same]
  | _ => solve [eauto with same]
  end.
Ltac same := repeat same_step.

Lemma rel_digest v v' p : osame v v' -> mrel eq (digest v p) (digest v' p).
Proof. intros Hv. unfold digest. same. Qed.
#[export] Hint Resolve rel_digest : same.

(** ** Parts of a value that fits the limits *)

Lemma item_fits_weaken limits tags i : forall d d',
  d' <= d -> item_fits limits tags d i = true -> item_fits limits tags d' i = true.
Proof.
  induction i as [| | | | |l IH|m IH|t i IH] using item_ind'; intros d d' Hd; cbn [item_fits];
    intros [Hm Hi]%andb_prop; apply andb_true_intro;
    (split; [apply Z.leb_le in Hm; apply Z.leb_le; lia|]); try done.
  - apply andb_prop in Hi as [Hl Hi]. rewrite Hl. cbn [andb]. rewrite forallb_Forall in *.
    rewrite Forall_forall in *. intros x Hx. apply (IH x Hx (d + 1)); [lia|auto].
  - apply andb_prop in Hi as [Hl Hi]. rewrite Hl. cbn [andb]. rewrite forallb_Forall in *.
    rewrite Forall_forall in *. intros x Hx. specialize (Hi x Hx). destruct (IH x Hx) as [IHk IHv].
    apply andb_prop in Hi as [Hk Hv]. apply andb_true_intro. split;
      [apply (IHk (d + 1)) | apply (IHv (d + 1))]; (done || lia).
  - apply andb_prop in Hi as [Ht Hi]. rewrite Ht. apply (IH (d + 1)); [lia|done].
Qed.

Lemma encode_entry_bound m e :
  e ∈ m -> (length (encode_item e.2) <= length (encode_item (IMap m)))%nat.
Proof.
  intros He. cbn [encode_item]. rewrite encode_map_body, length_app.
  assert (Hs : e ∈ sort_by item_entry_leb m) by by rewrite sort_by_perm.
  apply (concat_length_elem encode_pair) in Hs. unfold encode_pair in Hs at 1.
  rewrite length_app in Hs. lia.
Qed.

Lemma sum_Z_elem {A} (f : A -> Z) l a : (forall a, 0 <= f a) -> a ∈ l -> f a <= sum_Z (map f l).
Proof.
  intros Hf. induction 1 as [a l|a b l Ha IH]; cbn [map sum_Z].
  - pose proof (sum_Z_nonneg f l Hf). lia.
  - specialize (Hf b). lia.
Qed.

Lemma hail_fits_member limits n m k v :
  hail_fits limits (HMap n m) -> get m k = Some v -> hail_fits limits v.
Proof.
  intros [Hw Hi Hd Hc Hb] Hg. apply get_In in Hg.
  assert (He : (IText k, item_of_hail v) ∈ map (fun e => (IText e.1, item_of_hail e.2)) m)
    by apply (list_elem_of_fmap_2 (fun e : jstr * hvalue => (IText e.1, item_of_hail e.2)) _ _ Hg).
  cbn [hail_wf item_of_hail hail_item item_fits item_count] in *. split.
  - apply andb_prop in Hw as [_ Hw]. rewrite forallb_Forall, Forall_forall in Hw. apply (Hw _ Hg).
  - rewrite forallb_Forall, Forall_forall in Hi. specialize (Hi _ He).
    by apply andb_prop in Hi as [_ ?].
  - apply andb_prop in Hd as [_ Hd]. apply andb_prop in Hd as [_ Hd].
    rewrite forallb_Forall, Forall_forall in Hd. specialize (Hd _ He).
    apply andb_prop in Hd as [_ Hd]. apply (item_fits_weaken _ _ _ (0 + 1)); [lia|exact Hd].
  - pose proof (sum_Z_elem (fun e => item_count e.1 + item_count e.2) _ _
      (fun e => ltac:(pose proof (item_count_pos e.1); pose proof (item_count_pos e.2); lia)) He)
      as Hs. cbn [fst snd] in Hs. pose proof (item_count_pos (IText k)). lia.
  - apply encode_entry_bound in He. cbn [snd] in He. lia.
Qed.

Lemma assertHailValue_of_hail limits v w :
  assertHailValue limits (of_hail v) = Ok w -> w = v.
Proof.
  unfold assertHailValue. rewrite bind_Ok. intros (c & _ & Hw). rewrite as_hail_of_hail in Hw.
  by case_match; simplify_eq.
Qed.

Lemma assertHailValue_fit v : hail_fits DEFAULT_HAIL_RESOURCE_LIMITS v ->
  assertHailValue DEFAULT_HAIL_RESOURCE_LIMITS (of_hail v) = Ok v.
Proof.
  intros Hf. apply assertHailValue_fits; [apply default_limits_ok| |].
  - rewrite js_wf_of_hail. apply Hf.
  - auto using as_hail_of_hail, narrow_of_hail.
Qed.

(** A member that fits, when it is there. *)
Definition member_fits (v : field_value) : Prop :=
  forall w, v = Some w -> hail_fits DEFAULT_HAIL_RESOURCE_LIMITS w.

Section validators.
Context `{HailEnv}.

Lemma rel_hailAddress v v' p : osame v v' -> mrel eq (hailAddress v p) (hailAddress v' p).
Proof. intros Hv. apply mrel_eq. unfold hailAddress. by rewrite (same_text v v'). Qed.
Lemma rel_profileText v v' a b p : osame v v' -> mrel eq (profileText v a b p) (profileText v' a b p).
Proof. intros Hv. apply mrel_eq. unfold profileText. by rewrite (same_text v v'). Qed.
#[local] Hint Resolve rel_hailAddress rel_profileText : same.

Lemma rel_addressBinding r r' : rec_same r r' ->
  mrel eq (validateAddressBinding r) (validateAddressBinding r').
Proof. intros Hr. unfold validateAddressBinding. same. Qed.

Lemma rel_expiry r r' c : rec_same r r' -> mrel eq (connectionExpiry r c) (connectionExpiry r' c).
Proof. intros Hr. unfold connectionExpiry. same. Qed.
#[local] Hint Resolve rel_expiry : same.

Lemma rel_connectionInvitation r r' : rec_same r r' ->
  mrel eq (validateConnectionInvitation r) (validateConnectionInvitation r').
Proof. intros Hr. unfold validateConnectionInvitation. same. Qed.
Lemma rel_connectionConfirmation r r' : rec_same r r' ->
  mrel eq (validateConnectionConfirmation r) (validateConnectionConfirmation r').
Proof. intros Hr. unfold validateConnectionConfirmation. same. Qed.
Lemma rel_conversationRevival r r' : rec_same r r' ->
  mrel eq (validateConversationRevival r) (validateConversationRevival r').
Proof. intros Hr. unfold validateConversationRevival. same. Qed.
Lemma rel_deliveryStatus r r' : rec_same r r' ->
  mrel eq (validateDeliveryStatus r) (validateDeliveryStatus r').
Proof. intros Hr. unfold validateDeliveryStatus. same. Qed.
Lemma rel_connectionGrant r r' : rec_same r r' ->
  mrel eq (validateConnectionGrant r) (validateConnectionGrant r').
Proof. intros Hr. unfold validateConnectionGrant. same. Qed.
Lemma rel_conversation_member i v v' s : same v v' ->
  mrel eq (conversation_member i v s) (conversation_member i v' s).
Proof. intros Hv. unfold conversation_member. same. Qed.
Lemma rel_scope_category i v v' s : same v v' ->
  mrel eq (scope_category i v s) (scope_category i v' s).
Proof. intros Hv. unfold scope_category. same. Qed.
Lemma rel_profile_category i v v' s : same v v' ->
  mrel eq (profile_category i v s) (profile_category i v' s).
Proof. intros Hv. unfold profile_category. same. Qed.
#[local] Hint Resolve rel_conversation_member rel_scope_category rel_profile_category : same.
Lemma rel_conversation r r' : rec_same r r' ->
  mrel eq (validateConversation r) (validateConversation r').
Proof. intros Hr. unfold validateConversation. same. Qed.
Lemma rel_grant r r' : rec_same r r' -> mrel eq (validateGrant r) (validateGrant r').
Proof. intros Hr. unfold validateGrant. same. Qed.
#[local] Hint Resolve rel_addressBinding rel_connectionInvitation rel_connectionConfirmation
  rel_conversationRevival rel_deliveryStatus rel_connectionGrant rel_conversation rel_grant : same.

(** ** Envelopes *)

Lemma rel_introduction r r' a a' : rec_same r r' -> rec_same a a' ->
  mrel eq (validate_introduction r a) (validate_introduction r' a').
Proof. intros Hr Ha. unfold validate_introduction. same. Qed.
#[local] Hint Resolve rel_introduction : same.
Lemma rel_authorization r r' a a' t : rec_same r r' -> rec_same a a' ->
  mrel eq (validate_authorization r a t) (validate_authorization r' a' t).
Proof. intros Hr Ha. unfold validate_authorization, version_is. same. Qed.
Lemma rel_parent_reference r r' : rec_same r r' ->
  mrel rec_same (parent_reference r) (parent_reference r').
Proof. intros Hr. unfold parent_reference. same. Qed.
#[local] Hint Resolve rel_authorization rel_parent_reference : same.
Lemma rel_parent r r' a a' t : rec_same r r' -> rec_same a a' ->
  mrel eq (validate_parent r a t) (validate_parent r' a' t).
Proof. intros Hr Ha. unfold validate_parent, version_is. same. Qed.
Lemma rel_body_descriptor r r' c e : rec_same r r' ->
  mrel eq (validate_body_descriptor r c e) (validate_body_descriptor r' c e).
Proof. intros Hr. unfold validate_body_descriptor. same. Qed.
Lemma rel_reply_permission r r' t c : rec_same r r' ->
  mrel eq (validate_reply_permission r t c) (validate_reply_permission r' t c).
Proof. intros Hr. unfold validate_reply_permission. same. Qed.
#[local] Hint Resolve rel_parent rel_body_descriptor rel_reply_permission : same.
Lemma rel_envelope r r' : rec_same r r' -> mrel eq (validateEnvelope r) (validateEnvelope r').
Proof. intros Hr. unfold validateEnvelope, version_is. same. Qed.
#[local] Hint Resolve rel_envelope : same.

(** ** Bodies *)

Lemma rel_attachment i v v' t : same v v' ->
  mrel eq (validate_attachment i v t) (validate_attachment i v' t).
Proof. intros Hv. unfold validate_attachment. same. Qed.
#[local] Hint Resolve rel_attachment : same.
Lemma rel_attachments v v' : osame v v' -> mrel eq (validateAttachments v) (validateAttachments v').
Proof. intros Hv. unfold validateAttachments. same. Qed.
#[local] Hint Resolve rel_attachments : same.
Lemma rel_optional_attachments r r' : rec_same r r' ->
  mrel eq (optional_attachments r) (optional_attachments r').
Proof. intros Hr. unfold optional_attachments. same. Qed.
#[local] Hint Resolve rel_optional_attachments : same.

Lemma rel_spt1_span p i v v' : same v v' -> mrel eq (spt1_span p i v) (spt1_span p i v').
Proof. intros Hv. unfold spt1_span. same. Qed.
#[local] Hint Resolve rel_spt1_span : same.
Lemma rel_spt1_block i v v' : same v v' -> mrel eq (spt1_block i v) (spt1_block i v').
Proof. intros Hv. unfold spt1_block. same. Qed.
#[local] Hint Resolve rel_spt1_block : same.
Lemma rel_spt1 r r' : rec_same r r' -> mrel eq (validateSpt1Body r) (validateSpt1Body r').
Proof. intros Hr. unfold validateSpt1Body. same. Qed.

Lemma rel_spt2_definition p i v v' ks : same v v' ->
  mrel eq (spt2_definition p i v ks) (spt2_definition p i v' ks).
Proof. intros Hv. unfold spt2_definition. same. Qed.
Lemma rel_spt2_span p ks i v v' : same v v' -> mrel eq (spt2_span p ks i v) (spt2_span p ks i v').
Proof. intros Hv. unfold spt2_span. same. Qed.
#[local] Hint Resolve rel_spt1 rel_spt2_definition rel_spt2_span : same.

(** A list of one mark, the expected one. *)
Definition single_mark (key v : field_value) : bool :=
  match v with Some (HArr [mark]) => strict_eq (Some mark) key | _ => false end.
Lemma same_single_mark key key' v v' : osame key key' -> osame v v' ->
  single_mark key v = single_mark key' v'.
Proof.
  intros Hk Hv. inversion Hv as [w w' Hs|]; subst; [|done]. destruct Hs as [w Hw|l l' Hl|]; [|..].
  - by destruct w.
  - destruct Hl as [|m m' l l' Hm Hl]; [done|]. destruct Hl; [|done].
    apply same_strict_eq; [by constructor|done].
  - done.
Qed.

Lemma rel_spt2_cta p b b' l l' : rec_same b b' -> Forall2 same l l' ->
  mrel eq (spt2_cta p b l) (spt2_cta p b' l').
Proof.
  intros Hb Hl. unfold spt2_cta.
  eapply mrel_bind; [same|]. intros d d' Hd. eapply mrel_bind; [same|]. intros ? ? _.
  eapply mrel_bind; [same|]. intros e e' He. eapply mrel_bind; [same|]. intros t ? <-.
  eapply mrel_bind; [same|]. intros ? ? _.
  apply (mrel_bind eq).
  - apply mrel_mapM; [|done]. intros v v' Hv. eapply mrel_bind; [same|]. intros r r' Hr.
    apply mrel_Ok. apply (same_single_mark (field e "_key") (field e' "_key"));
      eauto with same.
  - intros ? ? <-. apply (mrel_bind eq); [same|]. intros _ _ _. apply mrel_reject. f_equal.
    f_equal. eauto with same.
Qed.
#[local] Hint Resolve rel_spt2_cta : same.
Lemma rel_spt2_block i v v' : same v v' -> mrel eq (spt2_block i v) (spt2_block i v').
Proof. intros Hv. unfold spt2_block. same. Qed.
#[local] Hint Resolve rel_spt2_block : same.
Lemma rel_spt2 r r' : rec_same r r' -> mrel eq (validateSpt2Body r) (validateSpt2Body r').
Proof. intros Hr. unfold validateSpt2Body. same. Qed.
#[local] Hint Resolve rel_spt2 : same.

(** ** Assets *)

Lemma rel_asset i v v' seen : same v v' -> mrel eq (validate_asset i v seen) (validate_asset i v' seen).
Proof. intros Hv. unfold validate_asset. destruct seen as [ids roles]. same. Qed.
#[local] Hint Resolve rel_asset : same.

Lemma rel_asset_manifest v v' : osame v v' -> member_fits v' ->
  mrel same (validateAssetManifest (js_of_field v)) (validateAssetManifest (js_of_field v')).
Proof.
  intros Hv Hf w Hw. unfold validateAssetManifest in Hw. apply bind_Ok in Hw as (u & Hu & Hw).
  inversion Hv as [x x' Hx|]; subst; [|done]. cbn [js_of_field] in Hu.
  apply assertHailValue_of_hail in Hu as ->. unfold validateAssetManifest. cbn [js_of_field].
  rewrite (assertHailValue_fit x' (Hf x' eq_refl)). cbn [mbind result_bind].
  revert w Hw. change (mrel same (m ← record (Some x) root; _ ← exactKeys m (keys ["version"; "assets"]%string) [] root;
    _ ← reject (negb (is_num (field m "version") 1)) "must equal integer 1" (js "$.version");
    assets ← array (field m "assets") (js "$.assets");
    _ ← reject ((length assets <? 1)%nat || (8 <? length assets)%nat)
          "must contain one to eight assets" (js "$.assets");
    _ ← ifoldM 0 assets ([], []) validate_asset; Ok x)
    (m ← record (Some x') root; _ ← exactKeys m (keys ["version"; "assets"]%string) [] root;
    _ ← reject (negb (is_num (field m "version") 1)) "must equal integer 1" (js "$.version");
    assets ← array (field m "assets") (js "$.assets");
    _ ← reject ((length assets <? 1)%nat || (8 <? length assets)%nat)
          "must contain one to eight assets" (js "$.assets");
    _ ← ifoldM 0 assets ([], []) validate_asset; Ok x')).
  same.
Qed.

Lemma rel_manifest_assets v v' p : osame v v' ->
  mrel (Forall2 rec_same) (manifest_assets v p) (manifest_assets v' p).
Proof.
  intros Hv. unfold manifest_assets. eapply mrel_bind; [same|]. intros m m' Hm.
  apply mrel_Ok. pose proof (rec_same_field m m' "assets" Hm) as Ha.
  inversion Ha as [x x' Hx|]; subst; [|constructor].
  destruct Hx as [w Hw|l l' Hl|]; [by destruct w| |constructor].
  clear -Hl. induction Hl as [|y y' l l' Hy _ IH]; [constructor|]. cbn [map]. constructor; [|exact IH].
  destruct Hy as [w Hw| |]; try done; intros k; by try destruct w; try constructor.
Qed.

(** The states of the loop over blocks. *)
Definition state_same (st st' : spt3_state) : Prop :=
  used st = used st' /\ imageCount st = imageCount st' /\ pixels st = pixels st' /\
  Forall2 same (textBlocks st) (textBlocks st').

Lemma find_same (p p' : HailRecord -> bool) l l' :
  (forall r r', rec_same r r' -> p r = p' r') -> Forall2 rec_same l l' ->
  option_Forall2 rec_same (List.find p l) (List.find p' l').
Proof.
  intros Hp. induction 1 as [|r r' l l' Hr _ IH]; simpl; [constructor|].
  rewrite (Hp r r' Hr). destruct (p' r'); [by constructor|done].
Qed.

Lemma rel_spt3_block assets assets' i v v' st st' :
  Forall2 rec_same assets assets' -> same v v' -> state_same st st' ->
  mrel state_same (spt3_block assets i v st) (spt3_block assets' i v' st').
Proof.
  intros Ha Hv (Hu & Hc & Hp & Ht). unfold spt3_block. rewrite Hu, Hc, Hp.
  eapply mrel_bind; [same|]. intros b b' Hb. apply mrel_if; [same_bool| |].
  { apply mrel_Ok. repeat split; cbn; try congruence. apply Forall2_app; auto. }
  eapply mrel_bind; [same|]. intros _ _ _. eapply mrel_bind; [same|]. intros _ _ _.
  eapply mrel_bind; [same|]. intros id ? <-.
  apply (mrel_bind rec_same).
  { pose proof (find_same (fun a => strict_eq (field a "id") (Some (HStr id)))
      (fun a => strict_eq (field a "id") (Some (HStr id))) assets assets') as Hf.
    destruct Hf as [a a' Haa|]; [intros; eauto with same|done| |apply mrel_Err].
    same. }
  intros a a' Haa. eapply mrel_bind; [same|]. intros _ _ _.
  apply (mrel_bind eq); [same|]. intros _ _ _. apply mrel_Ok.
  rewrite (same_num_of (field a "width") (field a' "width")) by eauto with same.
  rewrite (same_num_of (field a "height") (field a' "height")) by eauto with same.
  by repeat split.
Qed.

Lemma rel_spt3 r r' : rec_same r r' -> (forall k, member_fits (get r' k)) ->
  mrel eq (validateSpt3Body r) (validateSpt3Body r').
Proof.
  intros Hr Hf. unfold validateSpt3Body. do 4 (apply (mrel_bind eq); [same|]; intros _ _ _).
  eapply mrel_bind; [by apply rel_asset_manifest; [eauto with same|apply Hf]|]. intros _ _ _.
  eapply mrel_bind; [by apply rel_manifest_assets; eauto with same|]. intros a a' Ha.
  apply (mrel_bind eq).
  { apply mrel_reject. clear -Ha. induction Ha as [|x x' a a' Hx _ IH]; [done|].
    cbn [existsb]. rewrite IH. f_equal. same_bool. }
  intros _ _ _. eapply mrel_bind; [same|]. intros b b' Hb.
  eapply mrel_bind.
  { apply (mrel_ifoldM state_same); [|exact Hb|].
    - intros. by apply rel_spt3_block.
    - by repeat split. }
  intros st st' (Hu & Hc & Hp & Ht). rewrite Hu, Hc, Hp, (Forall2_length _ _ _ Ha).
  do 2 (apply (mrel_bind eq); [same|]; intros _ _ _).
  apply rel_spt2. intros k. unfold get. cbn [List.find fst].
  repeat (case_match; [first [by apply osame_Some, same_leaf | by apply osame_Some, same_arr]|]).
  by apply None_Forall2.
Qed.

Lemma rel_senderProfile r r' : rec_same r r' -> (forall k, member_fits (get r' k)) ->
  mrel eq (validateSenderProfile r) (validateSenderProfile r').
Proof.
  intros Hr Hf. unfold validateSenderProfile.
  eapply mrel_bind; [same|]. intros version ? <-.
  do 5 (eapply mrel_bind; [same|]; intros ? ? ?; subst).
  eapply mrel_bind; [same|]. intros ? ? _. eapply mrel_bind; [same|]. intros c c' Hc.
  do 2 (eapply mrel_bind; [same|]; intros ? ? ?; subst).
  apply (mrel_bind eq); [|intros; same].
  apply mrel_if; [same_bool| |same].
  eapply mrel_bind; [by apply rel_asset_manifest; [eauto with same|apply Hf]|]. intros _ _ _.
  eapply mrel_bind; [by apply rel_manifest_assets; eauto with same|]. intros al al' Hal.
  apply mrel_reject. rewrite (Forall2_length _ _ _ Hal). f_equal. f_equal.
  destruct Hal; [done|]. eauto with same.
Qed.

(** The operation and the state of a control are converted to strings: they are to be strings. *)
Definition control_texts (r : HailRecord) : Prop :=
  (exists s, field r "operation" = Some (HStr s)) /\ (exists s, field r "state" = Some (HStr s)).

Lemma rel_connectionControl r r' : rec_same r r' -> control_texts r ->
  mrel eq (validateConnectionControl r) (validateConnectionControl r').
Proof.
  intros Hr [[o Ho] [s Hs]].
  assert (Hstr : forall k t, field r k = Some (HStr t) -> String_of (field r k) = String_of (field r' k)).
  { intros k t Hk. pose proof (rec_same_field r r' k Hr) as Hf. rewrite Hk in *.
    inversion Hf as [? ? Hx Hy|]; subst. by inversion Hx; subst. }
  unfold validateConnectionControl. rewrite (Hstr _ _ Ho), (Hstr _ _ Hs). same.
Qed.
#[local] Hint Resolve rel_senderProfile rel_connectionControl rel_spt3 : same.

(** ** Payloads *)

Lemma rel_validate_record t r r' : rec_same r r' -> (forall k, member_fits (get r' k)) ->
  (t = Signed connection_control -> control_texts r) ->
  mrel eq (validate_record t r) (validate_record t r').
Proof.
  intros Hr Hf Ht. destruct t as [t| | |]; cbn [validate_record]; [|same..].
  apply (mrel_bind eq); [same|]. intros _ _ _.
  apply (mrel_bind eq).
  { apply mrel_reject. unfold wrong_version. same_bool. }
  intros _ _ _. destruct t; cbn [validate_signed]; auto with same.
Qed.

(** What passes the validator passes it again, whatever the order of its members. *)
Lemma validatePayload_same t v v' : same v v' -> hail_fits DEFAULT_HAIL_RESOURCE_LIMITS v' ->
  (t = Signed connection_control -> forall r, record (Some v) root = Ok r -> control_texts r) ->
  validatePayload t (of_hail v) = Ok v -> validatePayload t (of_hail v') = Ok v'.
Proof.
  intros Hv Hf Ht. unfold validatePayload. rewrite (assertHailValue_fit v' Hf), bind_Ok.
  intros (w & Hw & Hrest). apply assertHailValue_of_hail in Hw as ->.
  cbn [mbind result_bind]. revert Hrest. rewrite !bind_Ok. intros (r & Hr & Hrest).
  destruct (rel_record (Some v) (Some v') root (osame_Some _ _ Hv) r Hr) as (r' & Hr' & Hrr).
  exists r'. split; [done|]. apply bind_Ok in Hrest as ([] & Hval & _).
  assert (Hmembers : forall k, member_fits (get r' k)).
  { intros k w Hk. apply record_Ok in Hr' as [n [= ->]]. by eapply hail_fits_member. }
  destruct (rel_validate_record t r r' Hrr Hmembers (fun e => Ht e r Hr) tt Hval) as (? & -> & _).
  done.
Qed.
End validators.
