(* ===== verification/Roundtrip.v ===== *)
(** * Payloads survive a round trip

    [decodePayload] reads back what [encodePayload] wrote, and the payload is still valid: the
    codec changes the order of members, which no validator sees. *)

From S2P Require Import Prelude JsString Regex Value Rfc8949 Scan Cbor Profiles Validation Png.
From S2P Require Import Payloads Envelope Bodies ValidatePayload Models Soundness Invariance.
From S2P Require Import ValidationRules.
From Stdlib Require Import ZArith.
Open Scope Z_scope.

Lemma get_perm (m m' : HailRecord) k : NoDup (map fst m) -> m ≡ₚ m' -> get m k = get m' k.
Proof.
  intros Hnd Hp.
  assert (Hnd' : NoDup (map fst m')) by by rewrite <- Hp.
  assert (Hin : forall (m : HailRecord) v, NoDup (map fst m) -> (k, v) ∈ m -> get m k = Some v).
  { clear. intros m v Hnd Hv. destruct (get m k) as [w|] eqn:Hg.
    - apply get_In in Hg. f_equal. apply list_elem_of_lookup in Hv as [i Hi], Hg as [j Hj].
      assert (i = j) as ->; [|congruence].
      apply (NoDup_lookup (map fst m) i j k Hnd); rewrite list_lookup_fmap; [by rewrite Hi|by rewrite Hj].
    - apply get_None_iff in Hg. destruct Hg. apply (list_elem_of_fmap_2 fst _ _ Hv). }
  destruct (get m' k) as [v|] eqn:Hg.
  - apply get_In in Hg. apply Hin; [done|]. by rewrite Hp.
  - apply get_None_iff in Hg. apply get_None_iff. by rewrite Hp.
Qed.

Lemma same_canonical v : hail_wf v = true -> same v (canonical v).
Proof.
  induction v as [| | | | |l IH|n m IH] using hvalue_ind'; cbn [hail_wf canonical];
    try (by intros _; apply same_leaf).
  - intros Hl%forallb_Forall. apply same_arr. apply Forall2_fmap_r, Forall_Forall2_diag.
    rewrite Forall_forall in *. auto.
  - intros [Hnd%bool_decide_eq_true Hm]%andb_prop. apply same_map. intros k.
    set (m' := map (fun e => (e.1, canonical e.2)) m).
    assert (Hp : m' ≡ₚ own_key_order (sort_by key_order_leb m'))
      by by rewrite own_key_order_perm, sort_by_perm.
    assert (Hnd' : NoDup (map fst m')) by (unfold m'; by rewrite map_map).
    rewrite <- (get_perm _ _ k Hnd' Hp). unfold m'. rewrite get_map. destruct (get m k) as [v|] eqn:Hg; [|constructor].
    apply get_In in Hg. constructor. apply forallb_Forall in Hm.
    rewrite Forall_forall in *. by apply (IH (k, v)), (Hm (k, v)).
Qed.

(** A payload read at the type of a connection control has texts for its operation and state. *)
Lemma control_as_texts v r : is_Some (as_payload (Signed connection_control) v) ->
  record (Some v) root = Ok r -> control_texts r.
Proof.
  intros [c Hc] [n [= ->]]%record_Ok. cbn [as_payload] in Hc. unfold as_HailConnectionControl in Hc.
  cbn [as_record] in Hc. repeat (apply bind_Some in Hc as (? & ? & Hc)).
  assert (Htext : forall k {A} (table : list (String.string * A)) a,
    req r k (as_enum table) = Some a -> exists s, field r k = Some (HStr s)).
  { intros k A table a Ha. unfold req in Ha. apply bind_Some in Ha as (w & Hw & Ha).
    unfold as_enum in Ha. apply bind_Some in Ha as (s & Hs & _). exists s.
    destruct w; by simplify_eq/=. }
  simplify_eq. split; eauto.
Qed.

(** ** Limits that differ in the number of bytes *)

Lemma item_fits_ext limits limits' tags i : forall d,
  maximumDepth limits = maximumDepth limits' ->
  maximumArrayLength limits = maximumArrayLength limits' ->
  maximumMapEntries limits = maximumMapEntries limits' ->
  maximumTextBytes limits = maximumTextBytes limits' ->
  maximumByteStringLength limits = maximumByteStringLength limits' ->
  item_fits limits tags d i = item_fits limits' tags d i.
Proof.
  induction i as [| | | | |l IH|m IH|t i IH] using item_ind'; intros d H1 H2 H3 H4 H5;
    cbn [item_fits]; rewrite H1, ?H2, ?H3, ?H4, ?H5; try done.
  - do 2 f_equal. rewrite Forall_forall in IH. 
    induction l as [|x l IHl]; [done|]. cbn [forallb]. rewrite IH, IHl; try done.
    + intros y Hy. apply IH. by right.
    + by left.
  - do 2 f_equal. rewrite Forall_forall in IH.
    induction m as [|x m IHm]; [done|]. cbn [forallb].
    destruct (IH x) as [Hk Hv]; [by left|]. rewrite Hk, Hv, IHm; try done.
    intros y Hy. apply IH. by right.
  - by rewrite IH.
Qed.

(** ** The round trip of a payload *)

Section validation.
Context `{HailEnv}.

(** A payload of the type the caller declares; the validators see to it for every type but
    the connection control. *)
Definition declared (t : HailPayloadType) (v : hvalue) : Prop :=
  t = Signed connection_control -> is_Some (as_payload t v).

Lemma validate_canonical t v :
  declared t v -> hail_fits DEFAULT_HAIL_RESOURCE_LIMITS v ->
  hail_fits DEFAULT_HAIL_RESOURCE_LIMITS (canonical v) ->
  validatePayload t (of_hail v) = Ok v -> validatePayload t (of_hail (canonical v)) = Ok (canonical v).
Proof.
  intros Ht Hf Hc. apply validatePayload_same; [by apply same_canonical, Hf|done|].
  intros -> r. apply control_as_texts. by apply Ht.
Qed.

(** Validation of any JavaScript value is validation of what it narrows to. *)
Lemma validatePayload_narrows t x v : js_wf x = true -> validatePayload t x = Ok v ->
  as_hail x = Some v /\ hail_fits DEFAULT_HAIL_RESOURCE_LIMITS v /\
  validatePayload t (of_hail v) = Ok v.
Proof.
  intros Hx Hv. unfold validatePayload in Hv. apply bind_Ok in Hv as (w & Hw & Hv).
  assert (w = v) as ->.
  { apply bind_Ok in Hv as (r & _ & Hv). by apply bind_Ok in Hv as (? & _ & [= ->]). }
  apply assertHailValue_fits in Hw as (Ha & Hn & Hf); [|apply default_limits_ok|done].
  split; [done|]. split; [done|]. unfold validatePayload. by rewrite (assertHailValue_fit v Hf).
Qed.

(** No validator depends on how a payload lists its members: a payload that agrees with a valid
    one member by member, at every depth, is valid, whatever the order of its members and the
    prototypes of its objects. *)
Theorem validation_order t v v' :
  same v v' -> declared t v -> hail_fits DEFAULT_HAIL_RESOURCE_LIMITS v' ->
  validatePayload t (of_hail v) = Ok v -> validatePayload t (of_hail v') = Ok v'.
Proof.
  intros Hs Ht Hf Hv. apply (validatePayload_same t v); try done.
  intros -> r. apply control_as_texts. by apply Ht.
Qed.
End validation.

Section roundtrip.
Context `{HailEnv} `{CborgSpec}.
#[local] Set Default Proof Using "All".

Lemma fits_canonical limits v : limits_ok limits -> hail_fits limits v -> hail_fits limits (canonical v).
Proof. intros Hl Hf. by apply decode_fits, decode_Ok in Hf as [? _]. Qed.

(** What was encoded decodes to a valid payload under any limits it fits. *)
Lemma decode_encoded_payload t v limits :
  limits_ok limits -> declared t v -> hail_fits DEFAULT_HAIL_RESOURCE_LIMITS v ->
  hail_fits limits v -> validatePayload t (of_hail v) = Ok v ->
  decodeDeterministic limits (encode_item (item_of_hail v)) = Ok (canonical v) /\
  validatePayload t (of_hail (canonical v)) = Ok (canonical v).
Proof.
  intros Hl Ht Hd Hf Hv. split; [by apply decode_fits|].
  apply validate_canonical; try done. apply fits_canonical; [apply default_limits_ok|done].
Qed.

(** C11: A payload survives a round trip: what [encodePayload] writes, [decodePayload] reads back as
    the canonical form of the payload, and finds valid; the validators, having accepted a
    payload, accept it with its members in the order of the encoding. *)
Theorem payload_roundtrip t x limits b :
  limits_ok limits -> js_wf x = true -> encodePayload t x limits = Ok b ->
  exists v, as_hail x = Some v /\ (declared t v -> decodePayload t b limits = Ok (canonical v)).
Proof.
  intros Hl Hx Henc. unfold encodePayload in Henc. apply bind_Ok in Henc as (v & Hv & Henc).
  apply validatePayload_narrows in Hv as (Ha & Hd & Hv); [|done].
  apply encode_Ok in Henc as (w & Hw & _ & Hf & ->); [|done..]. simplify_eq.
  exists v. split; [done|]. intros Ht. unfold decodePayload.
  destruct (decode_encoded_payload t v limits Hl Ht Hd Hf Hv) as [-> Hc]. exact Hc.
Qed.

End roundtrip.

Example payload_roundtrip_witness : exists v,
  as_hail (of_hail example_envelope) = Some v /\
  (declared (Signed envelope) v ->
   decodePayload (H := example_env) (H0 := Reference.cborg) (Signed envelope)
     (encode_item (item_of_hail example_envelope)) DEFAULT_HAIL_RESOURCE_LIMITS = Ok (canonical v)).
Proof.
  apply (payload_roundtrip (H := example_env) (H1 := Reference.cborg_spec)).
  - apply default_limits_ok.
  - vm_compute. reflexivity.
  - vm_compute. reflexivity.
Defined.

Example validation_order_witness :
  validatePayload (H := example_env) (Signed envelope) (of_hail (canonical example_envelope))
  = Ok (canonical example_envelope).
Proof.
  apply (validation_order (H := example_env) (Signed envelope) example_envelope).
  - apply same_canonical. vm_compute. reflexivity.
  - discriminate.
  - apply (fits_canonical (H := example_env) (H0 := Reference.cborg) (H1 := Reference.cborg_spec)); [apply default_limits_ok|].
    split; vm_compute; first [reflexivity | discriminate].
  - vm_compute. reflexivity.
Defined.
