(* ===== verification/Cose.v ===== *)
(** * Signed payloads (packages/hail-codec-ts/src/cose.ts, conversations.ts)

    COSE_Sign1 representations of payloads: signing, inspection and verification.  The signer and
    the verifier are parameters; a promise that rejects is an error. *)

From S2P Require Import Prelude JsString Regex Value Rfc8949 Scan Cbor Profiles Validation Png.
From S2P Require Import Payloads Envelope Bodies ValidatePayload Models.
From Stdlib Require Import ZArith.
Open Scope Z_scope.

(** ** Interfaces (types.ts) *)

(** What a signer resolves to is checked at run time. *)
Record HailSigner := { signer_keyId : jstr; sign : bytes -> M jsval }.
Record HailVerifier := { verify : bytes -> bytes -> jstr -> M bool }.

Record InspectedHailObject (P : Type) := {
  inspected_type : HailSignedPayloadType;
  inspected_keyId : jstr;
  payload : P;
  payloadBytes : bytes;
  representationBytes : bytes;
}.
Arguments inspected_type {P} _.
Arguments inspected_keyId {P} _.
Arguments payload {P} _.
Arguments payloadBytes {P} _.
Arguments representationBytes {P} _.

Record ParsedCose := {
  keyId : jstr;
  parsed_payload : hvalue;
  parsed_payloadBytes : bytes;
  protectedBytes : bytes;
  parsed_representationBytes : bytes;
  signature : bytes;
}.

(** ** Parsing *)

Definition equalBytes (left right : bytes) : bool :=
  if negb (length left =? length right)%nat then false
  else forallb (fun '(value, other) => bool_decide (value = other)) (zip left right).

Definition malformed {A} (message : jstr) : M A :=
  Err (CodecError (new_HailCodecError invalid_cose message None)).
Definition malformed_when (b : bool) (message : String.string) : M unit :=
  if b then malformed (js message) else Ok tt.
Arguments malformed_when b message%_string.

Definition coseLimits (maximum : Z) : HailResourceLimits := {|
  maximumBytes := maximum;
  maximumDepth := 8;
  maximumItems := 256;
  maximumArrayLength := 8;
  maximumMapEntries := 8;
  maximumTextBytes := 1024;
  maximumByteStringLength := maximum;
|}.

(** The limits on the embedded payload. *)
Definition payload_limits (maximum : Z) : HailResourceLimits := {|
  maximumBytes := maximum;
  maximumDepth := 32;
  maximumItems := 16384;
  maximumArrayLength := 4096;
  maximumMapEntries := 256;
  maximumTextBytes := 1048576;
  maximumByteStringLength := 1048576;
|}.

Definition representation_limit (t : HailSignedPayloadType) : Z :=
  default 262144 (maximumRepresentationBytes (SIGNED_PROFILES t)).

Definition too_large (t : HailSignedPayloadType) (representation : bytes) : bool :=
  match maximumRepresentationBytes (SIGNED_PROFILES t) with
  | Some maximum => maximum <? Z.of_nat (length representation)
  | None => false
  end.

(** The elements of an array, as destructuring reads them. *)
Definition elements (slots : list (option (prop jsval))) : list jsval :=
  map (fun s => match s with Some (Data _ v) => v | _ => JUndefined end) slots.

(** [map.get(key)] of a native [Map] with an integer key; [None] for [undefined]. *)
Definition is_int_key (key : Z) (v : jsval) : bool :=
  match v with JNum (JInt z) => z =? key | _ => false end.
Definition map_get (entries : list (jsval * jsval)) (key : Z) : option jsval :=
  snd <$> List.find (fun e => is_int_key key e.1) entries.

Section cose.
Context `{HailEnv} `{Cborg}.

Definition encodeCoseValue (value : jsval) : M bytes := encodeCbor value.

(** The four elements of a tagged array. *)
Definition cose_elements (tagged : jsval) : M (bytes * bytes * bytes) :=
  match tagged with
  | JTagged _ (JArray _ slots) =>
      match elements slots with
      | [protectedBytes; unprotected; payloadBytes; signature] =>
          match protectedBytes with
          | JBytes protectedBytes =>
              match unprotected with
              | JMap [] =>
                  match payloadBytes with
                  | JBytes payloadBytes =>
                      match signature with
                      | JBytes signature =>
                          if negb (length signature =? 64)%nat then
                            malformed (js "signature must be exactly 64 bytes")
                          else Ok (protectedBytes, payloadBytes, signature)
                      | _ => malformed (js "signature must be exactly 64 bytes")
                      end
                  | _ => malformed (js "embedded payload must be bytes")
                  end
              | _ => malformed (js "unprotected header must be an empty map")
              end
          | _ => malformed (js "protected header must be bytes")
          end
      | _ => malformed (js "COSE_Sign1 must contain exactly four elements")
      end
  | _ => malformed (js "COSE_Sign1 must contain exactly four elements")
  end.

(** The checks of the protected header; the result is the key identifier. *)
Definition parse_protected (t : HailSignedPayloadType) (protectedBytes : bytes) : M jstr :=
  _ ← assertCborResourceLimits protectedBytes (coseLimits 1024) None;
  protectedHeader ← match cborg_decode None protectedBytes with
                    | Ok decoded => Ok decoded
                    | Err error =>
                        malformed (js "malformed protected header: " ++ thrown_string error)
                    end;
  entries ← match protectedHeader with
            | JMap ([_; _; _] as entries) => Ok entries
            | _ => malformed (js "protected header must contain exactly alg, content type, and kid")
            end;
  reencoded ← encodeCoseValue protectedHeader;
  _ ← throw_when (negb (equalBytes reencoded protectedBytes)) non_deterministic_cbor
        "protected header is not deterministically encoded" None;
  _ ← throw_when (negb (match map_get entries COSE_ALGORITHM_HEADER with
                        | Some (JNum (JInt z)) => z =? COSE_ED25519_ALGORITHM
                        | _ => false
                        end)) unsupported_algorithm
        "protected alg must be RFC 9864 Ed25519 (-19)" None;
  _ ← (if match map_get entries COSE_CONTENT_TYPE_HEADER with
          | Some (JStr s) => jstr_eqb s (contentType (SIGNED_PROFILES t))
          | _ => false
          end
       then Ok tt
       else Err (CodecError (new_HailCodecError wrong_content_type
              (js "protected content type must be " ++ contentType (SIGNED_PROFILES t)) None)));
  match map_get entries COSE_KEY_ID_HEADER with
  | Some (JBytes kid) =>
      match text_decode kid with
      | Some keyId => Ok keyId
      | None => malformed (js "protected kid must contain valid UTF-8")
      end
  | _ => malformed (js "protected kid must be bytes")
  end.

Definition parseCose (t : HailSignedPayloadType) (representation : bytes) : M ParsedCose :=
  _ ← throw_when (too_large t representation) resource_limit
        "signed representation is too large" None;
  _ ← assertCborResourceLimits representation (coseLimits (representation_limit t))
        (Some [COSE_SIGN1_TAG]);
  tagged ← match cborg_decode (Some COSE_SIGN1_TAG) representation with
           | Ok tagged => Ok tagged
           | Err error => malformed (js "malformed COSE_Sign1: " ++ thrown_string error)
           end;
  _ ← malformed_when (match tagged with
                      | JTagged tag _ => negb (tag =? COSE_SIGN1_TAG)
                      | _ => true
                      end) "tag 18 is required";
  reencoded ← encodeCoseValue tagged;
  _ ← throw_when (negb (equalBytes reencoded representation)) non_deterministic_cbor
        "COSE_Sign1 is not deterministically encoded" None;
  '(protectedBytes, payloadBytes, signature) ← cose_elements tagged;
  keyId ← parse_protected t protectedBytes;
  payload ← decodeDeterministic (payload_limits (representation_limit t)) payloadBytes;
  payload ← validatePayload (Signed t) (of_hail payload);
  expected ← expectedKeyId t payload;
  _ ← throw_when (negb (jstr_eqb keyId expected)) wrong_key_role
        "protected kid does not match the payload signer and required key role" None;
  entries ← record (Some payload) root;
  _ ← throw_when (match field entries "key_id" with
                  | None => false
                  | key_id => negb (strict_eq key_id (Some (HStr keyId)))
                  end) wrong_key_role
        "protected kid does not match payload key_id" None;
  Ok {| keyId := keyId; parsed_payload := payload; parsed_payloadBytes := payloadBytes;
        protectedBytes := protectedBytes; parsed_representationBytes := representation;
        signature := signature |}.

(** ** Results *)

(** [structuredClone]: plain objects with the members in the same order. *)
Fixpoint structuredClone (value : hvalue) : hvalue :=
  match value with
  | HArr l => HArr (map structuredClone l)
  | HMap _ m => HMap false (map (fun e => (e.1, structuredClone e.2)) m)
  | _ => value
  end.

(** The getters return copies. *)
Definition inspectedResult (t : HailSignedPayloadType) (parsed : ParsedCose)
    : InspectedHailObject hvalue := {|
  inspected_type := t;
  inspected_keyId := keyId parsed;
  payload := structuredClone (parsed_payload parsed);
  payloadBytes := parsed_payloadBytes parsed;
  representationBytes := parsed_representationBytes parsed;
|}.

Definition js_array (l : list jsval) : jsval := JArray [] (map (fun v => Some (Data true v)) l).

Definition signatureStructure (protectedBytes payloadBytes : bytes) : M bytes :=
  encodeCoseValue (js_array [JStr (js "Signature1"); JBytes protectedBytes; JBytes [];
                             JBytes payloadBytes]).

Definition signPayload (t : HailSignedPayloadType) (value : jsval) (signer : HailSigner) : M bytes :=
  payload ← validatePayload (Signed t) value;
  expected ← expectedKeyId t payload;
  _ ← throw_when (negb (jstr_eqb (signer_keyId signer) expected)) wrong_key_role
        "signer key ID does not match the payload signer and required key role" None;
  payloadBytes ← encodePayload (Signed t) value DEFAULT_HAIL_RESOURCE_LIMITS;
  protectedBytes ← encodeCoseValue (JMap
    [(JNum (JInt COSE_ALGORITHM_HEADER), JNum (JInt COSE_ED25519_ALGORITHM));
     (JNum (JInt COSE_CONTENT_TYPE_HEADER), JStr (contentType (SIGNED_PROFILES t)));
     (JNum (JInt COSE_KEY_ID_HEADER), JBytes (text_encode (signer_keyId signer)))]);
  structure ← signatureStructure protectedBytes payloadBytes;
  signature ← sign signer structure;
  _ ← malformed_when (match signature with
                      | JBytes b => negb (length b =? 64)%nat
                      | _ => true
                      end) "signer must return exactly 64 signature bytes";
  representation ← encodeCoseValue (JTagged COSE_SIGN1_TAG
    (js_array [JBytes protectedBytes; JMap []; JBytes payloadBytes; signature]));
  _ ← throw_when (too_large t representation) resource_limit
        "signed representation is too large" None;
  Ok representation.

Definition inspectSignedPayload (t : HailSignedPayloadType) (representation : bytes)
    : M (InspectedHailObject hvalue) :=
  parsed ← parseCose t representation;
  Ok (inspectedResult t parsed).

Definition verifySignedPayload (t : HailSignedPayloadType) (representation : bytes)
    (verifier : HailVerifier) : M (InspectedHailObject hvalue) :=
  parsed ← parseCose t representation;
  structure ← signatureStructure (protectedBytes parsed) (parsed_payloadBytes parsed);
  valid ← verify verifier structure (signature parsed) (keyId parsed);
  _ ← throw_when (negb valid) invalid_signature "signature verification failed" None;
  Ok (inspectedResult t parsed).

(** ** Revival of a conversation (conversations.ts) *)

(** The objects are verified ones; node's SHA-256 is that of the environment. *)
Definition validateConversationRevivalBinding
    (descriptor : InspectedHailObject HailConversation)
    (request : InspectedHailObject HailConversationRevival) : M unit :=
  let conversation := payload descriptor in
  let revival := payload request in
  let hash := sha256 (representationBytes descriptor) in
  throw_when
    (negb (bool_decide (inspected_type descriptor = Profiles.conversation))
     || negb (bool_decide (inspected_type request = conversation_revival))
     || negb (jstr_eqb (rv_from revival) (cv_from conversation))
     || negb (jstr_eqb (rv_conversation_id revival) (cv_conversation_id conversation))
     || negb (includes (cv_participants conversation) (rv_to revival))
     || (rv_issued_at revival <? cv_created_at conversation)
     || negb (length (digest_value (rv_descriptor_hash revival)) =? length hash)%nat
     || negb (equalBytes (digest_value (rv_descriptor_hash revival)) hash))
    schema_violation "revival must bind the original creator, roster and exact signed descriptor"
    (Some (js "$")).
End cose.
