(* ===== verification/CoseRules.v ===== *)
(** * What signed payloads guarantee

    A representation that parses is determined by the payload type, the key identifier, the
    payload bytes and the signature; the bytes that are signed determine all but the last; and
    what [signPayload] makes, [verifySignedPayload] accepts. *)

From S2P Require Import Prelude JsString Regex Value Rfc8949 Scan Cbor Profiles Validation Png.
From S2P Require Import Payloads Envelope Bodies ValidatePayload Models Soundness Invariance.
From S2P Require Import ValidationRules Roundtrip Cose.
From Stdlib Require Import ZArith.
Open Scope Z_scope.

(** ** The structures as CBOR items *)

Definition protected_item (t : HailSignedPayloadType) (key_id : jstr) : item :=
  IMap [(IInt COSE_ALGORITHM_HEADER, IInt COSE_ED25519_ALGORITHM);
        (IInt COSE_CONTENT_TYPE_HEADER, IText (contentType (SIGNED_PROFILES t)));
        (IInt COSE_KEY_ID_HEADER, IBytes (text_encode key_id))].

Definition sign1_item (protected payload signature : bytes) : item :=
  ITag 18 (IArr [IBytes protected; IMap []; IBytes payload; IBytes signature]).

Definition structure_item (protected payload : bytes) : item :=
  IArr [IText (js "Signature1"); IBytes protected; IBytes []; IBytes payload].

(** The representation of a signed payload, and the bytes its signature covers. *)
Definition representation_of (t : HailSignedPayloadType) (key_id : jstr) (payload signature : bytes)
    : bytes :=
  encode_item (sign1_item (encode_item (protected_item t key_id)) payload signature).
Definition signed_bytes (t : HailSignedPayloadType) (key_id : jstr) (payload : bytes) : bytes :=
  encode_item (structure_item (encode_item (protected_item t key_id)) payload).

Notation short b := (N.of_nat (length b) < 2 ^ 64)%N.

Lemma contentType_ok t : item_ok (IText (contentType (SIGNED_PROFILES t))).
Proof. destruct t; constructor; vm_compute; reflexivity. Qed.

Lemma small_int z : -1000 <= z <= 1000 -> item_ok (IInt z).
Proof. intros Hz. apply ok_int. lia. Qed.

Lemma short_list {A} n (l : list A) : (n < 1000)%nat -> length l = n -> short l.
Proof. intros Hn ->. lia. Qed.

Lemma protected_item_ok t k : short (text_encode k) -> item_ok (protected_item t k).
Proof.
  intros Hk. apply ok_map; [by apply (short_list 3); [lia|]|].
  repeat apply Forall_cons_2; [..|apply Forall_nil_2]; split; cbn [fst snd];
    try (apply small_int; unfold COSE_ALGORITHM_HEADER, COSE_CONTENT_TYPE_HEADER,
      COSE_KEY_ID_HEADER, COSE_ED25519_ALGORITHM; lia).
  - apply contentType_ok.
  - by apply ok_bytes.
Qed.

Lemma four_ok a b c d :
  item_ok a -> item_ok b -> item_ok c -> item_ok d -> item_ok (IArr [a; b; c; d]).
Proof. intros. apply ok_arr; [by apply (short_list 4); [lia|]|]. by repeat apply Forall_cons_2. Qed.

Lemma sign1_item_ok p b s : short p -> short b -> short s -> item_ok (sign1_item p b s).
Proof.
  intros Hp Hb Hs. apply ok_tag; [lia|]. apply four_ok; try by apply ok_bytes.
  apply ok_map; [by apply (short_list 0); [lia|]|apply Forall_nil_2].
Qed.

Lemma structure_item_ok p b : short p -> short b -> item_ok (structure_item p b).
Proof.
  intros Hp Hb. apply four_ok; try by apply ok_bytes.
  apply ok_text; vm_compute; reflexivity.
Qed.

(** ** Sizes *)

Lemma utf8_char_length c : (length (utf8_char c) <= 4)%nat.
Proof. unfold utf8_char. repeat case_match; simpl; lia. Qed.

Lemma code_points_length s : (length (code_points s) <= length s)%nat.
Proof.
  induction s as [[|u [|l s]] IH] using list_ind_length; cbn [code_points]; [simpl; lia..|].
  destruct (is_high u && is_low l); cbn [length].
  - pose proof (IH s). simpl in *. lia.
  - pose proof (IH (l :: s)). simpl in *. lia.
Qed.

Lemma text_encode_length s : (length (text_encode s) <= 4 * length s)%nat.
Proof.
  unfold text_encode. pose proof (code_points_length s).
  enough (forall cs, length (c ← cs; utf8_char (if is_scalar c then c else 0xFFFD%N)) <= 4 * length cs)%nat
    as Hcs by (specialize (Hcs (code_points s)); lia).
  clear. induction cs as [|c cs IH]; cbn [mbind list_bind]; [simpl; lia|].
  rewrite length_app. pose proof (utf8_char_length (if is_scalar c then c else 0xFFFD%N)).
  cbn [length]. lia.
Qed.

(** A key identifier has at most 47 code units. *)
Lemma expectedKeyId_short `{HailEnv} t v k :
  expectedKeyId t v = Ok k -> (length (text_encode k) <= 200)%nat.
Proof.
  intros Hk. unfold expectedKeyId in Hk. apply bind_Ok in Hk as (r & _ & Hk).
  apply bind_Ok in Hk as (s & Hs & [= <-]). apply did_Ok in Hs as [_ Hs].
  apply rx_test_spec in Hs. apply (proj2 (seq_spec _ _ _)) in Hs.
  apply matches_seq_inv in Hs as (a & b & -> & Ha & Hb).
  apply matches_lit_units in Ha as ->. apply matches_rep_class in Hb as [Hb _].
  pose proof (text_encode_length ((js "did:plc:" ++ b) ++ js "#" ++ role_name (keyRole (SIGNED_PROFILES t)))) as Hl.
  rewrite !length_app, Hb in Hl.
  assert (Hr : (length (role_name (keyRole (SIGNED_PROFILES t))) <= 14)%nat)
    by (destruct t; vm_compute; lia).
  change (length (js "did:plc:")) with 8%nat in Hl. change (length (js "#")) with 1%nat in Hl.
  etrans; [exact Hl|lia].
Qed.

(** The scan bounds the input. *)
Lemma scan_size b limits tags u :
  assertCborResourceLimits b limits tags = Ok u -> Z.of_nat (length b) <= maximumBytes limits.
Proof.
  unfold assertCborResourceLimits.
  destruct (Z.ltb_spec (maximumBytes limits) (Z.of_nat (length b))); [done|lia].
Qed.

Section cose_rules.
Context `{HailEnv} `{CborgSpec}.
#[local] Set Default Proof Using "All".

(** ** The encoder on these structures *)

Lemma encodeCose_item v i :
  item_of_js v = Some i -> item_ok i -> safe_ints i = true ->
  encodeCoseValue v = Ok (encode_item i).
Proof. intros Hv Hi Hs. unfold encodeCoseValue, encodeCbor. by rewrite (cborg_encode_item v i). Qed.

Lemma cose_equalBytes_eq a b : Cose.equalBytes a b = true <-> a = b.
Proof. apply Cbor.equalBytes_eq. Qed.

Lemma signatureStructure_Ok p b : short p -> short b ->
  signatureStructure p b = Ok (encode_item (structure_item p b)).
Proof. intros Hp Hb. apply encodeCose_item; [done|by apply structure_item_ok|done]. Qed.

Definition protected_js (t : HailSignedPayloadType) (k : bytes) : jsval :=
  JMap [(JNum (JInt COSE_ALGORITHM_HEADER), JNum (JInt COSE_ED25519_ALGORITHM));
        (JNum (JInt COSE_CONTENT_TYPE_HEADER), JStr (contentType (SIGNED_PROFILES t)));
        (JNum (JInt COSE_KEY_ID_HEADER), JBytes k)].

Lemma protected_encode t k : short (text_encode k) ->
  encodeCoseValue (protected_js t (text_encode k)) = Ok (encode_item (protected_item t k)).
Proof.
  intros Hk. apply encodeCose_item; [done|by apply protected_item_ok|done].
Qed.

(** ** Parsing determines the bytes *)

(** A map of three entries with three distinct integer keys. *)
Lemma map_get_In entries k v : map_get entries k = Some v -> (JNum (JInt k), v) ∈ entries.
Proof.
  unfold map_get. intros [[key w] [He ->]]%fmap_Some. apply find_some in He as [He Hk].
  cbn [fst snd] in *. apply list_elem_of_In. destruct key as [| | |[z| |]| | | | | | |]; try done.
  apply Z.eqb_eq in Hk as ->. done.
Qed.

Lemma three_entries {A} (l : list A) a b c : length l = 3%nat -> a <> b -> a <> c -> b <> c ->
  a ∈ l -> b ∈ l -> c ∈ l -> [a; b; c] ≡ₚ l.
Proof.
  intros Hl Hab Hac Hbc Ha Hb Hc. apply submseteq_length_Permutation; [|simpl; lia].
  apply NoDup_submseteq.
  - repeat (apply NoDup_cons; split; [set_solver|]). constructor.
  - set_solver.
Qed.

Lemma encode_map_perm m m' : distinct_keys m -> m ≡ₚ m' -> encode_item (IMap m) = encode_item (IMap m').
Proof.
  intros Hd Hp. cbn [encode_item]. assert (Hl : length m = length m') by by rewrite Hp.
  rewrite Hl. do 3 f_equal. by apply encode_entries_perm.
Qed.

(** The entry of an item map that an entry of a native map stands for. *)
Definition entry_item (e : jsval * jsval) : option (item * item) :=
  i ← item_of_js e.1; pair i <$> item_of_js e.2.

Lemma protected_entries_encode t k entries :
  short (text_encode k) ->
  [(JNum (JInt COSE_ALGORITHM_HEADER), JNum (JInt COSE_ED25519_ALGORITHM));
   (JNum (JInt COSE_CONTENT_TYPE_HEADER), JStr (contentType (SIGNED_PROFILES t)));
   (JNum (JInt COSE_KEY_ID_HEADER), JBytes (text_encode k))] ≡ₚ entries ->
  encodeCoseValue (JMap entries) = Ok (encode_item (protected_item t k)).
Proof.
  intros Hk Hp. pose proof (protected_item_ok t k Hk) as Hok.
  assert (Hm : exists m, mapM entry_item entries = Some m /\
    [(IInt COSE_ALGORITHM_HEADER, IInt COSE_ED25519_ALGORITHM);
     (IInt COSE_CONTENT_TYPE_HEADER, IText (contentType (SIGNED_PROFILES t)));
     (IInt COSE_KEY_ID_HEADER, IBytes (text_encode k))] ≡ₚ m).
  { set (g := fun e => default (INull, INull) (entry_item e)).
    exists (map g entries). split.
    - apply mapM_Some_2. apply Forall2_fmap_r, Forall_Forall2_diag.
      rewrite <- Hp. by repeat constructor.
    - by rewrite <- Hp. }
  destruct Hm as (m & Hm & Hpm).
  assert (Hd : distinct_keys [(IInt COSE_ALGORITHM_HEADER, IInt COSE_ED25519_ALGORITHM);
     (IInt COSE_CONTENT_TYPE_HEADER, IText (contentType (SIGNED_PROFILES t)));
     (IInt COSE_KEY_ID_HEADER, IBytes (text_encode k))]).
  { unfold distinct_keys. cbn [map fst]. apply (bool_decide_unpack _). vm_compute. done. }
  unfold protected_item. rewrite (encode_map_perm _ m Hd Hpm).
  apply encodeCose_item.
  - cbn [item_of_js]. change (IMap <$> mapM entry_item entries = Some (IMap m)). by rewrite Hm.
  - inversion Hok as [| | | | | |? Hl Hf|]; subst. apply ok_map; by rewrite <- Hpm.
  - cbn [safe_ints]. by rewrite <- Hpm.
Qed.

Lemma parse_protected_Ok t p k : parse_protected t p = Ok k -> short (text_encode k) ->
  p = encode_item (protected_item t k) /\ Z.of_nat (length p) <= 1024.
Proof.
  intros Hp Hk. unfold parse_protected in Hp. apply bind_Ok in Hp as ([] & Hscan & Hp).
  apply bind_Ok in Hp as (h & _ & Hp). apply bind_Ok in Hp as (entries & He & Hp).
  destruct h as [| | | | | | |m| | |]; try discriminate He.
  assert (m = entries /\ length entries = 3%nat) as [-> Hl]
    by (destruct m as [|? [|? [|? [|]]]]; try discriminate He; by injection He as <-).
  apply bind_Ok in Hp as (r & Hr & Hp). apply bind_Ok in Hp as ([] & Hb & Hp).
  apply throw_when_Ok, negb_false_iff, cose_equalBytes_eq in Hb as ->.
  apply bind_Ok in Hp as ([] & Halg & Hp). apply throw_when_Ok, negb_false_iff in Halg.
  apply bind_Ok in Hp as ([] & Hct & Hp).
  destruct (map_get entries COSE_ALGORITHM_HEADER) as [[| | |[z| |]| | | | | | |]|] eqn:Hg1;
    try discriminate Halg. apply Z.eqb_eq in Halg as ->.
  destruct (map_get entries COSE_CONTENT_TYPE_HEADER) as [[| | | |s| | | | | |]|] eqn:Hg3;
    try discriminate Hct.
  destruct (jstr_eqb s _) eqn:Hs; [|discriminate Hct]. apply jstr_eqb_eq in Hs as ->.
  destruct (map_get entries COSE_KEY_ID_HEADER) as [[| | | | |kid| | | | |]|] eqn:Hg4;
    try discriminate Hp.
  destruct (text_decode kid) as [k'|] eqn:Hd; [|discriminate Hp]. injection Hp as ->.
  apply text_decode_inv in Hd as [_ <-].
  apply map_get_In in Hg1, Hg3, Hg4. rewrite (protected_entries_encode t k entries Hk) in Hr.
  - injection Hr as <-. split; [done|]. exact (scan_size _ _ _ _ Hscan).
  - by apply three_entries.
Qed.

(** What a successful run of [parseCose] has established. *)
Record parsed_ok (t : HailSignedPayloadType) (rep : bytes) (p : ParsedCose) : Prop := {
  parsed_protected : protectedBytes p = encode_item (protected_item t (keyId p));
  parsed_protected_size : Z.of_nat (length (protectedBytes p)) <= 1024;
  parsed_rep : rep = representation_of t (keyId p) (parsed_payloadBytes p) (signature p);
  parsed_copy : parsed_representationBytes p = rep;
  parsed_signature : length (signature p) = 64%nat;
  parsed_fits : hail_fits (payload_limits (representation_limit t)) (parsed_payload p);
  parsed_bytes : parsed_payloadBytes p = encode_item (item_of_hail (parsed_payload p));
  parsed_decoded : decodeDeterministic (payload_limits (representation_limit t))
    (parsed_payloadBytes p) = Ok (parsed_payload p);
  parsed_valid : validatePayload (Signed t) (of_hail (parsed_payload p)) = Ok (parsed_payload p);
  parsed_signer : expectedKeyId t (parsed_payload p) = Ok (keyId p);
  parsed_size : Z.of_nat (length rep) <= representation_limit t;
}.

Lemma payload_limits_ok t : limits_ok (payload_limits (representation_limit t)).
Proof. by destruct t. Qed.

Lemma cose_elements_Ok tag v p b s : cose_elements (JTagged tag v) = Ok (p, b, s) ->
  decoded_value v = true ->
  v = js_array [JBytes p; JMap []; JBytes b; JBytes s] /\ length s = 64%nat.
Proof.
  intros He Hd. destruct v as [| | | | | |extra slots| | | |]; try discriminate He.
  cbn [cose_elements] in He. cbn [decoded_value] in Hd.
  apply andb_prop in Hd as [->%bool_decide_eq_true Hd].
  destruct slots as [|s1 [|s2 [|s3 [|s4 [|]]]]]; try discriminate He.
  cbn [forallb] in Hd. repeat (apply andb_prop in Hd as [? Hd]).
  destruct s1 as [[[] v1|]|], s2 as [[[] v2|]|], s3 as [[[] v3|]|], s4 as [[[] v4|]|]; try done.
  cbn [elements map] in He. destruct v1; try discriminate He.
  destruct v2 as [| | | | | | |[|]| | |]; try discriminate He.
  destruct v3; try discriminate He. destruct v4; try discriminate He.
  destruct (negb _) eqn:Hl in He; [discriminate He|]. injection He as <- <- <-.
  by apply negb_false_iff, Nat.eqb_eq in Hl.
Qed.

Lemma validatePayload_same_value t v w : validatePayload t (of_hail v) = Ok w -> w = v.
Proof.
  intros Hv. unfold validatePayload in Hv. apply bind_Ok in Hv as (u & Hu & Hv).
  apply assertHailValue_of_hail in Hu as ->.
  apply bind_Ok in Hv as (r & _ & Hv). by apply bind_Ok in Hv as (? & _ & [= ->]).
Qed.

Lemma fits_size limits v : hail_fits limits v ->
  Z.of_nat (length (encode_item (item_of_hail v))) <= maximumBytes limits.
Proof. by intros []. Qed.

Lemma representation_limit_bounds t : 16384 <= representation_limit t <= 262144.
Proof. destruct t; vm_compute; split; discriminate. Qed.

Lemma parse_Ok t rep p : parseCose t rep = Ok p -> parsed_ok t rep p.
Proof.
  intros Hp. unfold parseCose in Hp. apply bind_Ok in Hp as ([] & _ & Hp).
  apply bind_Ok in Hp as ([] & Hscan & Hp). apply bind_Ok in Hp as (tagged & Hdec & Hp).
  destruct (cborg_decode (Some COSE_SIGN1_TAG) rep) as [v|] eqn:Hv; [|discriminate Hdec].
  injection Hdec as ->. apply cborg_decode_value in Hv.
  apply bind_Ok in Hp as ([] & Htag & Hp). apply bind_Ok in Hp as (r & Hr & Hp).
  apply bind_Ok in Hp as ([] & Heq & Hp). apply throw_when_Ok, negb_false_iff, cose_equalBytes_eq in Heq as ->.
  apply bind_Ok in Hp as ([[protected b] s] & He & Hp).
  destruct tagged as [| | | | | | | |tag body| |]; try discriminate Htag.
  cbn [malformed_when] in Htag. destruct (tag =? COSE_SIGN1_TAG) eqn:Ht; [|discriminate Htag].
  apply Z.eqb_eq in Ht as ->.
  apply cose_elements_Ok in He as [-> Hsig]; [|done].
  apply bind_Ok in Hp as (k & Hk & Hp). apply bind_Ok in Hp as (v & Hpay & Hp).
  apply bind_Ok in Hp as (w & Hval & Hp). pose proof (validatePayload_same_value _ _ _ Hval) as ->.
  apply bind_Ok in Hp as (expected & Hexp & Hp).
  apply bind_Ok in Hp as ([] & Hke & Hp). apply throw_when_Ok, negb_false_iff, jstr_eqb_eq in Hke as ->.
  apply bind_Ok in Hp as (entries & _ & Hp). apply bind_Ok in Hp as ([] & _ & Hp).
  injection Hp as <-. pose proof Hpay as Hdec.
  apply decode_Ok in Hpay as [Hfits ->]; [|apply payload_limits_ok].
  assert (Hks : short (text_encode expected)) by (apply expectedKeyId_short in Hexp; lia).
  apply parse_protected_Ok in Hk as [-> Hps]; [|done].
  pose proof (fits_size _ _ Hfits) as Hb. pose proof (representation_limit_bounds t) as Hlim.
  cbn [payload_limits maximumBytes] in Hb.
  rewrite (encodeCose_item _ (sign1_item (encode_item (protected_item t expected))
    (encode_item (item_of_hail v)) s)) in Hr.
  - injection Hr as <-. apply scan_size in Hscan. by split.
  - done.
  - apply sign1_item_ok; lia.
  - done.
Qed.

(** ** What was signed parses *)

(** A payload that names a key names the key of its signer: the last check of [parseCose] never
    fires. *)
Lemma signed_key_id t r u s :
  validate_signed t r = Ok u -> get r (signerField (SIGNED_PROFILES t)) = Some (HStr s) ->
  field r "key_id" = None \/
  field r "key_id" = Some (HStr (s ++ js "#" ++ role_name (keyRole (SIGNED_PROFILES t)))).
Proof.
  intros Hv Hs.
  assert (Habsent : forall req opt p u', exactKeys r req opt p = Ok u' ->
    includes (req ++ opt) (js "key_id") = false -> field r "key_id" = None).
  { intros req opt p u' Hk Hin. eapply exactKeys_absent in Hk; [|exact Hin].
    by destruct (field r "key_id"). }
  destruct t; cbn [validate_signed SIGNED_PROFILES signerField keyRole profile] in *;
    unfold validateAddressBinding, validateSenderProfile, validateGrant,
      validateConnectionInvitation, validateConnectionConfirmation, validateConnectionGrant,
      validateConnectionControl, validateConversation, validateConversationRevival,
      validateEnvelope, validateDeliveryStatus in Hv;
    repeat match type of Hv with
           | _ ≫= _ = _ => apply bind_Ok in Hv as (? & ? & Hv); cbv zeta beta in Hv
           end;
    try match type of Hv with
        | Validation.keyId _ _ _ _ = _ =>
            right; apply keyId_Ok in Hv; rewrite Hv;
            match goal with Hd : did (field r _) _ = Ok ?x |- context [?x] =>
              apply did_Ok in Hd as [Hd _]; unfold field in Hd; congruence end
        end;
    left; eapply Habsent; try eassumption; try (vm_compute; reflexivity).
  unfold version_is. repeat case_match; vm_compute; reflexivity.
Qed.

Lemma ascii_wf s : forallb (fun u => u <? 128)%N s = true -> isWellFormed s = true.
Proof.
  rewrite forallb_Forall. induction 1 as [|u s Hu _ IH]; [done|]. cbn [isWellFormed]. rewrite IH.
  unfold is_high, is_low. bools. by n_cases.
Qed.

Lemma expectedKeyId_wf t v k : expectedKeyId t v = Ok k -> isWellFormed k = true.
Proof.
  intros Hk. unfold expectedKeyId in Hk. apply bind_Ok in Hk as (r & _ & Hk).
  apply bind_Ok in Hk as (s & Hs & Hk). injection Hk as <-. apply did_Ok in Hs as [_ Hs].
  apply rx_test_spec in Hs. apply (proj2 (seq_spec _ _ _)) in Hs.
  apply matches_seq_inv in Hs as (a & b & -> & Ha & Hb).
  apply matches_lit_units in Ha as ->. apply matches_rep_class in Hb as [_ Hb].
  apply ascii_wf. rewrite !forallb_app.
  assert (Hf : forallb (fun u => u <? 128)%N b = true).
  { apply forallb_Forall. eapply Forall_impl; [exact Hb|]. intros u Hu.
    change (in_ranges [(97, 122); (50, 55)]%N u = true) in Hu. cbn [in_ranges existsb] in Hu.
    rewrite orb_false_r in Hu. apply N.ltb_lt. apply orb_true_iff in Hu as [Hu|Hu]; bools; lia. }
  rewrite Hf. by destruct t.
Qed.

Lemma expectedKeyId_same t v v' k : same v v' -> expectedKeyId t v = Ok k -> expectedKeyId t v' = Ok k.
Proof.
  intros Hv Hk. enough (Hr : mrel eq (expectedKeyId t v) (expectedKeyId t v')).
  { destruct (Hr k Hk) as (? & ? & <-). done. }
  unfold expectedKeyId. same.
Qed.

Lemma sort_protected t k : sort_item (protected_item t k) = protected_item t k.
Proof. reflexivity. Qed.

Lemma protected_layout t k :
  encode_item (protected_item t k) =
  head 5 3 ++ head 0 1 ++ head 1 18 ++ head 0 3 ++
  encode_item (IText (contentType (SIGNED_PROFILES t))) ++ head 0 4 ++
  head 2 (N.of_nat (length (text_encode k))) ++ text_encode k.
Proof.
  trans (head 5 3 ++ concat (map (fun e : bytes * bytes => e.1 ++ e.2)
    [(head 0 1, head 1 18); (head 0 3, encode_item (IText (contentType (SIGNED_PROFILES t))));
     (head 0 4, head 2 (N.of_nat (length (text_encode k))) ++ text_encode k)])); [reflexivity|].
  cbn [map concat fst snd]. by rewrite app_nil_r, <- !app_assoc.
Qed.

Lemma head_bound major n : (length (head major n) <= 9)%nat.
Proof. pose proof (head_size major n) as Hs. unfold argumentSize in Hs. repeat case_match; lia. Qed.

Lemma protected_length t k : (length (text_encode k) <= 200)%nat ->
  (length (encode_item (protected_item t k)) <= 1024)%nat.
Proof.
  intros Hk. rewrite protected_layout, !length_app.
  pose proof (head_bound 5 3). pose proof (head_bound 0 1). pose proof (head_bound 1 18).
  pose proof (head_bound 0 3). pose proof (head_bound 0 4).
  pose proof (head_bound 2 (N.of_nat (length (text_encode k)))).
  assert ((length (encode_item (IText (contentType (SIGNED_PROFILES t)))) <= 100)%nat)
    by (apply Nat.leb_le; by destruct t). lia.
Qed.

Lemma parse_protected_build t k : isWellFormed k = true -> (length (text_encode k) <= 200)%nat ->
  parse_protected t (encode_item (protected_item t k)) = Ok k.
Proof.
  intros Hw Hk. assert (Hs : short (text_encode k)) by lia.
  unfold parse_protected. rewrite assertCborResourceLimits_accepts.
  - cbn [mbind result_bind].
    rewrite (cborg_decode_item None); [|by apply protected_item_ok|].
    + rewrite sort_protected. change (js_of_item (protected_item t k)) with (protected_js t (text_encode k)).
      cbn [mbind result_bind protected_js]. fold (protected_js t (text_encode k)).
      rewrite protected_encode by done. cbn [mbind result_bind].
      rewrite (proj2 (cose_equalBytes_eq _ _) eq_refl). cbn [negb throw_when mbind result_bind].
      cbn -[text_decode jstr_eqb contentType]. rewrite jstr_eqb_refl.
      cbn [mbind result_bind]. by rewrite text_decode_encode.
    + by destruct t.
  - cbn [protected_item item_fits forallb fst snd coseLimits maximumDepth maximumMapEntries
         maximumTextBytes maximumByteStringLength].
    assert (Hk' : safe_length (length (text_encode k)) 1024 = true).
    { unfold safe_length. apply andb_true_intro. split; apply Z.leb_le; lia. }
    rewrite Hk'. by destruct t.
  - cbn. lia.
  - pose proof (protected_length t k Hk). cbn [coseLimits maximumBytes]. lia.
Qed.

Lemma sign1_layout p b s :
  encode_item (sign1_item p b s) =
  head 6 18 ++ head 4 4 ++ encode_item (IBytes p) ++ head 5 0 ++ encode_item (IBytes b) ++
  encode_item (IBytes s).
Proof. cbn [sign1_item encode_item map concat length]. by rewrite !app_nil_r. Qed.

Lemma sign1_length p b s :
  (length p <= length (encode_item (sign1_item p b s)) /\
   length b <= length (encode_item (sign1_item p b s)))%nat.
Proof. rewrite sign1_layout, !length_app. cbn [encode_item]. rewrite !length_app. lia. Qed.

Lemma too_large_spec t b : too_large t b = (representation_limit t <? Z.of_nat (length b)).
Proof. by destruct t. Qed.

Lemma safe_length_intro n m : Z.of_nat n <= m -> m <= 9007199254740991 -> safe_length n m = true.
Proof. intros Hn Hm. unfold safe_length. apply andb_true_intro. split; apply Z.leb_le; lia. Qed.

(** The payload fits the limits of the representation. *)
Lemma fits_representation t v : hail_fits DEFAULT_HAIL_RESOURCE_LIMITS v ->
  Z.of_nat (length (encode_item (item_of_hail v))) <= representation_limit t ->
  hail_fits (payload_limits (representation_limit t)) v.
Proof.
  intros [Hw Hi Hd Hc Hb] Hl. split; try done.
  by rewrite (item_fits_ext _ DEFAULT_HAIL_RESOURCE_LIMITS).
Qed.

Definition parsed_of t k v s : ParsedCose := {|
  keyId := k; parsed_payload := canonical v; parsed_payloadBytes := encode_item (item_of_hail v);
  protectedBytes := encode_item (protected_item t k);
  parsed_representationBytes := representation_of t k (encode_item (item_of_hail v)) s;
  signature := s |}.

(** Scanning and decoding the representation. *)
Lemma scan_sign1 t p b s :
  length s = 64%nat ->
  Z.of_nat (length (encode_item (sign1_item p b s))) <= representation_limit t ->
  assertCborResourceLimits (encode_item (sign1_item p b s)) (coseLimits (representation_limit t))
    (Some [COSE_SIGN1_TAG]) = Ok tt.
Proof.
  intros Hs Hl. pose proof (sign1_length p b s) as [Hp Hb].
  pose proof (representation_limit_bounds t) as Hlim.
  apply assertCborResourceLimits_accepts.
  - cbn [sign1_item item_fits forallb coseLimits maximumDepth maximumMapEntries maximumArrayLength
         maximumByteStringLength].
    unfold safe_length. rewrite !andb_true_iff, !Z.leb_le. cbn [length].
    repeat split; try reflexivity; try lia.
  - cbn. lia.
  - exact Hl.
Qed.

Lemma decode_sign1 p b s : short p -> short b -> short s ->
  cborg_decode (Some COSE_SIGN1_TAG) (encode_item (sign1_item p b s)) =
  Ok (JTagged COSE_SIGN1_TAG (js_array [JBytes p; JMap []; JBytes b; JBytes s])).
Proof. intros Hp Hb Hs. by rewrite cborg_decode_item; [|by apply sign1_item_ok|]. Qed.

Lemma parse_build t v k s :
  declared (Signed t) v -> hail_fits DEFAULT_HAIL_RESOURCE_LIMITS v ->
  validatePayload (Signed t) (of_hail v) = Ok v -> expectedKeyId t v = Ok k -> length s = 64%nat ->
  Z.of_nat (length (representation_of t k (encode_item (item_of_hail v)) s)) <= representation_limit t ->
  parseCose t (representation_of t k (encode_item (item_of_hail v)) s) = Ok (parsed_of t k v s).
Proof.
  intros Ht Hf Hval Hk Hs Hl. set (b := encode_item (item_of_hail v)) in *.
  set (p := encode_item (protected_item t k)). unfold representation_of in Hl |- *. fold p in Hl |- *.
  pose proof (sign1_length p b s) as [Hp Hb]. pose proof (representation_limit_bounds t) as Hlim.
  assert (Hps : short p) by lia. assert (Hbs : short b) by lia.
  unfold parseCose. rewrite too_large_spec, (proj2 (Z.ltb_ge _ _) Hl). cbn [throw_when mbind result_bind].
  rewrite scan_sign1 by done. cbn [mbind result_bind]. rewrite decode_sign1 by (done || lia).
  cbn [mbind result_bind malformed_when negb]. change (18 =? 18) with true.
  rewrite Z.eqb_refl. cbn [negb malformed_when mbind result_bind].
  rewrite (encodeCose_item _ (sign1_item p b s)) by (done || apply sign1_item_ok; done || lia).
  cbn [mbind result_bind]. rewrite (proj2 (cose_equalBytes_eq _ _) eq_refl).
  cbn [negb throw_when mbind result_bind].
  assert (He : cose_elements (JTagged COSE_SIGN1_TAG (js_array [JBytes p; JMap []; JBytes b; JBytes s]))
    = Ok (p, b, s)) by (cbn; by rewrite Hs).
  rewrite He. cbn [mbind result_bind].
  assert (Hpp : parse_protected t p = Ok k)
    by (apply parse_protected_build; eauto using expectedKeyId_wf, expectedKeyId_short).
  rewrite Hpp.
  cbn [mbind result_bind].
  destruct (decode_encoded_payload (Signed t) v (payload_limits (representation_limit t)))
    as [Hdec Hv']; try done; [apply fits_representation; [done|unfold b in *; lia]|].
  fold b in Hdec. rewrite Hdec. cbn [mbind result_bind]. rewrite Hv'. cbn [mbind result_bind].
  assert (Hk' : expectedKeyId t (canonical v) = Ok k).
  { eapply expectedKeyId_same; [|exact Hk]. apply same_canonical, Hf. }
  rewrite Hk'. cbn [mbind result_bind]. rewrite jstr_eqb_refl. cbn [negb throw_when mbind result_bind].
  destruct (validatePayload_inv _ _ _ Hv') as (n & r & u & Hr & Hrec). rewrite Hr.
  cbn [record mbind result_bind]. destruct (validate_signed_inv _ _ _ Hrec) as [u' Hsig].
  assert (Hkey : match field r "key_id" with
                 | None => false
                 | key_id => negb (strict_eq key_id (Some (HStr k)))
                 end = false).
  { rewrite Hr in Hk'. unfold expectedKeyId in Hk'. cbn [record mbind result_bind] in Hk'.
    apply bind_Ok in Hk' as (s' & Hs' & Hk'). apply Ok_eq in Hk'. apply did_Ok in Hs' as [Hs' _].
    destruct (signed_key_id t r u' s' Hsig Hs') as [-> | ->]; [done|].
    rewrite Hk'. unfold strict_eq. by rewrite jstr_eqb_refl. }
  rewrite Hkey. cbn [throw_when mbind result_bind]. unfold parsed_of. rewrite Hr. done.
Qed.

(** ** Signing *)

Lemma sign_Ok t x signer rep : js_wf x = true -> signPayload t x signer = Ok rep ->
  exists v s, as_hail x = Some v /\ hail_fits DEFAULT_HAIL_RESOURCE_LIMITS v /\
    validatePayload (Signed t) (of_hail v) = Ok v /\
    expectedKeyId t v = Ok (signer_keyId signer) /\ length s = 64%nat /\
    sign signer (signed_bytes t (signer_keyId signer) (encode_item (item_of_hail v))) = Ok (JBytes s) /\
    rep = representation_of t (signer_keyId signer) (encode_item (item_of_hail v)) s /\
    Z.of_nat (length rep) <= representation_limit t.
Proof.
  intros Hx Hs. unfold signPayload in Hs. apply bind_Ok in Hs as (v & Hv & Hs).
  apply validatePayload_narrows in Hv as (Ha & Hf & Hval); [|done].
  apply bind_Ok in Hs as (k & Hk & Hs). apply bind_Ok in Hs as ([] & Hke & Hs).
  apply throw_when_Ok, negb_false_iff, jstr_eqb_eq in Hke as <-.
  apply bind_Ok in Hs as (b & Hb & Hs).
  assert (b = encode_item (item_of_hail v)) as ->.
  { unfold encodePayload in Hb. apply bind_Ok in Hb as (u & _ & Hb).
    apply encode_Ok in Hb as (w & Hw & _ & _ & ->); [by simplify_eq|apply default_limits_ok|done]. }
  set (k := signer_keyId signer) in *. set (b := encode_item (item_of_hail v)) in *.
  assert (Hks : (length (text_encode k) <= 200)%nat) by (by eapply expectedKeyId_short).
  assert (Hkk : short (text_encode k)) by lia.
  assert (Hbs : short b) by (pose proof (fits_size _ _ Hf); cbn in *; unfold b; lia).
  pose proof (protected_length t k Hks) as Hpl.
  set (p := encode_item (protected_item t k)) in *. assert (Hps : short p) by lia.
  apply bind_Ok in Hs as (p' & Hp & Hs).
  change (encodeCoseValue (protected_js t (text_encode k)) = Ok p') in Hp.
  rewrite protected_encode in Hp by done. apply Ok_eq in Hp as <-.
  apply bind_Ok in Hs as (d & Hd & Hs). rewrite signatureStructure_Ok in Hd by done.
  apply Ok_eq in Hd as <-. apply bind_Ok in Hs as (sg & Hsg & Hs).
  apply bind_Ok in Hs as ([] & Hlen & Hs). destruct sg as [| | | | |s| | | | |]; try discriminate Hlen.
  destruct (length s =? 64)%nat eqn:Hl; [|discriminate Hlen]. apply Nat.eqb_eq in Hl.
  apply bind_Ok in Hs as (r & Hr & Hs).
  rewrite (encodeCose_item _ (sign1_item p b s)) in Hr by (done || (apply sign1_item_ok; [done..|lia])).
  apply Ok_eq in Hr as <-. apply bind_Ok in Hs as ([] & Htl & Hs). apply Ok_eq in Hs as <-.
  apply throw_when_Ok in Htl. rewrite too_large_spec in Htl. apply Z.ltb_ge in Htl.
  by exists v, s.
Qed.

Lemma parsed_short t rep p : parsed_ok t rep p -> short (protectedBytes p) /\ short (parsed_payloadBytes p).
Proof.
  intros Hok. pose proof (fits_size _ _ (parsed_fits _ _ _ Hok)) as Hb.
  pose proof (representation_limit_bounds t). pose proof (parsed_protected_size _ _ _ Hok).
  cbn [payload_limits maximumBytes] in Hb. rewrite <- (parsed_bytes _ _ _ Hok) in Hb. lia.
Qed.

Lemma structure_of_parsed t rep p : parsed_ok t rep p ->
  signatureStructure (protectedBytes p) (parsed_payloadBytes p) =
  Ok (encode_item (structure_item (protectedBytes p) (parsed_payloadBytes p))).
Proof. intros [? ?]%parsed_short. by apply signatureStructure_Ok. Qed.

Lemma parsed_structure_ok t rep p : parsed_ok t rep p ->
  item_ok (structure_item (protectedBytes p) (parsed_payloadBytes p)).
Proof. intros [? ?]%parsed_short. by apply structure_item_ok. Qed.

Lemma parsed_key t rep p : parsed_ok t rep p ->
  isWellFormed (keyId p) = true /\ short (text_encode (keyId p)).
Proof.
  intros Hk%parsed_signer. split; [by eapply expectedKeyId_wf|].
  apply expectedKeyId_short in Hk. lia.
Qed.

Lemma verify_build t rep p verifier (valid : M bool) : parsed_ok t rep p ->
  verify verifier (signed_bytes t (keyId p) (parsed_payloadBytes p)) (signature p) (keyId p) = valid ->
  parseCose t rep = Ok p ->
  verifySignedPayload t rep verifier =
    (accepted ← valid;
     if (accepted : bool) then Ok (inspectedResult t p)
     else Err (CodecError (new_HailCodecError invalid_signature (js "signature verification failed") None))).
Proof.
  intros Hok <- Hp. unfold verifySignedPayload. rewrite Hp. cbn [mbind result_bind].
  rewrite (structure_of_parsed _ _ _ Hok), (parsed_protected _ _ _ Hok).
  cbn [mbind result_bind].
  fold (signed_bytes t (keyId p) (parsed_payloadBytes p)).
  by destruct (verify _ _ _ _) as [[]|].
Qed.

(** C8: What [signPayload] makes, [verifySignedPayload] accepts when the verifier accepts the
    signer's signature: the result is the payload in canonical order under the signer's key, with
    the bytes of its encoding and the representation itself. *)
Theorem sign_verify t x signer verifier rep :
  js_wf x = true -> signPayload t x signer = Ok rep ->
  (forall b s, sign signer b = Ok (JBytes s) -> verify verifier b s (signer_keyId signer) = Ok true) ->
  exists v, as_hail x = Some v /\
    (declared (Signed t) v ->
     verifySignedPayload t rep verifier = Ok {|
       inspected_type := t; inspected_keyId := signer_keyId signer;
       payload := structuredClone (canonical v); payloadBytes := encode_item (item_of_hail v);
       representationBytes := rep |}).
Proof.
  intros Hx Hs Hv. apply sign_Ok in Hs as (v & s & Ha & Hf & Hval & Hk & Hl & Hs & -> & Hlim); [|done].
  exists v. split; [done|]. intros Ht. pose proof (parse_build t v _ s Ht Hf Hval Hk Hl Hlim) as Hp.
  by rewrite (verify_build _ _ _ _ _ (parse_Ok _ _ _ Hp) (Hv _ _ Hs) Hp).
Qed.

(** C9: A verified object is what was signed: the verifier accepted a signature over the bytes that
    name the type's content type, the key of the payload's signer and the payload's encoding, the
    payload is valid, and the representation is the only one these and the signature have. *)
Theorem verified_authentic t rep verifier object :
  verifySignedPayload t rep verifier = Ok object ->
  exists v k s,
    verify verifier (signed_bytes t k (encode_item (item_of_hail v))) s k = Ok true /\
    expectedKeyId t v = Ok k /\ length s = 64%nat /\
    validatePayload (Signed t) (of_hail v) = Ok v /\
    rep = representation_of t k (encode_item (item_of_hail v)) s /\
    object = {| inspected_type := t; inspected_keyId := k; payload := structuredClone v;
                payloadBytes := encode_item (item_of_hail v); representationBytes := rep |}.
Proof.
  intros Hv. destruct (parseCose t rep) as [p|] eqn:Hp;
    [|unfold verifySignedPayload in Hv; rewrite Hp in Hv; discriminate Hv].
  pose proof (parse_Ok _ _ _ Hp) as Hok. pose proof Hok as [H1' H2' H3' H4' H5' H6' H7' _ H8' H9' H10'].
  exists (parsed_payload p), (keyId p), (signature p). rewrite <- H7'.
  rewrite (verify_build _ _ _ _ _ Hok eq_refl Hp) in Hv. apply bind_Ok in Hv as ([] & Hvalid & Hv);
    [|discriminate Hv].
  apply Ok_eq in Hv as <-. repeat split; try done. unfold inspectedResult. by rewrite H4'.
Qed.

(** C10: A signature binds: two parsed representations whose signed bytes agree have the same type,
    key identifier and payload; a signature moved to another type, key or payload covers other
    bytes. *)
Theorem signature_binding t u rep rep' p q :
  parseCose t rep = Ok p -> parseCose u rep' = Ok q ->
  signatureStructure (protectedBytes p) (parsed_payloadBytes p) =
    signatureStructure (protectedBytes q) (parsed_payloadBytes q) ->
  t = u /\ keyId p = keyId q /\ parsed_payload p = parsed_payload q /\
  (signature p = signature q -> rep = rep').
Proof.
  intros Hp%parse_Ok Hq%parse_Ok Heq. 
  rewrite (structure_of_parsed _ _ _ Hp), (structure_of_parsed _ _ _ Hq) in Heq.
  apply Ok_eq in Heq. apply encode_item_inj in Heq; [|by eapply parsed_structure_ok..].
  injection Heq as Hpb Hbb. pose proof (parsed_key _ _ _ Hp) as [Hkw Hks].
  pose proof (parsed_key _ _ _ Hq) as [Hkw' Hks'].
  rewrite (parsed_protected _ _ _ Hp), (parsed_protected _ _ _ Hq) in Hpb.
  apply encode_item_inj in Hpb; [|by apply protected_item_ok..]. rewrite !sort_protected in Hpb.
  injection Hpb as Hct Hke. apply contentType_inj in Hct as ->. apply text_encode_inj in Hke; [|done..].
  pose proof (parsed_decoded _ _ _ Hp) as Hdp. rewrite Hbb, (parsed_decoded _ _ _ Hq) in Hdp.
  apply Ok_eq in Hdp. repeat split; [done|congruence|]. intros Hs.
  by rewrite (parsed_rep _ _ _ Hp), (parsed_rep _ _ _ Hq), Hke, Hbb, Hs.
Qed.
End cose_rules.

(** ** Examples *)

(** A signer whose signature is the first 64 bytes of what it signs, and its verifier. *)
Definition example_signer : HailSigner := {|
  signer_keyId := default [] (match expectedKeyId envelope example_envelope with
                              | Ok k => Some k | Err _ => None end);
  sign := fun b => Ok (JBytes (take 64 b)) |}.
Definition example_verifier : HailVerifier := {|
  verify := fun b s _ => Ok (Cbor.equalBytes s (take 64 b)) |}.
Definition example_representation : bytes :=
  representation_of envelope (signer_keyId example_signer) (encode_item (item_of_hail example_envelope))
    (take 64 (signed_bytes envelope (signer_keyId example_signer)
      (encode_item (item_of_hail example_envelope)))).

Lemma sign_verify_witness : exists v,
  as_hail (of_hail example_envelope) = Some v /\
  (declared (Signed envelope) v ->
   verifySignedPayload (H := example_env) (H0 := Reference.cborg) envelope example_representation
     example_verifier = Ok {|
       inspected_type := envelope; inspected_keyId := signer_keyId example_signer;
       payload := structuredClone (canonical v); payloadBytes := encode_item (item_of_hail v);
       representationBytes := example_representation |}).
Proof.
  apply (sign_verify (H := example_env) (H1 := Reference.cborg_spec) envelope (of_hail example_envelope)
    example_signer example_verifier).
  - vm_compute. reflexivity.
  - vm_compute. reflexivity.
  - intros b s [= <-]. cbn. f_equal. apply Cbor.equalBytes_eq. reflexivity.
Defined.

Lemma verified_authentic_witness :
  exists object v k s,
    verify example_verifier (signed_bytes envelope k (encode_item (item_of_hail v))) s k = Ok true /\
    expectedKeyId envelope v = Ok k /\ length s = 64%nat /\
    validatePayload (H := example_env) (Signed envelope) (of_hail v) = Ok v /\
    example_representation = representation_of envelope k (encode_item (item_of_hail v)) s /\
    object = {| inspected_type := envelope; inspected_keyId := k; payload := structuredClone v;
                payloadBytes := encode_item (item_of_hail v);
                representationBytes := example_representation |}.
Proof.
  eexists. apply (verified_authentic (H := example_env) (H1 := Reference.cborg_spec) envelope
    example_representation example_verifier).
  vm_compute. reflexivity.
Defined.

Lemma signature_binding_witness : exists p,
  parseCose (H := example_env) (H0 := Reference.cborg) envelope example_representation = Ok p /\
  (signature p = signature p -> example_representation = example_representation).
Proof.
  assert (Hp : is_Some (match parseCose (H := example_env) (H0 := Reference.cborg) envelope
    example_representation with Ok p => Some p | Err _ => None end)) by (vm_compute; eexists; reflexivity).
  destruct (parseCose (H := example_env) (H0 := Reference.cborg) envelope example_representation)
    as [p|] eqn:Hparse; [|by destruct Hp].
  exists p. split; [done|].
  apply (signature_binding (H := example_env) (H1 := Reference.cborg_spec) envelope envelope
    example_representation example_representation p p Hparse Hparse eq_refl).
Defined.
