(* ===== verification/WebCrypto.v ===== *)
(** * Web Crypto keys (packages/hail-codec-ts/src/webcrypto.ts)

    Signers and verifiers made from [CryptoKey]s.  The Web Crypto operations are parameters of the
    model; a rejected promise is an error.  With an Ed25519 implementation that accepts its own
    signatures, what the signer of a key signs is verified under the public key its identifier
    resolves to. *)

From S2P Require Import Prelude JsString Regex Value Rfc8949 Scan Cbor Profiles Validation Png.
From S2P Require Import Payloads Envelope Bodies ValidatePayload Models Soundness Invariance.
From S2P Require Import ValidationRules Roundtrip Cose CoseRules.
From Stdlib Require Import ZArith.
Open Scope Z_scope.

(** A key: what the code reads of it, and the material only [SubtleCrypto] reads. *)
Record CryptoKey := { algorithm_name : jstr; usages : list jstr; material : bytes }.

Record SubtleCrypto := {
  subtle_sign : CryptoKey -> bytes -> M bytes;
  subtle_verify : CryptoKey -> bytes -> bytes -> M bool;
}.

Definition requireEd25519Key (key : CryptoKey) (usage : jstr) : M unit :=
  if negb (jstr_eqb (algorithm_name key) (js "Ed25519")) || negb (includes (usages key) usage) then
    Err (CodecError (new_HailCodecError wrong_key_role
      (js "CryptoKey must be an Ed25519 key with " ++ usage ++ js " usage") None))
  else Ok tt.

Definition createWebCryptoSigner (keyId : jstr) (privateKey : CryptoKey) (subtle : SubtleCrypto)
    : M HailSigner :=
  _ ← requireEd25519Key privateKey (js "sign");
  Ok {| signer_keyId := keyId;
        sign := fun data => signature ← subtle_sign subtle privateKey data; Ok (JBytes signature) |}.

Definition createWebCryptoVerifier (resolve : jstr -> M CryptoKey) (subtle : SubtleCrypto)
    : HailVerifier := {|
  verify := fun data signature keyId =>
    publicKey ← resolve keyId;
    _ ← requireEd25519Key publicKey (js "verify");
    subtle_verify subtle publicKey signature data |}.

(** A key pair of the implementation: the public key accepts what the private key signs. *)
Definition key_pair (subtle : SubtleCrypto) (private public : CryptoKey) : Prop :=
  forall data signature, subtle_sign subtle private data = Ok signature ->
    subtle_verify subtle public signature data = Ok true.

Lemma requireEd25519Key_Ok key usage u : requireEd25519Key key usage = Ok u ->
  algorithm_name key = js "Ed25519" /\ includes (usages key) usage = true.
Proof.
  unfold requireEd25519Key. intros Hu. case_match eqn:Hc; [done|].
  apply orb_false_iff in Hc as [Ha%negb_false_iff Hb%negb_false_iff].
  by apply jstr_eqb_eq in Ha.
Qed.

Section webcrypto.
Context `{HailEnv} `{CborgSpec}.
Context (subtle : SubtleCrypto) (private public : CryptoKey) (resolve : jstr -> M CryptoKey).
Context (Hpair : key_pair subtle private public).
#[local] Set Default Proof Using "All".

(** With a key pair of the Web Crypto implementation, a resolver that finds the public key under
    the signer's key identifier, and a public key usable for verification, every representation
    that the Web Crypto signer produces is verified by the Web Crypto verifier. *)
Theorem webcrypto_sign_verify t x keyId signer rep :
  createWebCryptoSigner keyId private subtle = Ok signer ->
  resolve keyId = Ok public -> requireEd25519Key public (js "verify") = Ok tt ->
  js_wf x = true -> signPayload t x signer = Ok rep ->
  exists v, as_hail x = Some v /\
    (declared (Signed t) v -> exists object,
       verifySignedPayload t rep (createWebCryptoVerifier resolve subtle) = Ok object /\
       inspected_keyId object = keyId /\ payload object = structuredClone (canonical v)).
Proof.
  intros Hc Hr Hu Hx Hs. apply bind_Ok in Hc as ([] & _ & Hc). apply Ok_eq in Hc as <-.
  apply sign_Ok in Hs as (v & s & Ha & Hf & Hval & Hk & Hl & Hs & -> & Hlim); [|done].
  exists v. split; [done|]. intros Ht. cbn [signer_keyId sign] in *.
  apply bind_Ok in Hs as (s' & Hs & Hs'). apply Ok_eq in Hs'. injection Hs' as ->.
  pose proof (parse_build t v _ s Ht Hf Hval Hk Hl Hlim) as Hp.
  exists (inspectedResult t (parsed_of t keyId v s)). split; [|done].
  rewrite (verify_build _ _ _ _ (Ok true) (parse_Ok _ _ _ Hp)); [done| |done].
  cbn. rewrite Hr. cbn [mbind result_bind]. rewrite Hu. cbn [mbind result_bind]. by apply Hpair.
Qed.
End webcrypto.

(** ** An implementation for the examples *)

Definition example_subtle : SubtleCrypto := {|
  subtle_sign := fun key data => Ok (take 64 (material key ++ data));
  subtle_verify := fun key signature data =>
    Ok (Cbor.equalBytes signature (take 64 (material key ++ data))) |}.
Definition example_key (usage : jstr) : CryptoKey := {|
  algorithm_name := js "Ed25519"; usages := [usage]; material := [x01] |}.
Definition example_web_signer : HailSigner := {|
  signer_keyId := signer_keyId example_signer;
  sign := fun data => signature ← subtle_sign example_subtle (example_key (js "sign")) data;
                      Ok (JBytes signature) |}.
Definition example_web_representation : bytes :=
  representation_of envelope (signer_keyId example_signer) (encode_item (item_of_hail example_envelope))
    (take 64 (x01 :: signed_bytes envelope (signer_keyId example_signer)
      (encode_item (item_of_hail example_envelope)))).

Lemma webcrypto_sign_verify_witness : exists v,
  as_hail (of_hail example_envelope) = Some v /\
  (declared (Signed envelope) v -> exists object,
     verifySignedPayload (H := example_env) (H0 := Reference.cborg) envelope example_web_representation
       (createWebCryptoVerifier (fun _ => Ok (example_key (js "verify"))) example_subtle) = Ok object /\
     inspected_keyId object = signer_keyId example_signer /\
     payload object = structuredClone (canonical v)).
Proof.
  apply (webcrypto_sign_verify (H := example_env) (H1 := Reference.cborg_spec) example_subtle
    (example_key (js "sign")) (example_key (js "verify")) (fun _ => Ok (example_key (js "verify"))))
    with (x := of_hail example_envelope) (signer := example_web_signer).
  - intros data s [= <-]. cbn. f_equal. by apply Cbor.equalBytes_eq.
  - reflexivity.
  - reflexivity.
  - reflexivity.
  - vm_compute. reflexivity.
  - vm_compute. reflexivity.
Defined.
