(* ===== verification/Images.v ===== *)
(** * JPEG and WebP attachments (apps/server/src/bodies/image-attachments.ts)

    The container checks of image attachments.  Both loops walk the file by an offset that grows
    in every iteration, so the length of the file bounds their iterations: it is the fuel.  A read
    past the end is [undefined] in the code, and 0 here; the checks precede the reads. *)

From S2P Require Import Prelude JsString Value Validation Png.
From Stdlib Require Import ZArith.
Open Scope Z_scope.

Definition getUint16 (data : bytes) (i : nat) : Z := data_at data i * 256 + data_at data (i + 1).
Definition getUint16_le (data : bytes) (i : nat) : Z := data_at data i + data_at data (i + 1) * 256.
Definition getUint24_le (data : bytes) (i : nat) : Z :=
  data_at data i + data_at data (i + 1) * 256 + data_at data (i + 2) * 65536.
Definition getUint32_le (data : bytes) (i : nat) : Z :=
  data_at data i + data_at data (i + 1) * 256 + data_at data (i + 2) * 65536 +
  data_at data (i + 3) * 16777216.

Definition one_of (l : list Z) (z : Z) : bool := existsb (Z.eqb z) l.

(** ** JPEG *)

Definition invalid_jpeg {A} : M A := Err (OtherError (js "Invalid or unsupported JPEG structure")).
Definition jpeg_check (bad : bool) : M unit := if bad then invalid_jpeg else Ok tt.

Record jpeg_state := {
  jpeg_offset : nat;
  inScan : bool;
  sawScan : bool;
  sawScanData : bool;
  components : option (list Z);
}.

Definition jpeg_start : jpeg_state := {|
  jpeg_offset := 2; inScan := false; sawScan := false; sawScanData := false; components := None |}.

Definition FRAME_MARKERS : list Z := [0xc0; 0xc1; 0xc2].
Definition SEGMENT_MARKERS : list Z := [0xc0; 0xc1; 0xc2; 0xc4; 0xdb; 0xdd; 0xda; 0xfe].

(** [while (bytes[offset] === 0xff) offset++] on the rest of the file. *)
Fixpoint fill_bytes (rest : bytes) : nat :=
  match rest with
  | xff :: rest => S (fill_bytes rest)
  | _ => 0
  end.

Section jpeg.
Variable data : bytes.

Definition component_set (st : jpeg_state) : list Z := default [] (components st).
Definition has_components (st : jpeg_state) : bool := bool_decide (is_Some (components st)).

(** A start-of-frame segment; the result is the set of component identifiers. *)
Definition frame_segment (st : jpeg_state) (start : nat) (len : Z) : M (list Z) :=
  _ ← jpeg_check (has_components st || (len <? 11) || negb (data_at data start =? 8)
                  || (getUint16 data (start + 1) =? 0) || (getUint16 data (start + 3) =? 0));
  let count := data_at data (start + 5) in
  _ ← jpeg_check ((count <? 1) || (4 <? count) || negb (len =? 8 + 3 * count));
  ifoldM 0 (replicate (Z.to_nat count) tt) [] (fun i _ ids =>
    let id := data_at data (start + 6 + 3 * i) in
    let sampling := data_at data (start + 7 + 3 * i) in
    _ ← jpeg_check (one_of ids id
          || (Z.shiftr sampling 4 <? 1) || (4 <? Z.shiftr sampling 4)
          || (Z.land sampling 15 <? 1) || (4 <? Z.land sampling 15)
          || (3 <? data_at data (start + 8 + 3 * i)));
    Ok (ids ++ [id])).

(** A start-of-scan segment; the result is the set of selected components. *)
Definition scan_segment (st : jpeg_state) (start stop : nat) (len : Z) : M (list Z) :=
  _ ← jpeg_check (negb (has_components st) || (len <? 8));
  let count := data_at data start in
  _ ← jpeg_check ((count <? 1) || (Z.of_nat (length (component_set st)) <? count)
                  || negb (len =? 6 + 2 * count));
  selected ← ifoldM 0 (replicate (Z.to_nat count) tt) [] (fun i _ selected =>
    let id := data_at data (start + 1 + 2 * i) in
    let tables := data_at data (start + 2 + 2 * i) in
    _ ← jpeg_check (negb (one_of (component_set st) id) || one_of selected id
          || (3 <? Z.shiftr tables 4) || (3 <? Z.land tables 15));
    Ok (selected ++ [id]));
  _ ← jpeg_check ((63 <? data_at data (stop - 3)) || (63 <? data_at data (stop - 2)));
  Ok selected.

(** What an iteration leads to: the next one, or the [return]. *)
Inductive jpeg_outcome := JpegContinue (st : jpeg_state) | JpegDone.

(** The part of an iteration behind the marker, which ends before [offset]. *)
Definition jpeg_marker (st : jpeg_state) (marker : Z) (offset : nat) : M jpeg_outcome :=
  if inScan st && ((marker =? 0) || (0xd0 <=? marker) && (marker <=? 0xd7)) then
    Ok (JpegContinue {| jpeg_offset := offset; inScan := inScan st; sawScan := sawScan st;
      sawScanData := if marker =? 0 then true else sawScanData st; components := components st |})
  else if marker =? 0xd9 then
    _ ← jpeg_check (negb (has_components st) || negb (sawScan st) || negb (sawScanData st)
                    || negb (offset =? length data)%nat);
    Ok JpegDone
  else
    _ ← jpeg_check (negb (one_of SEGMENT_MARKERS marker) && negb ((0xe0 <=? marker) && (marker <=? 0xef)));
    _ ← jpeg_check (length data <? offset + 2)%nat;
    let len := getUint16 data offset in
    let start := (offset + 2)%nat in
    let stop := (offset + Z.to_nat len)%nat in
    _ ← jpeg_check ((len <? 2) || (length data <? stop)%nat);
    if one_of FRAME_MARKERS marker then
      ids ← frame_segment st start len;
      Ok (JpegContinue {| jpeg_offset := stop; inScan := false; sawScan := sawScan st;
                          sawScanData := sawScanData st; components := Some ids |})
    else if marker =? 0xda then
      _ ← scan_segment st start stop len;
      Ok (JpegContinue {| jpeg_offset := stop; inScan := true; sawScan := true;
                          sawScanData := sawScanData st; components := components st |})
    else
      _ ← jpeg_check ((marker =? 0xdd) && negb (len =? 4));
      Ok (JpegContinue {| jpeg_offset := stop; inScan := false; sawScan := sawScan st;
                          sawScanData := sawScanData st; components := components st |}).

Definition jpeg_iteration (st : jpeg_state) : M jpeg_outcome :=
  let offset := jpeg_offset st in
  if inScan st && negb (data_at data offset =? 0xff) then
    Ok (JpegContinue {| jpeg_offset := S offset; inScan := true; sawScan := sawScan st;
                        sawScanData := true; components := components st |})
  else
    _ ← jpeg_check (negb (data_at data offset =? 0xff));
    let offset := (S offset + fill_bytes (drop (S offset) data))%nat in
    _ ← jpeg_check (length data <=? offset)%nat;
    jpeg_marker st (data_at data offset) (S offset).

Fixpoint jpeg_loop (fuel : nat) (st : jpeg_state) : M unit :=
  if (jpeg_offset st <? length data)%nat then
    match fuel with
    | O => Err OutOfFuel
    | S fuel =>
        outcome ← jpeg_iteration st;
        match outcome with
        | JpegContinue st => jpeg_loop fuel st
        | JpegDone => Ok tt
        end
    end
  else invalid_jpeg.

Definition validateJpegStructure : M unit :=
  _ ← jpeg_check ((length data <? 4)%nat || negb (data_at data 0 =? 0xff) || negb (data_at data 1 =? 0xd8));
  jpeg_loop (length data) jpeg_start.
End jpeg.

(** ** WebP *)

Definition invalid_webp {A} : M A := Err (OtherError (js "Invalid or unsupported WebP structure")).
Definition webp_check (bad : bool) : M unit := if bad then invalid_webp else Ok tt.

Record webp_state := {
  webp_offset : nat;
  width : Z;
  height : Z;
  canvasWidth : Z;
  canvasHeight : Z;
  flags : Z;
  extended : bool;
  image : bool;
  alpha : bool;
  icc : bool;
  exif : bool;
  xmp : bool;
  losslessAlpha : bool;
}.

Definition webp_start : webp_state := {|
  webp_offset := 12; width := 0; height := 0; canvasWidth := 0; canvasHeight := 0; flags := 0;
  extended := false; image := false; alpha := false; icc := false; exif := false; xmp := false;
  losslessAlpha := false |}.

Section webp.
Variable data : bytes.

Definition fourcc (offset : nat) : jstr := map (fun b => Byte.to_N b) (take 4 (drop offset data)).

Definition set_bits (z mask : Z) : bool := negb (Z.land z mask =? 0).

(** *** The chunks *)

Definition vp8x_chunk (st : webp_state) (start : nat) (size : Z) : M webp_state :=
  _ ← webp_check (negb (webp_offset st =? 12)%nat || negb (size =? 10));
  let flags := data_at data start in
  _ ← webp_check (set_bits flags 0xc3 || negb (getUint24_le data (start + 1) =? 0));
  let canvasWidth := getUint24_le data (start + 4) + 1 in
  let canvasHeight := getUint24_le data (start + 7) + 1 in
  _ ← webp_check (0xffffffff <? canvasWidth * canvasHeight);
  Ok {| webp_offset := webp_offset st; width := width st; height := height st;
        canvasWidth := canvasWidth; canvasHeight := canvasHeight; flags := flags; extended := true;
        image := image st; alpha := alpha st; icc := icc st; exif := exif st; xmp := xmp st;
        losslessAlpha := losslessAlpha st |}.

(** The dimensions of a lossy image. *)
Definition vp8_frame (start : nat) (size : Z) : M (Z * Z) :=
  let b := data_at data start in
  _ ← webp_check ((size <=? 10) || set_bits b 1 || (3 <? Z.land (Z.shiftr b 1) 7)
        || negb (set_bits b 16) || negb (data_at data (start + 3) =? 0x9d)
        || negb (data_at data (start + 4) =? 1) || negb (data_at data (start + 5) =? 0x2a));
  Ok (Z.land (getUint16_le data (start + 6)) 0x3fff, Z.land (getUint16_le data (start + 8)) 0x3fff).

(** The dimensions of a lossless image, and whether it has transparency. *)
Definition vp8l_frame (st : webp_state) (start : nat) (size : Z) : M (Z * Z * bool) :=
  _ ← webp_check (alpha st || (size <=? 5) || negb (data_at data start =? 0x2f));
  let bits := getUint32_le data (start + 1) in
  _ ← webp_check (negb (Z.shiftr bits 29 =? 0));
  Ok (Z.land bits 0x3fff + 1, Z.land (Z.shiftr bits 14) 0x3fff + 1, set_bits bits 0x10000000).

Definition image_chunk (st : webp_state) (type : jstr) (start : nat) (size : Z) : M webp_state :=
  _ ← webp_check (image st || negb (extended st) && negb (webp_offset st =? 12)%nat);
  '(width, height, losslessAlpha) ←
    (if jstr_eqb type (js "VP8 ") then
       '(width, height) ← vp8_frame start size; Ok (width, height, losslessAlpha st)
     else vp8l_frame st start size);
  _ ← webp_check ((width =? 0) || (height =? 0)
        || extended st && (negb (width =? canvasWidth st) || negb (height =? canvasHeight st)));
  Ok {| webp_offset := webp_offset st; width := width; height := height;
        canvasWidth := canvasWidth st; canvasHeight := canvasHeight st; flags := flags st;
        extended := extended st; image := true; alpha := alpha st; icc := icc st;
        exif := exif st; xmp := xmp st; losslessAlpha := losslessAlpha |}.

Definition alpha_chunk (st : webp_state) (start : nat) (size : Z) : M webp_state :=
  let b := data_at data start in
  _ ← webp_check (negb (extended st) || image st || alpha st || (size <? 2) || set_bits b 0xc0
        || (1 <? Z.land b 3) || (1 <? Z.land (Z.shiftr b 4) 3));
  _ ← webp_check ((Z.land b 3 =? 0) && negb (size =? 1 + canvasWidth st * canvasHeight st));
  Ok {| webp_offset := webp_offset st; width := width st; height := height st;
        canvasWidth := canvasWidth st; canvasHeight := canvasHeight st; flags := flags st;
        extended := extended st; image := image st; alpha := true; icc := icc st;
        exif := exif st; xmp := xmp st; losslessAlpha := losslessAlpha st |}.

Definition with_metadata (st : webp_state) (icc exif xmp : bool) : webp_state :=
  {| webp_offset := webp_offset st; width := width st; height := height st;
     canvasWidth := canvasWidth st; canvasHeight := canvasHeight st; flags := flags st;
     extended := extended st; image := image st; alpha := alpha st; icc := icc;
     exif := exif; xmp := xmp; losslessAlpha := losslessAlpha st |}.

(** An [ICCP], [EXIF] or [XMP] chunk; chunks of other types are skipped. *)
Definition metadata_chunk (st : webp_state) (type : jstr) (size : Z) : M webp_state :=
  if jstr_eqb type (js "ICCP") then
    _ ← webp_check (negb (extended st) || image st || alpha st || icc st || (size =? 0));
    Ok (with_metadata st true (exif st) (xmp st))
  else if jstr_eqb type (js "EXIF") || jstr_eqb type (js "XMP ") then
    _ ← webp_check (negb (extended st) || negb (image st) || (size =? 0)
          || jstr_eqb type (js "EXIF") && exif st || jstr_eqb type (js "XMP ") && xmp st);
    if jstr_eqb type (js "EXIF") then Ok (with_metadata st (icc st) true (xmp st))
    else Ok (with_metadata st (icc st) (exif st) true)
  else Ok st.

Definition webp_chunk (st : webp_state) (type : jstr) (start : nat) (size : Z) : M webp_state :=
  if jstr_eqb type (js "VP8X") then vp8x_chunk st start size
  else if jstr_eqb type (js "ANIM") || jstr_eqb type (js "ANMF") then invalid_webp
  else if jstr_eqb type (js "VP8 ") || jstr_eqb type (js "VP8L") then image_chunk st type start size
  else if jstr_eqb type (js "ALPH") then alpha_chunk st start size
  else metadata_chunk st type size.

Definition webp_at (st : webp_state) (offset : nat) : webp_state :=
  {| webp_offset := offset; width := width st; height := height st;
     canvasWidth := canvasWidth st; canvasHeight := canvasHeight st; flags := flags st;
     extended := extended st; image := image st; alpha := alpha st; icc := icc st;
     exif := exif st; xmp := xmp st; losslessAlpha := losslessAlpha st |}.

(** *** The walk *)

Definition webp_iteration (st : webp_state) : M webp_state :=
  let offset := webp_offset st in
  _ ← webp_check (length data <? offset + 8)%nat;
  let size := getUint32_le data (offset + 4) in
  let start := (offset + 8)%nat in
  let stop := Z.of_nat start + size in
  let padded := stop + Z.land size 1 in
  _ ← webp_check ((Z.of_nat (length data) <? padded)
        || negb (size mod 2 =? 0) && negb (data_at data (Z.to_nat stop) =? 0));
  st ← webp_chunk st (fourcc offset) start size;
  Ok (webp_at st (Z.to_nat padded)).

Fixpoint webp_loop (fuel : nat) (st : webp_state) : M webp_state :=
  if (webp_offset st <? length data)%nat then
    match fuel with
    | O => Err OutOfFuel
    | S fuel => st ← webp_iteration st; webp_loop fuel st
    end
  else Ok st.

(** The flags of an extended file announce its chunks. *)
Definition flags_disagree (st : webp_state) : bool :=
  negb (Bool.eqb (set_bits (flags st) 0x20) (icc st))
  || negb (Bool.eqb (set_bits (flags st) 0x08) (exif st))
  || negb (Bool.eqb (set_bits (flags st) 0x04) (xmp st))
  || negb (Bool.eqb (set_bits (flags st) 0x10) (alpha st || losslessAlpha st)).

Definition validateWebpStructure : M unit :=
  _ ← webp_check ((length data <? 20)%nat || negb (jstr_eqb (fourcc 0) (js "RIFF"))
        || negb (jstr_eqb (fourcc 8) (js "WEBP"))
        || negb (getUint32_le data 4 + 8 =? Z.of_nat (length data)));
  st ← webp_loop (length data) webp_start;
  webp_check (negb (image st) || extended st && flags_disagree st).
End webp.

(** ** Examples *)

(** A baseline image of one component: frame header, scan header, one byte of data. *)
Definition example_jpeg : bytes :=
  map byte_of_N [255; 216; 255; 192; 0; 11; 8; 0; 1; 0; 1; 1; 1; 17; 0;
                 255; 218; 0; 8; 1; 1; 0; 0; 63; 0; 42; 255; 217]%N.
Example example_jpeg_ok : validateJpegStructure example_jpeg = Ok tt.
Proof. vm_compute. reflexivity. Qed.
Example jpeg_trailer : validateJpegStructure (example_jpeg ++ [x00]) = invalid_jpeg.
Proof. vm_compute. reflexivity. Qed.

(** A lossless image of one pixel. *)
Definition example_webp : bytes :=
  map byte_of_N (js "RIFF" ++ [18; 0; 0; 0]%N ++ js "WEBPVP8L" ++
                 [6; 0; 0; 0; 47; 0; 0; 0; 0; 0]%N).
Example example_webp_ok : validateWebpStructure example_webp = Ok tt.
Proof. vm_compute. reflexivity. Qed.
Example webp_animated : validateWebpStructure
  (map byte_of_N (js "RIFF" ++ [12; 0; 0; 0]%N ++ js "WEBPANIM" ++ [0; 0; 0; 0]%N)) = invalid_webp.
Proof. vm_compute. reflexivity. Qed.
