(* ===== verification/ImageRules.v ===== *)
(** * What accepted images guarantee (the validators of Images.v) *)

From S2P Require Import Prelude JsString Value Validation Png Images.
From Stdlib Require Import ZArith.
Open Scope Z_scope.

Lemma jpeg_check_Ok b u : jpeg_check b = Ok u -> b = false.
Proof. by destruct b. Qed.
Lemma webp_check_Ok b u : webp_check b = Ok u -> b = false.
Proof. by destruct b. Qed.

Lemma data_at_bound data i : 0 <= data_at data i < 256.
Proof. unfold data_at. case_match; [|lia]. pose proof (byte_lt_256 b). lia. Qed.
Lemma getUint16_bound data i : 0 <= getUint16 data i < 65536.
Proof. unfold getUint16. pose proof (data_at_bound data i). pose proof (data_at_bound data (i + 1)). lia. Qed.
Lemma getUint32_le_bound data i : 0 <= getUint32_le data i < 2 ^ 32.
Proof.
  unfold getUint32_le. pose proof (data_at_bound data i). pose proof (data_at_bound data (i + 1)).
  pose proof (data_at_bound data (i + 2)). pose proof (data_at_bound data (i + 3)). lia.
Qed.

Lemma one_of_elem l z : one_of l z = true <-> z ∈ l.
Proof.
  unfold one_of. rewrite existsb_exists. setoid_rewrite <- list_elem_of_In. split.
  - intros (x & Hx & ->%Z.eqb_eq). done.
  - intros Hz. exists z. by rewrite Z.eqb_refl.
Qed.

(** ** The errors *)

(** The checks throw one error. *)
Definition throws_only {A} (message : jstr) (m : M A) : Prop :=
  forall e, m = Err e -> e = OtherError message.

Lemma throws_bind {A B} s (m : M A) (f : A -> M B) :
  throws_only s m -> (forall a, throws_only s (f a)) -> throws_only s (m ≫= f).
Proof. intros Hm Hf e [He|(a & _ & He)]%bind_Err; [by apply Hm|by eapply Hf]. Qed.
Lemma throws_Ok {A} s (a : A) : throws_only s (Ok a).
Proof. by intros e. Qed.
Lemma throws_Err {A} s : throws_only s (Err (OtherError s) : M A).
Proof. by intros e [= <-]. Qed.
Lemma throws_check {A} s (b : bool) (m : M A) :
  throws_only s m -> throws_only s (if b then Err (OtherError s) else m).
Proof. destruct b; [intros _; apply throws_Err|done]. Qed.
Lemma throws_foldM {A S} s (l : list A) (f : nat -> A -> S -> M S) :
  (forall i a x, throws_only s (f i a x)) -> forall i x, throws_only s (ifoldM i l x f).
Proof.
  intros Hf. induction l as [|a l IH]; intros i x; simpl; [apply throws_Ok|].
  apply throws_bind; [apply Hf|intros x'; apply IH].
Qed.

Create HintDb images discriminated.
#[local] Hint Constants Opaque : images.
#[local] Hint Resolve throws_Ok throws_Err : images.

Ltac throws := repeat first
  [ apply throws_bind; [|intros ?] | apply throws_foldM; intros ? ? ? | apply throws_check
  | apply throws_Ok | apply throws_Err | case_match | progress cbv zeta ].

Lemma jpeg_iteration_throws data st :
  throws_only (js "Invalid or unsupported JPEG structure") (jpeg_iteration data st).
Proof.
  unfold jpeg_iteration, jpeg_marker, frame_segment, scan_segment, jpeg_check, invalid_jpeg. throws.
Qed.

Lemma webp_iteration_throws data st :
  throws_only (js "Invalid or unsupported WebP structure") (webp_iteration data st).
Proof.
  unfold webp_iteration, webp_chunk, vp8x_chunk, image_chunk, vp8_frame, vp8l_frame, alpha_chunk,
    metadata_chunk, webp_check, invalid_webp. throws.
Qed.

(** ** Progress *)

Lemma jpeg_marker_advances data st marker offset st' :
  jpeg_marker data st marker offset = Ok (JpegContinue st') -> (offset <= jpeg_offset st')%nat.
Proof.
  intros Hm. unfold jpeg_marker in Hm. case_match; [by injection Hm as <-|].
  case_match; [by apply bind_Ok in Hm as ([] & _ & Hm)|].
  do 3 apply bind_Ok in Hm as ([] & _ & Hm). case_match; [|case_match];
    apply bind_Ok in Hm as (? & _ & Hm); injection Hm as <-; cbn [jpeg_offset]; lia.
Qed.

Lemma jpeg_iteration_advances data st st' :
  jpeg_iteration data st = Ok (JpegContinue st') -> (jpeg_offset st < jpeg_offset st')%nat.
Proof.
  intros Hi. unfold jpeg_iteration in Hi. case_match; [injection Hi as <-; cbn [jpeg_offset]; lia|].
  do 2 apply bind_Ok in Hi as ([] & _ & Hi). apply jpeg_marker_advances in Hi. lia.
Qed.

Lemma jpeg_loop_total data fuel : forall st, (length data - jpeg_offset st <= fuel)%nat ->
  throws_only (js "Invalid or unsupported JPEG structure") (jpeg_loop data fuel st).
Proof.
  induction fuel as [|fuel IH]; intros st Hf; cbn [jpeg_loop];
    destruct (Nat.ltb_spec (jpeg_offset st) (length data)); try apply throws_Err; [lia|].
  intros e He. apply bind_Err in He as [He|(o & Ho & He)]; [by eapply jpeg_iteration_throws|].
  destruct o as [st'|]; [|discriminate He]. apply jpeg_iteration_advances in Ho.
  eapply IH; [|exact He]. lia.
Qed.

Lemma webp_iteration_padded data st st' : webp_iteration data st = Ok st' ->
  (webp_offset st + 8 <= webp_offset st' <= length data)%nat.
Proof.
  intros Hi. unfold webp_iteration in Hi. apply bind_Ok in Hi as ([] & Hl & Hi).
  apply bind_Ok in Hi as ([] & Hp & Hi). apply bind_Ok in Hi as (st1 & _ & Hi). injection Hi as <-.
  apply webp_check_Ok in Hl. apply webp_check_Ok, orb_false_iff in Hp as [Hp _]. bools.
  cbn [webp_at webp_offset]. pose proof (getUint32_le_bound data (webp_offset st + 4)).
  assert (0 <= Z.land (getUint32_le data (webp_offset st + 4)) 1) by (apply Z.land_nonneg; lia).
  lia.
Qed.

Lemma webp_loop_total data fuel : forall st, (length data - webp_offset st <= fuel)%nat ->
  throws_only (js "Invalid or unsupported WebP structure") (webp_loop data fuel st).
Proof.
  induction fuel as [|fuel IH]; intros st Hf; cbn [webp_loop];
    destruct (Nat.ltb_spec (webp_offset st) (length data)); try apply throws_Ok; [lia|].
  intros e He. apply bind_Err in He as [He|(st' & Ho & He)]; [by eapply webp_iteration_throws|].
  apply webp_iteration_padded in Ho. eapply IH; [|exact He]. lia.
Qed.

(** The image validators terminate on every input: they accept, or throw their one error. *)
Theorem images_total data :
  (validateJpegStructure data = Ok tt \/ validateJpegStructure data = invalid_jpeg) /\
  (validateWebpStructure data = Ok tt \/ validateWebpStructure data = invalid_webp).
Proof.
  assert (Hr : forall s (m : M unit), throws_only s m -> m = Ok tt \/ m = Err (OtherError s)).
  { intros s [[]|e] Hm; [by left|right]. by rewrite (Hm e). }
  split; apply Hr; unfold validateJpegStructure, validateWebpStructure;
    (apply throws_bind; [unfold jpeg_check, webp_check; apply throws_check, throws_Ok|intros _]).
  - apply jpeg_loop_total. lia.
  - apply throws_bind; [apply webp_loop_total; lia|intros st].
    unfold webp_check. apply throws_check, throws_Ok.
Qed.

(** ** Accepted JPEG files *)

Section jpeg.
Variable data : bytes.

(** A frame header whose fields start at [start]: the sizes are positive and the components have
    distinct identifiers and permitted sampling factors. *)
Record frame_ok (start : nat) (ids : list Z) : Prop := {
  frame_at : (4 <= start)%nat /\ (start + 6 + 3 * length ids <= length data)%nat;
  frame_marker : data_at data (start - 4) = 0xff /\ data_at data (start - 3) ∈ FRAME_MARKERS;
  frame_precision : data_at data start = 8;
  frame_height : 0 < getUint16 data (start + 1);
  frame_width : 0 < getUint16 data (start + 3);
  frame_count : data_at data (start + 5) = Z.of_nat (length ids) /\ (1 <= length ids <= 4)%nat;
  frame_distinct : NoDup ids;
  frame_ids i id : ids !! i = Some id -> id = data_at data (start + 6 + 3 * i);
}.

(** A scan header over components of the frame. *)
Record scan_ok (ids : list Z) (start : nat) (selected : list Z) : Prop := {
  scan_at : (4 <= start)%nat /\ (start + 4 + 2 * length selected <= length data)%nat;
  scan_marker : data_at data (start - 4) = 0xff /\ data_at data (start - 3) = 0xda;
  scan_count : data_at data start = Z.of_nat (length selected) /\ (1 <= length selected)%nat;
  scan_selected : NoDup selected /\ selected ⊆ ids;
}.

Record jpeg_invariant (st : jpeg_state) : Prop := {
  jpeg_frame ids : components st = Some ids -> exists start, frame_ok start ids;
  jpeg_scan : sawScan st = true -> exists ids start selected,
    components st = Some ids /\ scan_ok ids start selected;
}.

Lemma frame_segment_Ok st start len ids :
  (4 <= start)%nat -> (start + Z.to_nat len <= length data + 2)%nat ->
  data_at data (start - 4) = 0xff -> data_at data (start - 3) ∈ FRAME_MARKERS ->
  frame_segment data st start len = Ok ids -> frame_ok start ids.
Proof.
  intros Hs Hend Hff Hm Hf. unfold frame_segment in Hf. apply bind_Ok in Hf as ([] & H1 & Hf).
  apply bind_Ok in Hf as ([] & H2 & Hf). apply jpeg_check_Ok in H1, H2. bools.
  set (count := data_at data (start + 5)) in *.
  eapply (ifoldM_indexed _ (fun i ids => length ids = i /\ NoDup ids /\
    forall j id, ids !! j = Some id -> id = data_at data (start + 6 + 3 * j))) in Hf.
  - destruct Hf as (Hl & Hn & Hi). rewrite length_replicate in Hl. cbn [Nat.add] in Hl.
    pose proof (getUint16_bound data (start + 1)). pose proof (getUint16_bound data (start + 3)).
    split; try done; lia.
  - intros i [] s s' (Hl & Hn & Hi) Hstep. apply bind_Ok in Hstep as ([] & Hc & Hstep).
    apply Ok_eq in Hstep as <-. apply jpeg_check_Ok in Hc. bools.
    match goal with Hno : one_of s _ = false |- _ => rename Hno into Hone end.
    split; [rewrite length_app; simpl; lia|]. split.
    + apply NoDup_app. split; [done|]. split; [|apply NoDup_singleton].
      intros x Hx ->%list_elem_of_singleton. apply one_of_elem in Hx. congruence.
    + intros j id Hj. apply lookup_app_Some in Hj as [Hj|[Hge Hj]]; [by apply Hi|].
      apply list_lookup_singleton_Some in Hj as [Hj <-]. f_equal. lia.
  - split; [done|]. split; [constructor|]. intros j id Hj. by rewrite lookup_nil in Hj.
Qed.

Lemma scan_segment_Ok st start stop len selected ids :
  (4 <= start)%nat -> stop = (start - 2 + Z.to_nat len)%nat -> (stop <= length data)%nat ->
  data_at data (start - 4) = 0xff -> data_at data (start - 3) = 0xda -> components st = Some ids ->
  scan_segment data st start stop len = Ok selected -> scan_ok ids start selected.
Proof.
  intros Hs -> Hend Hff Hm Hids Hf. unfold scan_segment, component_set in Hf. rewrite Hids in Hf.
  change (default [] (Some ids)) with ids in Hf. apply bind_Ok in Hf as ([] & H1 & Hf). apply bind_Ok in Hf as ([] & H2 & Hf).
  apply bind_Ok in Hf as (sel & Hf & Hlast). apply bind_Ok in Hlast as ([] & _ & Hlast).
  injection Hlast as <-. apply jpeg_check_Ok in H1, H2. bools.
  eapply (ifoldM_indexed _ (fun i sel => length sel = i /\ NoDup sel /\ sel ⊆ ids)) in Hf.
  - destruct Hf as (Hl & Hn & Hi). rewrite length_replicate in Hl. cbn [Nat.add] in Hl.
    split; try done; lia.
  - intros i [] s s' (Hl & Hn & Hi) Hstep. apply bind_Ok in Hstep as ([] & Hc & Hstep).
    apply Ok_eq in Hstep as <-. apply jpeg_check_Ok in Hc. bools.
    match goal with Hno : one_of s _ = false |- _ => rename Hno into Hone end.
    match goal with Hno : one_of ids _ = true |- _ => apply one_of_elem in Hno; rename Hno into Hin end.
    split; [rewrite length_app; simpl; lia|]. split.
    + apply NoDup_app. split; [done|]. split; [|apply NoDup_singleton].
      intros x Hx ->%list_elem_of_singleton. apply one_of_elem in Hx. congruence.
    + set_solver.
  - split; [done|]. split; [constructor|set_solver].
Qed.
End jpeg.

Lemma fill_bytes_spec rest i : (i < fill_bytes rest)%nat -> rest !! i = Some xff.
Proof.
  revert i. induction rest as [|b rest IH]; intros i Hi; [simpl in Hi; lia|].
  destruct b; simpl in Hi; try lia. destruct i as [|i]; [done|]. apply IH. lia.
Qed.

Lemma fill_ff data offset : data_at data offset = 0xff ->
  data_at data (offset + fill_bytes (drop (S offset) data)) = 0xff.
Proof.
  intros Hff. destruct (fill_bytes (drop (S offset) data)) as [|n] eqn:Hn; [by rewrite Nat.add_0_r|].
  assert (Hl : drop (S offset) data !! n = Some xff) by (apply fill_bytes_spec; lia).
  rewrite lookup_drop in Hl. unfold data_at.
  replace (offset + S n)%nat with (S offset + n)%nat by lia. by rewrite Hl.
Qed.

Lemma jpeg_marker_step data st marker offset :
  jpeg_invariant data st -> (2 <= offset)%nat ->
  data_at data (offset - 2) = 0xff -> marker = data_at data (offset - 1) ->
  match jpeg_marker data st marker offset with
  | Ok (JpegContinue st') => jpeg_invariant data st'
  | Ok JpegDone => sawScan st = true /\ offset = length data /\ marker = 0xd9
  | Err _ => True
  end.
Proof.
  intros [Hfr Hsc] Ho Hff Hmk. destruct (jpeg_marker data st marker offset) as [o|] eqn:Hm; [|done].
  unfold jpeg_marker in Hm. case_match; [by injection Hm as <-; split|]. case_match.
  { apply bind_Ok in Hm as ([] & Hc & Hm). apply jpeg_check_Ok in Hc. injection Hm as <-. bools. done. }
  apply bind_Ok in Hm as ([] & _ & Hm). apply bind_Ok in Hm as ([] & Hl & Hm).
  apply bind_Ok in Hm as ([] & Hs & Hm). apply jpeg_check_Ok in Hl, Hs. bools.
  assert (Hm1 : data_at data (offset + 2 - 4) = 0xff) by (replace (offset + 2 - 4)%nat with (offset - 2)%nat by lia; done).
  assert (Hm2 : data_at data (offset + 2 - 3) = marker)
    by (subst marker; f_equal; lia).
  case_match eqn:Hframe; [|case_match eqn:Hscan].
  - apply bind_Ok in Hm as (ids & Hf & Hm). injection Hm as <-.
    assert (has_components st = false) as Hnone.
    { unfold frame_segment in Hf. apply bind_Ok in Hf as ([] & Hc & _). apply jpeg_check_Ok in Hc.
      by bools. }
    unfold has_components in Hnone. apply bool_decide_eq_false in Hnone.
    split; cbn.
    + intros ids' [= <-]. eexists. eapply frame_segment_Ok; [| | |rewrite Hm2; by apply one_of_elem|exact Hf]; [lia|lia|done].
    + intros Hsaw. destruct (Hsc Hsaw) as (? & ? & ? & Hids & _). rewrite Hids in Hnone. by destruct Hnone.
  - apply Z.eqb_eq in Hscan. apply bind_Ok in Hm as (sel & Hf & Hm). injection Hm as <-. split; cbn; [done|].
    intros _. destruct (components st) as [ids|] eqn:Hids.
    + exists ids. do 2 eexists. split; [done|].
      eapply scan_segment_Ok; [| | | | |exact Hids|exact Hf]; [lia|lia|lia|done|congruence].
    + unfold scan_segment, has_components in Hf. rewrite Hids in Hf. by apply bind_Ok in Hf as (? & [=] & _).
  - apply bind_Ok in Hm as ([] & _ & Hm). injection Hm as <-. by split.
Qed.

Lemma jpeg_loop_Ok data fuel : forall st, jpeg_invariant data st -> (2 <= jpeg_offset st)%nat ->
  jpeg_loop data fuel st = Ok tt ->
  data_at data (length data - 2) = 0xff /\ data_at data (length data - 1) = 0xd9 /\
  exists frame ids scan selected, frame_ok data frame ids /\ scan_ok data ids scan selected.
Proof.
  induction fuel as [|fuel IH]; intros st Hst Ho Hl; cbn [jpeg_loop] in Hl; case_match; try done.
  apply bind_Ok in Hl as (o & Hi & Hl). unfold jpeg_iteration in Hi.
  destruct (inScan st && _) eqn:Hdata in Hi.
  { apply Ok_eq in Hi as <-. apply IH in Hl; [done| |cbn; lia]. destruct Hst as [Hf Hs]. by split. }
  apply bind_Ok in Hi as ([] & Hff & Hi). apply bind_Ok in Hi as ([] & Hlen & Hi).
  apply jpeg_check_Ok in Hff, Hlen. bools. pose proof (fill_ff _ _ Hff) as Hfill.
  set (offset := (S (jpeg_offset st) + fill_bytes (drop (S (jpeg_offset st)) data))%nat) in *.
  pose proof (jpeg_marker_step data st (data_at data offset) (S offset) Hst ltac:(lia)) as Hstep.
  replace (S offset - 1)%nat with offset in Hstep by lia.
  replace (S offset - 2)%nat with (jpeg_offset st + fill_bytes (drop (S (jpeg_offset st)) data))%nat
    in Hstep by (unfold offset; lia).
  specialize (Hstep Hfill eq_refl). rewrite Hi in Hstep. destruct o as [st'|].
  - apply IH in Hl; [done|exact Hstep|]. apply jpeg_marker_advances in Hi. lia.
  - destruct Hstep as (Hsaw & Hend & Hmark). destruct Hst as [Hf Hs].
    destruct (Hs Hsaw) as (ids & scan & sel & Hids & Hscan). destruct (Hf _ Hids) as [frame Hframe].
    split; [|split; [|by exists frame, ids, scan, sel]].
    + rewrite <- Hfill. f_equal. lia.
    + rewrite <- Hmark. f_equal. lia.
Qed.

(** An accepted JPEG file starts with the start-of-image marker, ends with the end-of-image marker
    (nothing is behind it), and has a frame header with positive sizes and one to four distinct
    components and a scan header over distinct components of that frame. *)
Theorem jpeg_accepted data : validateJpegStructure data = Ok tt ->
  data_at data 0 = 0xff /\ data_at data 1 = 0xd8 /\
  data_at data (length data - 2) = 0xff /\ data_at data (length data - 1) = 0xd9 /\
  exists frame ids scan selected, frame_ok data frame ids /\ scan_ok data ids scan selected.
Proof.
  intros Hv. apply bind_Ok in Hv as ([] & Hh & Hv). apply jpeg_check_Ok in Hh. bools.
  apply jpeg_loop_Ok in Hv; [done|by split|cbn; lia].
Qed.
Example jpeg_accepted_witness :
  data_at example_jpeg 0 = 0xff /\ data_at example_jpeg 1 = 0xd8 /\
  data_at example_jpeg (length example_jpeg - 2) = 0xff /\
  data_at example_jpeg (length example_jpeg - 1) = 0xd9 /\
  exists frame ids scan selected,
    frame_ok example_jpeg frame ids /\ scan_ok example_jpeg ids scan selected.
Proof. apply jpeg_accepted. vm_compute. reflexivity. Defined.

(** ** Accepted WebP files *)

(** The chunks that tile the rest of a RIFF file: the type, the start of the data and the size. *)
Inductive riff (data : bytes) : nat -> list (jstr * nat * Z) -> Prop :=
| riff_nil : riff data (length data) []
| riff_cons offset size l :
    size = getUint32_le data (offset + 4) ->
    riff data (Z.to_nat (Z.of_nat (offset + 8) + size + size mod 2)) l ->
    riff data offset ((fourcc data offset, (offset + 8)%nat, size) :: l).

Definition is_image (chunk : jstr * nat * Z) : bool :=
  jstr_eqb chunk.1.1 (js "VP8 ") || jstr_eqb chunk.1.1 (js "VP8L").
Definition is_canvas (chunk : jstr * nat * Z) : bool := jstr_eqb chunk.1.1 (js "VP8X").
Definition is_animation (chunk : jstr * nat * Z) : bool :=
  jstr_eqb chunk.1.1 (js "ANIM") || jstr_eqb chunk.1.1 (js "ANMF").

(** The dimensions are positive, within the format's bounds, and those of the canvas. *)
Definition dimensions_ok (st : webp_state) : Prop :=
  image st = true -> 1 <= width st <= 16384 /\ 1 <= height st <= 16384 /\
    (extended st = true -> width st = canvasWidth st /\ height st = canvasHeight st).

(** Only the first chunk finds the walk at its first offset. *)
Definition first_chunk (st : webp_state) : Prop :=
  webp_offset st = 12%nat -> image st = false /\ extended st = false.

Lemma land_mask z n : 0 <= z -> 0 <= n -> 0 <= Z.land z (2 ^ n - 1) < 2 ^ n.
Proof.
  intros Hz Hn.
  replace (2 ^ n - 1) with (Z.ones n) by (rewrite Z.ones_equiv; lia).
  rewrite Z.land_ones by done. apply Z.mod_pos_bound. lia.
Qed.

Lemma land_14 z : 0 <= z -> 0 <= Z.land z 0x3fff < 16384.
Proof. intros Hz. apply (land_mask z 14); lia. Qed.

Lemma vp8_frame_Ok data start size w h : vp8_frame data start size = Ok (w, h) ->
  0 <= w <= 16384 /\ 0 <= h <= 16384.
Proof.
  intros Hv. apply bind_Ok in Hv as ([] & _ & Hv). apply Ok_eq in Hv. injection Hv as <- <-.
  assert (Hb : forall i, 0 <= getUint16_le data i)
    by (intros i; unfold getUint16_le; pose proof (data_at_bound data i); pose proof (data_at_bound data (i + 1)); lia).
  pose proof (land_14 _ (Hb (start + 6)%nat)). pose proof (land_14 _ (Hb (start + 8)%nat)). lia.
Qed.

Lemma vp8l_frame_Ok data st start size w h b : vp8l_frame data st start size = Ok (w, h, b) ->
  0 <= w <= 16384 /\ 0 <= h <= 16384.
Proof.
  intros Hv. apply bind_Ok in Hv as ([] & _ & Hv). apply bind_Ok in Hv as ([] & _ & Hv).
  apply Ok_eq in Hv. injection Hv as <- <- _.
  pose proof (getUint32_le_bound data (start + 1)) as Hb. pose proof (land_14 _ (proj1 Hb)).
  pose proof (land_14 (Z.shiftr (getUint32_le data (start + 1)) 14)) as H14.
  specialize (H14 (proj2 (Z.shiftr_nonneg _ _) (proj1 Hb))). lia.
Qed.

Lemma image_chunk_Ok data st type start size st' :
  image_chunk data st type start size = Ok st' ->
  dimensions_ok st' /\ image st = false /\ image st' = true /\ extended st' = extended st.
Proof.
  intros Hv. apply bind_Ok in Hv as ([] & H1 & Hv). apply bind_Ok in Hv as ([[w h] b] & Hd & Hv).
  apply bind_Ok in Hv as ([] & H2 & Hv). apply Ok_eq in Hv as <-. apply webp_check_Ok in H1, H2.
  assert (0 <= w <= 16384 /\ 0 <= h <= 16384).
  { destruct (jstr_eqb type _); [|by eapply vp8l_frame_Ok].
    apply bind_Ok in Hd as ([w' h'] & Hd & He).
    apply Ok_eq in He. injection He as <- <- _. by eapply vp8_frame_Ok. }
  apply orb_false_iff in H1 as [H1 H3]. apply orb_false_iff in H2 as [H2 H4]. bools. split; [|done].
  intros _. cbn. split; [lia|]. split; [lia|]. intros He. rewrite He in H4. cbn in H4. bools. lia.
Qed.

(** A chunk keeps the dimensions, and is an image or a canvas exactly when a flag is set. *)
Lemma webp_chunk_Ok data st type start size st' :
  dimensions_ok st -> first_chunk st -> webp_chunk data st type start size = Ok st' ->
  let chunk := (type, start, size) in
  dimensions_ok st' /\ is_animation chunk = false /\
  (Nat.b2n (image st') = Nat.b2n (is_image chunk) + Nat.b2n (image st))%nat /\
  (Nat.b2n (extended st') = Nat.b2n (is_canvas chunk) + Nat.b2n (extended st))%nat.
Proof.
  intros Hd Hf Hv. unfold webp_chunk in Hv. unfold is_animation, is_image, is_canvas. cbn [fst].
  destruct (jstr_eqb type (js "VP8X")) eqn:Hx.
  { apply jstr_eqb_eq in Hx as ->. cbn. apply bind_Ok in Hv as ([] & H1 & Hv).
    apply bind_Ok in Hv as ([] & _ & Hv). apply bind_Ok in Hv as ([] & _ & Hv). apply Ok_eq in Hv as <-.
    apply webp_check_Ok in H1. bools. destruct (Hf ltac:(done)) as [Hi He].
    cbn [image extended]. rewrite Hi, He. split; [intros [=]; cbn in *; congruence|]. done. }
  destruct (jstr_eqb type (js "ANIM") || jstr_eqb type (js "ANMF")) eqn:Ha; [done|].
  destruct (jstr_eqb type (js "VP8 ") || jstr_eqb type (js "VP8L")) eqn:Hi.
  { apply image_chunk_Ok in Hv as (Hd' & Hi0 & Hi1 & He). rewrite Hi0, Hi1, He. done. }
  assert (Hsame : image st' = image st /\ extended st' = extended st /\ width st' = width st /\
    height st' = height st /\ canvasWidth st' = canvasWidth st /\ canvasHeight st' = canvasHeight st).
  { destruct (jstr_eqb type (js "ALPH")).
    - do 2 apply bind_Ok in Hv as ([] & _ & Hv). by apply Ok_eq in Hv as <-.
    - unfold metadata_chunk in Hv. destruct (jstr_eqb type (js "ICCP")).
      { apply bind_Ok in Hv as ([] & _ & Hv). by apply Ok_eq in Hv as <-. }
      destruct (jstr_eqb type (js "EXIF") || jstr_eqb type (js "XMP ")); [|by apply Ok_eq in Hv as <-].
      apply bind_Ok in Hv as ([] & _ & Hv).
      destruct (jstr_eqb type (js "EXIF")); by apply Ok_eq in Hv as <-. }
  destruct Hsame as (Hi' & He' & Hw & Hh & Hcw & Hch). unfold dimensions_ok.
  by rewrite Hi', He', Hw, Hh, Hcw, Hch.
Qed.

Definition count (p : jstr * nat * Z -> bool) (l : list (jstr * nat * Z)) : nat :=
  length (List.filter p l).

Lemma count_cons p c l : count p (c :: l) = (Nat.b2n (p c) + count p l)%nat.
Proof. unfold count. simpl. by destruct (p c). Qed.

Lemma webp_loop_Ok data fuel : forall st st',
  dimensions_ok st -> first_chunk st -> (12 <= webp_offset st <= length data)%nat ->
  webp_loop data fuel st = Ok st' ->
  dimensions_ok st' /\ exists l, riff data (webp_offset st) l /\ count is_animation l = 0%nat /\
    (Nat.b2n (image st') = count is_image l + Nat.b2n (image st))%nat /\
    (Nat.b2n (extended st') = count is_canvas l + Nat.b2n (extended st))%nat.
Proof.
  induction fuel as [|fuel IH]; intros st st' Hd Hf Ho Hl; cbn [webp_loop] in Hl;
    destruct (Nat.ltb_spec (webp_offset st) (length data)); try done.
  1,3: apply Ok_eq in Hl as <-; split; [done|]; exists []; split;
    [replace (webp_offset st) with (length data) by lia; constructor|done].
  apply bind_Ok in Hl as (st1 & Hi & Hl). pose proof (webp_iteration_padded _ _ _ Hi) as Hp.
  unfold webp_iteration in Hi. apply bind_Ok in Hi as ([] & _ & Hi). apply bind_Ok in Hi as ([] & _ & Hi).
  apply bind_Ok in Hi as (st2 & Hc & Hi). apply Ok_eq in Hi. cbn [webp_offset webp_at] in *.
  apply webp_chunk_Ok in Hc as (Hd2 & Hani & Him & Hca); [|done..].
  apply IH in Hl as (Hd' & l & Hr & Hl0 & Hl1 & Hl2); [|by subst st1|intros ?; lia|lia].
  split; [done|]. eexists ((fourcc data (webp_offset st), (webp_offset st + 8)%nat, _) :: l).
  split.
  { constructor; [done|]. subst st1. cbn [webp_at webp_offset] in Hr.
    rewrite (Z.land_ones _ 1) in Hr by lia. exact Hr. }
  rewrite !count_cons, Hani. subst st1. cbn [image extended webp_at] in *. cbn [Nat.b2n] in *. lia.
Qed.

(** An accepted WebP file is tiled by its RIFF chunks, none of which is an animation; exactly one
    is an image, at most one a canvas; the file is as long as its RIFF header says. *)
Theorem webp_accepted data : validateWebpStructure data = Ok tt ->
  fourcc data 0 = js "RIFF" /\ fourcc data 8 = js "WEBP" /\
  Z.of_nat (length data) = getUint32_le data 4 + 8 /\
  exists st chunks, webp_loop data (length data) webp_start = Ok st /\ riff data 12 chunks /\
    count is_animation chunks = 0%nat /\ count is_image chunks = 1%nat /\
    (count is_canvas chunks <= 1)%nat /\ 1 <= width st <= 16384 /\ 1 <= height st <= 16384 /\
    (count is_canvas chunks = 1%nat -> width st = canvasWidth st /\ height st = canvasHeight st).
Proof.
  intros Hv. apply bind_Ok in Hv as ([] & Hh & Hv). apply bind_Ok in Hv as (st & Hl & Hv).
  apply webp_check_Ok in Hh, Hv. apply orb_false_iff in Hv as [Hv _].
  apply orb_false_iff in Hh as [Hh Hlen]. apply orb_false_iff in Hh as [Hh Hweb].
  apply orb_false_iff in Hh as [Hlong Hriff]. bools.
  split; [done|]. split; [done|]. split; [lia|].
  exists st. pose proof Hl as Hloop.
  apply webp_loop_Ok in Hl as (Hd & l & Hr & Ha & Hi & Hc); [|by intros [=]|done|cbn; lia].
  destruct (Hd Hv) as (Hw & Hh & He). exists l. rewrite Hv in Hi. cbn in Hi, Hc.
  split; [done|]. split; [done|]. split; [done|]. destruct (extended st); cbn in Hc.
  - split_and!; lia || auto.
  - split_and!; lia.
Qed.
Example webp_accepted_witness :
  fourcc example_webp 0 = js "RIFF" /\ fourcc example_webp 8 = js "WEBP" /\
  Z.of_nat (length example_webp) = getUint32_le example_webp 4 + 8 /\
  exists st chunks, webp_loop example_webp (length example_webp) webp_start = Ok st /\
    riff example_webp 12 chunks /\
    count is_animation chunks = 0%nat /\ count is_image chunks = 1%nat /\
    (count is_canvas chunks <= 1)%nat /\ 1 <= width st <= 16384 /\ 1 <= height st <= 16384 /\
    (count is_canvas chunks = 1%nat -> width st = canvasWidth st /\ height st = canvasHeight st).
Proof. apply webp_accepted. vm_compute. reflexivity. Defined.
