(* ===== verification/Identity.v ===== *)
(** * Addresses and identifiers (apps/server/src/identity/address.ts, uuid-v7.ts)

    The canonical form of an address, and identifiers that begin with the time they are made. *)

From S2P Require Import Prelude JsString Regex Value Profiles Validation ValidatePayload.
From Stdlib Require Import ZArith.
Open Scope Z_scope.

(** ** Addresses *)

(** [domainToASCII] of node:url; the empty string when the domain is invalid. *)
Class NodeUrl := domainToASCII : jstr -> jstr.

(** White space and line terminators of the language. *)
Definition WHITE_SPACE : list (N * N) :=
  [(0x9, 0xD); (0x20, 0x20); (0xA0, 0xA0); (0x1680, 0x1680); (0x2000, 0x200A); (0x2028, 0x2029);
   (0x202F, 0x202F); (0x205F, 0x205F); (0x3000, 0x3000); (0xFEFF, 0xFEFF)]%N.

Fixpoint trim_start (s : jstr) : jstr :=
  match s with
  | u :: s' => if in_ranges WHITE_SPACE u then trim_start s' else s
  | [] => []
  end.
Definition trim (s : jstr) : jstr := rev (trim_start (rev (trim_start s))).

(** [s.indexOf(c)]: the index of the first occurrence, [None] for [-1]. *)
Fixpoint first_index (c : N) (s : jstr) : option nat :=
  match s with
  | [] => None
  | u :: s => if (u =? c)%N then Some 0%nat else S <$> first_index c s
  end.

Definition example_did : jstr := js "did:plc:aaaaaaaaaaaaaaaaaaaaaaaa".
Definition address_probe (canonical : jstr) : hvalue :=
  HMap false
    [(js "version", HNum 2); (js "type", HStr (js "hail.address-binding")); (js "address", HStr canonical);
     (js "did", HStr example_did); (js "issued_at", HNum 1);
     (js "key_id", HStr (example_did ++ js "#hail-identity"))].

Section address.
Context `{HailEnv} `{NodeUrl}.

Definition canonicalizeHailAddress (input : jstr) : M jstr :=
  let trimmed := trim input in
  _ ← throw_if (negb (jstr_eqb trimmed input))
        (OtherError (js "Hail address must not contain surrounding whitespace"));
  match first_index (char "@") trimmed with
  | None | Some O => Err (OtherError (js "Hail address must contain one local part and one domain"))
  | Some separator =>
      _ ← throw_if (negb (bool_decide (last_index (char "@") trimmed = Some separator)))
            (OtherError (js "Hail address must contain one local part and one domain"));
      let localPart := toLowerCase (take separator trimmed) in
      let domain := toLowerCase (domainToASCII (drop (S separator) trimmed)) in
      _ ← throw_if (jstr_eqb domain []) (OtherError (js "Hail address domain is invalid"));
      let canonical := localPart ++ js "@" ++ domain in
      _ ← validatePayload (Signed address_binding) (of_hail (address_probe canonical));
      Ok canonical
  end.
End address.

(** ** Identifiers *)

(** The loop over the first six bytes, from the last to the first. *)
Fixpoint write_timestamp (index : nat) (timestamp : Z) (bs : bytes) : bytes :=
  match index with
  | O => bs
  | S index =>
      write_timestamp index (timestamp / 256) (<[index := byte_of_N (Z.to_N (Z.land timestamp 0xff))]> bs)
  end.

Definition hex_char (n : N) : N := (if n <? 10 then 48 + n else 87 + n)%N.
Definition byte_hex (b : byte) : jstr := [hex_char (Byte.to_N b / 16); hex_char (Byte.to_N b mod 16)]%N.
Definition hex (bs : bytes) : jstr := bs ≫= byte_hex.
Definition slice (from to : nat) (s : jstr) : jstr := take (to - from) (drop from s).

Definition with_bits (mask bits : N) (b : byte) : byte := byte_of_N (N.lor (N.land (Byte.to_N b) mask) bits).

(** [random] is what [crypto.getRandomValues] puts into the sixteen bytes. *)
Definition uuidV7 (random : bytes) (now : Z) : M jstr :=
  _ ← throw_if (negb (isSafeInteger now) || (now <? 0) || (0xffffffffffff <? now))
        (OtherError (js "UUIDv7 timestamp is outside its 48-bit range"));
  let bs := write_timestamp 6 now random in
  let bs := alter (with_bits 0x0f 0x70) 6%nat bs in
  let bs := alter (with_bits 0x3f 0x80) 8%nat bs in
  let text := hex bs in
  Ok (slice 0 8 text ++ js "-" ++ slice 8 12 text ++ js "-" ++ slice 12 16 text ++ js "-"
      ++ slice 16 20 text ++ js "-" ++ drop 20 text).

Example uuidV7_example : uuidV7 (repeat xff 16) 1700000000000 = Ok (js "018bcfe5-6800-7fff-bfff-ffffffffffff").
Proof. vm_compute. reflexivity. Qed.
