(* ===== verification/Typed.v ===== *)
(** * Payloads at their TypeScript types

    The server reads the fields of a decoded payload through the interface its type asserts.  A
    payload that has been validated has that type ([typed_valid]), so the error here is never
    raised for the types the server reads this way. *)

From S2P Require Import Prelude JsString Value Cbor Profiles Validation ValidatePayload Models Soundness.
From S2P Require Import Invariance Roundtrip Cose CoseRules.
From Stdlib Require Import ZArith.
Open Scope Z_scope.

Definition typed (t : HailPayloadType) (v : hvalue) : M (HailPayloadByType t) :=
  match as_payload t v with
  | Some p => Ok p
  | None => Err (OtherError (js "Payload does not have its type"))
  end.

Section typed.
Context `{HailEnv} `{Cborg}.

(** [inspectSignedPayload(t, representation)] with the payload at its type. *)
Definition inspectTyped (t : HailSignedPayloadType) (representation : bytes)
    : M (InspectedHailObject (HailPayloadByType (Signed t))) :=
  object ← inspectSignedPayload t representation;
  p ← typed (Signed t) (payload object);
  Ok {| inspected_type := inspected_type object; inspected_keyId := inspected_keyId object;
        payload := p; payloadBytes := payloadBytes object;
        representationBytes := representationBytes object |}.

Definition verifyTyped (t : HailSignedPayloadType) (representation : bytes) (verifier : HailVerifier)
    : M (InspectedHailObject (HailPayloadByType (Signed t))) :=
  object ← verifySignedPayload t representation verifier;
  p ← typed (Signed t) (payload object);
  Ok {| inspected_type := inspected_type object; inspected_keyId := inspected_keyId object;
        payload := p; payloadBytes := payloadBytes object;
        representationBytes := representationBytes object |}.

(** Verification returns what inspection returns. *)
Lemma verifySigned_inspects t rep verifier object :
  verifySignedPayload t rep verifier = Ok object -> inspectSignedPayload t rep = Ok object.
Proof.
  intros Hv. apply bind_Ok in Hv as (p & Hp & Hv). apply bind_Ok in Hv as (s & _ & Hv).
  apply bind_Ok in Hv as (b & _ & Hv). apply bind_Ok in Hv as ([] & _ & Hv).
  unfold inspectSignedPayload. by rewrite Hp.
Qed.
Lemma verifyTyped_inspects t rep verifier object :
  verifyTyped t rep verifier = Ok object -> inspectTyped t rep = Ok object.
Proof.
  intros Hv. apply bind_Ok in Hv as (o & Ho & Hv). unfold inspectTyped.
  by rewrite (verifySigned_inspects _ _ _ _ Ho).
Qed.
End typed.

(** ** The reading never fails on a validated payload *)

Lemma structuredClone_same v : same v (structuredClone v).
Proof.
  induction v as [| | | | |l IH|n m IH] using hvalue_ind'; try (by apply same_leaf); cbn [structuredClone].
  - apply same_arr. apply Forall2_fmap_r, Forall_Forall2_diag. exact IH.
  - apply same_map. intros k. rewrite get_map. destruct (get m k) as [w|] eqn:Hg; constructor.
    apply get_In in Hg. rewrite Forall_forall in IH. by apply (IH (k, w)).
Qed.

Lemma structuredClone_item v : item_of_hail (structuredClone v) = item_of_hail v.
Proof.
  induction v as [| | | | |l IH|n m IH] using hvalue_ind'; try done; cbn [structuredClone item_of_hail].
  - f_equal. rewrite map_map. by apply map_ext_Forall.
  - f_equal. rewrite map_map. apply map_ext_Forall. eapply Forall_impl; [exact IH|].
    intros [k w] Hw. cbn [fst snd] in *. by rewrite Hw.
Qed.

Lemma structuredClone_wf v : hail_wf (structuredClone v) = hail_wf v.
Proof.
  induction v as [| | | | |l IH|n m IH] using hvalue_ind'; try done; cbn [structuredClone hail_wf].
  - induction IH as [|w l Hw _ IHl]; [done|]. cbn [map forallb]. by rewrite Hw, IHl.
  - rewrite map_map. f_equal. induction IH as [|[k w] m Hw _ IHm]; [done|]. cbn [map forallb snd] in *.
    by rewrite Hw, IHm.
Qed.

Lemma structuredClone_fits limits v : hail_fits limits v -> hail_fits limits (structuredClone v).
Proof. intros [Hw Hi Hd Hc Hb]. by split; rewrite ?structuredClone_item, ?structuredClone_wf. Qed.

Section valid.
Context `{HailEnv} `{CborgSpec}.
#[local] Set Default Proof Using "All".

Lemma typed_valid t v : t <> Signed connection_control ->
  validatePayload t (of_hail v) = Ok v -> exists p, typed t v = Ok p.
Proof.
  intros Ht Hv. apply validatePayload_sound in Hv as [_ [p Hp]]; [|done].
  exists p. unfold typed. by rewrite Hp.
Qed.

Lemma typed_clone t v : t <> Signed connection_control -> hail_wf v = true ->
  validatePayload t (of_hail v) = Ok v -> exists p, typed t (structuredClone v) = Ok p.
Proof.
  intros Ht Hw Hv. apply typed_valid; [done|].
  pose proof (validatePayload_narrows t (of_hail v) v ltac:(by rewrite js_wf_of_hail) Hv) as (_ & Hf & _).
  eapply validatePayload_same; [apply structuredClone_same|by apply structuredClone_fits|done|done].
Qed.

(** Reading at a type adds no error to [inspectSignedPayload] and [verifySignedPayload]. *)
Lemma inspectTyped_total t rep object : t <> connection_control ->
  inspectSignedPayload t rep = Ok object -> exists o, inspectTyped t rep = Ok o.
Proof.
  intros Ht Hi. unfold inspectTyped. rewrite Hi. cbn [mbind result_bind].
  apply bind_Ok in Hi as (p & Hp & Ho). apply Ok_eq in Ho as <-. apply parse_Ok in Hp as [].
  destruct (typed_clone (Signed t) (parsed_payload p)) as [q Hq]; [congruence|by apply fits_wf in parsed_fits|done|].
  cbn [inspectedResult payload]. rewrite Hq. by eexists.
Qed.

Lemma verifyTyped_total t rep verifier object : t <> connection_control ->
  verifySignedPayload t rep verifier = Ok object -> exists o, verifyTyped t rep verifier = Ok o.
Proof.
  intros Ht Hv. unfold verifyTyped. rewrite Hv. cbn [mbind result_bind].
  apply bind_Ok in Hv as (p & Hp & Hv). apply bind_Ok in Hv as (s & _ & Hv).
  apply bind_Ok in Hv as (b & _ & Hv). apply bind_Ok in Hv as ([] & _ & Hv). apply Ok_eq in Hv as <-.
  apply parse_Ok in Hp as [].
  destruct (typed_clone (Signed t) (parsed_payload p)) as [q Hq]; [congruence|by apply fits_wf in parsed_fits|done|].
  cbn [inspectedResult payload]. rewrite Hq. by eexists.
Qed.
End valid.
