(* ===== verification/Database.v ===== *)
(** * The provider's database and its transactions

    The server keeps its state in PostgreSQL tables.  A table is a finite map from its primary key
    to its other columns; the database gives every table its rows.  A transaction reads and writes
    tables and may throw; [sql.begin] commits a transaction that returns and rolls back one that
    throws.  Statements of transactions that lock the same rows do not interleave, so a transaction
    is one step of the database.  At the end, code outside transactions.

    The constraints and row triggers of the migrations may refuse a write (a check on a column, the
    fence of a migrating account): a class says which writes they refuse, and every theorem holds
    whatever they refuse.  Primary keys are part of the model.

    Instants are microseconds since the epoch, the resolution of [timestamptz]. *)

From S2P Require Import Prelude JsString Value Models.
From Stdlib Require Import ZArith.
Open Scope Z_scope.

#[export] Instance byte_eq_dec : EqDecision byte := Byte.byte_eq_dec.
#[export] Program Instance byte_countable : Countable byte :=
  inj_countable Byte.to_N Byte.of_N Byte.of_to_N.
#[export] Instance HailCodecError_eq_dec : EqDecision HailCodecError.
Proof. solve_decision. Defined.
#[export] Instance exn_eq_dec : EqDecision exn.
Proof. solve_decision. Defined.
#[export] Instance body_profile_eq_dec : EqDecision body_profile.
Proof. solve_decision. Defined.
#[export] Instance HailDeliveryState_eq_dec : EqDecision HailDeliveryState.
Proof. solve_decision. Defined.

(** ** Rows *)

Notation instant := Z (only parsing).

(** The sender's DID and the message identifier: the key of everything about one message. *)
Notation msg_key := (jstr * jstr)%type.

Record Account := {
  a_did : jstr;
  a_active : bool;            (** [onboarding_state = 'active'] *)
  a_public : bool;            (** [activation_verification_mode = 'public'] *)
  a_closed : bool;            (** [closed_at IS NOT NULL] *)
}.

(** A conversation's creator and identifier. *)
Notation conversation_key := (jstr * jstr)%type.

Record Descriptor := {
  d_hash : bytes;
  d_cose : bytes;
  d_participants : list jstr;
  d_created_at : Z;
  d_admission_until : Z;
  d_signing_key : jstr;
}.

Inductive membership_state := MemberActive | MemberLeft.

Record Membership := {
  m_state : membership_state;
  m_expires_at : Z;
  m_last_activity_at : option Z;
  m_left_at : option Z;
}.

Inductive revival_outcome := RevivalRenewed | RevivalActive | RevivalLeft | RevivalDenied.

Record Receipt := {
  rr_conversation_id : jstr;
  rr_request_hash : bytes;
  rr_expires_at : Z;
  rr_outcome : revival_outcome;
}.

Record Lineage := {
  l_local_account_id : jstr;
  l_grantor_did : jstr;
  l_grantee_did : jstr;
  l_grantor_role : bool;      (** [local_role = 'grantor'] *)
  l_active : bool;            (** [current_status = 'active'] *)
  l_current_revision : Z;
  l_current_digest : bytes;
}.
Record GrantRevision := {
  gr_status : grant_status;
  gr_issued_at : Z;
  gr_updated_at : Z;
  gr_expires_at : option Z;
  gr_previous : option bytes;
  gr_scope : list HailGrantScope;
  gr_binding_hash : bytes;
  gr_profile_hash : bytes;
  gr_cose : bytes;
  gr_digest : bytes;
  gr_signing_public_key : jstr;
}.
Record ConsentRow := {
  cn_grantee_address : jstr;
  cn_binding_cose : bytes; cn_binding_digest : bytes;
  cn_profile_revision : Z; cn_profile_cose : bytes; cn_profile_digest : bytes;
}.

Record DetachedBody := { b_bytes : bytes; b_available_until : option Z }.
Record BodyAuthorization := {
  ba_body_digest : bytes;
  ba_sender_account_id : jstr;
  ba_recipient_did : jstr;
  ba_message_id : jstr;
  ba_expires_at : Z;
  ba_available_until : Z;
}.

Record Sent := {
  s_recipient_did : jstr;
  s_authorization : HailEnvelopeAuthorization;
  s_envelope_cose : bytes;
  s_envelope_digest : bytes;
  s_body_digest : bytes;
  s_sender_account_id : jstr;
  s_conversation_message_id : option jstr;
}.

Inductive received_outcome := ReceivedAccepted | ReceivedUnauthorized | ReceivedExpired.

(** The authorization columns are those of the payload: [authorization_type] with its identifiers. *)
Record Received := {
  r_recipient_did : jstr;
  r_authorization : HailEnvelopeAuthorization;
  r_local_account_id : jstr;
  r_envelope_cose : bytes;
  r_envelope_digest : bytes;
  r_payload_digest : bytes;
  r_signing_public_key : jstr;
  r_outcome : received_outcome;
  r_accepted_at : option Z;
  r_conversation_message_id : option jstr;
  r_admission_bytes : Z;
}.

(** The reasons of the protocol, and the one of account closure (accounts/lifecycle.ts), which is
    none of them. *)
Inductive work_reason := ReasonOf (reason : HailDeliveryReason) | AccountClosed.

(** The lease columns are null together. *)
Record Work := {
  w_state : HailDeliveryState;
  w_reason : option work_reason;
  w_status_revision : Z;
  w_attempt_count : Z;
  w_next_attempt_at : Z;
  w_lease : option (jstr * Z);
  w_transitioned_at : Z;
}.

Inductive capability_state := Available | Claimed | Consumed.
Record Capability := {
  c_permitted_recipient_did : jstr;
  c_reply_until : Z;
  c_state : capability_state;
  c_claimed : option msg_key;
}.

(** The recipient, the sender, the digest and the profile of a verified body; the media type is the
    one value its column can have. *)
Notation body_key := (jstr * jstr * bytes * body_profile)%type.

(** [dm_trashed]: [trashed_at IS NOT NULL]. *)
Record Delivered := {
  dm_recipient_did : jstr; dm_envelope_digest : bytes; dm_body : body_key; dm_trashed : bool;
}.

Inductive publication_state := Pending | Retry | Acknowledged | Blocked.
Record Publication := {
  p_state : publication_state;
  p_attempt_count : Z;
  p_next_attempt_at : Z;
  p_lease : option (jstr * Z);
  p_last_http_status : option Z;
  p_acknowledged_at : option Z;
}.

(** The publication of a revision of a grant. *)
Record GrantPublication := {
  gp_destination : jstr;
  gp_state : publication_state;
  gp_attempt_count : Z;
  gp_next_attempt_at : Z;
  gp_lease : option (jstr * Z);
  gp_last_http_status : option Z;
  gp_last_error : option jstr;
  gp_acknowledged_etag : option jstr;
  gp_acknowledged_at : option Z;
  gp_created_at : Z;
}.

(** A sender profile as it was verified; its payload is diagnostic JSON. *)
Record ProfileRow := {
  pr_updated_at : Z; pr_payload : hvalue; pr_cose : bytes; pr_digest : bytes;
  pr_service_base : jstr; pr_messaging_key : jstr; pr_verified_at : Z;
}.

(** A permission under review: what its account is to approve with a passkey, and what became of it. *)
Inductive approval_action := AllowGrant | RevokeGrant | RestrictGrant.
Record saved_result := {
  sr_grantId : jstr; sr_revision : Z; sr_status : grant_status; sr_digest : jstr;
}.
Inductive permission_result :=
| SavedResult (saved : saved_result)
| BatchResult (items : list (jstr * option saved_result)).   (** [None]: it changed after the review *)
Record Approval := {
  ap_account_id : jstr;
  ap_session_id : jstr;
  ap_serving_generation : Z;
  ap_action : approval_action;
  ap_request_digest : bytes;
  ap_payload_bytes : bytes;
  ap_signing_key : jstr;
  ap_challenge : jstr;
  ap_expires_at : Z;
  ap_approved : option (Z * jstr);    (** [approved_at] and [credential_id] *)
  ap_result : option permission_result;
}.

Record SentStatus := {
  ss_recipient_did : jstr;
  ss_current_revision : Z;
  ss_current_state : HailDeliveryState;
  ss_payload_bytes : bytes;
  ss_cose : bytes;
  ss_signing_public_key : jstr;
  ss_revision_gap : Z;
}.

#[export] Instance profile_countable : Countable body_profile.
Proof.
  apply (inj_countable' (fun p => match p with spt_1 => 0 | spt_2 => 1 | spt_3 => 2 end)%nat
    (fun n => match n with 0 => spt_1 | 1 => spt_2 | _ => spt_3 end)%nat). by intros [].
Defined.

(** ** Tables *)

Inductive table :=
| provider_accounts
| provider_migration_fences
| account_conversation_preferences
| connection_conversation_preferences
| conversation_descriptors
| conversation_memberships
| conversation_revival_receipts
| grant_lineages
| grant_revisions
| grant_consent_evidence
| grant_publications
| collocated_grant_receivers
| account_grant_approvals
| verified_sender_profiles
| detached_bodies
| body_authorizations
| sent_envelopes
| received_envelopes
| delivery_work
| delivery_scheduling
| reply_capabilities
| shared_content_blobs
| verified_body_provenance
| attachment_blobs
| attachment_uploads
| body_attachment_refs
| received_attachment_refs
| delivered_messages
| terminal_status_publications
| delivery_status_payloads
| delivery_status_wrappers
| sent_delivery_status.

#[export] Instance table_eq_dec : EqDecision table.
Proof. solve_decision. Defined.

(** Whose turn of [delivery_scheduling] a row records. *)
Inductive schedule_scope := SenderScope | RecipientScope.
#[export] Instance schedule_scope_eq_dec : EqDecision schedule_scope.
Proof. solve_decision. Defined.
#[export] Instance schedule_scope_countable : Countable schedule_scope.
Proof.
  apply (inj_countable' (fun s => match s with SenderScope => true | RecipientScope => false end)
    (fun b : bool => if b then SenderScope else RecipientScope)). by intros [].
Defined.

Definition rows (t : table) : Type :=
  match t with
  | provider_accounts => gmap jstr Account
  | provider_migration_fences => gmap jstr jstr                (* the DID; its account *)
  | account_conversation_preferences => gmap jstr bool
  | connection_conversation_preferences => gmap (jstr * jstr * Z) bool
  | conversation_descriptors => gmap conversation_key Descriptor
  | conversation_memberships => gmap (jstr * conversation_key) Membership
  | conversation_revival_receipts => gmap (jstr * jstr * jstr) Receipt
  | grant_lineages => gmap jstr Lineage
  | grant_revisions => gmap (jstr * Z) GrantRevision
  | grant_consent_evidence => gmap (jstr * Z) ConsentRow
  | grant_publications => gmap (jstr * Z) GrantPublication
  | collocated_grant_receivers => gmap jstr jstr                        (* the grantee's account *)
  | account_grant_approvals => gmap jstr Approval
  | verified_sender_profiles => gmap (jstr * Z) ProfileRow               (* the DID and the revision *)
  | detached_bodies => gmap (bytes * jstr) DetachedBody
  | body_authorizations => gmap bytes BodyAuthorization
  | sent_envelopes => gmap msg_key Sent
  | received_envelopes => gmap msg_key Received
  | delivery_work => gmap msg_key Work
  | delivery_scheduling => gmap (schedule_scope * jstr) Z
  | reply_capabilities => gmap msg_key Capability
  | shared_content_blobs => gmap bytes bytes
  | verified_body_provenance => gset body_key
  | attachment_blobs => gmap bytes bytes
  | attachment_uploads => gset (jstr * bytes)
  | body_attachment_refs => gset (jstr * bytes * bytes)
  | received_attachment_refs => gset (body_key * bytes)
  | delivered_messages => gmap msg_key Delivered
  | terminal_status_publications => gmap msg_key Publication
  | delivery_status_payloads => gmap (msg_key * Z) bytes                    (* the revision *)
  | delivery_status_wrappers => gmap (msg_key * Z * jstr) bytes             (* and the key *)
  | sent_delivery_status => gmap msg_key SentStatus
  end.

Definition Database : Type := forall t : table, rows t.

(** The database with other rows in one table. *)
Definition set (t : table) (r : rows t) (db : Database) : Database := fun t' =>
  match decide (t = t') with
  | left H => eq_rect t rows r t' H
  | right _ => db t'
  end.

Lemma set_eq t r db : set t r db t = r.
Proof. by destruct t. Qed.
Lemma set_ne t t' r db : t <> t' -> set t r db t' = db t'.
Proof. unfold set. by destruct (decide (t = t')). Qed.

(** Read through writes to the same and to other tables. *)
Ltac db_simpl :=
  repeat first [ rewrite set_eq in * | rewrite set_ne in * by discriminate ].

(** ** Transactions *)

Definition Tx (A : Type) : Type := Database -> result exn (A * Database).

#[export] Instance Tx_ret : MRet Tx := fun A a db => Ok (a, db).
#[export] Instance Tx_fmap : FMap Tx := fun A B f m db =>
  match m db with Ok (a, db') => Ok (f a, db') | Err e => Err e end.
#[export] Instance Tx_bind : MBind Tx := fun A B f m db =>
  match m db with Ok (a, db') => f a db' | Err e => Err e end.

(** A query reads; a call outside the database may throw. *)
Definition query {A} (f : Database -> A) : Tx A := fun db => Ok (f db, db).
Definition throwing {A} (m : M A) : Tx A := fun db =>
  match m with Ok a => Ok (a, db) | Err e => Err e end.
Definition throw_error {A} (message : String.string) : Tx A := fun _ =>
  Err (OtherError (js message)).
Arguments throw_error {A} message%_string.

(** [sql.begin]: the database is unchanged when the transaction throws. *)
Definition begin {A} (tx : Tx A) (db : Database) : M A * Database :=
  match tx db with
  | Ok (a, db') => (Ok a, db')
  | Err e => (Err e, db)
  end.

(** Code outside transactions: what it did to the database stays done when it throws. *)
Definition Act (A : Type) : Type := Database -> M A * Database.
#[export] Instance Act_ret : MRet Act := fun A a db => (Ok a, db).
#[export] Instance Act_bind : MBind Act := fun A B f m db =>
  match m db with (Ok a, db') => f a db' | (Err e, db') => (Err e, db') end.
#[export] Instance Act_fmap : FMap Act := fun A B f m db =>
  match m db with (Ok a, db') => (Ok (f a), db') | (Err e, db') => (Err e, db') end.
(** [try { m } catch { h }]. *)
Definition rescue {A} (m : Act A) (h : Act A) : Act A := fun db =>
  match m db with (Ok a, db') => (Ok a, db') | (Err _, db') => h db' end.
Definition act {A} (f : Database -> M A) : Act A := fun db => (f db, db).
(** What other processes do to the database meanwhile. *)
Definition meanwhile (others : Database -> Database) : Act unit := fun db => (Ok tt, others db).

(** The error a constraint or trigger raises when a table is to get new rows, if it does. *)
Class Triggers := refuses : forall t : table, rows t -> Database -> option jstr.

Section writes.
Context `{Triggers}.

Definition write (t : table) (f : rows t -> rows t) : Tx unit := fun db =>
  match refuses t (f (db t)) db with
  | Some message => Err (OtherError message)
  | None => Ok (tt, set t (f (db t)) db)
  end.
End writes.

Lemma bind_Tx {A B} (m : Tx A) (f : A -> Tx B) db b db' :
  (m ≫= f) db = Ok (b, db') <-> exists a db1, m db = Ok (a, db1) /\ f a db1 = Ok (b, db').
Proof.
  unfold mbind, Tx_bind. destruct (m db) as [[a db1]|e]; split.
  - eauto.
  - intros (a' & db1' & [= <- <-] & Hf). done.
  - done.
  - by intros (? & ? & ? & ?).
Qed.

Lemma query_Tx {A} (f : Database -> A) db a db' :
  query f db = Ok (a, db') <-> a = f db /\ db' = db.
Proof. unfold query. naive_solver. Qed.

Lemma throwing_Tx {A} (m : M A) db a db' :
  throwing m db = Ok (a, db') <-> m = Ok a /\ db' = db.
Proof. unfold throwing. destruct m; naive_solver. Qed.

Lemma write_Tx `{Triggers} t f db u db' :
  write t f db = Ok (u, db') -> db' = set t (f (db t)) db.
Proof. unfold write. case_match; naive_solver. Qed.

Lemma fmap_Tx {A B} (f : A -> B) (m : Tx A) db b db' :
  (f <$> m) db = Ok (b, db') <-> exists a, m db = Ok (a, db') /\ b = f a.
Proof. unfold fmap, Tx_fmap. destruct (m db) as [[a db1]|e]; naive_solver. Qed.

Lemma ret_Tx {A} (a b : A) db db' : (mret a : Tx A) db = Ok (b, db') -> a = b /\ db' = db.
Proof. unfold mret, Tx_ret. naive_solver. Qed.

(** Decompose a committed transaction into its statements. *)
Ltac tx_step :=
  match goal with
  | H : (_ ≫= _) _ = Ok (_, _) |- _ =>
      let a := fresh "a" in let db := fresh "db" in let Hm := fresh "Hm" in
      apply bind_Tx in H as (a & db & Hm & H); cbn beta in H
  | H : query _ _ = Ok (_, _) |- _ => apply query_Tx in H as [-> ->]
  | H : throwing _ _ = Ok (_, _) |- _ =>
      let Ht := fresh "Ht" in apply throwing_Tx in H as [Ht ->]
  | H : write _ _ _ = Ok (_, _) |- _ => apply write_Tx in H as ->
  | H : (_ <$> _) _ = Ok (_, _) |- _ =>
      let a := fresh "a" in let Hm := fresh "Hm" in apply fmap_Tx in H as (a & Hm & ->)
  | H : mret _ _ = Ok (_, _) |- _ =>
      first [ apply ret_Tx in H as [<- ->]
            | let He := fresh "He" in apply ret_Tx in H as [He ->]; try discriminate He;
              try match type of He with ?x = ?x => clear He end ]
  | H : throw_error _ _ = Ok (_, _) |- _ => discriminate H
  | H : (if negb ?b then _ else _) _ = Ok (_, _) |- _ =>
      first [ constr_eq b true | constr_eq b false ]; cbn [negb] in H
  end.
Ltac tx := repeat tx_step.

(** [INSERT ... ON CONFLICT DO NOTHING], and an [UPDATE] of one row. *)
Definition insert_new {K V} `{Countable K} (k : K) (v : V) (m : gmap K V) : gmap K V :=
  match m !! k with Some _ => m | None => <[k := v]> m end.
Definition update_row {K V} `{Countable K} (k : K) (f : V -> V) (m : gmap K V) : gmap K V :=
  alter f k m.

(** ** Queries *)

(** The first row that satisfies a condition. *)
Definition find_row {K V} `{Countable K} (f : K -> V -> bool) (m : gmap K V) : option (K * V) :=
  List.find (fun e => f e.1 e.2) (map_to_list m).

(** [count( * )] of the rows that satisfy a condition. *)
Definition count_rows {K V} `{Countable K} (f : K -> V -> bool) (m : gmap K V) : Z :=
  Z.of_nat (length (List.filter (fun e => f e.1 e.2) (map_to_list m))).
Definition sum_rows {K V} `{Countable K} (f : K -> V -> bool) (g : V -> Z) (m : gmap K V) : Z :=
  foldr Z.add 0 (map (fun e => g e.2) (List.filter (fun e => f e.1 e.2) (map_to_list m))).

Lemma find_row_Some {K V} `{Countable K} (f : K -> V -> bool) (m : gmap K V) k v :
  find_row f m = Some (k, v) -> m !! k = Some v /\ f k v = true.
Proof.
  intros Hf. apply List.find_some in Hf as [Hin Hf]. split; [|done].
  by apply elem_of_map_to_list, list_elem_of_In.
Qed.

(** See the rows of the tables as finite maps, and look at one of them. *)
Ltac tables := cbn [rows] in *.
Tactic Notation "case_row" constr(k) "as" simple_intropattern(p) :=
  match goal with
  | |- context [@lookup ?K ?V ?M ?i k ?m] => destruct (@lookup K V M i k m) as p
  end.

(** Rows after a write. *)
Lemma insert_cases {K V} `{Countable K} (m : gmap K V) k v j x :
  <[k := v]> m !! j = Some x -> (j = k /\ x = v) \/ (j <> k /\ m !! j = Some x).
Proof. rewrite lookup_insert_Some. naive_solver. Qed.
Lemma insert_same {K V} `{Countable K} (m : gmap K V) k v : <[k := v]> m !! k = Some v.
Proof. apply lookup_insert_eq. Qed.
Lemma insert_other {K V} `{Countable K} (m : gmap K V) k v j :
  j <> k -> <[k := v]> m !! j = m !! j.
Proof. intros Hj. by apply lookup_insert_ne. Qed.
Lemma update_cases {K V} `{Countable K} (m : gmap K V) k f j x :
  update_row k f m !! j = Some x ->
  (j = k /\ exists y, m !! k = Some y /\ x = f y) \/ (j <> k /\ m !! j = Some x).
Proof. unfold update_row. rewrite lookup_alter_Some. naive_solver. Qed.
Lemma update_same {K V} `{Countable K} (m : gmap K V) k f : update_row k f m !! k = f <$> m !! k.
Proof. apply lookup_alter_eq. Qed.
Lemma update_other {K V} `{Countable K} (m : gmap K V) k f j : j <> k -> update_row k f m !! j = m !! j.
Proof. intros Hj. by apply lookup_alter_ne. Qed.

Section counting.
Context {K V : Type} `{Countable K}.
Implicit Types (m : gmap K V) (f : K -> V -> bool).

Let counted f m : gmap K V := filter (fun e => f e.1 e.2 = true) m.

Lemma count_rows_size f m : count_rows f m = Z.of_nat (size (counted f m)).
Proof.
  unfold count_rows, counted. rewrite <- length_map_to_list. f_equal. apply Permutation_length.
  apply NoDup_Permutation.
  - apply NoDup_ListNoDup, List.NoDup_filter, NoDup_ListNoDup, NoDup_map_to_list.
  - apply NoDup_map_to_list.
  - intros [k v]. rewrite elem_of_map_to_list, map_lookup_filter_Some, list_elem_of_In, List.filter_In,
      <- list_elem_of_In, elem_of_map_to_list. done.
Qed.

(** Counting is monotone, up to one new row. *)
Lemma count_rows_le f f' m m' :
  (forall k v, m' !! k = Some v -> f' k v = true -> exists w, m !! k = Some w /\ f k w = true) ->
  count_rows f' m' <= count_rows f m.
Proof.
  intros Hf. rewrite !count_rows_size, <- !size_dom. apply inj_le, subseteq_size.
  intros k. rewrite !elem_of_dom. intros [v [Hv Hk]%map_lookup_filter_Some].
  destruct (Hf k v Hv Hk) as (w & Hw & Hk'). exists w. by apply map_lookup_filter_Some.
Qed.
Lemma count_rows_insert f f' m m' k0 :
  (forall k v, m' !! k = Some v -> f' k v = true ->
     k = k0 \/ exists w, m !! k = Some w /\ f k w = true) ->
  count_rows f' m' <= count_rows f m + 1.
Proof.
  intros Hf. rewrite !count_rows_size, <- !size_dom.
  trans (Z.of_nat (size ({[k0]} ∪ dom (counted f m)))).
  - apply inj_le, subseteq_size. intros k. rewrite elem_of_union, elem_of_singleton, !elem_of_dom.
    intros [v [Hv Hk]%map_lookup_filter_Some]. destruct (Hf k v Hv Hk) as [->|(w & Hw & Hk')]; [by left|].
    right. exists w. by apply map_lookup_filter_Some.
  - rewrite size_union_alt, size_singleton.
    assert (size (dom (counted f m) ∖ {[k0]}) <= size (dom (counted f m)))%nat
      by (apply subseteq_size; set_solver). lia.
Qed.
Lemma count_rows_0 f m : count_rows f m = 0 -> forall k v, m !! k = Some v -> f k v = false.
Proof.
  intros Hc k v Hk. destruct (f k v) eqn:Hf; [|done].
  rewrite count_rows_size in Hc. assert (Hs : size (counted f m) = 0%nat) by lia.
  apply map_size_empty_iff in Hs. assert (Hl : counted f m !! k = Some v) by by apply map_lookup_filter_Some.
  rewrite Hs in Hl. by rewrite lookup_empty in Hl.
Qed.
Lemma count_rows_none f m : (forall k v, m !! k = Some v -> f k v = false) -> count_rows f m = 0.
Proof.
  intros Hf. rewrite count_rows_size. enough (counted f m = ∅) as -> by done.
  apply map_empty. intros k. apply eq_None_not_Some. intros [v [Hv Hk]%map_lookup_filter_Some].
  apply Hf in Hv. cbn in Hk. congruence.
Qed.
End counting.

Definition seconds (s : Z) : instant := s * 1000000.
Definition milliseconds (ms : Z) : instant := ms * 1000.

(** ** Code outside transactions

    What such code does to the database between its statements: whatever it throws, every run stays in
    a preorder that its statements and the other processes stay in. *)

(** [catch]: what an action throws is a value. *)
Definition caught {A} (m : Act A) : Act (M A) := fun db => let (r, db') := m db in (Ok r, db').

(** Every run of [m], from any state, leads to a state that [R] relates to it. *)
Definition runs (R : relation Database) {A} (m : Act A) : Prop := forall db, R db (m db).2.

Section rules.
Context {R : relation Database} `{!PreOrder R}.
#[local] Set Default Proof Using "Type*".

Lemma runs_ret {A} (a : A) : runs R (mret a : Act A).
Proof. intros db. reflexivity. Qed.
Lemma runs_act {A} (f : Database -> M A) : runs R (act f).
Proof. intros db. reflexivity. Qed.
Lemma runs_meanwhile (others : Database -> Database) : (forall db, R db (others db)) -> runs R (meanwhile others).
Proof. done. Qed.
Lemma runs_bind {A B} (m : Act A) (f : A -> Act B) : runs R m -> (forall a, runs R (f a)) -> runs R (m ≫= f).
Proof.
  intros Hm Hf db. unfold mbind, Act_bind. specialize (Hm db). destruct (m db) as [[a|e] db1]; [|done].
  etransitivity; [exact Hm|apply Hf].
Qed.
Lemma runs_fmap {A B} (f : A -> B) (m : Act A) : runs R m -> runs R (f <$> m).
Proof. intros Hm db. unfold fmap, Act_fmap. specialize (Hm db). by destruct (m db) as [[a|e] db1]. Qed.
Lemma runs_rescue {A} (m h : Act A) : runs R m -> runs R h -> runs R (rescue m h).
Proof.
  intros Hm Hh db. unfold rescue. specialize (Hm db). destruct (m db) as [[a|e] db1]; [done|].
  etransitivity; [exact Hm|apply Hh].
Qed.
Lemma runs_caught {A} (m : Act A) : runs R m -> runs R (caught m).
Proof. intros Hm db. unfold caught. specialize (Hm db). by destruct (m db) as [r db1]. Qed.
Lemma runs_begin {A} (tx : Tx A) : (forall db a db', tx db = Ok (a, db') -> R db db') -> runs R (begin tx).
Proof. intros Htx db. unfold begin. destruct (tx db) as [[a db']|e] eqn:E; [by eapply Htx|reflexivity]. Qed.
End rules.

(** The database [runs]: one rule per construct; the instance of the preorder is found as usual. *)
Create HintDb runs discriminated.
#[export] Hint Extern 0 (runs _ (mret _)) => apply runs_ret : runs.
#[export] Hint Extern 0 (runs _ (act _)) => apply runs_act : runs.
#[export] Hint Extern 1 (runs _ (meanwhile _)) => apply runs_meanwhile; assumption || done : runs.
#[export] Hint Extern 2 (runs _ (_ ≫= _)) => apply runs_bind; [|intros ?] : runs.
#[export] Hint Extern 1 (runs _ (_ <$> _)) => apply runs_fmap : runs.
#[export] Hint Extern 1 (runs _ (rescue _ _)) => apply runs_rescue : runs.
#[export] Hint Extern 1 (runs _ (caught _)) => apply runs_caught : runs.
#[export] Hint Extern 2 (runs _ (if ?b then _ else _)) => destruct b : runs.

(** *** Runs that return *)

Lemma caught_Ok {A} (m : Act A) db r db' : caught m db = (Ok r, db') -> m db = (r, db').
Proof. unfold caught. destruct (m db) as [r' db1]. by intros [= <- <-]. Qed.

Lemma rescue_Ok {A} (m h : Act A) db a db' : rescue m h db = (Ok a, db') ->
  m db = (Ok a, db') \/ exists e db1, m db = (Err e, db1) /\ h db1 = (Ok a, db').
Proof. unfold rescue. destruct (m db) as [[b|e] db1]; [by left|right; eauto]. Qed.

Lemma begin_Ok {A} (tx : Tx A) db a db' : begin tx db = (Ok a, db') -> tx db = Ok (a, db').
Proof. unfold begin. destruct (tx db) as [[b db1]|e]; [by intros [= <- <-]|by intros [=]]. Qed.
