(* ===== verification/ServerBodies.v ===== *)
(** * Message bodies on the server (apps/server/src/bodies/service.ts, attachments.ts)

    The provider validates a body it received or publishes, lists the attachments the body names,
    validates their bytes by media type, and stores them under their digests. *)

From S2P Require Import Prelude JsString Value Cbor Profiles Validation Png ValidatePayload Models.
From S2P Require Import Cose Images Database Typed.
From Stdlib Require Import ZArith.
Open Scope Z_scope.

Definition BODY_MAX_BYTES : Z := 1048576.

Definition body_type (p : body_profile) : HailPayloadType :=
  match p with spt_1 => body_spt_1 | spt_2 => body_spt_2 | spt_3 => body_spt_3 end.

(** The attachments of a body of any profile. *)
Definition body_attachments (p : body_profile) : HailPayloadByType (body_type p) -> option (list HailAttachment) :=
  match p with
  | spt_1 => spt1_attachments
  | spt_2 => spt2_attachments
  | spt_3 => spt3_attachments
  end.

Section bodies.
Context `{HailEnv} `{Cborg}.

Definition bodyDigest (bs : bytes) : bytes := sha256 bs.

(** [try { decode; encode } ] at one profile. *)
Definition try_profile (p : body_profile) (bs : bytes) : M (body_profile * bytes) :=
  document ← decodePayload (body_type p) bs DEFAULT_HAIL_RESOURCE_LIMITS;
  encoded ← encodePayload (body_type p) (of_hail document) DEFAULT_HAIL_RESOURCE_LIMITS;
  Ok (p, encoded).

Definition validateBodyBytes (bs : bytes) (expected : option body_profile) : M body_profile :=
  _ ← throw_if ((length bs <? 1)%nat || (BODY_MAX_BYTES <? Z.of_nat (length bs)))
        (OtherError (js "Body exceeds the 1 MiB limit"));
  '(profile, encoded) ← catch (try_profile spt_1 bs) (fun _ =>
    catch (try_profile spt_2 bs) (fun _ => try_profile spt_3 bs));
  _ ← throw_if (match expected with
                | Some expected => negb (bool_decide (profile = expected))
                | None => false
                end) (OtherError (js "Body profile does not match its envelope"));
  _ ← throw_if (negb (Cbor.equalBytes encoded bs))
        (OtherError (js "Body bytes are not deterministic CBOR"));
  Ok profile.

Definition bodyAttachments (bs : bytes) : M (list HailAttachment) :=
  profile ← validateBodyBytes bs None;
  document ← decodePayload (body_type profile) bs DEFAULT_HAIL_RESOURCE_LIMITS;
  body ← typed (body_type profile) document;
  Ok (default [] (body_attachments profile body)).

(** [new TextDecoder("utf-8", {fatal: true}).decode(bytes)], which drops a byte order mark. *)
Definition decode_text (bs : bytes) : M jstr :=
  match text_decode bs with
  | Some text => Ok (match text with u :: rest => if (u =? 0xFEFF)%N then rest else text | [] => [] end)
  | None => Err (OtherError (js "The encoded data was not valid"))
  end.

Definition validateAttachmentBytes (file : HailAttachment) (bs : bytes) : M unit :=
  _ ← throw_if (negb (Z.of_nat (length bs) =? att_size file)
                || negb (Cbor.equalBytes (sha256 bs) (digest_value (att_digest file))))
        (OtherError (js "Attachment integrity failure"));
  match att_media_type file with
  | application_pdf =>
      (* Decoding as ASCII drops the top bit of each byte. *)
      throw_if (negb (bool_decide (map (fun b => Byte.to_N b mod 128)%N (take 5 bs) = js "%PDF-")))
        (OtherError (js "Invalid PDF"))
  | image_png =>
      '(width, height) ← validatePngStructure bs root;
      throw_if ((0x7fffffff <? width) || (0x7fffffff <? height))
        (OtherError (js "Invalid PNG dimensions"))
  | image_jpeg => validateJpegStructure bs
  | image_webp => validateWebpStructure bs
  | text_plain =>
      text ← decode_text bs;
      throw_if (existsb (N.eqb 0) text) (OtherError (js "Text attachments must be UTF-8 without NUL"))
  end.

(** ** Storage *)

Context `{Triggers}.

(** The upsert returns no row when the digest is there with other bytes. *)
Definition storeAttachment (digest bs : bytes) : Tx unit :=
  stored ← query (fun db => db attachment_blobs !! digest);
  match stored with
  | Some stored =>
      if bool_decide (stored = bs) then mret tt else throw_error "Attachment digest collision"
  | None => write attachment_blobs <[digest := bs]>
  end.

(** The bytes of a blob the account uploaded, or that this body of the account already refers to. *)
Definition uploaded_blob (account : jstr) (body_digest digest : bytes) (db : Database) : option bytes :=
  bs ← db attachment_blobs !! digest;
  if bool_decide ((account, digest) ∈ db attachment_uploads)
     || bool_decide ((account, body_digest, digest) ∈ db body_attachment_refs)
  then Some bs else None.

Fixpoint retain_files (account : jstr) (body_digest : bytes) (files : list HailAttachment) : Tx unit :=
  match files with
  | [] => mret tt
  | file :: files =>
      let digest := digest_value (att_digest file) in
      row ← query (uploaded_blob account body_digest digest);
      bs ← match row with
           | Some bs => mret bs
           | None => throwing (Err (CodecError (new_HailCodecError schema_violation
                       (js "Attachment not uploaded by this account") None)))
           end;
      _ ← throwing (validateAttachmentBytes file bs);
      _ ← write body_attachment_refs (union {[(account, body_digest, digest)]});
      retain_files account body_digest files
  end.

Definition retainBodyAttachments (account : jstr) (body_digest bs : bytes) : Tx unit :=
  files ← throwing (bodyAttachments bs);
  retain_files account body_digest files.

Definition publishAttachmentBody (account : jstr) (bs : bytes) : Tx unit :=
  files ← throwing (bodyAttachments bs);
  match files with
  | [] => mret tt
  | _ =>
      let digest := sha256 bs in
      _ ← write detached_bodies (fun m =>
            match m !! (digest, account) with
            | Some _ => m
            | None => <[(digest, account) := {| b_bytes := bs; b_available_until := None |}]> m
            end);
      retainBodyAttachments account digest bs
  end.
End bodies.
