(* ===== verification/Conversations.v ===== *)
(** * Connections and conversations (apps/server/src/accounts)

    [connection-authorization.ts]: whether a connection permits a message; the SQL functions it
    calls are a class.  [conversation-memberships.ts]: an account's membership of a conversation,
    from the admission of its signed descriptor to leaving, rejoining, expiry and the creator's
    revival; [conversation-preferences.ts]: the admission preference it consults.

    An argument called [now] is the value of [clock_timestamp()] in the statement before which the
    code reads it; a transaction that reads the clock several times has several. *)

From S2P Require Import Prelude JsString Regex Value Cbor Profiles Validation ValidatePayload Models.
From S2P Require Import Cose WebCrypto Database Typed.
From Stdlib Require Import ZArith.
Open Scope Z_scope.

(** ** Connections *)

(** The SQL functions of the connection tables: the permission (null when there is none), and
    whether an account handover pauses the pair.  The locking permission check may raise. *)
Class ConnectionFunctions := {
  hail_connection_message_permission :
    Database -> jstr -> jstr -> jstr -> Z -> bool -> M (option bool);
  hail_connection_handover_blocked : Database -> jstr -> jstr -> bool;
}.

Section connections.
Context `{ConnectionFunctions}.

Definition connectionMessageAllowed (owner peer connection_id : jstr) (epoch : Z)
    (lock acceptWhilePaused : bool) : Tx bool := fun db =>
  match hail_connection_message_permission db owner peer connection_id epoch lock with
  | Err e => Err e
  | Ok (Some true) =>
      if negb acceptWhilePaused && hail_connection_handover_blocked db owner peer then
        Err (OtherError (js "Connection authorization is paused for account handover"))
      else Ok (true, db)
  | Ok _ => Ok (false, db)
  end.

(** [ConnectionMessagingAuthority.live]: local permission, the coordinator's word, and the local
    permission again.  [federation] is [messageState]; the database of the last check may be another. *)
Definition live (federation : option (jstr -> jstr -> jstr -> Z -> M bool))
    (db db' : Database) (owner peer connection_id : jstr) (epoch : Z) : M bool :=
  allowed ← fst <$> connectionMessageAllowed owner peer connection_id epoch false false db;
  if negb allowed then Ok false
  else match federation with
  | None => Err (OtherError (js "Connection coordinator verification is unavailable"))
  | Some messageState =>
      current ← messageState owner peer connection_id epoch;
      if negb current then Ok false
      else fst <$> connectionMessageAllowed owner peer connection_id epoch false false db'
  end.
End connections.

(** ** Conversations *)

(** [ConnectionError(status, message)]. *)
Definition connection_error {A} (message : String.string) : Tx A := throw_error message.
Arguments connection_error {A} message%_string.

Record Owner := { o_account_id : jstr; o_did : jstr }.
Record ConversationIdentity := { creator : jstr; conversationId : jstr }.
Definition identity_key (i : ConversationIdentity) : conversation_key := (creator i, conversationId i).

(** What authorizes an introduction: a connection and its epoch. *)
Notation connection_ref := (jstr * Z)%type.

(** [hail_assert_unfenced_account]: raises for an account that may not write now. *)
Class AccountFences := hail_assert_unfenced_account : Database -> jstr -> M unit.

(** What importing a did:key gives, and Web Crypto. *)
Class Keys := {
  subtle : SubtleCrypto;
  ed25519PublicKeyFromDidKey : jstr -> M CryptoKey;
}.

(** [instant + interval '24 months'], by the calendar of the database. *)
Class Calendar := { in_24_months : Z -> Z; in_24_months_later t : t < in_24_months t }.

Record ConversationState := {
  cs_state : membership_state + unit;      (** [inr tt]: expired *)
  cs_expires_at : Z;
  cs_participants : list jstr;
  cs_descriptor_hash : bytes;
  cs_can_revive : bool;
}.

Definition fenced (db : Database) (account : jstr) : bool :=
  bool_decide (is_Some (find_row (fun _ a => jstr_eqb a account) (db provider_migration_fences))).

Definition usable_account (a : Account) : bool := a_active a && a_public a && negb (a_closed a).

Section conversations.
Context `{HailEnv} `{Cborg} `{Keys}.
Context `{ConnectionFunctions} `{Triggers} `{AccountFences} `{Calendar}.

Definition conversationIntroductionAllowed (account connection_id : jstr) (epoch : Z)
    (db : Database) : bool :=
  match db connection_conversation_preferences !! (account, connection_id, epoch) with
  | Some allowed => allowed
  | None => default true (db account_conversation_preferences !! account)
  end.

Definition assert_unfenced (account : jstr) : Tx unit := fun db =>
  throwing (hail_assert_unfenced_account db account) db.

(** The lock itself orders transactions; the check is what the code sees. *)
Definition lockOwner (owner : Owner) : Tx unit :=
  row ← query (fun db => db provider_accounts !! o_account_id owner);
  match row with
  | Some a =>
      if jstr_eqb (a_did a) (o_did owner) && usable_account a then
        assert_unfenced (o_account_id owner)
      else connection_error "Current account is unavailable."
  | None => connection_error "Current account is unavailable."
  end.

Definition membership_now (m : Membership) (now : Z) : membership_state + unit :=
  match m_state m with
  | MemberLeft => inl MemberLeft
  | MemberActive => if m_expires_at m <=? now then inr tt else inl MemberActive
  end.

Definition conversationState (owner : Owner) (identity : ConversationIdentity) (now : Z)
    (db : Database) : option ConversationState :=
  m ← db conversation_memberships !! (o_account_id owner, identity_key identity);
  d ← db conversation_descriptors !! identity_key identity;
  Some {| cs_state := membership_now m now;
          cs_expires_at := m_expires_at m;
          cs_participants := d_participants d;
          cs_descriptor_hash := d_hash d;
          cs_can_revive := jstr_eqb (creator identity) (o_did owner) |}.

Definition is_active (state : option ConversationState) : bool :=
  match state with
  | Some s => match cs_state s with inl MemberActive => true | _ => false end
  | None => false
  end.

(** [conversationMessageAllowed]: the statement reads the clock at [now]. *)
Definition conversationMessageAllowed (ownerDid senderDid : jstr) (identity : ConversationIdentity)
    (descriptorHash : bytes) (lock : bool) (now : Z) : Tx bool :=
  row ← query (fun db => find_row (fun _ a => jstr_eqb (a_did a) ownerDid && usable_account a)
                           (db provider_accounts));
  match row with
  | None => mret false
  | Some (account, _) =>
      if jstr_eqb ownerDid senderDid then mret false
      else
        _ ← (if lock then lockOwner {| o_account_id := account; o_did := ownerDid |} else mret tt);
        query (fun db =>
          match db conversation_memberships !! (account, identity_key identity),
                db conversation_descriptors !! identity_key identity with
          | Some m, Some d =>
              bool_decide (d_hash d = descriptorHash)
              && includes (d_participants d) senderDid && includes (d_participants d) ownerDid
              && match m_state m with MemberActive => now <? m_expires_at m | MemberLeft => false end
              && negb (fenced db account)
          | _, _ => false
          end)
  end.

(** *** Admission *)

Record admission_proof := {
  ap_signing_key : jstr;
  ap_connection : option connection_ref;
}.

(** [created_at] and [admission_until] are seconds, [now] is cut to the milliseconds of a [Date]. *)
Definition outside_admission (d : HailConversation) (now : Z) : bool :=
  let ms := now / 1000 in
  (ms + 300000 <? cv_created_at d * 1000) || ((cv_admission_until d + 300) * 1000 <? ms).

Definition descriptor_row (d : HailConversation) (digest representation : bytes) (key : jstr)
    : Descriptor := {|
  d_hash := digest; d_cose := representation; d_participants := cv_participants d;
  d_created_at := seconds (cv_created_at d); d_admission_until := seconds (cv_admission_until d);
  d_signing_key := key |}.

Definition new_membership (inserted_at : Z) : Membership := {|
  m_state := MemberActive; m_expires_at := in_24_months inserted_at;
  m_last_activity_at := None; m_left_at := None |}.

(** The introduction by a connection that an admission by anyone but the creator needs. *)
Definition introduced (owner : Owner) (d : HailConversation) (proof : admission_proof) : Tx bool :=
  match ap_connection proof with
  | None => mret false
  | Some (connection_id, epoch) =>
      allowed ← connectionMessageAllowed (o_did owner) (cv_from d) connection_id epoch true false;
      if negb allowed then mret false
      else query (conversationIntroductionAllowed (o_account_id owner) connection_id epoch)
  end.

(** The clock is read before the window is checked, at the insertion of the membership, and for the
    returned state. *)
Definition admitConversation (owner : Owner) (descriptor : InspectedHailObject HailConversation)
    (proof : admission_proof) (now inserted_at read_at : Z) : Tx bool :=
  let d := payload descriptor in
  let identity := {| creator := cv_from d; conversationId := cv_conversation_id d |} in
  if negb (bool_decide (inspected_type descriptor = Profiles.conversation))
     || negb (includes (cv_participants d) (o_did owner)) then mret false
  else
    introduced ← (if jstr_eqb (o_did owner) (cv_from d) then mret true
                  else introduced owner d proof);
    if negb introduced then mret false
    else
      _ ← lockOwner owner;
      let digest := sha256 (representationBytes descriptor) in
      previous ← query (fun db => db conversation_descriptors !! identity_key identity);
      _ ← match previous with
          | Some p => if bool_decide (d_hash p = digest) then mret tt
                      else connection_error "Conversation descriptor conflicts with its original roster."
          | None => mret tt
          end;
      if outside_admission d now then mret false
      else
        _ ← match previous with
            | Some _ => mret tt
            | None =>
                _ ← write conversation_descriptors (insert_new (identity_key identity)
                      (descriptor_row d digest (representationBytes descriptor) (ap_signing_key proof)));
                winner ← query (fun db => db conversation_descriptors !! identity_key identity);
                match winner with
                | Some w => if bool_decide (d_hash w = digest) then mret tt
                            else connection_error "Conversation descriptor conflict."
                | None => throw_error "undefined is not an object"
                end
            end;
        _ ← write conversation_memberships
              (insert_new (o_account_id owner, identity_key identity) (new_membership inserted_at));
        query (fun db => is_active (conversationState owner identity read_at db)).

(** *** Changes by the account *)

Inductive membership_action := ActionOpen | ActionLeave | ActionRejoin | ActionRevive.

Definition leave_membership (now : Z) (m : Membership) : Membership := {|
  m_state := MemberLeft; m_expires_at := m_expires_at m; m_last_activity_at := m_last_activity_at m;
  m_left_at := Some (default now (m_left_at m)) |}.

(** The renewal's [WHERE] lets an explicit action through, and other activity once an hour. *)
Definition renew_membership (explicit : bool) (now : Z) (m : Membership) : Membership :=
  if explicit || match m_last_activity_at m with
                 | None => true
                 | Some t => t <? now - seconds 3600
                 end
  then {| m_state := MemberActive; m_expires_at := in_24_months now;
          m_last_activity_at := Some now; m_left_at := None |}
  else m.

Definition changeConversationMembership (owner : Owner) (identity : ConversationIdentity)
    (action : membership_action) (now updated_at read_at : Z) : Tx (option ConversationState) :=
  let key := (o_account_id owner, identity_key identity) in
  _ ← lockOwner owner;
  current ← query (conversationState owner identity now);
  match current with
  | None => connection_error "Conversation unavailable."
  | Some current =>
      _ ← match action, cs_state current with
          | ActionRejoin, inl MemberLeft => mret tt
          | ActionRejoin, _ => connection_error "Only a conversation you left can be rejoined. Expired participation requires creator revival."
          | ActionRevive, inr tt =>
              if jstr_eqb (o_did owner) (creator identity) then mret tt
              else connection_error "Only the creator can revive expired participation."
          | ActionRevive, _ => connection_error "Only the creator can revive expired participation."
          | _, _ => mret tt
          end;
      _ ← match action, cs_state current with
          | ActionLeave, _ => write conversation_memberships (update_row key (leave_membership updated_at))
          | ActionRejoin, _ | ActionRevive, _ =>
              write conversation_memberships (update_row key (renew_membership true updated_at))
          | ActionOpen, inl MemberActive =>
              write conversation_memberships (update_row key (renew_membership false updated_at))
          | ActionOpen, _ => mret tt
          end;
      query (conversationState owner identity read_at)
  end.

(** *** Revival by the creator *)

Definition descriptor_verifier (signing_key : jstr) : HailVerifier :=
  createWebCryptoVerifier (fun _ => ed25519PublicKeyFromDidKey signing_key) subtle.

(** Seconds and microseconds compared as numbers. *)
Definition revival_window (r : HailConversationRevival) (now : Z) : bool :=
  let ms := now / 1000 in
  (ms + 300000 <? rv_issued_at r * 1000) || ((rv_expires_at r + 300) * 1000 <? ms).

Definition revive_outcome (state : ConversationState) (permitted : bool) : revival_outcome :=
  match cs_state state with
  | inl MemberLeft => RevivalLeft
  | inl MemberActive => RevivalActive
  | inr tt => if permitted then RevivalRenewed else RevivalDenied
  end.

Definition extend_membership (now : Z) (m : Membership) : Membership := {|
  m_state := m_state m; m_expires_at := in_24_months now; m_last_activity_at := None;
  m_left_at := m_left_at m |}.

(** The descriptor the account holds, with the key that signed it. *)
Definition held_descriptor (owner : Owner) (identity : ConversationIdentity) (db : Database)
    : option Descriptor :=
  _ ← db conversation_memberships !! (o_account_id owner, identity_key identity);
  db conversation_descriptors !! identity_key identity.

Definition reviveConversation (owner : Owner) (request : InspectedHailObject HailConversationRevival)
    (connection : connection_ref) (now read_at updated_at : Z) : Tx revival_outcome :=
  let r := payload request in
  let identity := {| creator := rv_from r; conversationId := rv_conversation_id r |} in
  let key := (o_account_id owner, identity_key identity) in
  let receipt := (o_account_id owner, rv_from r, rv_request_id r) in
  if negb (bool_decide (inspected_type request = conversation_revival))
     || negb (jstr_eqb (rv_to r) (o_did owner))
  then connection_error "Connection not changed. Check the original approval before retrying."
  else
    connected ← connectionMessageAllowed (o_did owner) (rv_from r) connection.1 connection.2 true false;
    _ ← lockOwner owner;
    held ← query (held_descriptor owner identity);
    match held with
    | None => connection_error "Unknown conversation cannot be revived."
    | Some d =>
        verified ← throwing (verifyTyped Profiles.conversation (d_cose d)
                               (descriptor_verifier (d_signing_key d)));
        _ ← throwing (validateConversationRevivalBinding verified request);
        let digest := sha256 (representationBytes request) in
        prior ← query (fun db => db conversation_revival_receipts !! receipt);
        match prior with
        | Some prior =>
            if bool_decide (rr_request_hash prior = digest) then mret (rr_outcome prior)
            else connection_error "Revival request ID conflict."
        | None =>
            if revival_window r now then
              connection_error "Revival request expired or is not yet valid."
            else
              state ← query (conversationState owner identity read_at);
              match state with
              | None => throw_error "null is not an object"
              | Some state =>
                  introductions ← query (conversationIntroductionAllowed (o_account_id owner)
                                           connection.1 connection.2);
                  let outcome := revive_outcome state (connected && introductions) in
                  _ ← match outcome with
                      | RevivalRenewed =>
                          write conversation_memberships (update_row key (extend_membership updated_at))
                      | _ => mret tt
                      end;
                  _ ← write conversation_revival_receipts (insert_new receipt {|
                        rr_conversation_id := rv_conversation_id r; rr_request_hash := digest;
                        rr_expires_at := seconds (rv_expires_at r + 300); rr_outcome := outcome |});
                  mret outcome
              end
        end
    end.
End conversations.
