(* ===== verification/Envelopes.v ===== *)
(** * Envelopes (apps/server/src/envelopes/repository.ts, admission.ts)

    What the provider keeps of the envelopes it sent and received.  Accepting an envelope decides
    its outcome under the lock of what authorizes it (a grant, a reply capability, a connection or
    a conversation), reserves its identifier, and queues the delivery of its body; the admission
    budgets bound the outstanding deliveries and the rejections that are remembered.

    Arguments that are instants are the values the code reads from the clock of the database. *)

From S2P Require Import Prelude JsString Value Cbor Profiles Validation ValidatePayload Models.
From S2P Require Import Cose Database Typed ServerBodies Conversations.
From Stdlib Require Import ZArith.
Open Scope Z_scope.

(** ** Decisions *)

(** The evidence, as the text PostgreSQL keeps of each part. *)
Record PlcResolutionEvidence := { document : bytes; data : bytes; log : bytes }.

(** [retainAuthority] writes evidence outside these tables: all it can do here is throw. *)
Record EnvelopeDecision := {
  decided_payload : HailEnvelope;
  representation : bytes;
  payloadDigest : bytes;
  envelopeDigest : bytes;
  localAccountId : jstr;
  signingPublicKey : jstr;
  evidence : PlcResolutionEvidence;
  retainAuthority : option (M unit);
  conversationDescriptor : option (InspectedHailObject HailConversation);
}.

Inductive EnvelopeOutcome :=
| OutcomeAccepted | Duplicate | Conflict | Unauthorized | MessageExpired | RateLimited.

(** [retainPublicEnvelopeAuthority] binds the acceptance to public evidence, in other tables. *)
Class EnvelopeAuthority :=
  retainPublicEnvelopeAuthority : EnvelopeDecision -> Z -> Database -> M unit.

(** ** Admission (admission.ts) *)

Record EnvelopeAdmissionLimits := {
  pendingSender : Z; pendingRecipient : Z; pendingProvider : Z;
  rejectedSender : Z; rejectedProvider : Z;
  rejectedSenderBytes : Z; rejectedProviderBytes : Z;
}.
Definition ENVELOPE_ADMISSION : EnvelopeAdmissionLimits := {|
  pendingSender := 16; pendingRecipient := 64; pendingProvider := 256;
  rejectedSender := 64; rejectedProvider := 4096;
  rejectedSenderBytes := 1048576; rejectedProviderBytes := 67108864 |}.

(** The error of the class [EnvelopeCapacityError], which [accept] turns into an outcome. *)
Definition EnvelopeCapacityError : exn := OtherError (js "EnvelopeCapacityError").

Definition envelope_key (e : HailEnvelope) : msg_key := (e_from e, e_message_id e).

Definition pending (w : Work) : bool :=
  match w_state w with accepted | on_hold => true | _ => false end.
Definition rejected (r : Received) : bool :=
  match r_outcome r with ReceivedAccepted => false | _ => true end.

(** The outstanding deliveries whose received envelope satisfies a condition. *)
Definition pending_count (db : Database) (f : msg_key -> Received -> bool) : Z :=
  count_rows (fun k w => pending w && match db received_envelopes !! k with
                                      | Some r => f k r
                                      | None => false
                                      end) (db delivery_work).

Definition evidence_bytes (input : EnvelopeDecision) : Z :=
  Z.of_nat (length (representation input) + length (document (evidence input)) +
            length (data (evidence input)) + length (log (evidence input))).

Definition pending_full (limits : EnvelopeAdmissionLimits) (p : HailEnvelope) (db : Database) : bool :=
  (pendingProvider limits <=? pending_count db (fun _ _ => true))
  || (pendingSender limits <=? pending_count db (fun k _ => jstr_eqb k.1 (e_from p)))
  || (pendingRecipient limits <=? pending_count db (fun _ r => jstr_eqb (r_recipient_did r) (e_to p))).

Definition rejected_full (limits : EnvelopeAdmissionLimits) (input : EnvelopeDecision) (db : Database)
    : bool :=
  let mine := fun (k : msg_key) => jstr_eqb k.1 (e_from (decided_payload input)) in
  let bs := evidence_bytes input in
  let table := db received_envelopes in
  (rejectedProvider limits <=? count_rows (fun _ r => rejected r) table)
  || (rejectedSender limits <=? count_rows (fun k r => rejected r && mine k) table)
  || (rejectedProviderBytes limits <? sum_rows (fun _ r => rejected r) r_admission_bytes table + bs)
  || (rejectedSenderBytes limits <?
      sum_rows (fun k r => rejected r && mine k) r_admission_bytes table + bs).

Definition admitEnvelope (input : EnvelopeDecision) (accepted : bool) (limits : EnvelopeAdmissionLimits)
    : Tx unit := fun db =>
  match db received_envelopes !! envelope_key (decided_payload input) with
  | Some _ => Ok (tt, db)
  | None =>
      if (if accepted then pending_full limits (decided_payload input) db
          else rejected_full limits input db)
      then Err EnvelopeCapacityError else Ok (tt, db)
  end.

(** ** The repository (repository.ts) *)

Definition deliveryDeadline (e : HailEnvelope) : Z :=
  Z.min (Z.min (e_expires_at e + 300) (bd_available_until (e_body e)))
    (access_expires_at (bd_access (e_body e))).

Definition received_of (outcome : EnvelopeOutcome) : received_outcome :=
  match outcome with
  | OutcomeAccepted => ReceivedAccepted
  | MessageExpired => ReceivedExpired
  | _ => ReceivedUnauthorized
  end.

Definition received_row (input : EnvelopeDecision) (outcome : EnvelopeOutcome) (now : Z) : Received :=
  let e := decided_payload input in {|
  r_recipient_did := e_to e; r_authorization := e_authorization e;
  r_local_account_id := localAccountId input; r_envelope_cose := representation input;
  r_envelope_digest := envelopeDigest input; r_payload_digest := payloadDigest input;
  r_signing_public_key := signingPublicKey input; r_outcome := received_of outcome;
  r_accepted_at := match outcome with
                   | OutcomeAccepted => Some (now / 1000 * 1000)
                   | _ => None
                   end;
  r_conversation_message_id := e_conversation_message_id e;
  r_admission_bytes := evidence_bytes input |}.

(** The row an [INSERT] into [delivery_work] makes, in a transaction that started at [started]. *)
Definition new_work (started : Z) : Work := {|
  w_state := accepted; w_reason := None; w_status_revision := 1; w_attempt_count := 0;
  w_next_attempt_at := started; w_lease := None; w_transitioned_at := started |}.

(** The unique identity of a message in a conversation. *)
Definition same_conversation_message (account : jstr) (e : HailEnvelope) (k : msg_key) (r : Received) : bool :=
  match e_authorization e, r_authorization r with
  | AuthorizedByConversation creator id _, AuthorizedByConversation creator' id' _ =>
      jstr_eqb (r_local_account_id r) account && jstr_eqb creator' creator && jstr_eqb id' id
      && jstr_eqb k.1 (e_from e)
      && match e_conversation_message_id e, r_conversation_message_id r with
         | Some m, Some m' => jstr_eqb m m'
         | _, _ => false
         end
  | _, _ => false
  end.

Section envelopes.
Context `{HailEnv} `{Cborg}.
Context `{ConnectionFunctions} `{Triggers} `{AccountFences} `{Calendar} `{EnvelopeAuthority}.

Definition previousOutcome (payload : HailEnvelope) (digest : bytes) (db : Database)
    : option EnvelopeOutcome :=
  (fun r => if bool_decide (r_payload_digest r = digest) then Duplicate else Conflict)
    <$> db received_envelopes !! envelope_key payload.

(** [throwing] a failure that another part of the code raises. *)
Definition retain (m : option (M unit)) : Tx unit :=
  match m with Some m => throwing m | None => mret tt end.

Definition insertReceived (input : EnvelopeDecision) (outcome : EnvelopeOutcome) (now started : Z)
    (authorityRetained : bool) (limits : EnvelopeAdmissionLimits) : Tx bool :=
  let payload := decided_payload input in
  let key := envelope_key payload in
  let accepted := match outcome with OutcomeAccepted => true | _ => false end in
  _ ← admitEnvelope input accepted limits;
  _ ← (if accepted && negb authorityRetained then retain (retainAuthority input) else mret tt);
  existing ← query (fun db => db received_envelopes !! key);
  match existing with
  | Some _ => mret false
  | None =>
      clash ← query (fun db =>
        find_row (same_conversation_message (localAccountId input) payload) (db received_envelopes));
      _ ← match clash with
          | Some _ => throw_error "duplicate key value violates unique constraint"
          | None => mret tt
          end;
      _ ← write received_envelopes <[key := received_row input outcome now]>;
      if accepted then
        _ ← (fun db => throwing (retainPublicEnvelopeAuthority input now db) db) : Tx unit;
        work ← query (fun db => db delivery_work !! key);
        match work with
        | Some _ => throw_error "duplicate key value violates unique constraint"
        | None => _ ← write delivery_work <[key := new_work started]>; mret true
        end
      else mret true
  end.

(** What every path does with an outcome: the winner's when the insertion lost. *)
Definition record_outcome (input : EnvelopeDecision) (outcome : EnvelopeOutcome) (now started : Z)
    (authorityRetained : bool) (limits : EnvelopeAdmissionLimits) : Tx (bool * EnvelopeOutcome) :=
  inserted ← insertReceived input outcome now started authorityRetained limits;
  if inserted : bool then mret (true, outcome)
  else
    winner ← query (previousOutcome (decided_payload input) (payloadDigest input));
    mret (false, default Conflict winner).

(** *** [accept] *)

(** The readings of the clock in one acceptance: its start, the three of an admission, the one of
    the membership check and the one the outcome is decided by. *)
Record accept_clock := {
  at_start : Z; at_admission : Z; at_insert : Z; at_read : Z; at_member : Z; at_decision : Z;
}.

Definition account_exists (account did : jstr) (db : Database) : bool :=
  match db provider_accounts !! account with
  | Some a => jstr_eqb (a_did a) did
  | None => false
  end.

Definition expired (payload : HailEnvelope) (now : Z) : bool :=
  seconds (deliveryDeadline payload) <? now.

(** The introduction that comes with the descriptor the receiver verified. *)
Definition introduction_of (input : EnvelopeDecision)
    : option (conversation_introduction * InspectedHailObject HailConversation) :=
  intro ← e_conversation_introduction (decided_payload input);
  pair intro <$> conversationDescriptor input.

Definition acceptConversation (input : EnvelopeDecision) (limits : EnvelopeAdmissionLimits)
    (clock : accept_clock) (creator conversation_id : jstr) (descriptor_hash : bytes)
    : Tx EnvelopeOutcome :=
  let payload := decided_payload input in
  let owner := {| o_account_id := localAccountId input; o_did := e_to payload |} in
  exists_ ← query (account_exists (localAccountId input) (e_to payload));
  if negb exists_ then mret Unauthorized
  else
    previous ← query (previousOutcome payload (payloadDigest input));
    match previous with
    | Some outcome => mret outcome
    | None =>
        _ ← match introduction_of input with
            | Some (intro, descriptor) =>
                _ ← admitEnvelope input true limits;
                _ ← retain (retainAuthority input);
                _ ← admitConversation owner descriptor
                      {| ap_signing_key := signingPublicKey input;
                         ap_connection := Some (in_connection_id intro, in_epoch intro) |}
                      (at_admission clock) (at_insert clock) (at_read clock);
                mret tt
            | None => mret tt
            end;
        permitted ← conversationMessageAllowed (e_to payload) (e_from payload)
          {| Conversations.creator := creator; conversationId := conversation_id |} descriptor_hash
          true (at_member clock);
        if negb permitted then mret Unauthorized
        else
          let now := at_decision clock in
          snd <$> record_outcome input (if expired payload now then MessageExpired else OutcomeAccepted)
            now (at_start clock) (bool_decide (is_Some (introduction_of input))) limits
    end.

Definition acceptConnection (input : EnvelopeDecision) (limits : EnvelopeAdmissionLimits)
    (clock : accept_clock) (connection_id : jstr) (epoch : Z) : Tx EnvelopeOutcome :=
  let payload := decided_payload input in
  exists_ ← query (account_exists (localAccountId input) (e_to payload));
  if negb exists_ then mret Unauthorized
  else
    permitted ← connectionMessageAllowed (e_to payload) (e_from payload) connection_id epoch true true;
    previous ← query (previousOutcome payload (payloadDigest input));
    match previous with
    | Some outcome => mret outcome
    | None =>
        let now := at_decision clock in
        snd <$> record_outcome input
          (if expired payload now then MessageExpired
           else if permitted : bool then OutcomeAccepted else Unauthorized)
          now (at_start clock) false limits
    end.

(** The capability and the envelope that gave it. *)
Definition reply_claim (payload : HailEnvelope) (reply_to : jstr) (db : Database)
    : option (Capability * Sent) :=
  capability ← db reply_capabilities !! (e_to payload, reply_to);
  sent ← db sent_envelopes !! (e_to payload, reply_to);
  if jstr_eqb (c_permitted_recipient_did capability) (e_from payload)
  then Some (capability, sent) else None.

Definition reply_permits (original payload : HailEnvelope) (capability : Capability) : bool :=
  match e_reply original with
  | ReplyAllowed until => until =? c_reply_until capability
  | ReplyDenied => false
  end && jstr_eqb (e_from original) (e_to payload) && jstr_eqb (e_to original) (e_from payload).

Definition reply_open (original : HailEnvelope) (capability : Capability) (now : Z) : bool :=
  match c_state capability with Available => true | _ => false end
  && match e_reply original with
     | ReplyAllowed until => now <=? seconds (until + 300)
     | ReplyDenied => false
     end.

Definition claim_capability (key : msg_key) (capability : Capability) : Capability := {|
  c_permitted_recipient_did := c_permitted_recipient_did capability;
  c_reply_until := c_reply_until capability; c_state := Claimed; c_claimed := Some key |}.

Definition acceptReply (input : EnvelopeDecision) (limits : EnvelopeAdmissionLimits)
    (clock : accept_clock) (reply_to : jstr) : Tx EnvelopeOutcome :=
  let payload := decided_payload input in
  claim ← query (reply_claim payload reply_to);
  match claim with
  | None => mret Unauthorized
  | Some (capability, sent) =>
      if negb (jstr_eqb (s_sender_account_id sent) (localAccountId input)) then mret Unauthorized
      else
        inspected ← throwing (inspectTyped Profiles.envelope (s_envelope_cose sent));
        let original : HailEnvelope := Cose.payload inspected in
        if negb (reply_permits original payload capability) then mret Unauthorized
        else
          previous ← query (previousOutcome payload (payloadDigest input));
          match previous with
          | Some outcome => mret outcome
          | None =>
              let now := at_decision clock in
              let outcome := if expired payload now then MessageExpired
                             else if reply_open original capability now then OutcomeAccepted
                             else Unauthorized in
              '(inserted, result) ← record_outcome input outcome now (at_start clock) false limits;
              _ ← match inserted, outcome with
                  | true, OutcomeAccepted =>
                      write reply_capabilities
                        (update_row (e_to payload, reply_to) (claim_capability (envelope_key payload)))
                  | _, _ => mret tt
                  end;
              mret result
          end
  end.

(** The lineage of a grant the recipient gave the sender, with its current revision. *)
Definition granted (payload : HailEnvelope) (grant_id : jstr) (db : Database)
    : option (Lineage * GrantRevision) :=
  lineage ← db grant_lineages !! grant_id;
  revision ← db grant_revisions !! (grant_id, l_current_revision lineage);
  if jstr_eqb (l_grantor_did lineage) (e_to payload) && jstr_eqb (l_grantee_did lineage) (e_from payload)
     && l_grantor_role lineage
  then Some (lineage, revision) else None.

Definition grant_permits (lineage : Lineage) (revision : GrantRevision) (payload : HailEnvelope)
    (now : Z) : bool :=
  l_active lineage
  && match gr_expires_at revision with None => true | Some t => now <=? seconds t end
  && match gr_scope revision, e_category payload with
     | selector :: _, Some category => includes (scope_values selector) category
     | _, _ => false
     end.

Definition acceptGrant (input : EnvelopeDecision) (limits : EnvelopeAdmissionLimits)
    (clock : accept_clock) (grant_id : jstr) : Tx EnvelopeOutcome :=
  let payload := decided_payload input in
  lineage ← query (granted payload grant_id);
  match lineage with
  | None => mret Unauthorized
  | Some (lineage, revision) =>
      if negb (jstr_eqb (l_local_account_id lineage) (localAccountId input)) then mret Unauthorized
      else
        previous ← query (previousOutcome payload (payloadDigest input));
        match previous with
        | Some outcome => mret outcome
        | None =>
            let now := at_decision clock in
            snd <$> record_outcome input
              (if expired payload now then MessageExpired
               else if grant_permits lineage revision payload now then OutcomeAccepted
               else Unauthorized)
              now (at_start clock) false limits
        end
  end.

Definition acceptWithinBudget (input : EnvelopeDecision) (limits : EnvelopeAdmissionLimits)
    (clock : accept_clock) : Tx EnvelopeOutcome :=
  match e_authorization (decided_payload input) with
  | AuthorizedByConversation creator conversation_id descriptor_hash =>
      acceptConversation input limits clock creator conversation_id (digest_value descriptor_hash)
  | AuthorizedByConnection connection_id epoch => acceptConnection input limits clock connection_id epoch
  | AuthorizedByReply reply_to => acceptReply input limits clock reply_to
  | AuthorizedByGrant grant_id => acceptGrant input limits clock grant_id
  end.

(** The transaction, with its capacity error turned into an outcome. *)
Definition accept (input : EnvelopeDecision) (limits : EnvelopeAdmissionLimits) (clock : accept_clock)
    (db : Database) : M EnvelopeOutcome * Database :=
  match begin (acceptWithinBudget input limits clock) db with
  | (Err e, db) => if bool_decide (e = EnvelopeCapacityError) then (Ok RateLimited, db) else (Err e, db)
  | committed => committed
  end.

(** *** Reading *)

Definition sent (senderDid messageId : jstr) (db : Database) : option bytes :=
  s_envelope_cose <$> db sent_envelopes !! (senderDid, messageId).

Definition conversationSendAllowed (payload : HailEnvelope) (now : Z) : Tx bool :=
  match e_authorization payload with
  | AuthorizedByConversation creator conversation_id descriptor_hash =>
      conversationMessageAllowed (e_from payload) (e_to payload)
        {| Conversations.creator := creator; conversationId := conversation_id |}
        (digest_value descriptor_hash) false now
  | _ => mret true
  end.

(** Whether something could authorize the envelope, before its decision under lock. *)
Definition candidate (payload : HailEnvelope) (now : Z) : Tx bool :=
  let from := e_from payload in
  let to := e_to payload in
  match e_authorization payload with
  | AuthorizedByConversation creator conversation_id descriptor_hash =>
      member ← conversationMessageAllowed to from
        {| Conversations.creator := creator; conversationId := conversation_id |}
        (digest_value descriptor_hash) false now;
      if member : bool then mret true
      else match e_conversation_introduction payload with
      | Some intro =>
          if jstr_eqb from creator
          then connectionMessageAllowed to from (in_connection_id intro) (in_epoch intro) false true
          else mret false
      | None => mret false
      end
  | AuthorizedByConnection connection_id epoch =>
      connectionMessageAllowed to from connection_id epoch false true
  | AuthorizedByReply reply_to =>
      query (fun db => match db reply_capabilities !! (to, reply_to) with
                       | Some c => jstr_eqb (c_permitted_recipient_did c) from
                       | None => false
                       end)
  | AuthorizedByGrant grant_id =>
      query (fun db => match db grant_lineages !! grant_id with
                       | Some l => jstr_eqb (l_grantor_did l) to && jstr_eqb (l_grantee_did l) from
                                   && l_grantor_role l
                       | None => false
                       end)
  end.

(** *** [createSent] *)

(** The payload is passed as a value and at its type. *)
Definition sent_row (payload : HailEnvelope) (representation digest : bytes) (account : jstr) : Sent := {|
  s_recipient_did := e_to payload; s_authorization := e_authorization payload;
  s_envelope_cose := representation; s_envelope_digest := digest;
  s_body_digest := digest_value (bd_digest (e_body payload)); s_sender_account_id := account;
  s_conversation_message_id := e_conversation_message_id payload |}.

Definition new_capability (payload : HailEnvelope) (until : Z) : Capability := {|
  c_permitted_recipient_did := e_to payload; c_reply_until := until;
  c_state := Available; c_claimed := None |}.

(** A plain [INSERT]: a row with the key makes it throw. *)
Definition insert_unique {V} (t : table) (lookup : Database -> option V)
    (f : rows t -> rows t) : Tx unit :=
  existing ← query lookup;
  match existing with
  | Some _ => throw_error "duplicate key value violates unique constraint"
  | None => write t f
  end.

Definition send_authorized (payload : HailEnvelope) (now : Z) : Tx unit :=
  match e_authorization payload with
  | AuthorizedByConnection connection_id epoch =>
      allowed ← connectionMessageAllowed (e_from payload) (e_to payload) connection_id epoch true false;
      if allowed : bool then mret tt else throw_error "Connection ended before envelope persistence"
  | AuthorizedByConversation creator conversation_id descriptor_hash =>
      allowed ← conversationMessageAllowed (e_from payload) (e_to payload)
        {| Conversations.creator := creator; conversationId := conversation_id |}
        (digest_value descriptor_hash) true now;
      if allowed : bool then mret tt
      else throw_error "Conversation participation ended before envelope persistence"
  | _ => mret tt
  end.

Definition available_less (until : Z) (body : DetachedBody) : bool :=
  match b_available_until body with None => true | Some t => t <? until end.
Definition extend_body (until : Z) (body : DetachedBody) : DetachedBody :=
  {| b_bytes := b_bytes body; b_available_until := Some until |}.

Definition createSent (value : jsval) (payload : HailEnvelope) (representation : bytes)
    (accountId : jstr) (now : Z) : Tx unit :=
  inspected ← throwing (inspectSignedPayload Profiles.envelope representation);
  encoded ← throwing (encodePayload (Signed Profiles.envelope) value DEFAULT_HAIL_RESOURCE_LIMITS);
  _ ← throwing (throw_if (negb (Cbor.equalBytes (payloadBytes inspected) encoded)
                          || (16384 <? Z.of_nat (length representation)))
        (OtherError (js "Invalid signed envelope")));
  let body := e_body payload in
  let digest := digest_value (bd_digest body) in
  let key := envelope_key payload in
  let tokenHash := sha256 (access_token (bd_access body)) in
  _ ← send_authorized payload now;
  account ← query (fun db => db provider_accounts !! accountId);
  _ ← match account with
      | Some a => if jstr_eqb (a_did a) (e_from payload) && a_active a && a_public a then mret tt
                  else throw_error "Sender is not publicly active"
      | None => throw_error "Sender is not publicly active"
      end;
  published ← query (fun db => db detached_bodies !! (digest, accountId));
  published ← match published with
      | Some b => if Z.of_nat (length (b_bytes b)) =? bd_size body then mret b
                  else throw_error "Signed body is not published"
      | None => throw_error "Signed body is not published"
      end;
  _ ← insert_unique sent_envelopes (fun db => db sent_envelopes !! key)
        <[key := sent_row payload representation (sha256 (payloadBytes inspected)) accountId]>;
  _ ← match e_reply payload with
      | ReplyAllowed until =>
          insert_unique reply_capabilities (fun db => db reply_capabilities !! key)
            <[key := new_capability payload until]>
      | ReplyDenied => mret tt
      end;
  _ ← insert_unique body_authorizations (fun db => db body_authorizations !! tokenHash)
        <[tokenHash := {| ba_body_digest := digest; ba_sender_account_id := accountId;
                          ba_recipient_did := e_to payload; ba_message_id := e_message_id payload;
                          ba_expires_at := access_expires_at (bd_access body);
                          ba_available_until := bd_available_until body |}]>;
  if available_less (bd_available_until body) published
  then write detached_bodies (update_row (digest, accountId) (extend_body (bd_available_until body)))
  else mret tt.
End envelopes.
