(* ===== verification/Grants.v ===== *)
(** * Grants (apps/server/src/grants/repository.ts, revision.ts, store.ts)

    A grantor permits a grantee to send: a signed grant with a scope, revised by further signed
    grants that name their predecessor by its digest, until one of them revokes it.  The provider of
    the grantor keeps the authoritative lineage and publishes its revisions; the provider of the
    grantee keeps what it received.  When one provider serves both, they share the lineage.

    The retained PLC evidence is kept in other tables: what writing it raises is a class. *)

From S2P Require Import Prelude JsString Value Cbor Profiles Validation ValidatePayload Models.
From S2P Require Import Cose Database Typed Conversations Envelopes.
From Stdlib Require Import ZArith.
Open Scope Z_scope.

#[export] Instance grant_status_eq_dec : EqDecision grant_status.
Proof. solve_decision. Defined.
#[export] Instance HailDigest_eq_dec : EqDecision HailDigest.
Proof. solve_decision. Defined.
#[export] Instance HailGrantScope_eq_dec : EqDecision HailGrantScope.
Proof. solve_decision. Defined.
#[export] Instance HailConsentContext_eq_dec : EqDecision HailConsentContext.
Proof. solve_decision. Defined.
#[export] Instance HailGrant_eq_dec : EqDecision HailGrant.
Proof. solve_decision. Defined.
#[export] Instance HailAddressBinding_eq_dec : EqDecision HailAddressBinding.
Proof. solve_decision. Defined.
#[export] Instance asset_role_eq_dec : EqDecision asset_role.
Proof. solve_decision. Defined.
#[export] Instance HailBundledImageAsset_eq_dec : EqDecision HailBundledImageAsset.
Proof. solve_decision. Defined.
#[export] Instance HailAssetManifest_eq_dec : EqDecision HailAssetManifest.
Proof. solve_decision. Defined.
#[export] Instance HailSenderCategory_eq_dec : EqDecision HailSenderCategory.
Proof. solve_decision. Defined.
#[export] Instance HailSenderProfileBase_eq_dec : EqDecision HailSenderProfileBase.
Proof. solve_decision. Defined.
#[export] Instance HailSenderProfile_eq_dec : EqDecision HailSenderProfile.
Proof. solve_decision. Defined.

(** ** Revisions (revision.ts) *)

(** [payload.scope], one selector in a list. *)
Definition scope_array (g : HailGrant) : hvalue :=
  HArr [HMap false [(js "type", HStr (js "categories"));
                    (js "values", HArr (map HStr (scope_values (g_scope g))))]].

Definition expandsAuthorization (current next : HailGrant) : bool :=
  match g_status next with
  | grant_revoked => false
  | grant_active =>
      existsb (fun value => negb (includes (scope_values (g_scope current)) value))
        (scope_values (g_scope next))
      || match g_expires_at current with
         | Some t => match g_expires_at next with None => true | Some t' => t <? t' end
         | None => false
         end
  end.

Section revision.
Context `{HailEnv} `{Cborg}.

Definition equalGrantValue (a b : hvalue) : M bool :=
  x ← encodeDeterministic DEFAULT_HAIL_RESOURCE_LIMITS (of_hail a);
  y ← encodeDeterministic DEFAULT_HAIL_RESOURCE_LIMITS (of_hail b);
  Ok (Cbor.equalBytes x y).

Definition restrictsAuthorization (current next : HailGrant) : M bool :=
  if expandsAuthorization current next then Ok false
  else
    same_scope ← equalGrantValue (scope_array current) (scope_array next);
    Ok (negb same_scope || negb (bool_decide (g_expires_at current = g_expires_at next))
        || bool_decide (g_status next = grant_revoked)).
End revision.

(** ** What the repository takes and returns (store.ts) *)

Inductive grant_role := RoleGrantor | RoleGrantee.
#[export] Instance grant_role_eq_dec : EqDecision grant_role.
Proof. solve_decision. Defined.

Record SignedGrantRevision := {
  sgr_account : jstr; sgr_role : grant_role; sgr_payload : HailGrant; sgr_representation : bytes;
  sgr_digest : bytes; sgr_signing_key : jstr;
}.

(** Verified consent: the address and the profile as they were verified. *)
Record VerifiedAddress := {
  va_address : jstr; va_did : jstr; va_serviceBase : jstr; va_messagingDidKey : jstr;
  va_binding : HailAddressBinding; va_representation : bytes; va_digest : bytes;
}.
Record VerifiedSenderProfile := {
  vp_did : jstr; vp_serviceBase : jstr; vp_messagingDidKey : jstr; vp_profile : HailSenderProfile;
  vp_representation : bytes; vp_digest : bytes;
}.
Record GrantConsentEvidence := { address : VerifiedAddress; senderProfile : VerifiedSenderProfile }.

Record AuthoritativeGrantUpdate := {
  gu_revision : SignedGrantRevision; gu_expectedCurrentRevision : Z; gu_expectedCurrentDigest : bytes;
  gu_consent : option GrantConsentEvidence; gu_destination : option jstr;
}.

Record GrantPublicationClaim := {
  gc_grant : SignedGrantRevision; gc_destination : jstr; gc_token : jstr; gc_expires : Z; gc_attempt : Z;
}.

(** [ClaimedPublicationResult]. *)
Record publication_result := {
  gpr_grant_id : jstr; gpr_revision : Z; gpr_token : jstr; gpr_status : option Z; gpr_error : option jstr;
}.

Definition unique_violation : exn := OtherError (js "duplicate key value violates unique constraint").

(** [retainPublicGrantAuthority] writes evidence to other tables. *)
Class GrantAuthority :=
  retainPublicGrantAuthority : SignedGrantRevision -> option GrantConsentEvidence -> Database -> M unit.

Definition profile_base (p : HailSenderProfile) : HailSenderProfileBase :=
  match p with HailSenderProfileV1 base => base | HailSenderProfileV2 base _ => base end.

Definition accountParty (g : HailGrant) (role : grant_role) : jstr :=
  match role with RoleGrantor => g_grantor g | RoleGrantee => g_grantee g end.

Definition binding_hash (g : HailGrant) : bytes := digest_value (cc_address_binding_hash (g_consent_context g)).
Definition profile_hash (g : HailGrant) : bytes := digest_value (cc_sender_profile_hash (g_consent_context g)).

(** ** Rows *)

Section repository.
Context `{HailEnv} `{Cborg} `{Triggers} `{GrantAuthority}.

Definition grant_error {A} (message : String.string) : M A := Err (OtherError (js message)).
Arguments grant_error {A} message%_string.

(** [Number(value)] of a [bigint] column. *)
Definition safeInteger (value : Z) (field : String.string) : M Z :=
  if isSafeInteger value then Ok value
  else Err (OtherError (js "Persisted Grant " ++ js field ++ js " is unsafe")).
Arguments safeInteger value field%_string.

Definition grantFromRow (grant_id : jstr) (revision : Z) (l : Lineage) (r : GrantRevision)
    : M SignedGrantRevision :=
  inspected ← inspectTyped Profiles.grant (gr_cose r);
  let p : HailGrant := payload inspected in
  issuedAt ← safeInteger (gr_issued_at r) "issued_at";
  updatedAt ← safeInteger (gr_updated_at r) "updated_at";
  expiresAt ← match gr_expires_at r with
              | None => Ok None
              | Some t => Some <$> safeInteger t "expires_at"
              end;
  _ ← throw_if (negb (Cbor.equalBytes (sha256 (gr_cose r)) (gr_digest r))
                || negb (jstr_eqb (g_grant_id p) grant_id)
                || negb (jstr_eqb (g_grantor p) (l_grantor_did l))
                || negb (jstr_eqb (g_grantee p) (l_grantee_did l))
                || negb (g_revision p =? revision)
                || negb (bool_decide (g_status p = gr_status r))
                || negb (g_issued_at p =? issuedAt)
                || negb (g_updated_at p =? updatedAt)
                || negb (bool_decide (g_expires_at p = expiresAt))
                || negb (bool_decide (g_previous p = gr_previous r))
                || negb (bool_decide ([g_scope p] = gr_scope r))
                || negb (Cbor.equalBytes (binding_hash p) (gr_binding_hash r))
                || negb (Cbor.equalBytes (profile_hash p) (gr_profile_hash r)))
        (OtherError (js "Persisted Grant metadata does not match its exact representation"));
  Ok {| sgr_account := l_local_account_id l;
        sgr_role := if l_grantor_role l then RoleGrantor else RoleGrantee;
        sgr_payload := p; sgr_representation := gr_cose r; sgr_digest := gr_digest r;
        sgr_signing_key := gr_signing_public_key r |}.

Definition checkedInput (input : SignedGrantRevision) (expectedRole : grant_role) : M unit :=
  _ ← throw_if (negb (bool_decide (sgr_role input = expectedRole)))
        (OtherError (js "Grant local role must be " ++
           match expectedRole with RoleGrantor => js "grantor" | RoleGrantee => js "grantee" end));
  parsed ← inspectTyped Profiles.grant (sgr_representation input);
  throw_if (negb (Cbor.equalBytes (sha256 (sgr_representation input)) (sgr_digest input))
            || negb (bool_decide ((payload parsed : HailGrant) = sgr_payload input)))
    (OtherError (js "Grant payload or digest does not match its exact representation")).

Definition assertConsent (g : HailGrant) (evidence : GrantConsentEvidence) : M unit :=
  let a := address evidence in
  let s := senderProfile evidence in
  binding ← inspectTyped Profiles.address_binding (va_representation a);
  profile ← inspectTyped Profiles.sender_profile (vp_representation s);
  let bindingPayload : HailAddressBinding := payload binding in
  let profilePayload : HailSenderProfile := payload profile in
  throw_if (negb (jstr_eqb (va_address a) (cc_grantee_address (g_consent_context g)))
            || negb (jstr_eqb (va_did a) (g_grantee g))
            || negb (jstr_eqb (vp_did s) (g_grantee g))
            || negb (bool_decide (bindingPayload = va_binding a))
            || negb (bool_decide (profilePayload = vp_profile s))
            || negb (jstr_eqb (ab_address bindingPayload) (va_address a))
            || negb (jstr_eqb (ab_did bindingPayload) (va_did a))
            || negb (jstr_eqb (sp_did (profile_base profilePayload)) (vp_did s))
            || negb (Cbor.equalBytes (sha256 (va_representation a)) (va_digest a))
            || negb (Cbor.equalBytes (sha256 (vp_representation s)) (vp_digest s))
            || negb (Cbor.equalBytes (binding_hash g) (va_digest a))
            || negb (Cbor.equalBytes (profile_hash g) (vp_digest s)))
    (OtherError (js "Grant consent evidence does not match the signed grant")).

(** ** Queries *)

Definition findRevision (grantId : jstr) (revision : Z) (db : Database) : M (option SignedGrantRevision) :=
  match db grant_lineages !! grantId, db grant_revisions !! (grantId, revision) with
  | Some l, Some r => Some <$> grantFromRow grantId revision l r
  | _, _ => Ok None
  end.

Definition findCurrentByGrantId (grantId : jstr) (db : Database) : M (option SignedGrantRevision) :=
  match db grant_lineages !! grantId with
  | Some l => findRevision grantId (l_current_revision l) db
  | None => Ok None
  end.

Definition findReceivedForSender (grantId senderDid : jstr) (db : Database) : M (option SignedGrantRevision) :=
  current ← findCurrentByGrantId grantId db;
  match current with
  | None => Ok None
  | Some c =>
      if negb (jstr_eqb (g_grantee (sgr_payload c)) senderDid) then Ok None
      else match sgr_role c with
      | RoleGrantee => Ok (Some c)
      | RoleGrantor =>
          Ok match db collocated_grant_receivers !! grantId with
             | Some account =>
                 match db provider_accounts !! account with
                 | Some a => if jstr_eqb (a_did a) senderDid && a_active a
                     then Some {| sgr_account := account; sgr_role := RoleGrantee;
                                  sgr_payload := sgr_payload c; sgr_representation := sgr_representation c;
                                  sgr_digest := sgr_digest c; sgr_signing_key := sgr_signing_key c |}
                     else None
                 | None => None
                 end
             | None => None
             end
      end
  end.

Definition findActiveAuthoritativeByDidPair (grantorDid granteeDid : jstr) (db : Database)
    : M (option SignedGrantRevision) :=
  match find_row (fun _ l => l_grantor_role l && jstr_eqb (l_grantor_did l) grantorDid
                             && jstr_eqb (l_grantee_did l) granteeDid && l_active l) (db grant_lineages) with
  | Some (grantId, _) => findCurrentByGrantId grantId db
  | None => Ok None
  end.

(** ** Writes *)

Definition lineage_row (input : SignedGrantRevision) : Lineage :=
  let p := sgr_payload input in {|
  l_local_account_id := sgr_account input; l_grantor_did := g_grantor p; l_grantee_did := g_grantee p;
  l_grantor_role := bool_decide (sgr_role input = RoleGrantor); l_active := true;
  l_current_revision := 1; l_current_digest := sgr_digest input |}.

(** The unique index on the active lineage of a pair. *)
Definition active_pair (p : HailGrant) (_ : jstr) (l : Lineage) : bool :=
  l_active l && jstr_eqb (l_grantor_did l) (g_grantor p) && jstr_eqb (l_grantee_did l) (g_grantee p).

Definition insertLineage (input : SignedGrantRevision) : Tx unit :=
  clash ← query (fun db => find_row (active_pair (sgr_payload input)) (db grant_lineages));
  match clash with
  | Some _ => throwing (Err unique_violation)
  | None => insert_unique grant_lineages (fun db => db grant_lineages !! g_grant_id (sgr_payload input))
              <[g_grant_id (sgr_payload input) := lineage_row input]>
  end.

Definition revision_row (input : SignedGrantRevision) : GrantRevision :=
  let p := sgr_payload input in {|
  gr_status := g_status p; gr_issued_at := g_issued_at p; gr_updated_at := g_updated_at p;
  gr_expires_at := g_expires_at p; gr_previous := g_previous p; gr_scope := [g_scope p];
  gr_binding_hash := binding_hash p; gr_profile_hash := profile_hash p;
  gr_cose := sgr_representation input; gr_digest := sgr_digest input;
  gr_signing_public_key := sgr_signing_key input |}.

(** The key, and the digest within the lineage, are unique. *)
Definition insertRevision (input : SignedGrantRevision) : Tx unit :=
  let p := sgr_payload input in
  clash ← query (fun db => find_row (fun (k : jstr * Z) r => jstr_eqb k.1 (g_grant_id p)
                             && bool_decide (gr_digest r = sgr_digest input)) (db grant_revisions));
  match clash with
  | Some _ => throwing (Err unique_violation)
  | None => insert_unique grant_revisions (fun db => db grant_revisions !! (g_grant_id p, g_revision p))
              <[(g_grant_id p, g_revision p) := revision_row input]>
  end.

Definition consent_row (c : GrantConsentEvidence) : ConsentRow := {|
  cn_grantee_address := va_address (address c);
  cn_binding_cose := va_representation (address c); cn_binding_digest := va_digest (address c);
  cn_profile_revision := sp_revision (profile_base (vp_profile (senderProfile c)));
  cn_profile_cose := vp_representation (senderProfile c); cn_profile_digest := vp_digest (senderProfile c) |}.

Definition insertConsent (p : HailGrant) (revision : Z) (c : GrantConsentEvidence) : Tx unit :=
  insert_unique grant_consent_evidence (fun db => db grant_consent_evidence !! (g_grant_id p, revision))
    <[(g_grant_id p, revision) := consent_row c]>.

Definition new_grant_publication (destination : jstr) (started : Z) : GrantPublication := {|
  gp_destination := destination; gp_state := Pending; gp_attempt_count := 0; gp_next_attempt_at := started;
  gp_lease := None; gp_last_http_status := None; gp_last_error := None; gp_acknowledged_etag := None;
  gp_acknowledged_at := None; gp_created_at := started |}.

Definition insertPublication (p : HailGrant) (destination : jstr) (started : Z) : Tx unit :=
  insert_unique grant_publications (fun db => db grant_publications !! (g_grant_id p, g_revision p))
    <[(g_grant_id p, g_revision p) := new_grant_publication destination started]>.

(** The account of one party, locked by the transaction. *)
Definition party_account (input : SignedGrantRevision) (role : grant_role) : Tx unit :=
  row ← query (fun db => db provider_accounts !! sgr_account input);
  throwing (throw_if (negb match row with
                           | Some a => a_active a && jstr_eqb (a_did a) (accountParty (sgr_payload input) role)
                           | None => false
                           end)
    (OtherError match role with
     | RoleGrantor => js "Active local grantor account does not match the Grant"
     | RoleGrantee => js "Active local grantee account does not match the Grant"
     end)).

Definition insertAuthoritativeRevision1 (input : SignedGrantRevision) (consent : GrantConsentEvidence)
    (destination : jstr) (started : Z) : Tx unit :=
  let p := sgr_payload input in
  _ ← throwing (checkedInput input RoleGrantor);
  _ ← throwing (assertConsent p consent);
  _ ← throwing (throw_if (negb (g_revision p =? 1) || negb (bool_decide (g_status p = grant_active)))
        (OtherError (js "An authoritative Grant must begin at active revision 1")));
  _ ← party_account input RoleGrantor;
  _ ← insertLineage input;
  _ ← insertRevision input;
  _ ← (fun db => throwing (retainPublicGrantAuthority input (Some consent) db) db) : Tx unit;
  _ ← insertConsent p 1 consent;
  insertPublication p destination started.

(** *** Updates *)

Definition advance_lineage (input : SignedGrantRevision) (l : Lineage) : Lineage := {|
  l_local_account_id := l_local_account_id l; l_grantor_did := l_grantor_did l;
  l_grantee_did := l_grantee_did l; l_grantor_role := l_grantor_role l;
  l_active := bool_decide (g_status (sgr_payload input) = grant_active);
  l_current_revision := g_revision (sgr_payload input); l_current_digest := sgr_digest input |}.

(** The condition of the [UPDATE] of the lineage. *)
Definition expected_lineage (u : AuthoritativeGrantUpdate) (db : Database) (l : Lineage) : bool :=
  let p := sgr_payload (gu_revision u) in
  jstr_eqb (l_local_account_id l) (sgr_account (gu_revision u)) && l_grantor_role l
  && jstr_eqb (l_grantor_did l) (g_grantor p) && jstr_eqb (l_grantee_did l) (g_grantee p)
  && l_active l && (l_current_revision l =? gu_expectedCurrentRevision u)
  && bool_decide (l_current_digest l = gu_expectedCurrentDigest u)
  && match db grant_revisions !! (g_grant_id p, l_current_revision l) with
     | Some r => gr_updated_at r <? g_updated_at p
     | None => false
     end.

(** The destination of the first publication of the lineage. *)
Definition first_publication (grantId : jstr) (db : Database) : option GrantPublication :=
  snd <$> head (sort_by (fun a b : (jstr * Z) * GrantPublication => a.1.2 <=? b.1.2)
    (List.filter (fun e => jstr_eqb e.1.1 grantId) (map_to_list (db grant_publications)))).

Definition check_update (u : AuthoritativeGrantUpdate) (current : option SignedGrantRevision) : M unit :=
  let revision := gu_revision u in
  let p := sgr_payload revision in
  match current with
  | None => grant_error "Grant immutable/current state conflicts"
  | Some c =>
      let q := sgr_payload c in
      _ ← throw_if (negb (jstr_eqb (sgr_account c) (sgr_account revision))
                    || negb (bool_decide (sgr_role c = RoleGrantor))
                    || negb (bool_decide (g_status q = grant_active))
                    || negb (g_issued_at q =? g_issued_at p))
            (OtherError (js "Grant immutable/current state conflicts"));
      _ ← throw_if (negb (jstr_eqb (sgr_signing_key c) (sgr_signing_key revision)))
            (OtherError (js "Historical-key reconciliation required for signer changes"));
      restricts ← restrictsAuthorization q p;
      let same_consent := bool_decide (g_consent_context q = g_consent_context p) in
      _ ← throw_if (restricts && negb same_consent)
            (OtherError (js "Restrictions must retain prior consent"));
      match gu_consent u with
      | Some consent => assertConsent p consent
      | None => throw_if (negb restricts || negb same_consent)
                  (OtherError (js "Fresh consent evidence required"))
      end
  end.

Definition appendAuthoritativeUpdate (u : AuthoritativeGrantUpdate) (started : Z) : Tx unit :=
  let revision := gu_revision u in
  let p := sgr_payload revision in
  _ ← throwing (checkedInput revision RoleGrantor);
  _ ← throwing (throw_if (negb (g_revision p =? gu_expectedCurrentRevision u + 1)
                          || negb (bool_decide (g_previous p = Some (gu_expectedCurrentDigest u))))
        (OtherError (js "Grant revocation does not follow the expected current revision")));
  current ← (fun db => throwing (findCurrentByGrantId (g_grant_id p) db) db) : Tx (option SignedGrantRevision);
  _ ← throwing (check_update u current);
  updated ← query (fun db => match db grant_lineages !! g_grant_id p with
                             | Some l => expected_lineage u db l
                             | None => false
                             end);
  if negb updated then throw_error "Authoritative Grant revision conflict"
  else
    _ ← write grant_lineages (update_row (g_grant_id p) (advance_lineage revision));
    _ ← insertRevision revision;
    _ ← (fun db => throwing (retainPublicGrantAuthority revision (gu_consent u) db) db) : Tx unit;
    _ ← match gu_consent u with
        | Some consent => insertConsent p (g_revision p) consent
        | None => mret tt
        end;
    first ← query (first_publication (g_grant_id p));
    match first with
    | Some f => insertPublication p (default (gp_destination f) (gu_destination u)) started
    | None => throw_error "Authoritative Grant is missing its publication destination evidence"
    end.

Definition appendAuthoritativeRevocation (u : AuthoritativeGrantUpdate) (started : Z) : Tx unit :=
  if bool_decide (g_status (sgr_payload (gu_revision u)) = grant_revoked)
  then appendAuthoritativeUpdate u started
  else throw_error "Expected a signed terminal revision".

(** *** Reception *)

Definition as_received (account : jstr) (g : SignedGrantRevision) : SignedGrantRevision := {|
  sgr_account := account; sgr_role := RoleGrantee; sgr_payload := sgr_payload g;
  sgr_representation := sgr_representation g; sgr_digest := sgr_digest g;
  sgr_signing_key := sgr_signing_key g |}.

(** A revision of a lineage this provider is authoritative for, received for the other party. *)
Definition accept_collocated (input : SignedGrantRevision) (l : Lineage) (existing : option GrantRevision)
    : Tx SignedGrantRevision :=
  let p := sgr_payload input in
  match existing with
  | None => throw_error "Collocated Grant must match the authoritative revision"
  | Some r =>
      if negb (Cbor.equalBytes (gr_cose r) (sgr_representation input))
      then throw_error "Collocated Grant must match the authoritative revision"
      else
        _ ← write collocated_grant_receivers (insert_new (g_grant_id p) (sgr_account input));
        collocated ← query (fun db => db collocated_grant_receivers !! g_grant_id p);
        if negb (bool_decide (collocated = Some (sgr_account input)))
        then throw_error "Grant parties or local ownership cannot change"
        else as_received (sgr_account input) <$>
          throwing (grantFromRow (g_grant_id p) (g_revision p) l r)
  end.

Definition advances (input : SignedGrantRevision) (l : Lineage) (current : option GrantRevision) : M bool :=
  let p := sgr_payload input in
  match current with
  | None => Ok false
  | Some current =>
      if negb (l_active l) || negb (g_revision p =? l_current_revision l + 1)
         || negb (bool_decide (g_previous p = Some (l_current_digest l)))
      then Ok false
      else
        updated_at ← safeInteger (gr_updated_at current) "updated_at";
        Ok (updated_at <? g_updated_at p)
  end.

Definition accept_advance (input : SignedGrantRevision) (l : Lineage) : Tx unit :=
  current ← query (fun db => db grant_revisions !! (g_grant_id (sgr_payload input), l_current_revision l));
  ok ← throwing (advances input l current);
  if negb ok then throw_error "Received Grant revision does not advance the current lineage"
  else
    _ ← insertRevision input;
    write grant_lineages (update_row (g_grant_id (sgr_payload input)) (advance_lineage input)).

Definition accept_first (input : SignedGrantRevision) : Tx unit :=
  let p := sgr_payload input in
  if negb (g_revision p =? 1) || negb (bool_decide (g_status p = grant_active))
  then throw_error "A received Grant lineage must begin at active revision 1"
  else _ ← insertLineage input; insertRevision input.

(** What follows a new revision: the evidence, and the current revision is read back. *)
Definition read_back (input : SignedGrantRevision) : Tx SignedGrantRevision :=
  _ ← (fun db => throwing (retainPublicGrantAuthority input None db) db) : Tx unit;
  current ← (fun db => throwing (findCurrentByGrantId (g_grant_id (sgr_payload input)) db) db)
              : Tx (option SignedGrantRevision);
  match current with
  | None => throw_error "Accepted Grant could not be read back"
  | Some g => mret (as_received (sgr_account input) g)
  end.

Definition acceptReceivedRevision (input : SignedGrantRevision) : Tx SignedGrantRevision :=
  let input := as_received (sgr_account input) input in
  let p := sgr_payload input in
  _ ← throwing (checkedInput input RoleGrantee);
  _ ← party_account input RoleGrantee;
  lineage ← query (fun db => db grant_lineages !! g_grant_id p);
  match lineage with
  | None => _ ← accept_first input; read_back input
  | Some l =>
      if negb (jstr_eqb (l_grantor_did l) (g_grantor p)) || negb (jstr_eqb (l_grantee_did l) (g_grantee p))
      then throw_error "Grant parties or local ownership cannot change"
      else
        existing ← query (fun db => db grant_revisions !! (g_grant_id p, g_revision p));
        if l_grantor_role l then accept_collocated input l existing
        else if negb (jstr_eqb (l_local_account_id l) (sgr_account input))
        then throw_error "Grant parties or local ownership cannot change"
        else match existing with
        | Some r =>
            if negb (Cbor.equalBytes (gr_cose r) (sgr_representation input))
            then throw_error "Grant revision conflicts with previously received exact bytes"
            else as_received (sgr_account input) <$>
              throwing (grantFromRow (g_grant_id p) (g_revision p) l r)
        | None => _ ← accept_advance input l; read_back input
        end
  end.

(** ** Publication *)

Definition unpublished (p : GrantPublication) : bool :=
  match gp_state p with Pending | Retry => true | _ => false end.

Definition grant_publication_due (db : Database) (now : Z) (k : jstr * Z) (p : GrantPublication) : bool :=
  unpublished p && (gp_next_attempt_at p <=? now)
  && match gp_lease p with Some (_, expires) => expires <=? now | None => true end
  && match db grant_lineages !! k.1 with
     | Some l => negb (fenced db (l_local_account_id l))
     | None => false
     end
  && negb (bool_decide (is_Some (find_row (fun (k' : jstr * Z) prior => jstr_eqb k'.1 k.1 && (k'.2 <? k.2)
        && match gp_state prior with Acknowledged => false | _ => true end) (db grant_publications)))).

Definition grant_publication_leb (a b : (jstr * Z) * GrantPublication) : bool :=
  (gp_next_attempt_at a.2 <? gp_next_attempt_at b.2)
  || (gp_next_attempt_at a.2 =? gp_next_attempt_at b.2) && (gp_created_at a.2 <=? gp_created_at b.2).

(** [SKIP LOCKED]: the publications another transaction has locked are passed over. *)
Definition due_grant_publications (db : Database) (now : Z) (locked : gset (jstr * Z))
    : list ((jstr * Z) * GrantPublication) :=
  sort_by grant_publication_leb
    (List.filter (fun e => grant_publication_due db now e.1 e.2 && negb (bool_decide (e.1 ∈ locked)))
      (map_to_list (db grant_publications))).

Definition lease_grant_publication (token : jstr) (expires : Z) (p : GrantPublication) : GrantPublication := {|
  gp_destination := gp_destination p; gp_state := gp_state p; gp_attempt_count := gp_attempt_count p + 1;
  gp_next_attempt_at := gp_next_attempt_at p; gp_lease := Some (token, expires);
  gp_last_http_status := gp_last_http_status p; gp_last_error := gp_last_error p;
  gp_acknowledged_etag := gp_acknowledged_etag p; gp_acknowledged_at := gp_acknowledged_at p;
  gp_created_at := gp_created_at p |}.

(** One statement commits the lease; the row is checked afterwards. *)
Definition claimDuePublication (token : jstr) (leaseDurationMs : Z) (locked : gset (jstr * Z)) (now : Z)
    : Act (option GrantPublicationClaim) :=
  if negb (isSafeInteger leaseDurationMs) || (leaseDurationMs <=? 0)
  then act (fun _ => grant_error "Publication lease duration must be a positive integer")
  else
    let expires := now + leaseDurationMs * 1000 in
    claimed ← begin (rows ← query (fun db => due_grant_publications db now locked);
                     match rows with
                     | [] => mret None
                     | (k, p) :: _ =>
                         _ ← write grant_publications (update_row k (lease_grant_publication token expires));
                         row ← query (fun db => l ← db grant_lineages !! k.1; pair l <$> db grant_revisions !! k);
                         mret (pair (k, p) <$> row)
                     end) : Act (option ((jstr * Z) * GrantPublication * (Lineage * GrantRevision)));
    match claimed with
    | None => mret None
    | Some ((k, p), (l, r)) =>
        grant ← act (fun _ => grantFromRow k.1 k.2 l r);
        mret (Some {| gc_grant := grant; gc_destination := gp_destination p; gc_token := token;
                      gc_expires := expires; gc_attempt := gp_attempt_count p + 1 |})
    end.

Definition finished_publication (input : publication_result) (state : publication_state)
    (nextAttemptAt : option Z) (etag : option jstr) (now : Z) (p : GrantPublication) : GrantPublication := {|
  gp_destination := gp_destination p; gp_state := state; gp_attempt_count := gp_attempt_count p;
  gp_next_attempt_at := default (gp_next_attempt_at p) nextAttemptAt; gp_lease := None;
  gp_last_http_status := gpr_status input; gp_last_error := gpr_error input; gp_acknowledged_etag := etag;
  gp_acknowledged_at := match state with Acknowledged => Some now | _ => None end;
  gp_created_at := gp_created_at p |}.

Definition owns_publication (input : publication_result) (now : Z) (p : GrantPublication) : bool :=
  unpublished p && match gp_lease p with
                   | Some (token, expires) => jstr_eqb token (gpr_token input) && (now <? expires)
                   | None => false
                   end.

Definition finishPublication (input : publication_result) (state : publication_state)
    (nextAttemptAt : option Z) (etag : option jstr) (now : Z) : Tx unit :=
  let k := (gpr_grant_id input, gpr_revision input) in
  owned ← query (fun db => match db grant_publications !! k with
                           | Some p => owns_publication input now p
                           | None => false
                           end);
  if negb owned then throw_error "Publication claim is no longer owned by this lease"
  else write grant_publications (update_row k (finished_publication input state nextAttemptAt etag now)).

Definition acknowledgePublication (input : publication_result) (etag : jstr) (now : Z) : Tx unit :=
  finishPublication input Acknowledged None (Some etag) now.
Definition retryPublication (input : publication_result) (nextAttemptAt now : Z) : Tx unit :=
  finishPublication input Retry (Some nextAttemptAt) None now.
Definition blockPublication (input : publication_result) (now : Z) : Tx unit :=
  finishPublication input Blocked None None now.
End repository.
