(* ===== verification/Delivery.v ===== *)
(** * Delivery of accepted messages (apps/server/src/delivery/repository.ts, worker.ts)

    The provider of the recipient fetches the body of every accepted envelope.  A worker claims a
    due delivery under a lease, retrieves the body and delivers it, or fails it, or puts it on
    hold for a later attempt; a terminal outcome settles the reply capability that the message
    used and queues the publication of its status.

    The instants [now] (the start of the transaction) and [t1], [t2], ... (readings of
    [clock_timestamp()] in their order) are arguments. *)

From S2P Require Import Prelude JsString Value Cbor Profiles Validation ValidatePayload Models.
From S2P Require Import Cose Database Typed ServerBodies Conversations Envelopes.
From Stdlib Require Import ZArith.
Open Scope Z_scope.

Record DeliveryClaim := {
  senderDid : jstr;
  messageId : jstr;
  leaseToken : jstr;
  attemptCount : Z;
  claim_envelope : HailEnvelope;
}.
Definition claim_key (c : DeliveryClaim) : msg_key := (senderDid c, messageId c).

(** ** Claiming *)

Definition leased (w : Work) (now : Z) : bool :=
  match w_lease w with Some (_, expiry) => now <? expiry | None => false end.

(** The condition of the query, for one row of the join. *)
Definition due (db : Database) (now : Z) (key : msg_key) (w : Work) (r : Received) : bool :=
  pending w && (w_next_attempt_at w <=? now) && negb (leased w now)
  && negb (bool_decide (is_Some (db provider_migration_fences !! r_recipient_did r)))
  && (count_rows (fun k other => jstr_eqb k.1 key.1 && pending other && leased other now)
        (db delivery_work) =? 0)
  && (count_rows (fun k other => pending other && leased other now &&
        match db received_envelopes !! k with
        | Some r' => jstr_eqb (r_recipient_did r') (r_recipient_did r)
        | None => false
        end) (db delivery_work) <? 2).

(** [ORDER BY ... ASC NULLS FIRST]: the recipient and then the sender least recently attempted,
    the earliest due, the message identifier. *)
Definition nulls_first (a b : option Z) : comparison :=
  match a, b with
  | None, None => Eq
  | None, Some _ => Lt
  | Some _, None => Gt
  | Some a, Some b => a ?= b
  end.
Definition then_compare (c d : comparison) : comparison := match c with Eq => d | _ => c end.
Definition work_leb (db : Database) (a b : msg_key * Work * Received) : bool :=
  let '((k, w), r) := a in
  let '((k', w'), r') := b in
  let last scope did := db delivery_scheduling !! (scope, did) in
  match then_compare (nulls_first (last RecipientScope (r_recipient_did r))
                                  (last RecipientScope (r_recipient_did r')))
        (then_compare (nulls_first (last SenderScope k.1) (last SenderScope k'.1))
        (then_compare (w_next_attempt_at w ?= w_next_attempt_at w') (jstr_compare k.2 k'.2))) with
  | Gt => false
  | _ => true
  end.

(** The due rows in order, less those other transactions have locked ([SKIP LOCKED]). *)
Definition due_rows (db : Database) (now : Z) (locked : gset msg_key)
    : list (msg_key * Work * Received) :=
  sort_by (work_leb db) (omap (fun '(k, w) =>
    r ← db received_envelopes !! k;
    if due db now k w r && negb (bool_decide (k ∈ locked)) then Some (k, w, r) else None)
    (map_to_list (db delivery_work))).

Definition lease_work (token : jstr) (expiry : Z) (w : Work) : Work := {|
  w_state := w_state w; w_reason := w_reason w; w_status_revision := w_status_revision w;
  w_attempt_count := w_attempt_count w + 1; w_next_attempt_at := w_next_attempt_at w;
  w_lease := Some (token, expiry); w_transitioned_at := w_transitioned_at w |}.

Section delivery.
Context `{HailEnv} `{Cborg} `{Keys}.
Context `{ConnectionFunctions} `{Triggers} `{AccountFences} `{Calendar} `{EnvelopeAuthority}.

Definition claimDue (token : jstr) (leaseSeconds : Z) (locked : gset msg_key) (now t1 : Z)
    : Tx (option DeliveryClaim) :=
  due ← query (fun db => due_rows db now locked);
  match due with
  | [] => mret None
  | (key, w, r) :: _ =>
      inspected ← throwing (inspectTyped Profiles.envelope (r_envelope_cose r));
      let envelope : HailEnvelope := payload inspected in
      if negb (jstr_eqb (e_from envelope) key.1) || negb (jstr_eqb (e_message_id envelope) key.2)
      then throw_error "Persisted envelope does not match delivery work"
      else
        _ ← write delivery_work (update_row key (lease_work token (now + seconds leaseSeconds)));
        _ ← write delivery_scheduling (fun m =>
              <[(RecipientScope, r_recipient_did r) := t1]> (<[(SenderScope, key.1) := t1]> m));
        mret (Some {| senderDid := key.1; messageId := key.2; leaseToken := token;
                      attemptCount := w_attempt_count w + 1; claim_envelope := envelope |})
  end.

(** [lockClaim]: the row is the claim's while it has the claim's token and is not finished. *)
Definition holds (c : DeliveryClaim) (db : Database) : bool :=
  match db delivery_work !! claim_key c with
  | Some w => pending w && match w_lease w with
                           | Some (token, _) => jstr_eqb token (leaseToken c)
                           | None => false
                           end
  | None => false
  end.
Definition lockClaim (c : DeliveryClaim) : Tx bool := query (holds c).

(** ** Finishing *)

Inductive terminal :=
| TerminalDelivered
| TerminalFailed (reason : HailFailureReason)
| TerminalCancelled (reason : HailCancellationReason).
Definition terminal_state (t : terminal) : HailDeliveryState :=
  match t with
  | TerminalDelivered => delivered
  | TerminalFailed _ => failed
  | TerminalCancelled _ => cancelled
  end.
Definition terminal_reason (t : terminal) : option HailDeliveryReason :=
  match t with
  | TerminalDelivered => None
  | TerminalFailed r => Some (FailureReason r)
  | TerminalCancelled r => Some (CancellationReason r)
  end.

Definition finish_work (t : terminal) (now : Z) (w : Work) : Work := {|
  w_state := terminal_state t; w_reason := ReasonOf <$> terminal_reason t;
  w_status_revision := w_status_revision w + 1; w_attempt_count := w_attempt_count w;
  w_next_attempt_at := w_next_attempt_at w; w_lease := None; w_transitioned_at := now |}.

Definition consume_capability (c : Capability) : Capability := {|
  c_permitted_recipient_did := c_permitted_recipient_did c; c_reply_until := c_reply_until c;
  c_state := Consumed; c_claimed := c_claimed c |}.
Definition release_capability (c : Capability) : Capability := {|
  c_permitted_recipient_did := c_permitted_recipient_did c; c_reply_until := c_reply_until c;
  c_state := Available; c_claimed := None |}.

Definition owns_capability (key : msg_key) (c : option Capability) : bool :=
  match c with
  | Some c => match c_state c with
              | Claimed => bool_decide (c_claimed c = Some key)
              | _ => false
              end
  | None => false
  end.

(** The reply capability of the message the claimed envelope answers. *)
Definition reply_capability (c : DeliveryClaim) : option msg_key :=
  match e_authorization (claim_envelope c) with
  | AuthorizedByReply reply_to => Some (e_to (claim_envelope c), reply_to)
  | _ => None
  end.

Definition settle_capability (c : DeliveryClaim) (t : terminal) : Tx unit :=
  match reply_capability c with
  | None => mret tt
  | Some capability =>
      row ← query (fun db => db reply_capabilities !! capability);
      if negb (owns_capability (claim_key c) row) then
        throw_error "Delivery claim does not own the reply capability"
      else write reply_capabilities (update_row capability
             match t with TerminalDelivered => consume_capability | _ => release_capability end)
  end.

Definition new_publication (started : Z) : Publication := {|
  p_state := Pending; p_attempt_count := 0; p_next_attempt_at := started; p_lease := None;
  p_last_http_status := None; p_acknowledged_at := None |}.

(** [started] is [now()], [now] the clock. *)
Definition finish (c : DeliveryClaim) (t : terminal) (started now : Z) : Tx unit :=
  _ ← settle_capability c t;
  _ ← write delivery_work (update_row (claim_key c) (finish_work t now));
  insert_unique terminal_status_publications
    (fun db => db terminal_status_publications !! claim_key c)
    <[claim_key c := new_publication started]>.

Definition fail (c : DeliveryClaim) (reason : HailFailureReason) (started t1 t2 : Z) : Tx unit :=
  locked ← lockClaim c;
  if negb locked then mret tt
  else finish c (TerminalFailed (if expired (claim_envelope c) t1 then delivery_expired else reason))
         started t2.

Definition cancel (c : DeliveryClaim) (reason : HailCancellationReason) (started t1 : Z) : Tx unit :=
  locked ← lockClaim c;
  if negb locked then mret tt else finish c (TerminalCancelled reason) started t1.

Definition hold_work (reason : HailHoldReason) (retry_at now : Z) (w : Work) : Work := {|
  w_state := on_hold; w_reason := Some (ReasonOf (HoldReason reason));
  w_status_revision := w_status_revision w + 1; w_attempt_count := w_attempt_count w;
  w_next_attempt_at := retry_at; w_lease := None; w_transitioned_at := now |}.

Definition hold (c : DeliveryClaim) (reason : HailHoldReason) (retryAt started t1 t2 : Z) : Tx unit :=
  locked ← lockClaim c;
  if negb locked then mret tt
  else if expired (claim_envelope c) t1 then finish c (TerminalFailed delivery_expired) started t2
  else write delivery_work (update_row (claim_key c) (hold_work reason retryAt t2)).

(** ** Delivering *)

Inductive delivery_outcome := OutcomeDelivered | OutcomeExpired | OutcomeLostLease | OutcomeUnauthorized.

(** [authorizeConnection], on the databases its queries see. *)
Definition authorizeConnection
    (connections : option (option (jstr -> jstr -> jstr -> Z -> M bool))) (db db' : Database)
    (c : DeliveryClaim) (now : Z) : M bool :=
  let e := claim_envelope c in
  match e_authorization e with
  | AuthorizedByConversation creator conversation_id descriptor_hash =>
      fst <$> conversationMessageAllowed (e_to e) (e_from e)
        {| Conversations.creator := creator; conversationId := conversation_id |}
        (digest_value descriptor_hash) false now db
  | AuthorizedByConnection connection_id epoch =>
      match connections with
      | None => Err (OtherError (js "Connection authorization is unavailable"))
      | Some federation => live federation db db' (e_to e) (e_from e) connection_id epoch
      end
  | _ => Ok true
  end.

(** What is checked before the transaction; the result is the attachments the body names. *)
Definition check_body (e : HailEnvelope) (bs : bytes) (attachments : list bytes)
    : M (list HailAttachment) :=
  _ ← throw_if (negb (Z.of_nat (length bs) =? bd_size (e_body e))
                || negb (Cbor.equalBytes (bodyDigest bs) (digest_value (bd_digest (e_body e)))))
        (OtherError (js "Body does not match the accepted envelope"));
  _ ← validateBodyBytes bs (Some (bd_profile (e_body e)));
  files ← bodyAttachments bs;
  _ ← throw_if (negb (length files =? length attachments)%nat)
        (OtherError (js "Required attachments missing"));
  _ ← iforM 0 (zip files attachments) (fun _ '(file, attachment) =>
        validateAttachmentBytes file attachment);
  Ok files.

Definition body_of (e : HailEnvelope) : body_key :=
  (e_to e, e_from e, digest_value (bd_digest (e_body e)), bd_profile (e_body e)).

(** The insertion of a verified body: its trigger checks the bytes and moves them to the blob of
    their digest, which it creates or compares. *)
Definition store_received_body (key : body_key) (bs : bytes) : Tx unit :=
  let digest := key.1.2 in
  if (length bs <? 1)%nat || (1048576 <? Z.of_nat (length bs)) || negb (bool_decide (sha256 bs = digest))
  then throw_error "Verified body size or digest mismatch"
  else
    blob ← query (fun db => db shared_content_blobs !! digest);
    _ ← match blob with
        | None => write shared_content_blobs <[digest := bs]>
        | Some blob => if bool_decide (blob = bs) then mret tt
                       else throw_error "Shared body conflicts with exact bytes"
        end;
    write verified_body_provenance (union {[key]}).

(** The row of the view [verified_body_contents]. *)
Definition verified_body (key : body_key) (db : Database) : option bytes :=
  if bool_decide (key ∈ db verified_body_provenance)
  then db shared_content_blobs !! key.1.2 else None.

Fixpoint store_attachments (key : body_key) (files : list (HailAttachment * bytes)) : Tx unit :=
  match files with
  | [] => mret tt
  | (file, bs) :: files =>
      _ ← storeAttachment (digest_value (att_digest file)) bs;
      _ ← write received_attachment_refs (union {[(key, digest_value (att_digest file))]});
      store_attachments key files
  end.

(** The recipient's own record; no row without the received envelope. *)
Definition insert_delivered (c : DeliveryClaim) : Tx unit :=
  let e := claim_envelope c in
  received ← query (fun db => db received_envelopes !! envelope_key e);
  match received with
  | None => mret tt
  | Some r =>
      insert_unique delivered_messages (fun db => db delivered_messages !! envelope_key e)
        <[envelope_key e := {| dm_recipient_did := e_to e; dm_envelope_digest := r_envelope_digest r;
                               dm_body := body_of e; dm_trashed := false |}]>
  end.

(** Whether the relationship still permits the message, under its lock. *)
Definition still_authorized (e : HailEnvelope) (authorized : bool) (now : Z) : Tx bool :=
  match e_authorization e with
  | AuthorizedByConnection connection_id epoch =>
      if negb authorized then mret false
      else connectionMessageAllowed (e_to e) (e_from e) connection_id epoch true false
  | AuthorizedByConversation creator conversation_id descriptor_hash =>
      if negb authorized then mret false
      else conversationMessageAllowed (e_to e) (e_from e)
             {| Conversations.creator := creator; conversationId := conversation_id |}
             (digest_value descriptor_hash) true now
  | _ => mret true
  end.

(** The readings of the clock: at the start, before and after the body is stored, of the membership
    check and of the final update. *)
Record deliver_clock := {
  dc_start : Z; dc_before : Z; dc_member : Z; dc_after : Z; dc_finish : Z;
}.

Definition deliver_claimed (c : DeliveryClaim) (bs : bytes) (files : list HailAttachment)
    (attachments : list bytes) (authorized : bool) (clock : deliver_clock) : Tx delivery_outcome :=
  let e := claim_envelope c in
  locked ← lockClaim c;
  if negb locked then mret OutcomeLostLease
  else if expired e (dc_before clock) then
    _ ← finish c (TerminalFailed delivery_expired) (dc_start clock) (dc_finish clock);
    mret OutcomeExpired
  else
    permitted ← still_authorized e authorized (dc_member clock);
    if negb permitted then
      _ ← finish c (TerminalFailed receiver_policy_rejected) (dc_start clock) (dc_finish clock);
      mret OutcomeUnauthorized
    else
      _ ← store_received_body (body_of e) bs;
      _ ← store_attachments (body_of e) (zip files attachments);
      stored ← query (verified_body (body_of e));
      if negb (bool_decide (stored = Some bs)) then
        throw_error "Verified-body provenance conflicts with exact bytes"
      else if expired e (dc_after clock) then
        _ ← finish c (TerminalFailed delivery_expired) (dc_start clock) (dc_finish clock);
        mret OutcomeExpired
      else
        _ ← insert_delivered c;
        _ ← finish c TerminalDelivered (dc_start clock) (dc_finish clock);
        mret OutcomeDelivered.

(** [deliver]; [authorized] is the result of [authorizeConnection] on the database at that time. *)
Definition deliver (c : DeliveryClaim) (bs : bytes) (attachments : list bytes) (authorized : M bool)
    (clock : deliver_clock) : Tx delivery_outcome :=
  files ← throwing (check_body (claim_envelope c) bs attachments);
  authorized ← throwing authorized;
  deliver_claimed c bs files attachments authorized clock.
End delivery.
