(* ===== verification/Worker.v ===== *)
(** * The delivery worker (apps/server/src/delivery/worker.ts)

    One round of the worker: claim, check the deadline and the relationship, retrieve, and deliver,
    fail or hold.  Between its transactions other processes may change the database: the model
    interleaves an arbitrary change before each of them. *)

From S2P Require Import Prelude JsString Value Cbor Profiles Validation ValidatePayload Models.
From S2P Require Import Cose Database Typed ServerBodies Conversations Envelopes Delivery.
From Stdlib Require Import ZArith.
Open Scope Z_scope.

(** What a retrieval comes to (retriever.ts); instants are milliseconds of a [Date]. *)
Inductive RetrievalResult :=
| RetrievedBody (bs : bytes) (attachments : list bytes)
| RetrieveLater (reason : HailHoldReason) (retryAfter : option Z)
| RetrieveFailed (reason : HailFailureReason).

Inductive worker_outcome := WorkerIdle | WorkerDelivered | WorkerFailed | WorkerOnHold.

(** The collaborators of one round and what it reads: the clock in milliseconds, the random factor
    of a delay ([Math.round(base * (0.75 + Math.random() * 0.5))]), the lease token. *)
Record worker_env := {
  we_retrieve : HailEnvelope -> M RetrievalResult;
  we_authorize : DeliveryClaim -> Database -> M bool;
  we_can_authorize : bool;          (** whether the store has [authorizeConnection] *)
  we_token : jstr;
  we_locked : gset msg_key;
  we_claim_clock : Z * Z;
  we_now : Z;
  we_jitter : Z -> Z;
  we_clock : deliver_clock;
  we_others : nat -> Database -> Database;
}.

Definition backoff (attempt : Z) : Z := Z.min 3600000 (10000 * 2 ^ Z.min (attempt - 1) 9).

(** The [Date] of the next attempt, in milliseconds. *)
Definition nextAttempt (env : worker_env) (c : DeliveryClaim) (retryAfter : option Z) : Z :=
  let local := we_now env + we_jitter env (backoff (attemptCount c)) in
  let deadline := deliveryDeadline (claim_envelope c) * 1000 in
  Z.min (deadline + 1000) (Z.max local (default 0 retryAfter)).

Section worker.
Context `{HailEnv} `{Cborg} `{Keys}.
Context `{ConnectionFunctions} `{Triggers} `{AccountFences} `{Calendar} `{EnvelopeAuthority}.

Definition fail_claim (env : worker_env) (c : DeliveryClaim) (reason : HailFailureReason) : Act worker_outcome :=
  _ ← meanwhile (we_others env 1);
  _ ← begin (fail c reason (dc_start (we_clock env)) (dc_before (we_clock env)) (dc_finish (we_clock env))) : Act unit;
  mret WorkerFailed.

Definition hold_claim (env : worker_env) (c : DeliveryClaim) (reason : HailHoldReason)
    (retryAfter : option Z) : Act worker_outcome :=
  _ ← meanwhile (we_others env 2);
  _ ← begin (hold c reason (milliseconds (nextAttempt env c retryAfter)) (dc_start (we_clock env))
               (dc_before (we_clock env)) (dc_finish (we_clock env))) : Act unit;
  mret WorkerOnHold.

(** The relationship check of connections and conversations: [Some] ends the round. *)
Definition check_relationship (env : worker_env) (c : DeliveryClaim) : Act (option worker_outcome) :=
  match e_authorization (claim_envelope c) with
  | AuthorizedByConnection _ _ | AuthorizedByConversation _ _ _ =>
      rescue
        (authorized ← act (fun db =>
           if we_can_authorize env then we_authorize env c db
           else Err (OtherError (js "Connection verification unavailable")));
         if authorized : bool then mret None
         else Some <$> fail_claim env c receiver_policy_rejected)
        (Some <$> hold_claim env c receiver_resource_constrained None)
  | _ => mret None
  end.

Definition constrained : RetrievalResult := RetrieveLater receiver_resource_constrained None.

(** Delivery of a retrieved body; an error leaves a retry. *)
Definition try_deliver (env : worker_env) (c : DeliveryClaim) (bs : bytes) (attachments : list bytes)
    : Act (worker_outcome + RetrievalResult) :=
  rescue
    (_ ← meanwhile (we_others env 3);
     authorized ← act (fun db => Ok (we_authorize env c db));
     outcome ← begin (deliver c bs attachments authorized (we_clock env)) : Act delivery_outcome;
     mret (inl match outcome with OutcomeDelivered => WorkerDelivered | _ => WorkerFailed end))
    (mret (inr constrained)).

Definition settle (env : worker_env) (c : DeliveryClaim) (result : RetrievalResult) : Act worker_outcome :=
  match result with
  | RetrieveFailed reason => fail_claim env c reason
  | RetrieveLater reason retryAfter => hold_claim env c reason retryAfter
  | RetrievedBody _ _ => mret WorkerOnHold
  end.

Definition processOne (env : worker_env) : Act worker_outcome :=
  claim ← begin (claimDue (we_token env) 180 (we_locked env) (we_claim_clock env).1 (we_claim_clock env).2)
            : Act (option DeliveryClaim);
  match claim with
  | None => mret WorkerIdle
  | Some c =>
      if deliveryDeadline (claim_envelope c) * 1000 <? we_now env then fail_claim env c delivery_expired
      else
        checked ← check_relationship env c;
        match checked with
        | Some outcome => mret outcome
        | None =>
            let result := match we_retrieve env (claim_envelope c) with
                          | Ok result => result
                          | Err _ => constrained
                          end in
            match result with
            | RetrievedBody bs attachments =>
                delivered ← try_deliver env c bs attachments;
                match delivered with
                | inl outcome => mret outcome
                | inr result => settle env c result
                end
            | result => settle env c result
            end
        end
  end.
End worker.
