(* ===== verification/Receiver.v ===== *)
(** * Receiving envelopes (apps/server/src/envelopes/receiver.ts)

    A representation posted to the provider is decoded, its sender is resolved and its signature
    verified before anything about the recipient is consulted; then the decision is handed to the
    repository.  Whatever goes wrong, the poster only learns that the envelope was ignored.

    Other processes may change the database between the statements.  The abort signal is not
    modelled: an aborted reception is ignored and its transaction rolled back. *)

From S2P Require Import Prelude JsString Value Cbor Profiles Validation ValidatePayload Models.
From S2P Require Import Cose CoseRules WebCrypto Database Typed ServerBodies Conversations Envelopes.
From Stdlib Require Import ZArith.
Open Scope Z_scope.

(** ** What the server resolves (plc/resolver.ts) *)

Record ResolvedHailDid := {
  did : jstr;
  identityDidKey : jstr;
  messagingDidKey : jstr;
  serviceBase : jstr;
  resolved_evidence : PlcResolutionEvidence;
}.

(** [getAccountByDid]: the account that is not closed, with its identifier. *)
Definition getAccountByDid (did : jstr) (db : Database) : option (jstr * Account) :=
  find_row (fun _ a => jstr_eqb (a_did a) did && negb (a_closed a)) (db provider_accounts).

Section verifier.
Context `{Keys}.

(** The verifier every receiver makes: one messaging key of one account. *)
Definition messaging_verifier (owner key : jstr) : HailVerifier :=
  createWebCryptoVerifier (fun keyId =>
    if negb (jstr_eqb keyId (owner ++ js "#hail-messaging"))
    then Err (OtherError (js "Wrong envelope key role"))
    else ed25519PublicKeyFromDidKey key) subtle.
End verifier.

(** ** [EnvelopeReceiver] *)

(** The collaborators of a reception and what it reads: [rv_now] in seconds, the clock of the
    database, and what other processes do before each of its statements. *)
Record receiver_env := {
  rv_resolve : jstr -> M ResolvedHailDid;
  rv_retain : option (ResolvedHailDid -> M unit);
  rv_localeCompare : jstr -> jstr -> comparison;
  rv_serviceBase : jstr;
  rv_now : Z;
  rv_live : option (Database -> jstr -> jstr -> jstr -> Z -> M bool);
  rv_limits : EnvelopeAdmissionLimits;
  rv_candidate_now : Z;
  rv_clock : accept_clock;
  rv_others : nat -> Database -> Database;
}.

Inductive receive_outcome := Ignored | Received_ (outcome : EnvelopeOutcome).

(** Stable order of the two resolutions that are retained. *)
Definition retained (env : receiver_env) (sender recipient : ResolvedHailDid) : list ResolvedHailDid :=
  match rv_localeCompare env (did sender) (did recipient) with
  | Gt => [recipient; sender]
  | _ => [sender; recipient]
  end.

Section receiver.
Context `{HailEnv} `{Cborg} `{Keys}.
Context `{ConnectionFunctions} `{Triggers} `{AccountFences} `{Calendar} `{EnvelopeAuthority}.

Definition retain_all (env : receiver_env) (rs : list ResolvedHailDid) : M unit :=
  match rv_retain env with
  | None => Ok tt
  | Some retain => iforM 0 rs (fun _ r => retain r)
  end.

(** What may be decided before the sender is resolved. *)
Definition out_of_bounds (env : receiver_env) (e : HailEnvelope) (representation : bytes) : bool :=
  jstr_eqb (e_from e) (e_to e) || (rv_now env + 300 <? e_created_at e)
  || (16384 <? Z.of_nat (length representation)).

(** The descriptor that comes with an introduction; [None] when the envelope is to be ignored. *)
Definition introduced_descriptor (env : receiver_env) (e : HailEnvelope) (sender : ResolvedHailDid)
    : Act (option (option (InspectedHailObject HailConversation))) :=
  match e_authorization e, e_conversation_introduction e with
  | AuthorizedByConversation creator conversation_id _, Some intro =>
      descriptor ← act (fun _ => verifyTyped Profiles.conversation (in_descriptor intro)
                                   (messaging_verifier (e_from e) (messagingDidKey sender)));
      let d : HailConversation := payload descriptor in
      if negb (jstr_eqb (cv_from d) creator) || negb (jstr_eqb (cv_conversation_id d) conversation_id)
         || negb (includes (cv_participants d) (e_to e))
         || (e_created_at e + 300 <? cv_created_at d)
      then mret None
      else match rv_live env with
      | None => mret None
      | Some live =>
          connected ← act (fun db => live db (e_to e) (e_from e) (in_connection_id intro) (in_epoch intro));
          mret (if connected : bool then Some (Some descriptor) else None)
      end
  | _, _ => mret (Some None)
  end.

Definition decision (env : receiver_env) (e : HailEnvelope) (representation payloadBytes : bytes)
    (account : jstr) (sender recipient : ResolvedHailDid)
    (descriptor : option (InspectedHailObject HailConversation)) : EnvelopeDecision := {|
  decided_payload := e; Envelopes.representation := representation;
  payloadDigest := sha256 payloadBytes; envelopeDigest := sha256 payloadBytes;
  localAccountId := account; signingPublicKey := messagingDidKey sender;
  evidence := resolved_evidence sender;
  retainAuthority := Some (retain_all env (retained env sender recipient));
  conversationDescriptor := descriptor |}.

(** The body of [receive] up to the call of the repository. *)
Definition decide_envelope (env : receiver_env) (representation : bytes) : Act (option EnvelopeDecision) :=
  inspected ← act (fun _ => inspectTyped Profiles.envelope representation);
  let e : HailEnvelope := payload inspected in
  if out_of_bounds env e representation then mret None
  else
    sender ← act (fun _ => rv_resolve env (e_from e));
    verified ← act (fun _ => verifyTyped Profiles.envelope representation
                               (messaging_verifier (e_from e) (messagingDidKey sender)));
    _ ← meanwhile (rv_others env 0);
    known ← begin (candidate e (rv_candidate_now env)) : Act bool;
    if negb known then mret None
    else
      _ ← meanwhile (rv_others env 1);
      descriptor ← introduced_descriptor env e sender;
      match descriptor with
      | None => mret None
      | Some descriptor =>
          recipient ← act (fun _ => rv_resolve env (e_to e));
          if negb (jstr_eqb (serviceBase recipient) (rv_serviceBase env)) then mret None
          else
            _ ← meanwhile (rv_others env 2);
            account ← act (fun db => Ok (getAccountByDid (e_to e) db));
            match account with
            | Some (id, a) =>
                if negb (a_active a) || negb (a_public a) then mret None
                else mret (Some (decision env e representation (payloadBytes verified) id sender
                                   recipient descriptor))
            | None => mret None
            end
      end.

Definition receive (env : receiver_env) (representation : bytes) : Act receive_outcome :=
  rescue
    (input ← decide_envelope env representation;
     match input with
     | None => mret Ignored
     | Some input =>
         _ ← meanwhile (rv_others env 3);
         Received_ <$> (accept input (rv_limits env) (rv_clock env) : Act EnvelopeOutcome)
     end)
    (mret Ignored).

(** ** Decisions come from authenticated envelopes *)

(** The decision is about the envelope its representation decodes to. *)
Record decision_consistent (input : EnvelopeDecision) : Prop := {
  dn_inspected : exists object, inspectTyped Profiles.envelope (Envelopes.representation input) = Ok object /\
    payload object = decided_payload input /\ payloadDigest input = sha256 (payloadBytes object);
  dn_digest : envelopeDigest input = payloadDigest input;
}.

Lemma bind_Act {A B} (m : Act A) (f : A -> Act B) db b db' :
  (m ≫= f) db = (Ok b, db') -> exists a db1, m db = (Ok a, db1) /\ f a db1 = (Ok b, db').
Proof. unfold mbind, Act_bind. destruct (m db) as [[a|e] db1]; [eauto|done]. Qed.

Lemma act_Ok {A} (f : Database -> M A) db a db' : act f db = (Ok a, db') -> f db = Ok a /\ db' = db.
Proof. unfold act. by intros [= ? ->]. Qed.

(** The key that the resolver names for the sender verified the representation. *)
Lemma decide_envelope_Ok env rep db input db' :
  decide_envelope env rep db = (Ok (Some input), db') ->
  decision_consistent input /\ Envelopes.representation input = rep /\
  exists sender verified, rv_resolve env (e_from (decided_payload input)) = Ok sender /\
    signingPublicKey input = messagingDidKey sender /\
    verifyTyped Profiles.envelope rep
      (messaging_verifier (e_from (decided_payload input)) (messagingDidKey sender)) = Ok verified /\
    payload verified = decided_payload input.
Proof.
  unfold decide_envelope. intros Hd. apply bind_Act in Hd as (object & db1 & Hi & Hd).
  apply act_Ok in Hi as [Hi ->]. destruct (out_of_bounds _ _ _); [discriminate Hd|].
  apply bind_Act in Hd as (sender & db1 & Hs & Hd). apply act_Ok in Hs as [Hs ->].
  apply bind_Act in Hd as (verified & db1 & Hv & Hd). apply act_Ok in Hv as [Hv ->].
  pose proof (verifyTyped_inspects _ _ _ _ Hv) as Hvi. rewrite Hi in Hvi. apply Ok_eq in Hvi as <-.
  apply bind_Act in Hd as ([] & db2 & _ & Hd). apply bind_Act in Hd as (known & db3 & _ & Hd).
  destruct known; [cbn [negb] in Hd|discriminate Hd].
  apply bind_Act in Hd as ([] & db4 & _ & Hd). apply bind_Act in Hd as ([descriptor|] & db5 & _ & Hd); [|discriminate Hd].
  apply bind_Act in Hd as (recipient & db6 & _ & Hd). destruct (jstr_eqb _ _) in Hd; [cbn [negb] in Hd|discriminate Hd].
  apply bind_Act in Hd as ([] & db7 & _ & Hd). apply bind_Act in Hd as ([[id a]|] & db8 & _ & Hd); [|discriminate Hd].
  destruct (_ || _); [discriminate Hd|]. injection Hd as <- _.
  split; [split; [by exists object|done]|]. split; [done|]. by exists sender, object.
Qed.
End receiver.
