(* ===== verification/DeliveryRules.v ===== *)
(** * What the transactions of envelopes and deliveries change

    For every transaction: the tables it leaves alone, and the new rows of the others.  The system
    of all transactions and its invariants are in [System.v]. *)

From S2P Require Import Prelude JsString Value Cbor Profiles Validation ValidatePayload Models.
From S2P Require Import Cose Database Typed ServerBodies Conversations Envelopes Delivery.
From Stdlib Require Import ZArith.
Open Scope Z_scope.

(** Two databases with the same rows in a table, or in all tables but some. *)
Definition unchanged (ts : list table) (db db' : Database) : Prop :=
  forall t, t ∈ ts -> db' t = db t.

(** The tables the deliveries are about. *)
Definition delivery_tables : list table :=
  [received_envelopes; delivery_work; reply_capabilities; delivered_messages;
   terminal_status_publications; verified_body_provenance; shared_content_blobs; sent_envelopes].

Create HintDb tx discriminated.
#[export] Hint Constants Opaque : tx.
#[export] Hint Variables Transparent : tx.

Section rules.
Context `{HailEnv} `{Cborg} `{Keys}.
Context `{ConnectionFunctions} `{Triggers} `{AccountFences} `{Calendar} `{EnvelopeAuthority}.

(** ** Reads *)

Lemma connectionMessageAllowed_reads owner peer id epoch lock paused db b db' :
  connectionMessageAllowed owner peer id epoch lock paused db = Ok (b, db') -> db' = db.
Proof. unfold connectionMessageAllowed. intros Hc. repeat case_match; congruence. Qed.

Lemma lockOwner_reads owner db u db' : lockOwner owner db = Ok (u, db') -> db' = db.
Proof.
  unfold lockOwner. intros Hl. tx. destruct (db provider_accounts !! _) as [a|]; [|by tx].
  destruct (_ && _); [|by tx]. unfold assert_unfenced in Hl. by tx.
Qed.

Lemma conversationMessageAllowed_reads owner sender identity hash lock now db b db' :
  conversationMessageAllowed owner sender identity hash lock now db = Ok (b, db') -> db' = db.
Proof.
  unfold conversationMessageAllowed. intros Hc. tx. destruct (find_row _ _) as [[account a]|]; [|by tx].
  destruct (jstr_eqb _ _); [by tx|]. tx. destruct lock; [|by tx]. by eapply lockOwner_reads.
Qed.

Lemma admitEnvelope_reads input accepted limits db u db' :
  admitEnvelope input accepted limits db = Ok (u, db') ->
  db' = db /\ (db received_envelopes !! envelope_key (decided_payload input) = None -> accepted = true ->
    pending_full limits (decided_payload input) db = false).
Proof.
  unfold admitEnvelope. intros Ha. destruct (db received_envelopes !! _); [by simplify_eq|].
  destruct accepted; [|by destruct (rejected_full _ _ _); simplify_eq].
  by destruct (pending_full _ _ _); simplify_eq.
Qed.

Lemma retain_reads m db u db' : retain m db = Ok (u, db') -> db' = db.
Proof. destruct m; unfold retain; intros Hr; by tx. Qed.

(** ** Conversations *)

Lemma introduced_reads owner d proof db b db' : introduced owner d proof db = Ok (b, db') -> db' = db.
Proof.
  unfold introduced. intros Hi. destruct (ap_connection proof) as [[id epoch]|]; [|by tx].
  tx. apply connectionMessageAllowed_reads in Hm as ->. destruct a; cbn [negb] in Hi; by tx.
Qed.

Lemma admitConversation_frame owner descriptor proof t1 t2 t3 db b db' t :
  admitConversation owner descriptor proof t1 t2 t3 db = Ok (b, db') ->
  t <> conversation_descriptors -> t <> conversation_memberships -> db' t = db t.
Proof.
  unfold admitConversation. intros Ha Hd Hm. destruct (_ || _); [by tx|].
  apply bind_Tx in Ha as (i & db1 & Hi & Ha).
  assert (db1 = db) as ->.
  { destruct (jstr_eqb _ _); [by tx|]. by eapply introduced_reads. }
  destruct i; [|by tx]. tx_step. apply bind_Tx in Ha as (u & db1 & Hl & Ha).
  apply lockOwner_reads in Hl as ->. apply bind_Tx in Ha as (p & db1 & Hp & Ha). tx.
  assert (db0 = db) as ->.
  { destruct (db conversation_descriptors !! _); [destruct (bool_decide _)|]; by tx. }
  destruct (outside_admission _ _); [by tx|]. tx. rewrite set_ne by done.
  destruct (db conversation_descriptors !! _) as [d|]; [by tx|]. tx.
  assert (db0 = set conversation_descriptors _ db) as -> by (destruct (_ !! _); [destruct (bool_decide _)|]; by tx).
  by rewrite set_ne.
Qed.

(** ** Acceptance *)

Definition accepts (o : EnvelopeOutcome) : bool :=
  match o with OutcomeAccepted => true | _ => false end.

(** An envelope with a new identifier was recorded; a delivery is queued when it was accepted. *)
Record recorded (input : EnvelopeDecision) (limits : EnvelopeAdmissionLimits)
    (outcome : EnvelopeOutcome) (now started : Z) (db db' : Database) : Prop := {
  rec_new : db received_envelopes !! envelope_key (decided_payload input) = None;
  rec_received : db' received_envelopes =
    <[envelope_key (decided_payload input) := received_row input outcome now]> (db received_envelopes);
  rec_work : db' delivery_work =
    if accepts outcome
    then <[envelope_key (decided_payload input) := new_work started]> (db delivery_work)
    else db delivery_work;
  rec_work_new : accepts outcome = true ->
    db delivery_work !! envelope_key (decided_payload input) = None;
  rec_budget : accepts outcome = true -> pending_full limits (decided_payload input) db = false;
}.

Lemma insertReceived_Ok input outcome now started retained limits db inserted db' :
  insertReceived input outcome now started retained limits db = Ok (inserted, db') ->
  (inserted = false /\ db' = db) \/
  (inserted = true /\ recorded input limits outcome now started db db' /\
   forall t, t <> received_envelopes -> t <> delivery_work -> db' t = db t).
Proof.
  unfold insertReceived. intros Hi. apply bind_Tx in Hi as ([] & db1 & Ha & Hi).
  apply admitEnvelope_reads in Ha as [-> Hbudget].
  apply bind_Tx in Hi as ([] & db1 & Hr & Hi).
  assert (db1 = db) as -> by (destruct (_ && _); [by eapply retain_reads|by tx]). clear Hr.
  tx. destruct (db received_envelopes !! _) as [r|] eqn:Hnew; [by left; tx|].
  do 2 apply bind_Tx in Hi as (? & ? & ? & Hi).
  match type of Hi with _ ?db2 = _ => assert (db2 = db) as -> end.
  { tx. destruct (find_row _ _) as [[? ?]|]; by tx. }
  right. fold (accepts outcome) in *. destruct (accepts outcome) eqn:Hacc.
  - tx. db_simpl. destruct (db delivery_work !! _) eqn:Hwork; [by tx|]. tx.
    split; [done|]. split; [|intros t ? ?; by rewrite !set_ne].
    split; db_simpl; try done; rewrite Hacc; auto.
  - tx. split; [done|]. split; [|intros t ? ?; by rewrite set_ne].
    split; db_simpl; try done; by rewrite Hacc.
Qed.

Lemma previousOutcome_old payload digest db : previousOutcome payload digest db <> Some OutcomeAccepted.
Proof.
  unfold previousOutcome. intros Hp. apply fmap_Some in Hp as (r & _ & Hr). by destruct (bool_decide _).
Qed.

Lemma record_outcome_Ok input outcome now started retained limits db inserted result db' :
  record_outcome input outcome now started retained limits db = Ok ((inserted, result), db') ->
  (inserted = false /\ db' = db /\ result <> OutcomeAccepted) \/
  (inserted = true /\ result = outcome /\ recorded input limits outcome now started db db' /\
   forall t, t <> received_envelopes -> t <> delivery_work -> db' t = db t).
Proof.
  unfold record_outcome. intros Hr. apply bind_Tx in Hr as (b & db1 & Hi & Hr).
  apply insertReceived_Ok in Hi as [[-> ->]|(-> & Hrec & Hframe)].
  - left. apply bind_Tx in Hr as (winner & db2 & Hq & Hr). apply query_Tx in Hq as [-> ->].
    apply ret_Tx in Hr as [Heq ->]. injection Heq as <- <-. split; [done|]. split; [done|].
    destruct (previousOutcome _ _ _) as [[]|] eqn:Hp; try done. by apply previousOutcome_old in Hp.
  - right. apply ret_Tx in Hr as [Heq ->]. by simplify_eq.
Qed.

Lemma recorded_ext input limits outcome now started db db1 db' :
  db1 received_envelopes = db received_envelopes -> db1 delivery_work = db delivery_work ->
  recorded input limits outcome now started db1 db' -> recorded input limits outcome now started db db'.
Proof.
  intros Hr Hw [H1' H2' H3' H4' H5']. rewrite Hr in H1', H2'. rewrite Hw in H3', H4'. split; auto.
  intros Ha. specialize (H5' Ha). unfold pending_full, pending_count in *. by rewrite Hr, Hw in H5'.
Qed.

(** What an acceptance does to the reply capability it uses. *)
Definition capability_claimed (payload : HailEnvelope) (outcome : EnvelopeOutcome) (db db' : Database)
    : Prop :=
  match accepts outcome, e_authorization payload with
  | true, AuthorizedByReply reply_to => exists c,
      db reply_capabilities !! (e_to payload, reply_to) = Some c /\ c_state c = Available /\
      db' reply_capabilities =
        update_row (e_to payload, reply_to) (claim_capability (envelope_key payload))
          (db reply_capabilities)
  | _, _ => db' reply_capabilities = db reply_capabilities
  end.

Inductive accept_effect (input : EnvelopeDecision) (limits : EnvelopeAdmissionLimits)
    (db db' : Database) : M EnvelopeOutcome -> Prop :=
| accept_nothing r :
    unchanged delivery_tables db db' -> r <> Ok OutcomeAccepted -> accept_effect input limits db db' r
| accept_records outcome now started :
    recorded input limits outcome now started db db' ->
    capability_claimed (decided_payload input) outcome db db' ->
    (forall t, t ∈ delivery_tables ->
       t ∉ [received_envelopes; delivery_work; reply_capabilities] -> db' t = db t) ->
    accept_effect input limits db db' (Ok outcome).

(** A path that changes nothing, with the outcome of an earlier envelope or a refusal. *)
Ltac nothing :=
  tx; apply accept_nothing;
  [ assumption || done
  | let He := fresh "He" in intros He; apply Ok_eq in He; subst;
    first [discriminate | by eapply previousOutcome_old] ].

(** A path without a capability, after statements that leave the deliveries alone. *)
Lemma record_effect input limits outcome now started retained db db1 o db' :
  unchanged delivery_tables db db1 ->
  (forall rt, e_authorization (decided_payload input) <> AuthorizedByReply rt) ->
  (snd <$> record_outcome input outcome now started retained limits) db1 = Ok (o, db') ->
  accept_effect input limits db db' (Ok o).
Proof.
  intros Hu Hnr Hr. apply fmap_Tx in Hr as ([inserted result] & Hr & ->).
  apply record_outcome_Ok in Hr as [(_ & -> & Hno)|(_ & -> & Hrec & Hframe)].
  { apply accept_nothing; [done|]. intros He. by apply Ok_eq in He. }
  assert (Hf : forall t, t ∈ delivery_tables -> t ∉ [received_envelopes; delivery_work] -> db' t = db t).
  { intros t Ht Hn. rewrite Hframe; [by apply Hu|set_solver..]. }
  eapply accept_records; [eapply recorded_ext; [..|exact Hrec]; apply Hu; set_solver| |].
  - unfold capability_claimed. cbn [snd]. destruct (accepts outcome); [|apply Hf; set_solver].
    destruct (e_authorization _) eqn:He; try (apply Hf; set_solver). by destruct (Hnr reply_to).
  - intros t Ht Hn. apply Hf; set_solver.
Qed.

Lemma unchanged_refl ts db : unchanged ts db db.
Proof. done. Qed.

Lemma acceptConversation_effect input limits clock creator id hash db o db' :
  (forall rt, e_authorization (decided_payload input) <> AuthorizedByReply rt) ->
  acceptConversation input limits clock creator id hash db = Ok (o, db') ->
  accept_effect input limits db db' (Ok o).
Proof.
  intros Hnr Ha. unfold acceptConversation in Ha. tx.
  destruct (account_exists _ _ _); [|nothing]. tx.
  destruct (previousOutcome _ _ _) eqn:Hprevious; [nothing|].
  apply bind_Tx in Ha as (u & db1 & Hadm & Ha).
  assert (Hu : unchanged delivery_tables db db1).
  { destruct (introduction_of input) as [[intro descriptor]|]; [|by tx].
    apply bind_Tx in Hadm as (? & ? & H1' & Hadm). apply admitEnvelope_reads in H1' as [-> _].
    apply bind_Tx in Hadm as (? & ? & H2' & Hadm). apply retain_reads in H2' as ->.
    apply bind_Tx in Hadm as (? & ? & H3' & Hadm). apply ret_Tx in Hadm as [_ ->].
    intros t Ht. eapply admitConversation_frame; [exact H3'|intros ->; set_solver..]. }
  clear Hadm. apply bind_Tx in Ha as (b & db2 & Hc & Ha). apply conversationMessageAllowed_reads in Hc as ->.
  destruct b; tx_step; [|nothing]. by eapply record_effect.
Qed.

Lemma acceptConnection_effect input limits clock id epoch db o db' :
  (forall rt, e_authorization (decided_payload input) <> AuthorizedByReply rt) ->
  acceptConnection input limits clock id epoch db = Ok (o, db') ->
  accept_effect input limits db db' (Ok o).
Proof.
  intros Hnr Ha. unfold acceptConnection in Ha. tx.
  destruct (account_exists _ _ _); [|nothing]. tx_step.
  apply bind_Tx in Ha as (b & db1 & Hc & Ha). apply connectionMessageAllowed_reads in Hc as ->. tx.
  destruct (previousOutcome _ _ _) eqn:Hprevious; [nothing|]. by eapply record_effect.
Qed.

Lemma acceptGrant_effect input limits clock id db o db' :
  (forall rt, e_authorization (decided_payload input) <> AuthorizedByReply rt) ->
  acceptGrant input limits clock id db = Ok (o, db') -> accept_effect input limits db db' (Ok o).
Proof.
  intros Hnr Ha. unfold acceptGrant in Ha. tx.
  destruct (granted _ _ _) as [[lineage revision]|]; [|nothing].
  destruct (jstr_eqb _ _); tx_step; [|nothing]. tx.
  destruct (previousOutcome _ _ _) eqn:Hprevious; [nothing|]. by eapply record_effect.
Qed.

Lemma acceptReply_effect input limits clock rt db o db' :
  e_authorization (decided_payload input) = AuthorizedByReply rt ->
  acceptReply input limits clock rt db = Ok (o, db') -> accept_effect input limits db db' (Ok o).
Proof.
  intros Hreply Ha. unfold acceptReply in Ha. tx.
  destruct (reply_claim _ _ _) as [[c s]|] eqn:Hclaim; [|nothing].
  destruct (jstr_eqb _ _); tx_step; [|nothing].
  apply bind_Tx in Ha as (inspected & db1 & Hi & Ha). tx.
  destruct (reply_permits _ _ _); tx_step; [|nothing]. tx_step.
  tx_step. destruct (previousOutcome _ _ _) eqn:Hprevious; [nothing|].
  apply bind_Tx in Ha as ([inserted result] & db1 & Hr & Ha).
  apply bind_Tx in Ha as (u & db2 & Hcap & Ha). apply ret_Tx in Ha as [<- ->].
  apply record_outcome_Ok in Hr as [(-> & -> & Hno)|(-> & -> & Hrec & Hframe)].
  { apply ret_Tx in Hcap as [_ ->]. apply accept_nothing; [done|]. intros He. by apply Ok_eq in He. }
  set (outcome := if expired _ _ then _ else _) in *.
  assert (Hc : db reply_capabilities !! (e_to (decided_payload input), rt) = Some c).
  { unfold reply_claim in Hclaim. apply bind_Some in Hclaim as (c' & Hc & Hclaim).
    apply bind_Some in Hclaim as (s' & _ & Hclaim).
    destruct (jstr_eqb _ _) in Hclaim; by simplify_eq. }
  destruct (accepts outcome) eqn:Hacc.
  - assert (Hav : c_state c = Available).
    { unfold outcome in Hacc. destruct (expired _ _); [done|]. destruct (reply_open _ _ _) eqn:Hopen; [|done].
      unfold reply_open in Hopen. by destruct (c_state c). }
    assert (db2 = set reply_capabilities (update_row (e_to (decided_payload input), rt)
      (claim_capability (envelope_key (decided_payload input))) (db1 reply_capabilities)) db1) as ->.
    { destruct outcome; try discriminate Hacc. by tx. }
    eapply accept_records.
    + destruct Hrec. by split; db_simpl.
    + unfold capability_claimed. rewrite Hacc, Hreply. exists c. split; [done|]. split; [done|].
      rewrite set_eq, Hframe by done. done.
    + intros t Hin Hn. rewrite set_ne by (intros <-; set_solver). apply Hframe; set_solver.
  - assert (db2 = db1) as -> by (destruct outcome; try discriminate Hacc; by tx).
    eapply accept_records; [exact Hrec| |].
    + unfold capability_claimed. rewrite Hacc. by apply Hframe.
    + intros t Hin Hn. apply Hframe; set_solver.
Qed.

Lemma acceptWithinBudget_effect input limits clock db o db' :
  acceptWithinBudget input limits clock db = Ok (o, db') -> accept_effect input limits db db' (Ok o).
Proof.
  unfold acceptWithinBudget. intros Ha. destruct (e_authorization _) eqn:He.
  - eapply acceptGrant_effect; [congruence|done].
  - by eapply acceptReply_effect.
  - eapply acceptConnection_effect; [congruence|done].
  - eapply acceptConversation_effect; [congruence|done].
Qed.

Lemma begin_cases {A} (tx : Tx A) db : 
  (exists a, begin tx db = (Ok a, (begin tx db).2) /\ tx db = Ok (a, (begin tx db).2)) \/
  (begin tx db).2 = db.
Proof. unfold begin. destruct (tx db) as [[a db']|e]; [left; by exists a|by right]. Qed.

Lemma accept_effects input limits clock db :
  accept_effect input limits db (accept input limits clock db).2 (accept input limits clock db).1.
Proof.
  unfold accept. destruct (begin_cases (acceptWithinBudget input limits clock) db) as [(o & -> & Ha)|Hb].
  - by eapply acceptWithinBudget_effect.
  - unfold begin in *. destruct (acceptWithinBudget _ _ _ _) as [[o db']|e] eqn:Ha; cbn in Hb.
    + subst db'. by eapply acceptWithinBudget_effect.
    + destruct (bool_decide _); by apply accept_nothing.
Qed.

(** ** Deliveries *)

(** A claimed delivery was finished: its row, the publication and the reply capability. *)
Record finished (c : DeliveryClaim) (t : terminal) (started now : Z) (db db' : Database) : Prop := {
  fin_work : db' delivery_work = update_row (claim_key c) (finish_work t now) (db delivery_work);
  fin_published : db' terminal_status_publications =
    <[claim_key c := new_publication started]> (db terminal_status_publications);
  fin_unpublished : db terminal_status_publications !! claim_key c = None;
  fin_capability : match reply_capability c with
    | None => db' reply_capabilities = db reply_capabilities
    | Some ck => owns_capability (claim_key c) (db reply_capabilities !! ck) = true /\
        db' reply_capabilities = update_row ck
          match t with TerminalDelivered => consume_capability | _ => release_capability end
          (db reply_capabilities)
    end;
}.

Lemma insert_unique_Ok {V} t (lookup : Database -> option V) f db u db' :
  insert_unique t lookup f db = Ok (u, db') -> lookup db = None /\ db' = set t (f (db t)) db.
Proof. unfold insert_unique. intros Hi. tx. destruct (lookup db); by tx. Qed.

Lemma finish_Ok c t started now db u db' : finish c t started now db = Ok (u, db') ->
  finished c t started now db db' /\
  forall t, t ∉ [delivery_work; terminal_status_publications; reply_capabilities] -> db' t = db t.
Proof.
  unfold finish. intros Hf. apply bind_Tx in Hf as ([] & db1 & Hs & Hf). tx_step. tx_step.
  apply insert_unique_Ok in Hf as [Hn ->].
  assert (Hcap : (forall t, t <> reply_capabilities -> db1 t = db t) /\
    match reply_capability c with
    | None => db1 reply_capabilities = db reply_capabilities
    | Some ck => owns_capability (claim_key c) (db reply_capabilities !! ck) = true /\
        db1 reply_capabilities = update_row ck
          match t with TerminalDelivered => consume_capability | _ => release_capability end
          (db reply_capabilities)
    end).
  { unfold settle_capability in Hs. destruct (reply_capability c) as [ck|]; [|by tx].
    tx_step. tx_step. destruct (owns_capability _ _); tx_step; [|by tx].
    apply write_Tx in Hs as ->. split; [intros ? ?; by rewrite set_ne|]. by rewrite set_eq. }
  destruct Hcap as [Hframe Hcap]. rewrite set_ne in Hn by done. rewrite Hframe in Hn by done.
  split; [split|].
  - rewrite set_ne, set_eq, Hframe by done. done.
  - rewrite set_eq, set_ne, Hframe by done. done.
  - done.
  - rewrite !set_ne by done. done.
  - intros t' Hn'. rewrite !set_ne by (intros <-; set_solver). apply Hframe. intros ->. set_solver.
Qed.

(** A new lease: the row was due, its envelope is the one of the received row. *)
Record claim_taken (c : DeliveryClaim) (leaseSeconds now : Z) (db db' : Database) : Prop := {
  ct_row : exists w r inspected,
    db delivery_work !! claim_key c = Some w /\ db received_envelopes !! claim_key c = Some r /\
    due db now (claim_key c) w r = true /\
    inspectTyped Profiles.envelope (r_envelope_cose r) = Ok inspected /\
    claim_envelope c = payload inspected /\ attemptCount c = w_attempt_count w + 1;
  ct_key : envelope_key (claim_envelope c) = claim_key c;
  ct_work : db' delivery_work =
    update_row (claim_key c) (lease_work (leaseToken c) (now + seconds leaseSeconds)) (db delivery_work);
}.

Lemma due_rows_In db now locked k w r : In (k, w, r) (due_rows db now locked) ->
  db delivery_work !! k = Some w /\ db received_envelopes !! k = Some r /\ due db now k w r = true /\
  k ∉ locked.
Proof.
  unfold due_rows. rewrite <- list_elem_of_In, sort_by_perm, list_elem_of_omap.
  intros ([k' w'] & Hin & Hr). apply (elem_of_map_to_list (M := gmap msg_key)) in Hin.
  apply bind_Some in Hr as (r' & Hr & Hk).
  destruct (due _ _ _ _ _) eqn:Hd, (bool_decide _) eqn:Hl; try discriminate Hk.
  apply bool_decide_eq_false in Hl. injection Hk as <- <- <-. done.
Qed.

Lemma claimDue_Ok token leaseSeconds locked now t1 db claim db' :
  claimDue token leaseSeconds locked now t1 db = Ok (claim, db') ->
  match claim with
  | None => db' = db /\ due_rows db now locked = []
  | Some c => leaseToken c = token /\ claim_taken c leaseSeconds now db db' /\
      forall t, t ∉ [delivery_work; delivery_scheduling] -> db' t = db t
  end.
Proof.
  unfold claimDue. intros Hc. tx_step. tx_step. destruct (due_rows db now locked) as [|[[k w] r] l] eqn:Hdue.
  { apply ret_Tx in Hc as [<- ->]. done. }
  assert (Hin : In (k, w, r) (due_rows db now locked)) by (rewrite Hdue; by left).
  apply due_rows_In in Hin as (Hw & Hr & Hd & _). tx_step. tx_step.
  destruct (_ || _) eqn:Hmatch; [discriminate Hc|]. apply orb_false_iff in Hmatch as [Hf Hm].
  apply negb_false_iff, jstr_eqb_eq in Hf, Hm. tx_step. tx_step. tx_step. tx_step. tx_step.
  assert (Hk : k = claim_key {| senderDid := k.1; messageId := k.2; leaseToken := token;
      attemptCount := w_attempt_count w + 1; claim_envelope := payload a |}) by by destruct k.
  split; [done|]. split; [|intros t Hn; rewrite !set_ne by (intros <-; set_solver); done].
  split.
  - exists w, r, a. by rewrite <- Hk.
  - unfold envelope_key, claim_key. cbn. by rewrite Hf, Hm.
  - rewrite set_ne, set_eq by done. by rewrite <- Hk.
Qed.

(** What [fail], [cancel] and [hold] do with a claim. *)
Inductive settled (c : DeliveryClaim) (db db' : Database) : Prop :=
| settled_not : db' = db -> settled c db db'
| settled_held reason retryAt now :
    holds c db = true ->
    db' delivery_work = update_row (claim_key c) (hold_work reason retryAt now) (db delivery_work) ->
    (forall t, t <> delivery_work -> db' t = db t) -> settled c db db'
| settled_finished t started now :
    holds c db = true -> t <> TerminalDelivered -> finished c t started now db db' ->
    (forall t, t ∉ [delivery_work; terminal_status_publications; reply_capabilities] -> db' t = db t) ->
    settled c db db'.

Lemma lock_step {A} c (m : Tx A) (lost : A) db a db' :
  (locked ← lockClaim c; if negb locked then mret lost else m) db = Ok (a, db') ->
  (a = lost /\ db' = db) \/ (holds c db = true /\ m db = Ok (a, db')).
Proof.
  intros Hl. apply bind_Tx in Hl as (b & db1 & Hb & Hl). apply query_Tx in Hb as [-> ->].
  destruct (holds c db); cbn [negb] in Hl; [by right|]. apply ret_Tx in Hl as [<- ->]. by left.
Qed.

Lemma finish_settles c t started now db u db' :
  holds c db = true -> t <> TerminalDelivered -> finish c t started now db = Ok (u, db') ->
  settled c db db'.
Proof. intros Hh Ht [Hf Hframe]%finish_Ok. by apply (settled_finished c db db' t started now). Qed.

Lemma fail_settles c reason started t1 t2 db u db' :
  fail c reason started t1 t2 db = Ok (u, db') -> settled c db db'.
Proof. intros [[_ ->]|[Hh Hf]]%lock_step; [by apply settled_not|by (eapply finish_settles; [..|exact Hf])]. Qed.
Lemma cancel_settles c reason started t1 db u db' :
  cancel c reason started t1 db = Ok (u, db') -> settled c db db'.
Proof. intros [[_ ->]|[Hh Hf]]%lock_step; [by apply settled_not|by (eapply finish_settles; [..|exact Hf])]. Qed.
Lemma hold_settles c reason retryAt started t1 t2 db u db' :
  hold c reason retryAt started t1 t2 db = Ok (u, db') -> settled c db db'.
Proof.
  intros [[_ ->]|[Hh Hf]]%lock_step; [by apply settled_not|].
  destruct (expired _ _); [by (eapply finish_settles; [..|exact Hf])|]. apply write_Tx in Hf as ->.
  apply (settled_held c _ _ reason retryAt t2); [done|by rewrite set_eq|].
  intros t Ht. by rewrite set_ne.
Qed.

(** *** Delivery *)

(** Stored bodies only accumulate. *)
Record bodies_grow (db db' : Database) : Prop := {
  bg_blobs d bs : db shared_content_blobs !! d = Some bs -> db' shared_content_blobs !! d = Some bs;
  bg_new d bs : db' shared_content_blobs !! d = Some bs ->
    db shared_content_blobs !! d = Some bs \/ sha256 bs = d;
  bg_provenance : db verified_body_provenance ⊆ db' verified_body_provenance;
}.

Definition body_tables : list table :=
  [shared_content_blobs; verified_body_provenance; attachment_blobs; received_attachment_refs].

Lemma storeAttachment_frame digest bs db u db' t :
  storeAttachment digest bs db = Ok (u, db') -> t <> attachment_blobs -> db' t = db t.
Proof.
  unfold storeAttachment. intros Hs Ht. tx_step. tx_step. destruct (db attachment_blobs !! _).
  - destruct (bool_decide _); by tx.
  - tx. by rewrite set_ne.
Qed.

Lemma store_attachments_frame key files db u db' t :
  store_attachments key files db = Ok (u, db') ->
  t ∉ [attachment_blobs; received_attachment_refs] -> db' t = db t.
Proof.
  intros Hs Ht. revert db Hs. induction files as [|[file bs] files IH]; cbn [store_attachments]; intros db Hs.
  { by tx. }
  apply bind_Tx in Hs as ([] & db1 & Ha & Hs). tx_step. tx_step.
  apply IH in Hs as ->. rewrite set_ne by (intros <-; set_solver).
  eapply storeAttachment_frame; [exact Ha|]. intros ->. set_solver.
Qed.

Lemma store_received_body_Ok key bs db u db' :
  store_received_body key bs db = Ok (u, db') ->
  sha256 bs = key.1.2 /\ bodies_grow db db' /\ db' shared_content_blobs !! key.1.2 = Some bs /\
  key ∈ db' verified_body_provenance /\ forall t, t ∉ body_tables -> db' t = db t.
Proof.
  unfold store_received_body. intros Hs. destruct (_ || _) eqn:Hd; [discriminate Hs|].
  apply orb_false_iff in Hd as [_ Hd]. apply negb_false_iff, bool_decide_eq_true in Hd.
  apply bind_Tx in Hs as (blob & db0 & Hq & Hs). apply query_Tx in Hq as [-> ->].
  apply bind_Tx in Hs as ([] & db1 & Hb & Hs). apply write_Tx in Hs as ->.
  split; [done|].
  assert (Hb' : db1 shared_content_blobs !! key.1.2 = Some bs /\ (forall d bs,
     db shared_content_blobs !! d = Some bs -> db1 shared_content_blobs !! d = Some bs) /\
     (forall d bs, db1 shared_content_blobs !! d = Some bs ->
        db shared_content_blobs !! d = Some bs \/ sha256 bs = d) /\
     forall t, t <> shared_content_blobs -> db1 t = db t).
  { destruct (db shared_content_blobs !! key.1.2) as [blob|] eqn:Hblob.
    - destruct (bool_decide _) eqn:Hbs; [|discriminate Hb]. apply bool_decide_eq_true in Hbs as ->.
      tx. split; [done|]. split; [done|]. split; [by left|done].
    - apply write_Tx in Hb as ->. rewrite set_eq. split; [apply (lookup_insert_eq (M := gmap bytes))|].
      split; [|split; [|intros; by rewrite set_ne]]; intros d bs'; cbn [rows]; intros Hd'.
      + rewrite lookup_insert_ne; [done|]. intros <-. cbn [rows] in *. congruence.
      + apply lookup_insert_Some in Hd' as [[<- <-]|[_ Hd']]; [by right|by left]. }
  destruct Hb' as (Hin & Hgrow & Hnew & Hframe).
  split; [split|split; [|split]].
  - intros d bs' Hd'. rewrite set_ne by done. by apply Hgrow.
  - intros d bs' Hd'. rewrite set_ne in Hd' by done. by apply Hnew.
  - rewrite set_eq, Hframe by done. cbn. set_solver.
  - by rewrite set_ne.
  - rewrite set_eq. cbn. set_solver.
  - intros t Hn. rewrite set_ne by (intros <-; set_solver). apply Hframe. intros ->. set_solver.
Qed.

Lemma finished_ext c t started now db db1 db' :
  (forall x, x ∈ [delivery_work; terminal_status_publications; reply_capabilities] -> db1 x = db x) ->
  finished c t started now db1 db' -> finished c t started now db db'.
Proof.
  intros Hx [Hw Hp Hn Hc].
  rewrite Hx in Hw, Hp, Hn by set_solver. split; try done.
  destruct (reply_capability c); rewrite Hx in Hc by set_solver; done.
Qed.

(** The body that was delivered, and the recipient's record of it. *)
Record delivered_as (c : DeliveryClaim) (bs : bytes) (now : Z) (db db' : Database) : Prop := {
  da_deadline : expired (claim_envelope c) now = false;
  da_size : Z.of_nat (length bs) = bd_size (e_body (claim_envelope c));
  da_digest : sha256 bs = digest_value (bd_digest (e_body (claim_envelope c)));
  da_profile : validateBodyBytes bs (Some (bd_profile (e_body (claim_envelope c)))) =
    Ok (bd_profile (e_body (claim_envelope c)));
  da_stored : verified_body (body_of (claim_envelope c)) db' = Some bs;
  da_message : forall r, db received_envelopes !! envelope_key (claim_envelope c) = Some r ->
    db delivered_messages !! envelope_key (claim_envelope c) = None /\
    db' delivered_messages = <[envelope_key (claim_envelope c) := {|
      dm_recipient_did := e_to (claim_envelope c); dm_envelope_digest := r_envelope_digest r;
      dm_body := body_of (claim_envelope c); dm_trashed := false |}]> (db delivered_messages);
}.

Definition settling_tables : list table :=
  [delivery_work; terminal_status_publications; reply_capabilities; delivered_messages] ++ body_tables.

(** What [deliver] does with a claim it holds. *)
Inductive delivery_effect (c : DeliveryClaim) (bs : bytes) (clock : deliver_clock) (db db' : Database)
    : delivery_outcome -> Prop :=
| delivery_lost : holds c db = false -> db' = db -> delivery_effect c bs clock db db' OutcomeLostLease
| delivery_failed o reason started now :
    o <> OutcomeDelivered -> holds c db = true ->
    finished c (TerminalFailed reason) started now db db' -> bodies_grow db db' ->
    db' delivered_messages = db delivered_messages ->
    (forall t, t ∉ settling_tables -> db' t = db t) -> delivery_effect c bs clock db db' o
| delivery_done started now :
    holds c db = true -> finished c TerminalDelivered started now db db' -> bodies_grow db db' ->
    delivered_as c bs (dc_after clock) db db' ->
    (forall t, t ∉ settling_tables -> db' t = db t) -> delivery_effect c bs clock db db' OutcomeDelivered.

Lemma still_authorized_reads e authorized now db b db' :
  still_authorized e authorized now db = Ok (b, db') -> db' = db.
Proof.
  unfold still_authorized. intros Hs. destruct (e_authorization e), authorized; cbn [negb] in Hs; tx;
    first [done|by eapply connectionMessageAllowed_reads|by eapply conversationMessageAllowed_reads].
Qed.

Lemma bodies_grow_refl db : bodies_grow db db.
Proof. split; auto. Qed.

Lemma bodies_grow_ext db db1 db2 db' :
  (forall t, t ∈ [shared_content_blobs; verified_body_provenance] -> db1 t = db2 t) ->
  bodies_grow db db2 -> db' = db1 -> bodies_grow db db'.
Proof. intros Ht [Hb Hn Hp] ->. split; [intros d bs ?|intros d bs ?|]; rewrite ?Ht in * by set_solver; auto. Qed.

Lemma check_body_Ok e bs attachments files : check_body e bs attachments = Ok files ->
  Z.of_nat (length bs) = bd_size (e_body e) /\ sha256 bs = digest_value (bd_digest (e_body e)) /\
  validateBodyBytes bs (Some (bd_profile (e_body e))) = Ok (bd_profile (e_body e)).
Proof.
  unfold check_body. intros Hc. apply bind_Ok in Hc as ([] & Hi & Hc). apply throw_if_Ok in Hi.
  apply orb_false_iff in Hi as [Hl Hd]. apply negb_false_iff in Hl, Hd.
  apply Z.eqb_eq in Hl. apply equalBytes_eq in Hd.
  apply bind_Ok in Hc as (p & Hv & _). split; [done|]. split; [done|].
  rewrite Hv. f_equal. unfold validateBodyBytes in Hv. inv_ok. destruct x0. inv_ok. bools. done.
Qed.

Lemma failed_in c reason started now db db1 u db' :
  holds c db = true ->
  bodies_grow db db1 -> (forall t, t ∉ body_tables -> db1 t = db t) ->
  finish c (TerminalFailed reason) started now db1 = Ok (u, db') ->
  forall o bs clock, o <> OutcomeDelivered -> delivery_effect c bs clock db db' o.
Proof.
  intros Hh Hg Hf Hfin o bs clock Ho. apply finish_Ok in Hfin as [Hfin Hframe].
  apply (delivery_failed c bs clock db db' o reason started now); [done|done| | | |].
  - eapply finished_ext; [|exact Hfin]. intros t Ht. apply Hf. set_solver.
  - destruct Hg as [Hb Hn Hp]. split; [intros d ? ?|intros d ? Hd|]; rewrite ?Hframe in * by set_solver; auto.
  - rewrite Hframe by set_solver. apply Hf. set_solver.
  - intros t Ht. rewrite Hframe by set_solver. apply Hf. set_solver.
Qed.

Lemma insert_delivered_Ok c db u db' : insert_delivered c db = Ok (u, db') ->
  (forall t, t <> delivered_messages -> db' t = db t) /\
  forall r, db received_envelopes !! envelope_key (claim_envelope c) = Some r ->
    db delivered_messages !! envelope_key (claim_envelope c) = None /\
    db' delivered_messages = <[envelope_key (claim_envelope c) := {|
      dm_recipient_did := e_to (claim_envelope c); dm_envelope_digest := r_envelope_digest r;
      dm_body := body_of (claim_envelope c); dm_trashed := false |}]> (db delivered_messages).
Proof.
  unfold insert_delivered. intros Hi. tx_step. tx_step.
  destruct (db received_envelopes !! _) as [r|]; [|by tx].
  apply insert_unique_Ok in Hi as [Hn ->]. split; [intros; by rewrite set_ne|].
  intros r' [= <-]. by rewrite set_eq.
Qed.

Lemma deliver_Ok c bs attachments authorized clock db o db' :
  deliver c bs attachments authorized clock db = Ok (o, db') -> delivery_effect c bs clock db db' o.
Proof.
  unfold deliver. intros Hd. apply bind_Tx in Hd as (files & db1 & Hcheck & Hd).
  apply throwing_Tx in Hcheck as [Hcheck ->]. apply check_body_Ok in Hcheck as (Hsize & Hdigest & Hprofile).
  apply bind_Tx in Hd as (auth & db1 & Hauth & Hd). apply throwing_Tx in Hauth as [_ ->].
  unfold deliver_claimed in Hd. apply bind_Tx in Hd as (b & db1 & Hb & Hd).
  apply query_Tx in Hb as [-> ->].
  destruct (holds c db) eqn:Hh; cbn [negb] in Hd; [|apply ret_Tx in Hd as [<- ->]; by apply delivery_lost].
  destruct (expired _ _).
  { apply bind_Tx in Hd as ([] & db1 & Hf & Hd). apply ret_Tx in Hd as [<- ->].
    by eapply failed_in; [..|apply bodies_grow_refl| |exact Hf|]. }
  apply bind_Tx in Hd as (permitted & db1 & Hp & Hd). apply still_authorized_reads in Hp as ->.
  destruct permitted; cbn [negb] in Hd.
  2: { apply bind_Tx in Hd as ([] & db1 & Hf & Hd). apply ret_Tx in Hd as [<- ->].
    by eapply failed_in; [..|apply bodies_grow_refl| |exact Hf|]. }
  apply bind_Tx in Hd as ([] & db1 & Hbody & Hd).
  apply store_received_body_Ok in Hbody as (_ & Hg & _ & _ & Hframe1).
  apply bind_Tx in Hd as ([] & db2 & Hatt & Hd).
  assert (Hframe2 : forall t, t ∉ [attachment_blobs; received_attachment_refs] -> db2 t = db1 t)
    by (intros t Ht; by eapply store_attachments_frame).
  assert (Hg2 : bodies_grow db db2).
  { eapply (bodies_grow_ext db db2 db1); [|done..]. intros t Ht. apply Hframe2. set_solver. }
  assert (Hf2 : forall t, t ∉ body_tables -> db2 t = db t).
  { intros t Ht. rewrite Hframe2 by set_solver. by apply Hframe1. }
  apply bind_Tx in Hd as (stored & db3 & Hs & Hd). apply query_Tx in Hs as [-> ->].
  destruct (bool_decide _) eqn:Hstored; cbn [negb] in Hd; [|discriminate Hd].
  apply bool_decide_eq_true in Hstored.
  destruct (expired _ _) eqn:Htime.
  { apply bind_Tx in Hd as ([] & db3 & Hf & Hd). apply ret_Tx in Hd as [<- ->].
    by eapply failed_in; [..|exact Hf|]. }
  apply bind_Tx in Hd as ([] & db3 & Hi & Hd). apply insert_delivered_Ok in Hi as [Hf3 Hmessage].
  apply bind_Tx in Hd as ([] & db4 & Hf & Hd). apply ret_Tx in Hd as [<- ->].
  apply finish_Ok in Hf as [Hfin Hf4].
  apply (delivery_done c bs clock db db4 (dc_start clock) (dc_finish clock)); [done| | | |].
  - eapply finished_ext; [|exact Hfin]. intros t Ht. rewrite Hf3 by (intros ->; set_solver). apply Hf2. set_solver.
  - eapply (bodies_grow_ext db db4 db2); [|done..]. intros t Ht.
    rewrite Hf4 by set_solver. apply Hf3. intros ->. set_solver.
  - split; [done|done|done|done| |].
    + unfold verified_body in *. rewrite !Hf4 by set_solver. by rewrite !Hf3 by done.
    + intros r Hr. rewrite <- (Hf2 received_envelopes) in Hr by set_solver.
      rewrite <- (Hf2 delivered_messages) by set_solver. rewrite Hf4 by set_solver. by apply Hmessage.
  - intros t Ht. rewrite Hf4 by set_solver. rewrite Hf3 by (intros ->; set_solver). apply Hf2. set_solver.
Qed.

(** ** Sending *)

(** What [createSent] adds: the sent envelope and the capability it gives, under a new key. *)
Record sent_effect (payload : HailEnvelope) (representation : bytes) (account : jstr) (db db' : Database)
    : Prop := {
  se_new : db sent_envelopes !! envelope_key payload = None;
  se_sent : exists object, inspectSignedPayload Profiles.envelope representation = Ok object /\
    db' sent_envelopes = <[envelope_key payload :=
      sent_row payload representation (sha256 (payloadBytes object)) account]> (db sent_envelopes);
  se_capability : match e_reply payload with
    | ReplyAllowed until => db reply_capabilities !! envelope_key payload = None /\
        db' reply_capabilities =
          <[envelope_key payload := new_capability payload until]> (db reply_capabilities)
    | ReplyDenied => db' reply_capabilities = db reply_capabilities
    end;
  se_rest : forall t, t ∉ [sent_envelopes; reply_capabilities; body_authorizations; detached_bodies] ->
    db' t = db t;
}.

Lemma send_authorized_reads payload now db u db' :
  send_authorized payload now db = Ok (u, db') -> db' = db.
Proof.
  unfold send_authorized. intros Hs. destruct (e_authorization payload); try by tx.
  - apply bind_Tx in Hs as (b & db1 & Hc & Hs). apply connectionMessageAllowed_reads in Hc as ->.
    destruct b; by tx.
  - apply bind_Tx in Hs as (b & db1 & Hc & Hs). apply conversationMessageAllowed_reads in Hc as ->.
    destruct b; by tx.
Qed.

Lemma createSent_Ok value payload representation account now db u db' :
  createSent value payload representation account now db = Ok (u, db') ->
  sent_effect payload representation account db db'.
Proof.
  unfold createSent. intros Hs.
  apply bind_Tx in Hs as (object & ? & Ha & Hs). apply throwing_Tx in Ha as [Hobject ->].
  do 2 (apply bind_Tx in Hs as (? & ? & Ha & Hs); apply throwing_Tx in Ha as [_ ->]).
  apply bind_Tx in Hs as ([] & dbA & Hauth & Hs). apply send_authorized_reads in Hauth as ->.
  apply bind_Tx in Hs as (? & ? & Ha & Hs). apply query_Tx in Ha as [-> ->].
  apply bind_Tx in Hs as ([] & dbA & Ha & Hs). assert (dbA = db) as -> by (repeat case_match; by tx). clear Ha.
  apply bind_Tx in Hs as (? & ? & Ha & Hs). apply query_Tx in Ha as [-> ->].
  apply bind_Tx in Hs as (p & dbA & Ha & Hs). assert (dbA = db) as -> by (repeat case_match; by tx). clear Ha.
  apply bind_Tx in Hs as ([] & dbA & Ha & Hs). apply insert_unique_Ok in Ha as [Hnew ->].
  apply bind_Tx in Hs as ([] & dbB & Hcap & Hs).
  apply bind_Tx in Hs as ([] & dbC & Ha & Hs). apply insert_unique_Ok in Ha as [_ ->].
  assert (Hlast : forall t, t <> body_authorizations -> t <> detached_bodies -> db' t = dbB t).
  { intros t Ht Ht'. destruct (available_less _ _); tx; by rewrite !set_ne. }
  clear Hs. destruct (e_reply payload) eqn:Hreply.
  - apply ret_Tx in Hcap as [_ ->]. split; [done| | |].
    + exists object. split; [done|]. by rewrite Hlast, set_eq by done.
    + rewrite Hreply, Hlast, set_ne by done. done.
    + intros t Ht. rewrite Hlast, set_ne; [done|intros He; subst; set_solver..].
  - apply insert_unique_Ok in Hcap as [Hn ->]. rewrite set_ne in Hn by done. split; [done| | |].
    + exists object. split; [done|]. by rewrite Hlast, set_ne, set_eq by done.
    + rewrite Hreply, Hlast, set_eq, set_ne by done. done.
    + intros t Ht. rewrite Hlast, !set_ne; [done|intros He; subst; set_solver..].
Qed.
End rules.
