(* ===== verification/GrantRules.v ===== *)
(** * What lineages of grants guarantee

    Every change of a lineage begins it or advances it by one revision that names its predecessor;
    so a lineage is a chain of signed revisions, its history is never rewritten, and what was revoked
    stays revoked and authorizes nothing. *)

From S2P Require Import Prelude JsString Value Cbor Profiles Validation ValidatePayload Models.
From S2P Require Import ValidationRules Invariance Roundtrip Cose CoseRules Database Typed Conversations Envelopes DeliveryRules Grants.
From Stdlib Require Import ZArith.
Open Scope Z_scope.

Lemma find_row_None {K V} `{Countable K} (f : K -> V -> bool) (m : gmap K V) k v :
  find_row f m = None -> m !! k = Some v -> f k v = false.
Proof.
  intros Hf Hk. apply (List.find_none _ _ Hf (k, v)). by apply list_elem_of_In, elem_of_map_to_list.
Qed.

Section rules.
Context `{HailEnv} `{Cborg} `{Triggers} `{GrantAuthority}.

(** ** The two ways in which lineages change *)

(** An input whose payload is the one that its representation decodes to. *)
Record checked (input : SignedGrantRevision) : Prop := {
  ck_payload : exists object, inspectTyped Profiles.grant (sgr_representation input) = Ok object /\
    payload object = sgr_payload input;
  ck_digest : sgr_digest input = sha256 (sgr_representation input);
}.

Record begins (input : SignedGrantRevision) (db db' : Database) : Prop := {
  bg_checked : checked input;
  bg_first : g_revision (sgr_payload input) = 1 /\ g_status (sgr_payload input) = grant_active;
  bg_fresh : db grant_lineages !! g_grant_id (sgr_payload input) = None;
  bg_pair : forall id l, db grant_lineages !! id = Some l -> active_pair (sgr_payload input) id l = false;
  bg_lineages : db' grant_lineages =
    <[g_grant_id (sgr_payload input) := lineage_row input]> (db grant_lineages);
  bg_revisions : db' grant_revisions =
    <[(g_grant_id (sgr_payload input), 1) := revision_row input]> (db grant_revisions);
}.

Record advanced (input : SignedGrantRevision) (db db' : Database) : Prop := {
  av_checked : checked input;
  av_lineage : exists l current,
    db grant_lineages !! g_grant_id (sgr_payload input) = Some l /\ l_active l = true /\
    l_grantor_did l = g_grantor (sgr_payload input) /\ l_grantee_did l = g_grantee (sgr_payload input) /\
    g_revision (sgr_payload input) = l_current_revision l + 1 /\
    g_previous (sgr_payload input) = Some (l_current_digest l) /\
    db grant_revisions !! (g_grant_id (sgr_payload input), l_current_revision l) = Some current /\
    gr_updated_at current < g_updated_at (sgr_payload input);
  av_fresh : db grant_revisions !! (g_grant_id (sgr_payload input), g_revision (sgr_payload input)) = None;
  av_lineages : db' grant_lineages =
    update_row (g_grant_id (sgr_payload input)) (advance_lineage input) (db grant_lineages);
  av_revisions : db' grant_revisions =
    <[(g_grant_id (sgr_payload input), g_revision (sgr_payload input)) := revision_row input]>
      (db grant_revisions);
}.

(** What a transaction may do to the lineages. *)
Definition lineage_change (db db' : Database) : Prop :=
  (exists input, begins input db db') \/ (exists input, advanced input db db') \/
  (db' grant_lineages = db grant_lineages /\ db' grant_revisions = db grant_revisions).

Lemma checkedInput_Ok input role u : checkedInput input role = Ok u -> checked input.
Proof.
  intros ([] & _ & (o & Ho & Hc%throw_if_Ok)%bind_Ok)%bind_Ok.
  apply orb_false_iff in Hc as [Hd%negb_false_iff%Cbor.equalBytes_eq Hp%negb_false_iff%bool_decide_eq_true].
  split; [by exists o|done].
Qed.

Lemma insertLineage_Ok input (db db' : Database) u : insertLineage input db = Ok (u, db') ->
  db grant_lineages !! g_grant_id (sgr_payload input) = None /\
  (forall id l, db grant_lineages !! id = Some l -> active_pair (sgr_payload input) id l = false) /\
  db' = set grant_lineages (<[g_grant_id (sgr_payload input) := lineage_row input]> (db grant_lineages)) db.
Proof.
  unfold insertLineage. intros Hi. apply bind_Tx in Hi as (clash & db1 & Hc & Hi). apply query_Tx in Hc as [-> ->].
  destruct (find_row _ _) as [e|] eqn:Hf; [by apply throwing_Tx in Hi as [Hi _]|].
  apply insert_unique_Ok in Hi as [Hn ->]. split; [done|]. split; [|done].
  intros id l Hl. exact (find_row_None _ _ _ _ Hf Hl).
Qed.

Lemma insertRevision_Ok input (db db' : Database) u : insertRevision input db = Ok (u, db') ->
  db grant_revisions !! (g_grant_id (sgr_payload input), g_revision (sgr_payload input)) = None /\
  db' = set grant_revisions (<[(g_grant_id (sgr_payload input), g_revision (sgr_payload input)) :=
    revision_row input]> (db grant_revisions)) db.
Proof.
  unfold insertRevision. intros Hi. apply bind_Tx in Hi as (clash & db1 & Hc & Hi). apply query_Tx in Hc as [-> ->].
  destruct (find_row _ _) as [e|]; [by apply throwing_Tx in Hi as [Hi _]|].
  by apply insert_unique_Ok in Hi.
Qed.

(** A transaction that writes neither table. *)
Lemma unchanged (db db' : Database) :
  (forall t, t ∈ [grant_lineages; grant_revisions] -> db' t = db t) -> lineage_change db db'.
Proof. intros Ht. right; right. split; apply Ht; set_solver. Qed.

Lemma insertPublication_Ok p destination started (db db' : Database) u :
  insertPublication p destination started db = Ok (u, db') ->
  forall t, t <> grant_publications -> db' t = db t.
Proof.
  unfold insertPublication. intros Hi t Ht. apply insert_unique_Ok in Hi as [_ ->]. by rewrite set_ne.
Qed.

Lemma insertConsent_Ok p n c (db db' : Database) u : insertConsent p n c db = Ok (u, db') ->
  forall t, t <> grant_consent_evidence -> db' t = db t.
Proof.
  unfold insertConsent. intros Hi t Ht. apply insert_unique_Ok in Hi as [_ ->]. by rewrite set_ne.
Qed.

Lemma throwing_read {A} (f : Database -> M A) (db db' : Database) a :
  ((fun db => throwing (f db) db) : Tx A) db = Ok (a, db') -> f db = Ok a /\ db' = db.
Proof. apply throwing_Tx. Qed.

Lemma insertAuthoritativeRevision1_change input consent destination started (db db' : Database) u :
  insertAuthoritativeRevision1 input consent destination started db = Ok (u, db') -> begins input db db'.
Proof.
  unfold insertAuthoritativeRevision1. intros Hi.
  apply bind_Tx in Hi as ([] & db1 & Hc & Hi). apply throwing_Tx in Hc as [Hc%checkedInput_Ok ->].
  apply bind_Tx in Hi as ([] & db1 & Ha & Hi). apply throwing_Tx in Ha as [_ ->].
  apply bind_Tx in Hi as ([] & db1 & Hf & Hi). apply throwing_Tx in Hf as [Hf%throw_if_Ok ->].
  apply orb_false_iff in Hf as [Hf1%negb_false_iff%Z.eqb_eq Hf2%negb_false_iff%bool_decide_eq_true].
  apply bind_Tx in Hi as ([] & db1 & Hp & Hi). apply bind_Tx in Hp as (r & db2 & Hq & Hp).
  apply query_Tx in Hq as [_ ->]. apply throwing_Tx in Hp as [_ ->].
  apply bind_Tx in Hi as ([] & db1 & Hl & Hi). apply insertLineage_Ok in Hl as (Hfresh & Hpair & ->).
  apply bind_Tx in Hi as ([] & db1 & Hr & Hi). apply insertRevision_Ok in Hr as [_ ->].
  apply bind_Tx in Hi as ([] & db1 & Hx & Hi). apply throwing_read in Hx as [_ ->].
  apply bind_Tx in Hi as ([] & db1 & Hx & Hi).
  pose proof (insertConsent_Ok _ _ _ _ _ _ Hx) as H1'. pose proof (insertPublication_Ok _ _ _ _ _ _ Hi) as H2'.
  split; try done.
  - rewrite H2', H1', set_ne, set_eq by done. done.
  - rewrite H2', H1', set_eq, set_ne, Hf1 by done. done.
Qed.

Lemma appendAuthoritativeUpdate_change v started (db db' : Database) u :
  appendAuthoritativeUpdate v started db = Ok (u, db') -> advanced (gu_revision v) db db'.
Proof.
  unfold appendAuthoritativeUpdate. intros Hi.
  apply bind_Tx in Hi as ([] & db1 & Hc & Hi). apply throwing_Tx in Hc as [Hc%checkedInput_Ok ->].
  apply bind_Tx in Hi as ([] & db1 & Hf & Hi). apply throwing_Tx in Hf as [Hf%throw_if_Ok ->].
  apply orb_false_iff in Hf as [Hf1%negb_false_iff%Z.eqb_eq Hf2%negb_false_iff%bool_decide_eq_true].
  apply bind_Tx in Hi as (current & db1 & Hx & Hi). apply throwing_read in Hx as [_ ->].
  apply bind_Tx in Hi as ([] & db1 & Hx & Hi). apply throwing_Tx in Hx as [_ ->].
  apply bind_Tx in Hi as (updated & db1 & Hx & Hi). apply query_Tx in Hx as [Hup ->].
  destruct updated; cbn [negb] in Hi; [|discriminate Hi].
  destruct (db grant_lineages !! _) as [l|] eqn:Hl; [|done].
  unfold expected_lineage in Hup. symmetry in Hup. rewrite !andb_true_iff in Hup.
  destruct Hup as (((((((Hacc & Hrole) & Hg%jstr_eqb_eq) & He%jstr_eqb_eq) & Hact) & Hn%Z.eqb_eq) & Hd%bool_decide_eq_true) & Hr).
  destruct (db grant_revisions !! (_, l_current_revision l)) as [r|] eqn:Hrow; [|done]. apply Z.ltb_lt in Hr.
  apply bind_Tx in Hi as ([] & db1 & Hx & Hi). apply write_Tx in Hx as ->.
  apply bind_Tx in Hi as ([] & db1 & Hx & Hi). apply insertRevision_Ok in Hx as [Hfresh ->].
  rewrite set_ne in Hfresh by done.
  apply bind_Tx in Hi as ([] & db1 & Hx & Hi). apply throwing_read in Hx as [_ ->].
  apply bind_Tx in Hi as ([] & db1 & Hx & Hi).
  apply bind_Tx in Hi as (first & db2 & Hy & Hi). apply query_Tx in Hy as [_ ->].
  destruct first as [f|]; [|discriminate Hi].
  pose proof (insertPublication_Ok _ _ _ _ _ _ Hi) as H2'.
  assert (H1' : forall t, t <> grant_consent_evidence -> db1 t =
    set grant_revisions (<[(g_grant_id (sgr_payload (gu_revision v)), g_revision (sgr_payload (gu_revision v))) :=
      revision_row (gu_revision v)]> (db grant_revisions))
    (set grant_lineages (update_row (g_grant_id (sgr_payload (gu_revision v))) (advance_lineage (gu_revision v))
      (db grant_lineages)) db) t).
  { intros t Ht. destruct (gu_consent v) as [c|].
    - rewrite (insertConsent_Ok _ _ _ _ _ _ Hx) by done. by rewrite (set_ne grant_lineages grant_revisions).
    - apply ret_Tx in Hx as [_ ->]. by rewrite (set_ne grant_lineages grant_revisions). }
  split; try done.
  - exists l, r. repeat (split; [done|]). split; [lia|]. split; [by rewrite Hd|]. done.
  - rewrite H2', H1', set_ne, set_eq by done. done.
  - rewrite H2', H1', set_eq by done. done.
Qed.

Lemma read_back_unchanged input (db db' : Database) g : read_back input db = Ok (g, db') -> db' = db.
Proof.
  unfold read_back. intros Hi. apply bind_Tx in Hi as ([] & db1 & Hx & Hi). apply throwing_read in Hx as [_ ->].
  apply bind_Tx in Hi as (c & db1 & Hx & Hi). apply throwing_read in Hx as [_ ->].
  destruct c; [by apply ret_Tx in Hi as [_ ->]|discriminate Hi].
Qed.

Lemma advances_Ok input l current : advances input l current = Ok true -> exists r, current = Some r /\
  l_active l = true /\ g_revision (sgr_payload input) = l_current_revision l + 1 /\
  g_previous (sgr_payload input) = Some (l_current_digest l) /\ gr_updated_at r < g_updated_at (sgr_payload input).
Proof.
  unfold advances. destruct current as [r|]; [|done]. destruct (_ || _) eqn:Hb; [done|].
  apply orb_false_iff in Hb as [[Ha%negb_false_iff Hn%negb_false_iff%Z.eqb_eq]%orb_false_iff Hp%negb_false_iff%bool_decide_eq_true].
  intros (t & Ht & [= Hlt])%bind_Ok. unfold safeInteger in Ht. destruct (isSafeInteger _); [|done].
  injection Ht as <-. apply Z.ltb_lt in Hlt. by exists r.
Qed.

Lemma accept_advance_change input l (db db' : Database) u : checked input ->
  db grant_lineages !! g_grant_id (sgr_payload input) = Some l ->
  l_grantor_did l = g_grantor (sgr_payload input) -> l_grantee_did l = g_grantee (sgr_payload input) ->
  accept_advance input l db = Ok (u, db') -> advanced input db db'.
Proof.
  intros Hck Hl Hg He Hi. unfold accept_advance in Hi.
  apply bind_Tx in Hi as (c & db1 & Hx & Hi). apply query_Tx in Hx as [-> ->].
  apply bind_Tx in Hi as (ok & db1 & Hx & Hi). apply throwing_Tx in Hx as [Hx ->].
  destruct ok; cbn [negb] in Hi; [|discriminate Hi]. apply advances_Ok in Hx as (r & Hr & Ha & Hn & Hp & Ht).
  apply bind_Tx in Hi as ([] & db1 & Hx & Hi). apply insertRevision_Ok in Hx as [Hfresh ->].
  apply write_Tx in Hi as ->.
  split; [done|by exists l, r|done|by rewrite set_eq, set_ne|by rewrite set_ne, set_eq].
Qed.

Lemma accept_first_change input (db db' : Database) u : checked input ->
  accept_first input db = Ok (u, db') -> begins input db db'.
Proof.
  intros Hck. unfold accept_first. destruct (_ || _) eqn:Hb; [discriminate|].
  apply orb_false_iff in Hb as [Hn%negb_false_iff%Z.eqb_eq Hs%negb_false_iff%bool_decide_eq_true].
  intros Hi. apply bind_Tx in Hi as ([] & db1 & Hx & Hi). apply insertLineage_Ok in Hx as (Hfresh & Hpair & ->).
  apply insertRevision_Ok in Hi as [_ ->].
  split; [done|done|done|done|by rewrite set_ne, set_eq|by rewrite set_eq, set_ne, Hn].
Qed.

Lemma accept_collocated_change input l existing (db db' : Database) g :
  accept_collocated input l existing db = Ok (g, db') ->
  db' grant_lineages = db grant_lineages /\ db' grant_revisions = db grant_revisions.
Proof.
  unfold accept_collocated. destruct existing as [r|]; [|discriminate]. destruct (negb _); [discriminate|].
  intros Hi. apply bind_Tx in Hi as ([] & db1 & Hx & Hi). apply write_Tx in Hx as ->.
  apply bind_Tx in Hi as (c & db1 & Hx & Hi). apply query_Tx in Hx as [_ ->].
  destruct (negb _); [discriminate Hi|]. apply fmap_Tx in Hi as (g' & Hg & _). apply throwing_Tx in Hg as [_ ->].
  by rewrite !set_ne.
Qed.

Lemma acceptReceivedRevision_change input (db db' : Database) g :
  acceptReceivedRevision input db = Ok (g, db') -> lineage_change db db'.
Proof.
  unfold acceptReceivedRevision. set (i := as_received _ _). intros Hi.
  apply bind_Tx in Hi as ([] & db1 & Hc & Hi). apply throwing_Tx in Hc as [Hc%checkedInput_Ok ->].
  apply bind_Tx in Hi as ([] & db1 & Hp & Hi). apply bind_Tx in Hp as (r & db2 & Hq & Hp).
  apply query_Tx in Hq as [_ ->]. apply throwing_Tx in Hp as [_ ->].
  apply bind_Tx in Hi as (lineage & db1 & Hx & Hi). apply query_Tx in Hx as [Hl ->].
  destruct lineage as [l|].
  2: { apply bind_Tx in Hi as ([] & db1 & Hx & Hi). apply read_back_unchanged in Hi as ->.
       left. exists i. by apply (accept_first_change _ _ _ tt). }
  destruct (_ || _) eqn:Hb in Hi; [discriminate Hi|].
  apply orb_false_iff in Hb as [Hg%negb_false_iff%jstr_eqb_eq He%negb_false_iff%jstr_eqb_eq].
  apply bind_Tx in Hi as (existing & db1 & Hx & Hi). apply query_Tx in Hx as [_ ->].
  destruct (l_grantor_role l); [right; right; by apply accept_collocated_change in Hi|].
  destruct (negb _) in Hi; [discriminate Hi|]. destruct existing as [r'|].
  - destruct (negb _) in Hi; [discriminate Hi|]. apply fmap_Tx in Hi as (g' & Hg' & _).
    apply throwing_Tx in Hg' as [_ ->]. by right; right.
  - apply bind_Tx in Hi as ([] & db1 & Hx & Hi). apply read_back_unchanged in Hi as ->.
    right; left. exists i. by apply (accept_advance_change _ l _ _ tt).
Qed.

(** ** The provider and its lineages *)

(** The transactions of the repository, in any order, and whatever the rest of the provider does to
    other tables (the publications of the revisions among them). *)
Inductive grant_step : Database -> Database -> Prop :=
| step_begin input consent destination started (db db' : Database) :
    insertAuthoritativeRevision1 input consent destination started db = Ok (tt, db') -> grant_step db db'
| step_update u started (db db' : Database) :
    appendAuthoritativeUpdate u started db = Ok (tt, db') -> grant_step db db'
| step_receive input (db db' : Database) g :
    acceptReceivedRevision input db = Ok (g, db') -> grant_step db db'
| step_else (db db' : Database) :
    db' grant_lineages = db grant_lineages -> db' grant_revisions = db grant_revisions -> grant_step db db'.

Lemma step_changes (db db' : Database) : grant_step db db' -> lineage_change db db'.
Proof.
  intros [input consent destination started db1 db2 Hi|u started db1 db2 Hi|input db1 db2 g Hi|db1 db2 Hl Hr].
  - left. exists input. by eapply insertAuthoritativeRevision1_change.
  - right; left. exists (gu_revision u). by eapply appendAuthoritativeUpdate_change.
  - by eapply acceptReceivedRevision_change.
  - by right; right.
Qed.

(** The publisher of revisions is such a step. *)
Lemma publication_is_step (db : Database) : 
  (forall token duration locked now, grant_step db (claimDuePublication token duration locked now db).2) /\
  (forall input state next etag now db',
     finishPublication input state next etag now db = Ok (tt, db') -> grant_step db db').
Proof.
  split.
  - intros token duration locked now. unfold claimDuePublication. destruct (_ || _); [by apply step_else|].
    unfold mbind, Act_bind. unfold begin at 1.
    assert (Hstep : forall c db', (rows ← query (fun db => due_grant_publications db now locked);
      match rows with
      | [] => mret None
      | (k, p) :: _ =>
          _ ← write grant_publications (update_row k (lease_grant_publication token (now + duration * 1000)));
          row ← query (fun db => l ← db grant_lineages !! k.1; pair l <$> db grant_revisions !! k);
          mret (pair (k, p) <$> row)
      end : Tx (option ((jstr * Z) * GrantPublication * (Lineage * GrantRevision)))) db = Ok (c, db') ->
      grant_step db db').
    { intros c db' Hc. apply bind_Tx in Hc as (rows & db1 & Hx & Hc). apply query_Tx in Hx as [_ ->].
      destruct rows as [|[k p] rows]; [by apply ret_Tx in Hc as [_ ->]; apply step_else|].
      apply bind_Tx in Hc as ([] & db1 & Hx & Hc). apply write_Tx in Hx as ->.
      apply bind_Tx in Hc as (row & db1 & Hx & Hc). apply query_Tx in Hx as [_ ->].
      apply ret_Tx in Hc as [_ ->]. apply step_else; by rewrite set_ne. }
    destruct ((_ : Tx _) db) as [[[[[k p] [l r]]|] db']|e] eqn:Hc; [| |by apply step_else].
    + unfold act. destruct (grantFromRow _ _ _ _); cbn; by eapply Hstep.
    + by eapply Hstep.
  - intros input state next etag now db' Hf. unfold finishPublication in Hf.
    apply bind_Tx in Hf as (owned & db1 & Hx & Hf). apply query_Tx in Hx as [_ ->].
    destruct owned; cbn [negb] in Hf; [|discriminate Hf]. apply write_Tx in Hf as ->.
    apply step_else; by rewrite set_ne.
Qed.

(** ** Chains *)

(** The columns of a revision are those of the grant its representation decodes to. *)
Definition row_signed (id : jstr) (l : Lineage) (n : Z) (r : GrantRevision) : Prop :=
  exists input, checked input /\ r = revision_row input /\
    g_grant_id (sgr_payload input) = id /\ g_revision (sgr_payload input) = n /\
    g_grantor (sgr_payload input) = l_grantor_did l /\ g_grantee (sgr_payload input) = l_grantee_did l.

Record lineage_ok (id : jstr) (l : Lineage) (db : Database) : Prop := {
  lo_current : 1 <= l_current_revision l;
  lo_rows n : is_Some (db grant_revisions !! (id, n)) <-> 1 <= n <= l_current_revision l;
  lo_signed n r : db grant_revisions !! (id, n) = Some r -> row_signed id l n r;
  lo_chain n r r' : db grant_revisions !! (id, n) = Some r -> db grant_revisions !! (id, n + 1) = Some r' ->
    gr_previous r' = Some (gr_digest r) /\ gr_updated_at r < gr_updated_at r' /\ gr_status r = grant_active;
  lo_last r : db grant_revisions !! (id, l_current_revision l) = Some r ->
    l_current_digest l = gr_digest r /\ l_active l = bool_decide (gr_status r = grant_active);
}.

Record grants_ok (db : Database) : Prop := {
  go_lineage id l : db grant_lineages !! id = Some l -> lineage_ok id l db;
  go_owned id n r : db grant_revisions !! (id, n) = Some r -> is_Some (db grant_lineages !! id);
  go_pair id id' l l' : db grant_lineages !! id = Some l -> db grant_lineages !! id' = Some l' ->
    l_active l = true -> l_active l' = true -> l_grantor_did l = l_grantor_did l' ->
    l_grantee_did l = l_grantee_did l' -> id = id';
}.

Lemma checked_row input l : checked input -> l_grantor_did l = g_grantor (sgr_payload input) ->
  l_grantee_did l = g_grantee (sgr_payload input) ->
  row_signed (g_grant_id (sgr_payload input)) l (g_revision (sgr_payload input)) (revision_row input).
Proof.
  intros Hck Hg He. by exists input.
Qed.

(** The rows of one lineage decide whether it is in order. *)
Lemma lineage_ok_rows id l (db db' : Database) :
  (forall n, db' grant_revisions !! (id, n) = db grant_revisions !! (id, n)) ->
  lineage_ok id l db -> lineage_ok id l db'.
Proof.
  intros Hr [H1' H2' H3' H4' H5']. split; [done|..].
  - intros n. by rewrite Hr.
  - intros n r. rewrite Hr. apply H3'.
  - intros n r r'. rewrite !Hr. apply H4'.
  - intros r. rewrite Hr. apply H5'.
Qed.

Lemma begins_ok input (db db' : Database) : begins input db db' -> grants_ok db -> grants_ok db'.
Proof.
  intros [Hck [Hn Hs] Hfresh Hpair Hl Hr] [Hlin Hown Hone]. set (gid := g_grant_id (sgr_payload input)) in *.
  assert (Hnone : forall n, db grant_revisions !! (gid, n) = None).
  { intros n. destruct (db grant_revisions !! (gid, n)) as [r|] eqn:E; [|done].
    apply Hown in E as [? E]. by rewrite Hfresh in E. }
  split; rewrite Hl; intros *; tables.
  - intros Hid. apply insert_cases in Hid as [[-> ->]|[Hne Hid]].
    + assert (Hrow : forall n r, db' grant_revisions !! (gid, n) = Some r -> n = 1 /\ r = revision_row input).
      { intros n r. rewrite Hr. intros Hi. tables. apply insert_cases in Hi as [[[= ->] ->]|[_ Hi]]; [done|].
        by rewrite Hnone in Hi. }
      split; cbn [lineage_row l_current_revision l_current_digest l_active]; [done|..].
      * intros n. split; [intros [r [-> _]%Hrow]; lia|]. intros Hb. assert (n = 1) as -> by lia.
        rewrite Hr. tables. rewrite insert_same. by eexists.
      * intros n r [-> ->]%Hrow. rewrite <- Hn. by apply checked_row.
      * intros n r r' [-> _]%Hrow [? _]%Hrow. lia.
      * intros r [_ ->]%Hrow. cbn. split; [done|]. by rewrite Hs.
    + apply (lineage_ok_rows _ _ db); [|by apply Hlin]. intros n. rewrite Hr. tables.
      by apply insert_other; intros [= ->].
  - rewrite Hr. intros Hi. tables. destruct (decide (id = gid)) as [->|Hne]; [rewrite insert_same; by eexists|].
    rewrite insert_other by done. rewrite insert_other in Hi by (by intros [=]). by eapply Hown.
  - assert (Hnew : forall id l, db grant_lineages !! id = Some l -> l_active l = true ->
      l_grantor_did l = g_grantor (sgr_payload input) -> l_grantee_did l = g_grantee (sgr_payload input) -> False).
    { intros i k Hi Ha Hg He. specialize (Hpair i k Hi). unfold active_pair in Hpair.
      by rewrite Ha, Hg, He, !jstr_eqb_refl in Hpair. }
    intros H1' H2' Ha Ha' Hg He.
    apply insert_cases in H1' as [[-> ->]|[Hne H1']]; apply insert_cases in H2' as [[-> ->]|[Hne' H2']]; [done|..].
    + exfalso. by eapply (Hnew id').
    + exfalso. by eapply (Hnew id).
    + by eapply Hone.
Qed.

Lemma advanced_ok input (db db' : Database) : advanced input db db' -> grants_ok db -> grants_ok db'.
Proof.
  intros [Hck (l & current & Hid & Ha & Hg & He & Hn & Hp & Hc & Ht) Hfresh Hl Hr] [Hlin Hown Hone].
  set (gid := g_grant_id (sgr_payload input)) in *.
  split; rewrite Hl; intros *; tables.
  - intros Hi. apply update_cases in Hi as [[-> (l' & Hl' & ->)]|[Hne Hi]].
    + rewrite Hid in Hl'. injection Hl' as <-. destruct (Hlin _ _ Hid) as [Hpos Hrows Hsigned Hchain Hlast].
      destruct (Hlast _ Hc) as [Hdig Hact]. rewrite Ha in Hact. symmetry in Hact. apply bool_decide_eq_true in Hact.
      assert (Hrow : forall n r, db' grant_revisions !! (gid, n) = Some r ->
        n = l_current_revision l + 1 /\ r = revision_row input \/ db grant_revisions !! (gid, n) = Some r).
      { intros n r. rewrite Hr. intros Hi. tables. rewrite Hn in Hi.
        apply insert_cases in Hi as [[[= ->] ->]|[_ Hi]]; [by left|by right]. }
      assert (Hold : forall n, n <= l_current_revision l -> db' grant_revisions !! (gid, n) = db grant_revisions !! (gid, n)).
      { intros n Hle. rewrite Hr. tables. apply insert_other. intros [= ->]. lia. }
      split; cbn [advance_lineage l_current_revision l_current_digest l_active]; rewrite ?Hn; [lia|..].
      * intros n. split.
        -- intros [r [[-> _]|Hi]%Hrow]; [lia|]. assert (Hs : is_Some (db grant_revisions !! (gid, n))) by by eexists.
           apply Hrows in Hs. lia.
        -- intros Hb. destruct (decide (n = l_current_revision l + 1)) as [->|Hne].
           ++ rewrite Hr, Hn. tables. rewrite insert_same. by eexists.
           ++ rewrite Hold by lia. apply Hrows. lia.
      * intros n r [[-> ->]|Hi]%Hrow.
        -- rewrite <- Hn. by apply checked_row.
        -- exact (Hsigned _ _ Hi).
      * intros n r r' [[-> ->]|Hi]%Hrow [[Hn' ->]|Hi']%Hrow.
        -- lia.
        -- assert (Hs : is_Some (db grant_revisions !! (gid, l_current_revision l + 1 + 1))) by by eexists.
           apply Hrows in Hs. lia.
        -- assert (n = l_current_revision l) as -> by lia.
           pose proof (eq_trans (eq_sym Hc) Hi) as [= <-].
           cbn. rewrite Hp, Hdig. done.
        -- by eapply Hchain.
      * intros r Hi. rewrite Hr, Hn in Hi. tables. rewrite insert_same in Hi. injection Hi as <-. done.
    + apply (lineage_ok_rows _ _ db); [|by apply Hlin]. intros n. rewrite Hr. tables.
      by apply insert_other; intros [= ->].
  - rewrite Hr. intros Hi. tables. destruct (decide (id = gid)) as [->|Hne].
    + rewrite update_same, Hid. by eexists.
    + rewrite update_other by done. rewrite insert_other in Hi by (by intros [=]). by eapply Hown.
  - assert (Hback : forall id l', update_row gid (advance_lineage input) (db grant_lineages) !! id = Some l' ->
      l_active l' = true -> exists l0, db grant_lineages !! id = Some l0 /\ l_active l0 = true /\
        l_grantor_did l0 = l_grantor_did l' /\ l_grantee_did l0 = l_grantee_did l').
    { intros i k Hi Hact. apply update_cases in Hi as [[-> (k0 & Hk0 & ->)]|[Hne Hi]]; [|by exists k].
      exists k0. rewrite Hid in Hk0. by injection Hk0 as <-. }
    intros H1' H2' Ha1 Ha2 Hg' He'. destruct (Hback _ _ H1' Ha1) as (k1 & Hk1 & Hb1 & Hc1 & Hd1).
    destruct (Hback _ _ H2' Ha2) as (k2 & Hk2 & Hb2 & Hc2 & Hd2).
    eapply (Hone _ _ k1 k2); try done; congruence.
Qed.

Lemma grant_step_ok (db db' : Database) : grant_step db db' -> grants_ok db -> grants_ok db'.
Proof.
  intros [[i Hi]|[[i Hi]|[Hl Hr]]]%step_changes; [by eapply begins_ok|by eapply advanced_ok|].
  intros [H1' H2' H3']. split; rewrite ?Hl, ?Hr.
  - intros id l Hid. apply (lineage_ok_rows _ _ db); [by intros n; rewrite Hr|by apply H1'].
  - intros id n r. rewrite ?Hr. apply H2'.
  - exact H3'.
Qed.

(** The states a provider without grants reaches. *)
Definition grants_reachable (db : Database) : Prop := exists db0 : Database,
  db0 grant_lineages = ∅ /\ db0 grant_revisions = ∅ /\ rtc grant_step db0 db.

Lemma reachable_ok db : grants_reachable db -> grants_ok db.
Proof.
  intros (db0 & Hl & Hr & Hsteps). assert (H0' : grants_ok db0).
  { split; rewrite ?Hl, ?Hr; intros *; tables; rewrite ?Hr; tables; by rewrite lookup_empty. }
  clear Hl Hr. induction Hsteps as [|x y z Hxy _ IH]; [done|]. apply IH. by eapply grant_step_ok.
Qed.

Lemma grants_reachable_steps db db' : grants_reachable db -> rtc grant_step db db' -> grants_reachable db'.
Proof. intros (db0 & Hl & Hr & Hs) Hs'. exists db0. do 2 (split; [done|]). by etrans. Qed.

(** ** History *)

(** What happened to a lineage and its revisions is kept, and a revoked lineage stays as it is. *)
Record lineage_later (l l' : Lineage) : Prop := {
  ll_revision : l_current_revision l <= l_current_revision l';
  ll_grantor : l_grantor_did l' = l_grantor_did l;
  ll_grantee : l_grantee_did l' = l_grantee_did l;
  ll_role : l_grantor_role l' = l_grantor_role l;
  ll_account : l_local_account_id l' = l_local_account_id l;
  ll_revoked : l_active l = false -> l' = l;
}.
Record history_kept (db db' : Database) : Prop := {
  hk_rows k r : db grant_revisions !! k = Some r -> db' grant_revisions !! k = Some r;
  hk_lineage id l : db grant_lineages !! id = Some l ->
    exists l', db' grant_lineages !! id = Some l' /\ lineage_later l l';
}.

Lemma later_refl l : lineage_later l l.
Proof. by split. Qed.
Lemma later_trans l1 l2 l3 : lineage_later l1 l2 -> lineage_later l2 l3 -> lineage_later l1 l3.
Proof.
  intros [H1' ? ? ? ? Hf] [H2' ? ? ? ? Hf']. split; [lia|congruence..|].
  intros Ha. specialize (Hf Ha) as ->. by apply Hf'.
Qed.

Lemma history_refl db : history_kept db db.
Proof. split; [done|]. intros id l Hl. exists l. by split; [|apply later_refl]. Qed.
Lemma history_trans db1 db2 db3 : history_kept db1 db2 -> history_kept db2 db3 -> history_kept db1 db3.
Proof.
  intros [H1' H2'] [H3' H4']. split; [eauto|]. intros id l Hl.
  destruct (H2' id l Hl) as (l' & Hl' & Hx). destruct (H4' id l' Hl') as (l'' & Hl'' & Hy).
  exists l''. split; [done|]. by eapply later_trans.
Qed.

Lemma step_history (db db' : Database) : grants_ok db -> grant_step db db' -> history_kept db db'.
Proof.
  intros Hok [[i [_ _ Hfresh _ Hl Hr]]|[[i [_ (l & c & Hid & Ha & Hg & He & Hn & _) Hfresh Hl Hr]]|[Hl Hr]]]%step_changes.
  - split.
    + intros k r Hk. rewrite Hr. tables. rewrite insert_other; [done|]. intros ->.
      apply (go_owned _ Hok) in Hk as [l Hk].
      by pose proof (eq_trans (eq_sym Hfresh) Hk).
    + intros id l Hid. exists l. rewrite Hl. tables.
      rewrite insert_other by (intros ->; by pose proof (eq_trans (eq_sym Hfresh) Hid)). by split; [|apply later_refl].
  - split.
    + intros k r Hk. rewrite Hr. tables. rewrite insert_other; [done|]. intros ->.
      by pose proof (eq_trans (eq_sym Hfresh) Hk).
    + intros id k Hk. rewrite Hl. tables. destruct (decide (id = g_grant_id (sgr_payload i))) as [->|Hne].
      * rewrite update_same, Hk. eexists. split; [reflexivity|]. pose proof (eq_trans (eq_sym Hid) Hk) as [= <-].
        split; try done; [cbn; lia|]. intros Hf. by rewrite Ha in Hf.
      * rewrite update_other by done. exists k. by split; [|apply later_refl].
  - split; [intros k r; by rewrite Hr|]. intros id l Hid. exists l. rewrite Hl. by split; [|apply later_refl].
Qed.

Lemma steps_history (db db' : Database) : grants_ok db -> rtc grant_step db db' -> history_kept db db'.
Proof.
  intros Hok Hsteps. induction Hsteps as [|x y z Hxy _ IH]; [apply history_refl|].
  eapply history_trans; [by apply step_history|]. apply IH. by eapply grant_step_ok.
Qed.
End rules.

(** ** Admission under a grant *)

Section admission.
Context `{HailEnv} `{Cborg} `{ConnectionFunctions} `{Triggers} `{AccountFences} `{Calendar} `{EnvelopeAuthority}.

(** What is accepted under a grant is accepted by its current revision. *)
Lemma accept_granted input limits clock id (db db' : Database) :
  e_authorization (decided_payload input) = AuthorizedByGrant id ->
  accept input limits clock db = (Ok OutcomeAccepted, db') ->
  exists l r, db grant_lineages !! id = Some l /\ db grant_revisions !! (id, l_current_revision l) = Some r /\
    l_grantor_role l = true /\ l_local_account_id l = localAccountId input /\
    l_grantor_did l = e_to (decided_payload input) /\ l_grantee_did l = e_from (decided_payload input) /\
    grant_permits l r (decided_payload input) (at_decision clock) = true.
Proof.
  intros He. unfold accept, begin. destruct (acceptWithinBudget _ _ _ _) as [[o db1]|e] eqn:Ha.
  2: { cbn. case_bool_decide; by intros [=]. }
  intros [= -> <-]. unfold acceptWithinBudget in Ha. rewrite He in Ha. unfold acceptGrant in Ha. tx.
  destruct (granted _ _ _) as [[l r]|] eqn:Hg; [|by apply ret_Tx in Ha as [[=] _]].
  destruct (jstr_eqb (l_local_account_id l) _) eqn:Hacc; cbn [negb] in Ha; [|by apply ret_Tx in Ha as [[=] _]].
  tx. destruct (previousOutcome _ _ _) eqn:Hprevious.
  { apply ret_Tx in Ha as [Ho _]. subst. by apply previousOutcome_old in Hprevious. }
  apply fmap_Tx in Ha as ([inserted result] & Hr & Ho). cbn in Ho. subst result.
  unfold granted in Hg. apply bind_Some in Hg as (l' & Hl & Hg). apply bind_Some in Hg as (r' & Hrow & Hg).
  destruct (_ && _) eqn:Hb in Hg; [|done]. injection Hg as -> ->.
  apply andb_true_iff in Hb as [[Hto%jstr_eqb_eq Hfrom%jstr_eqb_eq]%andb_true_iff Hrole].
  apply jstr_eqb_eq in Hacc. exists l, r. repeat (split; [done|]).
  apply record_outcome_Ok in Hr as [(_ & _ & Hno)|(_ & Ho & _)]; [done|].
  destruct (expired _ _); [done|]. by destruct (grant_permits _ _ _ _).
Qed.
End admission.

(** ** The guarantees *)

Section guarantees.
Context `{HailEnv} `{CborgSpec} `{Triggers} `{GrantAuthority} `{ConnectionFunctions} `{AccountFences} `{Calendar} `{EnvelopeAuthority}.
#[local] Set Default Proof Using "Type".

Lemma inspected_grant_ok rep object : inspectTyped Profiles.grant rep = Ok object ->
  grant_ok (payload object).
Proof using Type*.
  intros (o & Hi & (p & Hp & [= <-])%bind_Ok)%bind_Ok. cbn [payload].
  apply bind_Ok in Hi as (q & Hq & Ho). apply Ok_eq in Ho as <-. apply parse_Ok in Hq as [].
  cbn [inspectedResult payload] in Hp.
  assert (Hval : validatePayload (Signed grant) (of_hail (structuredClone (parsed_payload q))) =
    Ok (structuredClone (parsed_payload q))).
  { pose proof (fits_wf _ _ parsed_fits) as Hw.
    pose proof (validatePayload_narrows (Signed grant) _ _ ltac:(by rewrite js_wf_of_hail) parsed_valid) as (_ & Hf & _).
    eapply validatePayload_same; [apply structuredClone_same|by apply structuredClone_fits|done|done]. }
  destruct (signed_payload grant _ _ ltac:(done) Hval) as (n & r & u & g & Hm & Hr & Hg).
  unfold typed in Hp. rewrite Hg in Hp. apply Ok_eq in Hp as <-. rewrite Hm in Hg.
  by eapply grant_rules_record.
Qed.

(** C22: A lineage of grants is a chain: in every state the provider reaches, with whatever it is sent
    and in whatever order, the revisions of a lineage are exactly 1 to the current one; each is
    what its signed representation says, for this lineage and its two parties; the first names no
    predecessor and every other one names the digest of the revision before it, which is older and was
    not revoked; the lineage's digest and status are those of the last; and no two active lineages
    have the same parties. *)
Theorem grant_chain db id l : grants_reachable db -> db grant_lineages !! id = Some l ->
  lineage_ok id l db /\
  (forall n r, db grant_revisions !! (id, n) = Some r -> gr_previous r = None <-> n = 1) /\
  (forall id' l', db grant_lineages !! id' = Some l' -> l_active l = true -> l_active l' = true ->
     l_grantor_did l = l_grantor_did l' -> l_grantee_did l = l_grantee_did l' -> id = id').
Proof using Type*.
  intros Hr Hl. pose proof (reachable_ok db Hr) as Hok. pose proof (go_lineage _ Hok _ _ Hl) as Hlin.
  split; [done|]. split; [|by intros; eapply (go_pair _ Hok)].
  intros n r Hn. destruct (lo_signed _ _ _ Hlin _ _ Hn) as (i & [(o & Ho & Hp) _] & -> & _ & <- & _).
  apply inspected_grant_ok in Ho as (_ & Hprev & _). cbn [HailPayloadByType] in *. rewrite Hp in Hprev. exact Hprev.
Qed.

(** C23: What is admitted under a grant, a signed grant permits: in every state the provider reaches,
    a message that is newly accepted in the name of a grant goes from the grantee to the grantor of a
    lineage that is active, and the last revision of that lineage, decoded from its signed
    representation, is active, has not expired at the time of the decision, and has the category of
    the message in its scope. *)
Theorem grant_admits db db' input limits clock id : grants_reachable db ->
  e_authorization (decided_payload input) = AuthorizedByGrant id ->
  accept input limits clock db = (Ok OutcomeAccepted, db') ->
  exists l g, db grant_lineages !! id = Some l /\ checked g /\
    db grant_revisions !! (id, l_current_revision l) = Some (revision_row g) /\
    g_grant_id (sgr_payload g) = id /\ g_revision (sgr_payload g) = l_current_revision l /\
    g_grantor (sgr_payload g) = e_to (decided_payload input) /\
    g_grantee (sgr_payload g) = e_from (decided_payload input) /\
    g_status (sgr_payload g) = grant_active /\
    (forall t, g_expires_at (sgr_payload g) = Some t -> at_decision clock <= seconds t) /\
    exists category, e_category (decided_payload input) = Some category /\
      includes (scope_values (g_scope (sgr_payload g))) category = true.
Proof using Type*.
  intros Hr He Ha. destruct (accept_granted _ _ _ _ _ _ He Ha) as (l & r & Hl & Hrow & _ & _ & Hto & Hfrom & Hp).
  pose proof (go_lineage _ (reachable_ok db Hr) _ _ Hl) as Hok.
  destruct (lo_last _ _ _ Hok _ Hrow) as [_ Hact].
  destruct (lo_signed _ _ _ Hok _ _ Hrow) as (g & Hck & -> & Hid & Hn & Hgr & Hge).
  unfold grant_permits in Hp. apply andb_true_iff in Hp as [[Hactive Hexp]%andb_true_iff Hcat].
  rewrite Hact in Hactive. apply bool_decide_eq_true in Hactive.
  exists l, g. do 5 (split; [done|]). split; [congruence|]. split; [congruence|]. split; [done|].
  cbn [revision_row gr_expires_at gr_scope] in Hexp, Hcat. split.
  - intros t Ht. rewrite Ht in Hexp. lia.
  - destruct (e_category _) as [category|]; [|done]. by exists category.
Qed.

(** C24: A revocation is final: once a lineage is revoked, then whatever is issued, received or
    published afterwards, in whatever order, the lineage stays exactly as it is, its revisions are
    kept, no other revision joins them, and no message is newly accepted in its name. *)
Theorem revoked_for_good db db' id l : grants_reachable db -> db grant_lineages !! id = Some l ->
  l_active l = false -> rtc grant_step db db' ->
  db' grant_lineages !! id = Some l /\
  (forall n, db' grant_revisions !! (id, n) = db grant_revisions !! (id, n)) /\
  forall input limits clock, e_authorization (decided_payload input) = AuthorizedByGrant id ->
    (accept input limits clock db').1 <> Ok OutcomeAccepted.
Proof using Type*.
  intros Hr Hl Hf Hsteps. pose proof (reachable_ok db Hr) as Hok.
  assert (Hok' : grants_ok db') by (apply reachable_ok; by eapply grants_reachable_steps).
  destruct (steps_history _ _ Hok Hsteps) as [Hrows Hlin].
  destruct (Hlin _ _ Hl) as (l' & Hl' & Hlater). pose proof (ll_revoked _ _ Hlater Hf) as ->.
  split; [done|]. split.
  - intros n. destruct (db grant_revisions !! (id, n)) as [r|] eqn:Hn; [by apply Hrows|].
    destruct (db' grant_revisions !! (id, n)) as [r|] eqn:Hn'; [|done].
    assert (Hs : is_Some (db' grant_revisions !! (id, n))) by by eexists.
    apply (lo_rows _ _ _ (go_lineage _ Hok' _ _ Hl')) in Hs.
    apply (lo_rows _ _ _ (go_lineage _ Hok _ _ Hl)) in Hs as [r' Hs]. by pose proof (eq_trans (eq_sym Hs) Hn).
  - intros input limits clock He Ha. destruct (accept input limits clock db') as [o db''] eqn:E. cbn in Ha. subst o.
    destruct (accept_granted _ _ _ _ _ _ He E) as (l' & r & Hl'' & _ & _ & _ & _ & _ & Hp).
    pose proof (eq_trans (eq_sym Hl') Hl'') as [= <-]. unfold grant_permits in Hp. by rewrite Hf in Hp.
Qed.

(** ** Both parties *)

(** C25: The recipient of a grant follows its grantor: let the provider of the grantee have only
    revisions that the grantor's provider persisted.  Then it never is ahead, the revisions it has are
    the same, with the same scope, expiry and status, and once it has the current one both agree
    whether the grant is active. *)
Theorem grantee_follows_grantor db db' id l l' : grants_reachable db -> grants_reachable db' ->
  db grant_lineages !! id = Some l -> db' grant_lineages !! id = Some l' ->
  (forall n r', db' grant_revisions !! (id, n) = Some r' -> exists n r,
     db grant_revisions !! (id, n) = Some r /\ gr_cose r = gr_cose r') ->
  l_current_revision l' <= l_current_revision l /\
  (forall n r', db' grant_revisions !! (id, n) = Some r' -> exists r, db grant_revisions !! (id, n) = Some r /\
     gr_cose r = gr_cose r' /\ gr_status r = gr_status r' /\ gr_scope r = gr_scope r' /\
     gr_expires_at r = gr_expires_at r' /\ gr_digest r = gr_digest r') /\
  (l_current_revision l' = l_current_revision l -> l_active l' = l_active l).
Proof using Type*.
  intros Hr Hr' Hl Hl' Hsame.
  pose proof (go_lineage _ (reachable_ok _ Hr) _ _ Hl) as Hok.
  pose proof (go_lineage _ (reachable_ok _ Hr') _ _ Hl') as Hok'.
  assert (Hrow : forall n r', db' grant_revisions !! (id, n) = Some r' -> exists r,
    db grant_revisions !! (id, n) = Some r /\ gr_cose r = gr_cose r' /\ gr_status r = gr_status r' /\
    gr_scope r = gr_scope r' /\ gr_expires_at r = gr_expires_at r' /\ gr_digest r = gr_digest r').
  { intros n r' Hn. destruct (Hsame _ _ Hn) as (m & r & Hm & Hc).
    destruct (lo_signed _ _ _ Hok _ _ Hm) as (i & [(o & Ho & Hp) Hd] & -> & _ & Hpm & _).
    destruct (lo_signed _ _ _ Hok' _ _ Hn) as (i' & [(o' & Ho' & Hp') Hd'] & -> & _ & Hpn & _).
    cbn [revision_row gr_cose] in Hc. rewrite Hc, Ho' in Ho. injection Ho as <-.
    assert (He : sgr_payload i = sgr_payload i') by congruence.
    assert (m = n) as -> by congruence. exists (revision_row i). split; [done|].
    cbn. rewrite He, Hd, Hd', Hc. done. }
  assert (Hle : l_current_revision l' <= l_current_revision l).
  { assert (Hs : is_Some (db' grant_revisions !! (id, l_current_revision l')))
      by (apply (lo_rows _ _ _ Hok'); pose proof (lo_current _ _ _ Hok'); lia).
    destruct Hs as [r' Hn]. destruct (Hrow _ _ Hn) as (r & Hm & _).
    assert (Hs : is_Some (db grant_revisions !! (id, l_current_revision l'))) by by eexists.
    apply (lo_rows _ _ _ Hok) in Hs. lia. }
  split; [done|]. split; [done|]. intros Heq.
  assert (Hs : is_Some (db' grant_revisions !! (id, l_current_revision l')))
    by (apply (lo_rows _ _ _ Hok'); pose proof (lo_current _ _ _ Hok'); lia).
  destruct Hs as [r' Hn]. destruct (Hrow _ _ Hn) as (r & Hm & _ & Hst & _).
  rewrite (proj2 (lo_last _ _ _ Hok' _ Hn)). rewrite Heq in Hm. by rewrite (proj2 (lo_last _ _ _ Hok _ Hm)), Hst.
Qed.
End guarantees.
