(* ===== verification/System.v ===== *)
(** * The system of envelopes and deliveries

    The transactions of the envelope and delivery repositories and of account closure as the steps
    of one transition system: the state is the database together with the claims that workers hold.
    The workers run at any time and in any order, with any claim that was ever issued; whatever the
    rest of the server does to other tables happens in between.  Migration returns, which delete a
    whole account with its messages, are not among the steps.

    The invariant of the reachable states and its preservation by every step are proved here; what
    it means for messages, replies, leases and budgets is in [Safety.v]. *)

From S2P Require Import Prelude JsString Value Cbor Profiles Validation ValidatePayload Models.
From S2P Require Import Cose Database Typed ServerBodies Conversations Envelopes Delivery.
From S2P Require Import Receiver DeliveryRules.
From Stdlib Require Import ZArith.
Open Scope Z_scope.

Record world := { db : Database; issued : list DeliveryClaim }.

(** Account closure (accounts/lifecycle.ts) cancels the outstanding deliveries of the account. *)
Definition close_work (now : Z) (w : Work) : Work :=
  if pending w then {|
    w_state := cancelled; w_reason := Some AccountClosed;
    w_status_revision := w_status_revision w + 1; w_attempt_count := w_attempt_count w;
    w_next_attempt_at := w_next_attempt_at w; w_lease := None; w_transitioned_at := now |}
  else w.
Definition cancel_account_work (account : jstr) (now : Z) (db : Database) : rows delivery_work :=
  map_imap (fun k w => Some (match db received_envelopes !! k with
    | Some r => if jstr_eqb (r_local_account_id r) account then close_work now w else w
    | None => w
    end)) (db delivery_work).

(** The tables only these transactions write. *)
Definition protected : list table := [received_envelopes; delivery_work; reply_capabilities].

(** What the rest of the server may do: anything to other tables, but a publication is only made
    when a delivery ends. *)
Record others (db db' : Database) : Prop := {
  ot_protected : unchanged protected db db';
  ot_publications k : is_Some (db' terminal_status_publications !! k) ->
    is_Some (db terminal_status_publications !! k);
}.

Section system.
Context `{HailEnv} `{Cborg} `{Keys}.
Context `{ConnectionFunctions} `{Triggers} `{AccountFences} `{Calendar} `{EnvelopeAuthority}.
Context (limits : EnvelopeAdmissionLimits).

Inductive step : world -> world -> Prop :=
| step_accept w input clock :
    decision_consistent input ->
    step w {| db := (accept input limits clock (db w)).2; issued := issued w |}
| step_send w value payload representation account now :
    step w {| db := (begin (createSent value payload representation account now) (db w)).2;
              issued := issued w |}
| step_claim w token leaseSeconds locked now t1 c db' :
    token ∉ map leaseToken (issued w) ->
    claimDue token leaseSeconds locked now t1 (db w) = Ok (Some c, db') ->
    step w {| db := db'; issued := c :: issued w |}
| step_fail w c reason started t1 t2 :
    In c (issued w) ->
    step w {| db := (begin (fail c reason started t1 t2) (db w)).2; issued := issued w |}
| step_cancel w c reason started t1 :
    In c (issued w) ->
    step w {| db := (begin (cancel c reason started t1) (db w)).2; issued := issued w |}
| step_hold w c reason retryAt started t1 t2 :
    In c (issued w) ->
    step w {| db := (begin (hold c reason retryAt started t1 t2) (db w)).2; issued := issued w |}
| step_deliver w c bs attachments authorized clock :
    In c (issued w) ->
    step w {| db := (begin (deliver c bs attachments authorized clock) (db w)).2; issued := issued w |}
| step_close w account now :
    step w {| db := set delivery_work (cancel_account_work account now (db w)) (db w);
              issued := issued w |}
| step_other w db' :
    others (db w) db' -> step w {| db := db'; issued := issued w |}.

(** A provider without messages. *)
Definition initial (w : world) : Prop :=
  db w received_envelopes = ∅ /\ db w delivery_work = ∅ /\
  db w terminal_status_publications = ∅ /\ issued w = [].

Definition reachable (w : world) : Prop := exists w0, initial w0 /\ rtc step w0 w.

(** ** The invariant *)

(** The columns of a delivery that go together. *)
Definition work_shape (w : Work) : Prop :=
  1 <= w_status_revision w /\
  match w_state w with
  | accepted => w_status_revision w = 1 /\ w_reason w = None
  | on_hold => exists r, w_reason w = Some (ReasonOf (HoldReason r))
  | delivered => w_reason w = None /\ w_lease w = None
  | failed => (exists r, w_reason w = Some (ReasonOf (FailureReason r))) /\ w_lease w = None
  | cancelled => w_lease w = None /\
      ((exists r, w_reason w = Some (ReasonOf (CancellationReason r))) \/ w_reason w = Some AccountClosed)
  end.

(** The capability a received envelope uses. *)
Definition reply_of (r : Received) : option msg_key :=
  match r_authorization r with
  | AuthorizedByReply reply_to => Some (r_recipient_did r, reply_to)
  | _ => None
  end.

Definition capability_is (s : capability_state) (k : msg_key) (c : option Capability) : Prop :=
  exists c', c = Some c' /\ c_state c' = s /\ c_claimed c' = Some k.

(** What a delivery in a state needs of the capability it uses. *)
Definition capability_for (w : Work) (k : msg_key) (c : option Capability) : Prop :=
  match w_state w with
  | accepted | on_hold => capability_is Claimed k c
  | delivered => capability_is Consumed k c
  | _ => True
  end.

(** The envelope of a row of [received_envelopes]. *)
Definition envelope_of (r : Received) (e : HailEnvelope) : Prop :=
  exists object, inspectTyped Profiles.envelope (r_envelope_cose r) = Ok object /\ payload object = e.

Record within_budget (db : Database) : Prop := {
  wb_provider : pending_count db (fun _ _ => true) <= pendingProvider limits;
  wb_sender d : pending_count db (fun k _ => jstr_eqb k.1 d) <= pendingSender limits;
  wb_recipient d : pending_count db (fun _ r => jstr_eqb (r_recipient_did r) d) <= pendingRecipient limits;
}.

(** The rows of the database, without the claims. *)
Record rows_ok (db : Database) : Prop := {
  ro_received k r : db received_envelopes !! k = Some r -> exists e,
    envelope_of r e /\ envelope_key e = k /\ e_authorization e = r_authorization r /\
    e_to e = r_recipient_did r;
  ro_work k w : db delivery_work !! k = Some w -> work_shape w /\ exists r,
    db received_envelopes !! k = Some r /\ r_outcome r = ReceivedAccepted;
  ro_accepted k r : db received_envelopes !! k = Some r -> r_outcome r = ReceivedAccepted ->
    is_Some (db delivery_work !! k);
  ro_reply k w r ck : db delivery_work !! k = Some w -> db received_envelopes !! k = Some r ->
    reply_of r = Some ck -> capability_for w k (db reply_capabilities !! ck);
  ro_published k : is_Some (db terminal_status_publications !! k) -> exists w,
    db delivery_work !! k = Some w /\ pending w = false;
}.

Record claims_ok (w : world) : Prop := {
  co_claims c : In c (issued w) -> envelope_key (claim_envelope c) = claim_key c /\ exists r,
    db w received_envelopes !! claim_key c = Some r /\ envelope_of r (claim_envelope c);
  co_leases k row token expiry : db w delivery_work !! k = Some row ->
    w_lease row = Some (token, expiry) -> exists c, In c (issued w) /\ leaseToken c = token /\ claim_key c = k;
  co_tokens : NoDup (map leaseToken (issued w));
}.

Record invariant (w : world) : Prop := {
  inv_rows : rows_ok (db w);
  inv_claims : claims_ok w;
  inv_budget : 0 <= pendingProvider limits -> 0 <= pendingSender limits ->
    0 <= pendingRecipient limits -> within_budget (db w);
}.

(** ** Preservation *)

Lemma rows_ok_ext db db' : others db db' -> rows_ok db -> rows_ok db'.
Proof.
  intros [Hu Hp] [H1' H2' H3' H4' H5']. split; intros *; [rewrite !Hu by set_solver; eauto..|].
  intros (w & Hw & Hpend)%Hp%H5'. exists w. rewrite (Hu delivery_work) by set_solver. done.
Qed.
Lemma unchanged_others db db' : unchanged delivery_tables db db' -> others db db'.
Proof. intros Hu. split; [intros t Ht; apply Hu; set_solver|]. intros k. by rewrite Hu by set_solver. Qed.

Lemma within_budget_ext db db' : unchanged protected db db' -> within_budget db -> within_budget db'.
Proof.
  intros Hu [H1' H2' H3']. split; unfold pending_count in *; intros; rewrite !Hu by set_solver; auto.
Qed.

Lemma claims_ok_ext db db' cs : unchanged protected db db' ->
  claims_ok {| db := db; issued := cs |} -> claims_ok {| db := db'; issued := cs |}.
Proof. intros Hu [H1' H2' H3']. split; cbn in *; intros *; rewrite ?Hu by set_solver; eauto. Qed.

Lemma received_of_accepted o : received_of o = ReceivedAccepted <-> accepts o = true.
Proof. by destruct o. Qed.

(** *** Acceptance *)

Lemma received_row_envelope input outcome now : decision_consistent input ->
  envelope_of (received_row input outcome now) (decided_payload input).
Proof. intros [(object & Ho & Hp & _) _]. by exists object. Qed.

Lemma capability_for_pending w k c : pending w = true -> capability_for w k c -> capability_is Claimed k c.
Proof. unfold pending, capability_for. by destruct (w_state w). Qed.

(** A message other than the new one keeps its capability: what was available is nobody's. *)
Lemma claim_keeps payload outcome db db' k w ck :
  capability_claimed payload outcome db db' ->
  capability_for w k (db reply_capabilities !! ck) -> capability_for w k (db' reply_capabilities !! ck).
Proof.
  unfold capability_claimed. destruct (accepts outcome); [|by intros ->].
  destruct (e_authorization payload); try by intros ->. intros (c & Hc & Hav & ->).
  destruct (decide (ck = (e_to payload, reply_to))) as [->|Hne]; [|cbn [rows]; by rewrite update_other].
  tables. rewrite update_same, Hc. unfold capability_for, capability_is.
  destruct (w_state w); try done; intros (c' & [= <-] & Hs & _); congruence.
Qed.

Lemma recorded_work input outcome now started (db db' : Database) :
  (forall k w, db delivery_work !! k = Some w -> work_shape w /\ exists r,
     db received_envelopes !! k = Some r /\ r_outcome r = ReceivedAccepted) ->
  recorded input limits outcome now started db db' ->
  forall k w, db' delivery_work !! k = Some w ->
    (k = envelope_key (decided_payload input) /\ w = new_work started /\ accepts outcome = true) \/
    (k <> envelope_key (decided_payload input) /\ db delivery_work !! k = Some w).
Proof.
  intros Hrows [Hnew _ Hwork _ _] k w Hw. tables. rewrite Hwork in Hw. destruct (accepts outcome).
  - apply insert_cases in Hw as [[-> ->]|[? ?]]; auto.
  - right. split; [|done]. intros ->. apply Hrows in Hw as (_ & r & Hr & _). rewrite Hnew in Hr. discriminate Hr.
Qed.

Lemma rows_ok_accept input db db' res :
  decision_consistent input -> accept_effect input limits db db' res -> rows_ok db -> rows_ok db'.
Proof.
  intros Hdec [? Hu _|outcome now started Hrecorded Hcap Hframe] [H1' H2' H3' H4' H5'].
  { apply (rows_ok_ext db); [by apply unchanged_others|by split]. }
  set (k := envelope_key (decided_payload input)) in *.
  pose proof (recorded_work _ _ _ _ _ _ H2' Hrecorded) as Hold. destruct Hrecorded as [Hnew Hrec Hwork Hwnew _].
  tables.
  split; cbn [rows].
  - intros j r. rewrite Hrec. intros [[-> ->]|[_ Hr]]%insert_cases; [|by apply H1'].
    exists (decided_payload input). split; [by apply received_row_envelope|done].
  - intros j w [(-> & -> & Hacc)|[Hj Hw]]%Hold.
    + split; [done|]. rewrite Hrec. exists (received_row input outcome now). rewrite insert_same.
      split; [done|]. by apply received_of_accepted.
    + apply H2' in Hw as (Hs & r & Hr & Ha). split; [done|]. exists r. by rewrite Hrec, insert_other.
  - intros j r. rewrite Hrec, Hwork. intros [[-> ->]|[Hj Hr]]%insert_cases Ha.
    + apply received_of_accepted in Ha as ->. rewrite insert_same. by eexists.
    + destruct (accepts outcome); [rewrite insert_other by done|]; by eapply H3'.
  - intros j w r ck Hw Hr Hck. rewrite Hrec in Hr. apply Hold in Hw as [(-> & -> & Hacc)|[Hj Hw]].
    + rewrite insert_same in Hr. injection Hr as <-. unfold reply_of in Hck. cbn in Hck.
      unfold capability_claimed in Hcap. rewrite Hacc in Hcap.
      destruct (e_authorization (decided_payload input)); try discriminate Hck. injection Hck as <-.
      destruct Hcap as (c & Hc & _ & ->). tables. rewrite update_same, Hc. by eexists.
    + rewrite insert_other in Hr by done. eapply claim_keeps; [exact Hcap|by eapply H4'].
  - intros j. rewrite Hframe by set_solver. intros (w & Hw & Hp)%H5'. exists w. split; [|done].
    rewrite Hwork. destruct (accepts outcome); [|done]. rewrite insert_other; [done|].
    intros ->. apply H2' in Hw as (_ & r & Hr & _). congruence.
Qed.

(** *** Changes of one delivery *)

Lemma rows_ok_update k f (db db' : Database) :
  db' received_envelopes = db received_envelopes ->
  db' delivery_work = update_row k f (db delivery_work) ->
  (forall w, db delivery_work !! k = Some w -> work_shape w -> work_shape (f w)) ->
  (forall w r ck, db delivery_work !! k = Some w -> db received_envelopes !! k = Some r ->
     reply_of r = Some ck -> capability_for w k (db reply_capabilities !! ck) ->
     capability_for (f w) k (db' reply_capabilities !! ck)) ->
  (forall j w ck, j <> k -> capability_for w j (db reply_capabilities !! ck) ->
     capability_for w j (db' reply_capabilities !! ck)) ->
  (forall w, db delivery_work !! k = Some w -> pending w = false -> pending (f w) = false) ->
  (forall j, is_Some (db' terminal_status_publications !! j) ->
     is_Some (db terminal_status_publications !! j) \/
     j = k /\ exists w, db delivery_work !! k = Some w /\ pending (f w) = false) ->
  rows_ok db -> rows_ok db'.
Proof.
  intros Hr Hw Hf Hmine Hothers Hpend Hpub [H1' H2' H3' H4' H5']. split; tables; intros *; rewrite ?Hr, ?Hw.
  - apply H1'.
  - intros [(-> & w' & Hw' & ->)|[_ Hw']]%update_cases.
    + destruct (H2' _ _ Hw') as (Hs & He). split; [by apply Hf|done].
    + by apply H2'.
  - intros Hj Ha. destruct (H3' _ _ Hj Ha) as [w' Hw']. destruct (decide (k0 = k)) as [->|Hne].
    + rewrite update_same, Hw'. by eexists.
    + rewrite update_other, Hw' by done. by eexists.
  - intros [(-> & w' & Hw' & ->)|[Hj Hw']]%update_cases Hj' Hck.
    + eapply Hmine; [done..|]. by eapply H4'.
    + apply Hothers; [done|]. by eapply H4'.
  - intros [Hp|(-> & w & Hk & Hp)]%Hpub.
    + apply H5' in Hp as (w & Hk & Hp). destruct (decide (k0 = k)) as [->|Hne].
      * exists (f w). rewrite update_same, Hk. split; [done|]. by eapply Hpend.
      * exists w. by rewrite update_other.
    + exists (f w). by rewrite update_same, Hk.
Qed.

Lemma within_budget_le (db db' : Database) :
  db' received_envelopes = db received_envelopes ->
  (forall k w, db' delivery_work !! k = Some w -> pending w = true -> exists w',
     db delivery_work !! k = Some w' /\ pending w' = true) ->
  within_budget db -> within_budget db'.
Proof.
  intros Hr Hw. assert (Hle : forall f, pending_count db' f <= pending_count db f).
  { intros f. unfold pending_count. apply count_rows_le. intros k w Hk [Hp Hf]%andb_true_iff.
    destruct (Hw _ _ Hk Hp) as (w' & Hw' & Hp'). exists w'. split; [done|]. by rewrite Hp', <- Hr. }
  intros [H1' H2' H3']. split; intros *; (etrans; [apply Hle|auto]).
Qed.

Lemma claims_ok_step (db db' : Database) cs :
  (forall k r, db received_envelopes !! k = Some r -> db' received_envelopes !! k = Some r) ->
  (forall k w l, db' delivery_work !! k = Some w -> w_lease w = Some l -> exists w',
     db delivery_work !! k = Some w' /\ w_lease w' = Some l) ->
  claims_ok {| db := db; issued := cs |} -> claims_ok {| db := db'; issued := cs |}.
Proof.
  intros Hr Hw [H1' H2' H3']. split; cbn in *; [| |done].
  - intros c Hc. destruct (H1' c Hc) as (Hk & r & Hr' & He). eauto.
  - intros k w token expiry Hk Hl. destruct (Hw _ _ _ Hk Hl) as (w' & Hw' & Hl'). eauto.
Qed.

(** A claim's envelope is the received one, so its capability is the row's. *)
Lemma claim_reply w c r : rows_ok (db w) -> claims_ok w -> In c (issued w) ->
  db w received_envelopes !! claim_key c = Some r -> reply_of r = reply_capability c.
Proof.
  intros Hrows [Hclaims _ _] Hc Hr. apply Hclaims in Hc as (_ & r' & Hr' & object & Ho & Hp).
  rewrite Hr in Hr'. injection Hr' as <-.
  destruct (ro_received _ Hrows _ _ Hr) as (e & (object' & Ho' & <-) & _ & Ha & Ht).
  rewrite Ho in Ho'. apply Ok_eq in Ho' as <-.
  unfold reply_of, reply_capability. rewrite <- Hp, <- Ha, <- Ht. by destruct (e_authorization _).
Qed.

Lemma holds_pending c db : holds c db = true -> exists w expiry,
  db delivery_work !! claim_key c = Some w /\ pending w = true /\
  w_lease w = Some (leaseToken c, expiry).
Proof.
  unfold holds. destruct (db delivery_work !! _) as [w|]; [|done]. intros [Hp Hl]%andb_true_iff.
  destruct (w_lease w) as [[token expiry]|] eqn:He; [|done]. apply jstr_eqb_eq in Hl as ->. eauto.
Qed.

Lemma finish_shape t now w : work_shape w -> work_shape (finish_work t now w).
Proof.
  intros [Hr _]. split; [cbn; lia|]. destruct t; cbn; [done|split; [by eexists|done]|].
  split; [done|]. left. by eexists.
Qed.

Lemma rows_ok_finished w c t started now db' :
  holds c (db w) = true -> finished c t started now (db w) db' -> db' received_envelopes = db w received_envelopes ->
  In c (issued w) -> claims_ok w -> rows_ok (db w) -> rows_ok db'.
Proof.
  intros Hh [Hwork Hpub _ Hcap] Hr Hc Hclaims Hrows. destruct (holds_pending _ _ Hh) as (w0 & expiry & Hw0 & _).
  eapply (rows_ok_update (claim_key c) (finish_work t now));
    [done|done|intros; by apply finish_shape| | |by intros; destruct t| |done].
  - intros w' r ck Hw' Hr' Hck Hfor. rewrite (claim_reply w c r) in Hck by done. rewrite Hck in Hcap.
    destruct Hcap as [Hown ->]. tables. rewrite update_same.
    case_row ck as [cap|]; [|done].
    unfold capability_for. destruct t; [|done..]. cbn in *. destruct (c_state cap); try done. apply bool_decide_eq_true in Hown. by eexists.
  - intros j w' ck Hj Hfor. destruct (reply_capability c) as [ck'|]; [|by rewrite Hcap].
    destruct Hcap as [Hown ->]. tables.
    destruct (decide (ck = ck')) as [->|Hne]; [|by rewrite update_other].
    rewrite update_same. case_row ck' as [cap|]; [|done].
    cbn in Hown. destruct (c_state cap) eqn:Hs; try done. apply bool_decide_eq_true in Hown.
    unfold capability_for, capability_is in *. destruct (w_state w'); try done;
      destruct Hfor as (c' & [= <-] & Hs' & Hk); congruence.
  - intros j. rewrite Hpub. tables. intros [p [[-> _]|[_ Hp]]%insert_cases]; [right|by left].
    split; [done|]. exists w0. split; [done|by destruct t].
Qed.

Lemma rows_ok_held w c reason retryAt now (db' : Database) :
  holds c (db w) = true ->
  db' delivery_work = update_row (claim_key c) (hold_work reason retryAt now) (db w delivery_work) ->
  (forall t, t <> delivery_work -> db' t = db w t) -> rows_ok (db w) -> rows_ok db'.
Proof.
  intros Hh Hw Hframe Hrows. destruct (holds_pending _ _ Hh) as (w0 & expiry & Hw0 & Hp & _).
  eapply (rows_ok_update (claim_key c) (hold_work reason retryAt now)); [by apply Hframe|done| | | | | |done].
  - intros w' _ [Hr _]. split; [cbn; lia|]. by eexists.
  - intros w' r ck Hw' _ _ Hfor. rewrite Hw0 in Hw'. injection Hw' as <-. rewrite Hframe by done.
    apply (capability_for_pending _ _ _ Hp Hfor).
  - intros j w' ck _. by rewrite Hframe.
  - intros w' Hw'. rewrite Hw0 in Hw'. injection Hw' as <-. congruence.
  - intros j. rewrite Hframe by done. by left.
Qed.

(** What every change of a held delivery does to leases and to the budget. *)
Lemma update_budget k f (db db' : Database) :
  db' received_envelopes = db received_envelopes ->
  db' delivery_work = update_row k f (db delivery_work) ->
  (forall w, db delivery_work !! k = Some w -> pending (f w) = true -> pending w = true) ->
  within_budget db -> within_budget db'.
Proof.
  intros Hr Hw Hf. apply within_budget_le; [done|]. intros j w Hj Hp. rewrite Hw in Hj.
  apply update_cases in Hj as [(-> & w' & Hw' & ->)|[_ Hj]]; eauto.
Qed.

Lemma update_claims k f (db db' : Database) cs :
  db' received_envelopes = db received_envelopes ->
  db' delivery_work = update_row k f (db delivery_work) ->
  (forall w, w_lease (f w) = None) ->
  claims_ok {| db := db; issued := cs |} -> claims_ok {| db := db'; issued := cs |}.
Proof.
  intros Hr Hw Hf. apply claims_ok_step; [by intros ? ?; rewrite Hr|].
  intros j w l Hj Hl. rewrite Hw in Hj. apply update_cases in Hj as [(-> & w' & Hw' & ->)|[_ Hj]]; [|eauto].
  by rewrite Hf in Hl.
Qed.

Lemma invariant_finished w c t started now db' :
  holds c (db w) = true -> In c (issued w) -> finished c t started now (db w) db' ->
  db' received_envelopes = db w received_envelopes ->
  invariant w -> invariant {| db := db'; issued := issued w |}.
Proof.
  intros Hh Hc Hf Hr [Hrows Hclaims Hb]. pose proof (fin_work _ _ _ _ _ _ Hf) as Hw. split; cbn.
  - by eapply rows_ok_finished.
  - eapply update_claims; [done|done|done|by destruct w].
  - intros. eapply update_budget; [done|done| |auto]. by intros w' _; destruct t.
Qed.

Lemma invariant_settled w c db' :
  In c (issued w) -> settled c (db w) db' ->
  invariant w -> invariant {| db := db'; issued := issued w |}.
Proof.
  intros Hc [->|reason retryAt now Hh Hw Hframe|t started now Hh Ht Hf Hframe] Hinv.
  - by destruct w.
  - destruct (holds_pending _ _ Hh) as (w0 & expiry & Hw0 & Hp & _). destruct Hinv as [Hrows Hclaims Hb].
    split; cbn.
    + by eapply rows_ok_held.
    + eapply update_claims; [by apply Hframe|done|done|by destruct w].
    + intros. eapply update_budget; [by apply Hframe|done| |auto].
      intros w' Hw' _. rewrite Hw0 in Hw'. by injection Hw' as <-.
  - eapply invariant_finished; [done..| |done]. apply Hframe. set_solver.
Qed.

Lemma invariant_delivery w c bs clock db' o :
  In c (issued w) -> delivery_effect c bs clock (db w) db' o ->
  invariant w -> invariant {| db := db'; issued := issued w |}.
Proof.
  intros Hc [Hl ->|o' reason started now _ Hh Hf _ _ Hframe|started now Hh Hf _ _ Hframe] Hinv.
  - by destruct w.
  - eapply invariant_finished; [done..| |done]. apply Hframe. set_solver.
  - eapply invariant_finished; [done..| |done]. apply Hframe. set_solver.
Qed.

Lemma invariant_others w db' : others (db w) db' ->
  invariant w -> invariant {| db := db'; issued := issued w |}.
Proof.
  intros Ho [Hrows Hclaims Hb]. pose proof (ot_protected _ _ Ho) as Hu. split; cbn.
  - by eapply rows_ok_ext.
  - eapply claims_ok_ext; [done|by destruct w].
  - intros. eapply within_budget_ext; eauto.
Qed.

Lemma rows_ok_sent payload rep account db db' : sent_effect payload rep account db db' -> rows_ok db -> rows_ok db'.
Proof.
  intros [_ _ Hcap Hrest] [H1' H2' H3' H4' H5'].
  assert (Hr : db' received_envelopes = db received_envelopes) by (apply Hrest; set_solver).
  assert (Hw : db' delivery_work = db delivery_work) by (apply Hrest; set_solver).
  split; intros *; rewrite ?Hr, ?Hw; [eauto..| |by rewrite Hrest by set_solver; apply H5'].
  intros Hk Hj Hck. specialize (H4' _ _ _ _ Hk Hj Hck).
  destruct (e_reply payload); [by rewrite Hcap|]. destruct Hcap as [Hn ->]. tables.
  destruct (decide (ck = envelope_key payload)) as [->|Hne]; [|by rewrite insert_other].
  rewrite Hn in H4'. unfold capability_for, capability_is in *.
  destruct (w_state w); try done; by destruct H4' as (? & [=] & _).
Qed.

Lemma invariant_sent w payload rep account db' : sent_effect payload rep account (db w) db' ->
  invariant w -> invariant {| db := db'; issued := issued w |}.
Proof.
  intros Hs [Hrows Hclaims Hb].
  assert (Hr : db' received_envelopes = db w received_envelopes) by (apply Hs; set_solver).
  assert (Hw : db' delivery_work = db w delivery_work) by (apply Hs; set_solver).
  split; cbn.
  - by eapply rows_ok_sent.
  - eapply (claims_ok_step (db w)); [by rewrite Hr|rewrite Hw; eauto|by destruct w].
  - intros. eapply (within_budget_le (db w)); [done|rewrite Hw; eauto|auto].
Qed.

Lemma invariant_claim w c leaseSeconds now db' :
  leaseToken c ∉ map leaseToken (issued w) -> claim_taken c leaseSeconds now (db w) db' ->
  (forall t, t ∉ [delivery_work; delivery_scheduling] -> db' t = db w t) ->
  invariant w -> invariant {| db := db'; issued := c :: issued w |}.
Proof.
  intros Hfresh [(w0 & r & object & Hw0 & Hr0 & Hdue & Ho & He & _) Hkey Hwork] Hframe [Hrows Hclaims Hb].
  assert (Hr : db' received_envelopes = db w received_envelopes) by (apply Hframe; set_solver).
  split; cbn.
  - eapply (rows_ok_update (claim_key c) (lease_work _ _)); [done|done| | | |done| |done].
    + intros w' Hw'. rewrite Hw0 in Hw'. injection Hw' as <-. unfold work_shape.
      assert (Hp : pending w0 = true) by (unfold due in Hdue; by repeat apply andb_true_iff in Hdue as [Hdue _]).
      unfold pending in Hp. cbn. by destruct (w_state w0).
    + intros *. by rewrite Hframe by set_solver.
    + intros *. by rewrite Hframe by set_solver.
    + intros j. rewrite Hframe by set_solver. by left.
  - destruct Hclaims as [H1' H2' H3']. split; cbn.
    + intros c' [->|Hc'].
      * split; [done|]. exists r. rewrite Hr. split; [done|]. by exists object.
      * rewrite Hr. by apply H1'.
    + intros k row token expiry Hk Hl. rewrite Hwork in Hk.
      apply update_cases in Hk as [(-> & w' & Hw' & ->)|[_ Hk]].
      * injection Hl as <- _. exists c. auto.
      * destruct (H2' _ _ _ _ Hk Hl) as (c' & Hc' & Ht). exists c'. auto.
    + by constructor.
  - intros. eapply update_budget; [done|done| |auto]. done.
Qed.

(** A queued delivery adds one to the counts that had room. *)
Lemma count_recorded input outcome now started (db db' : Database) f bound :
  rows_ok db -> recorded input limits outcome now started db db' ->
  (accepts outcome = true ->
   f (envelope_key (decided_payload input)) (received_row input outcome now) = true ->
   pending_count db f < bound) ->
  pending_count db f <= bound -> pending_count db' f <= bound.
Proof.
  intros Hrows Hrecorded Hroom Hbound. set (k := envelope_key (decided_payload input)) in *.
  pose proof (recorded_work _ _ _ _ _ _ (ro_work _ Hrows) Hrecorded) as Hold.
  assert (Hr : forall j, j <> k -> db' received_envelopes !! j = db received_envelopes !! j).
  { intros j Hj. rewrite (rec_received _ _ _ _ _ _ _ Hrecorded). tables. by rewrite insert_other. }
  assert (Hk : db' received_envelopes !! k = Some (received_row input outcome now)).
  { rewrite (rec_received _ _ _ _ _ _ _ Hrecorded). tables. apply insert_same. }
  unfold pending_count in *. destruct (accepts outcome && f k (received_row input outcome now)) eqn:Hnew.
  - apply andb_true_iff in Hnew as [Ha Hf]. specialize (Hroom Ha Hf).
    apply Z.le_succ_l in Hroom. rewrite <- Z.add_1_r in Hroom. etrans; [|exact Hroom].
    apply (count_rows_insert _ _ _ _ k).
    intros j w Hj%Hold Hp. destruct Hj as [(-> & _)|[Hj Hw]]; [by left|]. right.
    exists w. split; [done|]. by rewrite <- Hr.
  - etrans; [|exact Hbound]. apply count_rows_le. intros j w Hj%Hold Hp.
    destruct Hj as [(-> & -> & Ha)|[Hj Hw]]; [|exists w; split; [done|by rewrite <- Hr]].
    fold k in Hp. rewrite Hk in Hp. rewrite Ha in Hnew. apply andb_true_iff in Hp as [_ Hp].
    cbn in Hnew. congruence.
Qed.

Lemma within_budget_recorded input outcome now started db db' :
  rows_ok db -> recorded input limits outcome now started db db' -> within_budget db -> within_budget db'.
Proof.
  intros Hrows Hrec [H1' H2' H3'].
  assert (Hroom : accepts outcome = true -> pending_full limits (decided_payload input) db = false)
    by apply Hrec.
  unfold pending_full in Hroom.
  split; intros *; (eapply count_recorded; [done|exact Hrec| |auto]); intros Ha Hf;
    apply Hroom in Ha; cbn in Hf; bools; [done|by subst d..].
Qed.

Lemma invariant_accept w input db' res :
  decision_consistent input -> accept_effect input limits (db w) db' res ->
  invariant w -> invariant {| db := db'; issued := issued w |}.
Proof.
  intros Hdec Ha Hinv. pose proof Ha as [? Hu _|outcome now started Hrec _ _].
  { apply invariant_others; [by apply unchanged_others|done]. }
  destruct Hinv as [Hrows Hclaims Hb]. split; cbn.
  - by eapply rows_ok_accept.
  - eapply (claims_ok_step (db w)); [| |by destruct w].
    + intros k r Hk. rewrite (rec_received _ _ _ _ _ _ _ Hrec). tables. rewrite insert_other; [done|].
      intros ->. pose proof (rec_new _ _ _ _ _ _ _ Hrec) as Hn. tables. congruence.
    + intros k w' l Hw' Hl.
      destruct (recorded_work _ _ _ _ _ _ (ro_work _ Hrows) Hrec _ _ Hw') as [(-> & -> & _)|[_ Hk]]; eauto.
      discriminate Hl.
  - intros. eapply within_budget_recorded; eauto.
Qed.

(** *** Account closure *)

Lemma cancel_account_rows account now (db : Database) k w :
  cancel_account_work account now db !! k = Some w ->
  exists w', db delivery_work !! k = Some w' /\ (w = w' \/ w = close_work now w').
Proof.
  unfold cancel_account_work. tables. rewrite map_lookup_imap. intros Hw.
  apply bind_Some in Hw as (w' & Hw' & Hw). injection Hw as <-. exists w'. split; [done|].
  case_match; [case_match|]; auto.
Qed.

Lemma invariant_closed w account now : invariant w ->
  invariant {| db := set delivery_work (cancel_account_work account now (db w)) (db w); issued := issued w |}.
Proof.
  intros [Hrows Hclaims Hb]. set (db' := set delivery_work _ _).
  assert (Hframe : forall t, t <> delivery_work -> db' t = db w t) by (intros t Ht; by apply set_ne).
  assert (Hwork : forall k w', db' delivery_work !! k = Some w' -> exists v0,
    db w delivery_work !! k = Some v0 /\ (w' = v0 \/ pending v0 = true /\ w' = close_work now v0)).
  { intros k w' Hk. unfold db' in Hk. rewrite set_eq in Hk. apply cancel_account_rows in Hk as (v0 & Hv0 & Hc).
    exists v0. split; [done|]. destruct Hc as [->| ->]; [by left|]. unfold close_work.
    destruct (pending v0); auto. }
  split; cbn.
  - destruct Hrows as [H1' H2' H3' H4' H5']. split; intros *; rewrite ?Hframe by done.
    + apply H1'.
    + intros (v0 & Hv0 & Hc)%Hwork. destruct (H2' _ _ Hv0) as [Hs Hr]. split; [|done].
      destruct Hc as [->|[Hp ->]]; [done|]. unfold close_work. rewrite Hp. destruct Hs.
      split; cbn; [lia|]. auto.
    + intros Hk Ha. destruct (H3' _ _ Hk Ha) as [v0 Hv0]. unfold db'. rewrite set_eq.
      unfold cancel_account_work. tables. rewrite map_lookup_imap, Hv0. by eexists.
    + intros (v0 & Hv0 & Hc)%Hwork Hk Hck. destruct Hc as [->|[Hp ->]]; [by eapply H4'|].
      unfold close_work. by rewrite Hp.
    + intros (v0 & Hv0 & Hp)%H5'. exists v0. split; [|done]. unfold db'. rewrite set_eq.
      unfold cancel_account_work. tables. rewrite map_lookup_imap, Hv0. cbn. unfold close_work. rewrite Hp.
      by repeat case_match.
  - eapply (claims_ok_step (db w)); [by rewrite Hframe| |by destruct w].
    intros k w' l (v0 & Hv0 & Hc)%Hwork Hl. exists v0. split; [done|].
    destruct Hc as [->|[Hp ->]]; [done|]. unfold close_work in Hl. by rewrite Hp in Hl.
  - intros. eapply (within_budget_le (db w)); [by apply Hframe| |auto].
    intros k w' (v0 & Hv0 & Hc)%Hwork Hp'. exists v0. split; [done|].
    destruct Hc as [->|[Hp _]]; done.
Qed.

(** *** All steps *)

Lemma begin_preserves {A} (P : Database -> Prop) (tx : Tx A) (db : Database) :
  P db -> (forall a db', tx db = Ok (a, db') -> P db') -> P (begin tx db).2.
Proof. intros Hdb Htx. unfold begin. destruct (tx db) as [[a db']|e] eqn:He; [by eapply Htx|done]. Qed.

Lemma step_invariant w w' : step w w' -> invariant w -> invariant w'.
Proof.
  intros Hstep Hinv. assert (Hsame : invariant {| db := db w; issued := issued w |}) by by destruct w.
  assert (Htx : forall A (tx : Tx A),
    (forall a db', tx (db w) = Ok (a, db') -> invariant {| db := db'; issued := issued w |}) ->
    invariant {| db := (begin tx (db w)).2; issued := issued w |}).
  { intros A tx Hp. by apply (begin_preserves (fun db => invariant {| db := db; issued := issued w |})). }
  destruct Hstep.
  - by eapply invariant_accept; [|apply accept_effects|].
  - apply Htx. intros a db' Ha. eapply invariant_sent; [by eapply createSent_Ok|done].
  - match goal with Hc : claimDue _ _ _ _ _ _ = _ |- _ => apply claimDue_Ok in Hc as (<- & Ht & Hframe) end.
    by eapply invariant_claim.
  - apply Htx. intros a db' Ha. eapply invariant_settled; [done|by eapply fail_settles|done].
  - apply Htx. intros a db' Ha. eapply invariant_settled; [done|by eapply cancel_settles|done].
  - apply Htx. intros a db' Ha. eapply invariant_settled; [done|by eapply hold_settles|done].
  - apply Htx. intros a db' Ha. eapply invariant_delivery; [done|by eapply deliver_Ok|done].
  - by apply invariant_closed.
  - by apply invariant_others.
Qed.

Lemma initial_invariant w : initial w -> invariant w.
Proof.
  intros (Hr & Hw & Hp & Hi). split.
  - split; intros *; rewrite ?Hr, ?Hw, ?Hp; tables; rewrite ?lookup_empty; try done; by intros [? [=]].
  - split; rewrite ?Hi; [done| |constructor]. intros *. rewrite Hw. tables. by rewrite lookup_empty.
  - intros Hp' Hs Hc. split; intros *; unfold pending_count; rewrite Hw; tables;
      rewrite count_rows_none; try done; intros *; by rewrite lookup_empty.
Qed.

Lemma reachable_invariant w : reachable w -> invariant w.
Proof.
  intros (w0 & Hw0 & Hsteps). apply initial_invariant in Hw0. induction Hsteps as [|w1 w2 w3 Hs _ IH]; [done|].
  apply IH. by eapply step_invariant.
Qed.
End system.
