(* ===== verification/Safety.v ===== *)
(** * What the provider guarantees about messages, replies, leases and budgets

    Theorems about the reachable states of [System.v], and the abstract machine that the status of
    every message follows. *)

From S2P Require Import Prelude JsString Value Cbor Profiles Validation ValidatePayload Models.
From S2P Require Import Cose Database Typed ServerBodies Conversations Envelopes Delivery.
From S2P Require Import Receiver DeliveryRules System.
From Stdlib Require Import ZArith.
Open Scope Z_scope.

(** ** The abstract status machine *)

(** What a sender may learn of a message: its state, the reason, the revision, and the instants of
    the next attempt and of the last transition. *)
Notation status := (HailDeliveryState * option work_reason * Z * (Z * Z))%type.
Definition status_row (w : Work) : status :=
  (w_state w, w_reason w, w_status_revision w, (w_next_attempt_at w, w_transitioned_at w)).
Definition status_of (k : msg_key) (db : Database) : option status :=
  status_row <$> db delivery_work !! k.

Definition ended (s : HailDeliveryState) : bool :=
  match s with accepted | on_hold => false | _ => true end.

(** A message appears as accepted, is put on hold any number of times, and ends once. *)
Inductive status_step : option status -> option status -> Prop :=
| status_accepted t : status_step None (Some (accepted, None, 1, t))
| status_held s r n t reason t' : ended s = false ->
    status_step (Some (s, r, n, t)) (Some (on_hold, Some (ReasonOf (HoldReason reason)), n + 1, t'))
| status_delivered s r n t t' : ended s = false ->
    status_step (Some (s, r, n, t)) (Some (delivered, None, n + 1, t'))
| status_failed s r n t reason t' : ended s = false ->
    status_step (Some (s, r, n, t)) (Some (failed, Some (ReasonOf (FailureReason reason)), n + 1, t'))
| status_cancelled s r n t reason t' : ended s = false ->
    reason = AccountClosed \/ (exists c, reason = ReasonOf (CancellationReason c)) ->
    status_step (Some (s, r, n, t)) (Some (cancelled, Some reason, n + 1, t')).

Definition evolves (o o' : option status) : Prop := o' = o \/ status_step o o'.

Section safety.
Context `{HailEnv} `{Cborg} `{Keys}.
Context `{ConnectionFunctions} `{Triggers} `{AccountFences} `{Calendar} `{EnvelopeAuthority}.
Context (limits : EnvelopeAdmissionLimits).

Lemma pending_ended w : pending w = negb (ended (w_state w)).
Proof. unfold pending, ended. by destruct (w_state w). Qed.

Lemma status_update k f (db db' : Database) :
  db' delivery_work = update_row k f (db delivery_work) ->
  (forall w, db delivery_work !! k = Some w -> evolves (Some (status_row w)) (Some (status_row (f w)))) ->
  forall j, evolves (status_of j db) (status_of j db').
Proof.
  intros Hw Hf j. unfold status_of. rewrite Hw. tables. destruct (decide (j = k)) as [->|Hne].
  - rewrite update_same. destruct (_ !! k) as [w|] eqn:Hk; [|by left]. by apply Hf.
  - rewrite update_other by done. by left.
Qed.

Lemma finished_evolves t now w : pending w = true ->
  evolves (Some (status_row w)) (Some (status_row (finish_work t now w))).
Proof.
  rewrite pending_ended. intros Hp%negb_true_iff. right. unfold status_row.
  destruct t; cbn; constructor; eauto.
Qed.

Lemma held_evolves c f (db db' : Database) : holds c db = true ->
  db' delivery_work = update_row (claim_key c) f (db delivery_work) ->
  (forall w, pending w = true -> evolves (Some (status_row w)) (Some (status_row (f w)))) ->
  forall j, evolves (status_of j db) (status_of j db').
Proof.
  intros Hh Hw Hf. eapply status_update; [exact Hw|]. intros w Hw'.
  destruct (holds_pending _ _ Hh) as (w' & expiry & Hw'' & Hp & _). rewrite Hw' in Hw''.
  injection Hw'' as <-. by apply Hf.
Qed.

Lemma settled_evolves c db db' : settled c db db' -> forall j, evolves (status_of j db) (status_of j db').
Proof.
  intros [->|reason retryAt now Hh Hw _|t started now Hh _ Hf _].
  - by left.
  - eapply held_evolves; [done|exact Hw|]. intros w Hp. rewrite pending_ended in Hp. apply negb_true_iff in Hp.
    right. by apply status_held.
  - eapply held_evolves; [done|apply Hf|]. intros w Hp. by apply finished_evolves.
Qed.

Lemma delivery_evolves c bs clock db db' o : delivery_effect c bs clock db db' o ->
  forall j, evolves (status_of j db) (status_of j db').
Proof.
  intros [Hl ->|o' reason started now _ Hh Hf _ _ _|started now Hh Hf _ _ _]; [by left|..];
    (eapply held_evolves; [done|apply Hf|]; intros w Hp; by apply finished_evolves).
Qed.

Lemma begin_evolves {A} (tx : Tx A) (db : Database) :
  (forall a db', tx db = Ok (a, db') -> forall j, evolves (status_of j db) (status_of j db')) ->
  forall j, evolves (status_of j db) (status_of j (begin tx db).2).
Proof. intros Htx j. apply begin_preserves; [by left|]. intros a db' Ha. by apply (Htx a). Qed.

(** A step moves the status of a message by at most one step of the abstract machine. *)
Lemma step_evolves w w' : reachable limits w -> step limits w w' ->
  forall k, evolves (status_of k (db w)) (status_of k (db w')).
Proof.
  intros Hreach Hstep. apply reachable_invariant in Hreach as [Hrows _ _]. destruct Hstep; cbn [db].
  - intros k. destruct (accept_effects input limits clock (db w)) as [? Hu _|outcome now started Hrec _ _].
    + left. unfold status_of. by rewrite Hu by set_solver.
    + destruct (db w delivery_work !! k) as [row|] eqn:Hk.
      * left. unfold status_of. rewrite Hk, (rec_work _ _ _ _ _ _ _ Hrec). tables.
        destruct (accepts outcome) eqn:Ha; [|by rewrite Hk]. rewrite insert_other; [by rewrite Hk|].
        intros ->. pose proof (rec_work_new _ _ _ _ _ _ _ Hrec Ha) as Hn. tables. congruence.
      * unfold status_of. tables. rewrite Hk, (rec_work _ _ _ _ _ _ _ Hrec). tables.
        destruct (accepts outcome); [|rewrite Hk; by left].
        destruct (decide (k = envelope_key (decided_payload input))) as [->|Hne].
        -- rewrite insert_same. right. constructor.
        -- rewrite insert_other, Hk by done. by left.
  - apply begin_evolves. intros a db' Ha j. left. apply createSent_Ok in Ha as [_ _ _ Hrest].
    unfold status_of. by rewrite Hrest by set_solver.
  - match goal with Hc : claimDue _ _ _ _ _ _ = _ |- _ => apply claimDue_Ok in Hc as (<- & Ht & Hframe) end.
    eapply status_update; [apply Ht|]. intros row _. by left.
  - apply begin_evolves. intros a db' Ha. by eapply settled_evolves, fail_settles.
  - apply begin_evolves. intros a db' Ha. by eapply settled_evolves, cancel_settles.
  - apply begin_evolves. intros a db' Ha. by eapply settled_evolves, hold_settles.
  - apply begin_evolves. intros a db' Ha. by eapply delivery_evolves, deliver_Ok.
  - intros k. unfold status_of, cancel_account_work. rewrite set_eq.
    destruct (db w delivery_work !! k) as [row|] eqn:Hk; tables; rewrite map_lookup_imap, Hk; [cbn|by left].
    case_row k as [r|]; [|by left]. destruct (jstr_eqb _ _); [|by left].
    unfold close_work. rewrite pending_ended. destruct (ended _) eqn:He; [by left|].
    right. apply status_cancelled; auto.
  - intros k. left. unfold status_of. match goal with Hu : others _ _ |- _ => destruct Hu as [Hu _]; by rewrite Hu by set_solver end.
Qed.

(** *** History *)

Lemma evolves_known o o' s r n t : evolves o o' -> o = Some (s, r, n, t) ->
  exists s' r' n' t', o' = Some (s', r', n', t') /\
    ((s', r', n', t') = (s, r, n, t) \/ n < n' /\ ended s = false).
Proof.
  intros [->|Hs] ->; [by exists s, r, n, t; auto|].
  inversion Hs; subst; eexists _, _, _, _; (split; [reflexivity|]); right; (split; [lia|done]).
Qed.

Lemma reachable_step w w' : reachable limits w -> step limits w w' -> reachable limits w'.
Proof. intros (w0 & Hi & Hr) Hs. exists w0. split; [done|]. by eapply rtc_r. Qed.
Lemma reachable_steps w w' : reachable limits w -> rtc (step limits) w w' -> reachable limits w'.
Proof. intros Hr Hs. induction Hs as [|w1 w2 w3 Hs _ IH]; [done|]. apply IH. by eapply reachable_step. Qed.

(** C12: Every run of the system is a run of the abstract machine for every message: the message
    appears as accepted with revision 1, each hold and each end raises the revision by one, and an
    ended status never changes. *)
Theorem status_refinement w w' : reachable limits w -> rtc (step limits) w w' ->
  forall k, rtc status_step (status_of k (db w)) (status_of k (db w')).
Proof.
  intros Hreach Hsteps k. induction Hsteps as [w|w1 w2 w3 Hstep _ IH]; [apply rtc_refl|].
  specialize (IH (reachable_step _ _ Hreach Hstep)).
  destruct (step_evolves _ _ Hreach Hstep k) as [He|He]; [by rewrite <- He|by eapply rtc_l].
Qed.

Lemma status_history w w' k s r n t :
  reachable limits w -> rtc (step limits) w w' -> status_of k (db w) = Some (s, r, n, t) ->
  exists s' r' n' t', status_of k (db w') = Some (s', r', n', t') /\ n <= n' /\
    (n' = n \/ ended s = true -> (s', r', n', t') = (s, r, n, t)).
Proof.
  intros Hreach Hsteps Hs. revert s r n t Hs.
  induction Hsteps as [w|w1 w2 w3 Hstep _ IH]; intros s r n t Hs.
  { exists s, r, n, t. repeat split; auto with lia. }
  pose proof (step_evolves _ _ Hreach Hstep k) as He.
  destruct (evolves_known _ _ _ _ _ _ He Hs) as (s2 & r2 & n2 & t2 & Hs2 & Hn).
  destruct (IH (reachable_step _ _ Hreach Hstep) _ _ _ _ Hs2) as (s3 & r3 & n3 & t3 & Hs3 & Hle & Heq).
  exists s3, r3, n3, t3. split; [done|]. destruct Hn as [[= -> -> -> ->]|[Hlt Hend]].
  - split; [done|]. exact Heq.
  - split; [lia|]. intros [->|Ht]; [lia|congruence].
Qed.

(** The revision identifies the status for ever: whenever a message is seen with two statuses in
    one history, the later revision is not smaller, equal revisions mean the same state and reason,
    and once the status has ended it is the only one seen. *)
Theorem revision_identifies_status w w' k s r n t :
  reachable limits w -> rtc (step limits) w w' -> status_of k (db w) = Some (s, r, n, t) ->
  exists s' r' n' t', status_of k (db w') = Some (s', r', n', t') /\ n <= n' /\
    (n' = n \/ ended s = true -> (s', r', n', t') = (s, r, n, t)).
Proof. apply status_history. Qed.

Lemma settled_received c (db db' : Database) : settled c db db' ->
  db' received_envelopes = db received_envelopes.
Proof.
  intros [->|? ? ? _ _ Hf|? ? ? _ _ _ Hf]; [done|by apply Hf|apply Hf; set_solver].
Qed.

Lemma step_received w w' k r : reachable limits w -> step limits w w' ->
  db w received_envelopes !! k = Some r -> db w' received_envelopes !! k = Some r.
Proof.
  intros Hreach Hstep Hr. revert Hstep.
  assert (Hkeep : forall A (tx : Tx A), (forall a db', tx (db w) = Ok (a, db') ->
    db' received_envelopes = db w received_envelopes) -> (begin tx (db w)).2 received_envelopes !! k = Some r).
  { intros A tx Htx. apply (begin_preserves (fun db => db received_envelopes !! k = Some r)); [done|].
    intros a db' Ha. by rewrite (Htx a db' Ha). }
  intros Hstep. destruct Hstep; cbn [db].
  - destruct (accept_effects input limits clock (db w)) as [? Hu _|outcome now started Hrec _ _].
    + by rewrite Hu by set_solver.
    + rewrite (rec_received _ _ _ _ _ _ _ Hrec). tables. rewrite insert_other; [done|]. intros ->.
      pose proof (rec_new _ _ _ _ _ _ _ Hrec) as Hn. tables. congruence.
  - apply Hkeep. intros a db' Ha. apply createSent_Ok in Ha as [_ _ _ Hrest]. apply Hrest. set_solver.
  - match goal with Hc : claimDue _ _ _ _ _ _ = _ |- _ => apply claimDue_Ok in Hc as (_ & _ & Hframe) end.
    by rewrite Hframe by set_solver.
  - apply Hkeep. intros a db' Ha. by eapply settled_received, fail_settles.
  - apply Hkeep. intros a db' Ha. by eapply settled_received, cancel_settles.
  - apply Hkeep. intros a db' Ha. by eapply settled_received, hold_settles.
  - apply Hkeep. intros a db' Ha. apply deliver_Ok in Ha as [_ ->|????????? Hf|?????? Hf]; [done|..];
      apply Hf; set_solver.
  - by rewrite set_ne.
  - match goal with Hu : others _ _ |- _ => destruct Hu as [Hu _]; by rewrite Hu by set_solver end.
Qed.

(** ** Replies *)

(** The message uses its capability: it is outstanding, or was delivered. *)
Definition uses_reply (db : Database) (k ck : msg_key) : Prop := exists w r,
  db delivery_work !! k = Some w /\ db received_envelopes !! k = Some r /\ reply_of r = Some ck /\
  (pending w = true \/ w_state w = delivered).

(** C13: A reply capability is used at most once: of all the messages that answer one sent message,
    at most one is outstanding or delivered, in every reachable state. *)
Theorem reply_at_most_once w k k' ck :
  reachable limits w -> uses_reply (db w) k ck -> uses_reply (db w) k' ck -> k = k'.
Proof.
  intros Hreach Hk Hk'. apply reachable_invariant in Hreach as [Hrows _ _].
  assert (Hown : forall j, uses_reply (db w) j ck -> exists c,
    db w reply_capabilities !! ck = Some c /\ c_claimed c = Some j).
  { intros j (row & r & Hrow & Hr & Hck & Hu). pose proof (ro_reply _ Hrows _ _ _ _ Hrow Hr Hck) as Hf.
    unfold capability_for, pending, capability_is in *.
    destruct (w_state row), Hu; try done; destruct Hf as (c & Hc & _ & Hj); eauto. }
  destruct (Hown _ Hk) as (c & Hc & Hj), (Hown _ Hk') as (c' & Hc' & Hj'). congruence.
Qed.

(** An identifier is reserved for ever: the row of a received envelope never changes, and an
    envelope with the same sender and identifier is never accepted again and changes nothing. *)
Theorem identifier_reserved w w' k r input clock :
  reachable limits w -> rtc (step limits) w w' -> db w received_envelopes !! k = Some r ->
  db w' received_envelopes !! k = Some r /\
  (envelope_key (decided_payload input) = k ->
   (accept input limits clock (db w')).1 <> Ok OutcomeAccepted /\
   unchanged delivery_tables (db w') (accept input limits clock (db w')).2).
Proof.
  intros Hreach Hsteps Hr.
  assert (Hk : db w' received_envelopes !! k = Some r).
  { revert Hr. induction Hsteps as [|w1 w2 w3 Hstep _ IH]; [done|]. intros Hr.
    apply IH; [by eapply reachable_step|]. by eapply step_received. }
  split; [done|]. intros Hkey. destruct (accept_effects input limits clock (db w')) as [res Hu Hn|outcome now started Hrec _ _].
  - done.
  - pose proof (rec_new _ _ _ _ _ _ _ Hrec) as Hn. rewrite Hkey in Hn. tables. congruence.
Qed.

(** An acceptance is reported exactly when a delivery was queued for a new identifier, within the
    budgets of the provider, the sender and the recipient. *)
Theorem acceptance_queues input clock db :
  (accept input limits clock db).1 = Ok OutcomeAccepted ->
  let k := envelope_key (decided_payload input) in
  let db' := (accept input limits clock db).2 in
  db received_envelopes !! k = None /\ db delivery_work !! k = None /\
  (exists t, status_of k db' = Some (accepted, None, 1, t)) /\
  (exists r, db' received_envelopes !! k = Some r /\ r_outcome r = ReceivedAccepted /\
     r_envelope_cose r = Envelopes.representation input) /\
  pending_full limits (decided_payload input) db = false.
Proof.
  intros Hacc. cbn zeta. destruct (accept_effects input limits clock db) as [res _ Hn|outcome now started Hrec _ _];
    [congruence|]. apply Ok_eq in Hacc as ->. destruct Hrec as [Hnew Hrec Hwork Hwnew Hb].
  split; [done|]. split; [by apply Hwnew|]. split; [|split; [|by apply Hb]].
  - unfold status_of. rewrite Hwork. cbn [accepts]. tables. rewrite insert_same. by eexists.
  - eexists. rewrite Hrec. tables. by rewrite insert_same.
Qed.

(** ** Budgets *)

(** C15: However many envelopes arrive, the outstanding deliveries of the provider, of every sender
    and of every recipient stay within the limits. *)
Theorem outstanding_bounded w d :
  reachable limits w -> 0 <= pendingProvider limits -> 0 <= pendingSender limits ->
  0 <= pendingRecipient limits ->
  pending_count (db w) (fun _ _ => true) <= pendingProvider limits /\
  pending_count (db w) (fun k _ => jstr_eqb k.1 d) <= pendingSender limits /\
  pending_count (db w) (fun _ r => jstr_eqb (r_recipient_did r) d) <= pendingRecipient limits.
Proof.
  intros Hreach Hp Hs Hr. apply reachable_invariant in Hreach as [_ _ Hb].
  destruct (Hb Hp Hs Hr) as [H1' H2' H3']. auto.
Qed.

(** ** Leases *)

(** At most one claim holds a message: a claim whose lease was taken over can no longer change
    the delivery, whatever its worker still does. *)
Theorem one_holder w c c' :
  reachable limits w -> In c (issued w) -> In c' (issued w) -> claim_key c = claim_key c' ->
  holds c (db w) = true -> holds c' (db w) = true -> c = c'.
Proof.
  intros Hreach Hc Hc' Hk Hh Hh'. apply reachable_invariant in Hreach as [_ [_ _ Ht] _].
  destruct (holds_pending _ _ Hh) as (row & e & Hrow & _ & Hl).
  destruct (holds_pending _ _ Hh') as (row' & e' & Hrow' & _ & Hl').
  rewrite Hk, Hrow' in Hrow. injection Hrow as <-. rewrite Hl in Hl'. injection Hl' as Htok _.
  apply list_elem_of_In in Hc, Hc'. apply list_elem_of_lookup in Hc as [i Hi], Hc' as [j Hj].
  assert (i = j) as ->; [|congruence].
  eapply NoDup_lookup; [exact Ht| |]; rewrite list_lookup_fmap; [by rewrite Hi|rewrite Hj; cbn; congruence].
Qed.

(** The leases that run at an instant, of a sender and of a recipient. *)
Definition leases_of_sender (db : Database) (now : Z) (d : jstr) : Z :=
  count_rows (fun k w => jstr_eqb k.1 d && pending w && leased w now) (db delivery_work).
Definition leases_of_recipient (db : Database) (now : Z) (d : jstr) : Z :=
  count_rows (fun k w => pending w && leased w now &&
    match db received_envelopes !! k with Some r => jstr_eqb (r_recipient_did r) d | None => false end)
    (db delivery_work).

(** A claim leaves the claimed message's sender with one running lease and its recipient with at
    most two, and gives no other sender and no other recipient more leases than before. *)
Theorem claim_limits token leaseSeconds locked now t1 db c db' :
  claimDue token leaseSeconds locked now t1 db = Ok (Some c, db') ->
  exists r, db received_envelopes !! claim_key c = Some r /\
    leases_of_sender db' now (senderDid c) <= 1 /\
    leases_of_recipient db' now (r_recipient_did r) <= 2 /\
    forall d, (d <> senderDid c -> leases_of_sender db' now d <= leases_of_sender db now d) /\
      (d <> r_recipient_did r -> leases_of_recipient db' now d <= leases_of_recipient db now d).
Proof.
  intros Hc. apply claimDue_Ok in Hc as (_ & [(w0 & r & object & Hw0 & Hr & Hdue & _) _ Hwork] & Hframe).
  exists r. split; [done|]. unfold due in Hdue. apply andb_true_iff in Hdue as [Hdue Hrecipient].
  apply andb_true_iff in Hdue as [_ Hsender]. apply Z.eqb_eq in Hsender. apply Z.ltb_lt in Hrecipient.
  assert (Hr' : db' received_envelopes = db received_envelopes) by (apply Hframe; set_solver).
  unfold leases_of_sender, leases_of_recipient. rewrite Hr', Hwork.
  assert (Hold : forall j w, update_row (claim_key c) (lease_work (leaseToken c) (now + seconds leaseSeconds))
    (db delivery_work) !! j = Some w -> j = claim_key c \/ db delivery_work !! j = Some w).
  { intros j w [[-> _]|[_ Hj]]%update_cases; auto. }
  split; [|split].
  - rewrite <- (Z.add_0_l 1), <- Hsender. apply (count_rows_insert _ _ _ _ (claim_key c)).
    intros j w Hj%Hold Hp. destruct Hj as [->|Hj]; [by left|]. right. eauto.
  - apply Z.le_succ_l in Hrecipient. rewrite <- Z.add_1_r in Hrecipient. etrans; [|exact Hrecipient].
    apply (count_rows_insert _ _ _ _ (claim_key c)).
    intros j w Hj%Hold Hp. destruct Hj as [->|Hj]; [by left|]. right. eauto.
  - intros d. split; intros Hd; apply count_rows_le; intros j w Hj%Hold Hp.
    + destruct Hj as [->|Hj]; [|eauto]. apply andb_true_iff in Hp as [Hp _].
      apply andb_true_iff in Hp as [Hp _]. apply jstr_eqb_eq in Hp as <-. by destruct Hd.
    + destruct Hj as [->|Hj]; [|eauto]. rewrite Hr in Hp. apply andb_true_iff in Hp as [_ Hp].
      apply jstr_eqb_eq in Hp as <-. by destruct Hd.
Qed.

(** ** Delivery *)

(** C14: A delivery that reports success, by a claim issued in a reachable state: the claim held the
    lease; the bytes have the size, the digest and the profile that the signed envelope announced and
    are the stored body; the deadline had not passed; the status ended as delivered with its
    publication queued; a reply consumed its capability; and the recipient's record names the body. *)
Theorem delivered_verified w c bs attachments authorized clock db' :
  reachable limits w -> In c (issued w) ->
  deliver c bs attachments authorized clock (db w) = Ok (OutcomeDelivered, db') ->
  let e := claim_envelope c in
  holds c (db w) = true /\
  Z.of_nat (length bs) = bd_size (e_body e) /\ sha256 bs = digest_value (bd_digest (e_body e)) /\
  validateBodyBytes bs (Some (bd_profile (e_body e))) = Ok (bd_profile (e_body e)) /\
  verified_body (body_of e) db' = Some bs /\ expired e (dc_after clock) = false /\
  (exists n t, status_of (claim_key c) db' = Some (delivered, None, n, t)) /\
  is_Some (db' terminal_status_publications !! claim_key c) /\
  (forall rt, e_authorization e = AuthorizedByReply rt ->
     capability_is Consumed (claim_key c) (db' reply_capabilities !! (e_to e, rt))) /\
  exists r, db w received_envelopes !! claim_key c = Some r /\
    db' delivered_messages !! claim_key c = Some {|
      dm_recipient_did := e_to e; dm_envelope_digest := r_envelope_digest r; dm_body := body_of e; dm_trashed := false |}.
Proof.
  intros Hreach Hc Hd e. apply reachable_invariant in Hreach as [_ [Hclaims _ _] _].
  destruct (Hclaims c Hc) as (Hkey & r & Hr & _). apply deliver_Ok in Hd.
  inversion Hd as [|? ? ? ? Hno|started now Hh [Hwork Hpub _ Hcap] _ [Htime Hsize Hdig Hprof Hstored Hmsg] _];
    subst; [done|].
  destruct (holds_pending _ _ Hh) as (row & expiry & Hrow & _).
  repeat (split; [done|]). split; [|split; [|split]].
  - unfold status_of. rewrite Hwork. tables. rewrite update_same, Hrow. by eexists _, _.
  - rewrite Hpub. tables. rewrite insert_same. by eexists.
  - intros rt Ha. assert (Hck : reply_capability c = Some (e_to e, rt))
      by (unfold reply_capability; fold e; by rewrite Ha).
    rewrite Hck in Hcap. destruct Hcap as [Hown ->]. tables.
    rewrite update_same. unfold owns_capability in Hown.
    case_row (e_to e, rt) as [cap|]; [|done]. cbn in *.
    destruct (c_state cap); try done. apply bool_decide_eq_true in Hown. by eexists.
  - exists r. split; [done|]. rewrite Hkey in Hmsg. destruct (Hmsg r Hr) as [_ ->]. tables. apply insert_same.
Qed.
End safety.
