(* ===== verification/Liveness.v ===== *)
(** * Progress of deliveries (apps/server/src/delivery/worker.ts)

    Every due message can be claimed, a message that is put on hold is due again no later than one
    second after its deadline, and a round of the worker after the deadline ends the message.  With
    [Safety.revision_identifies_status] a message is attempted finitely often and ends.

    Progress needs a database whose constraints refuse no write: the invariant of [System.v] shows
    that no check of the code itself gets in the way. *)

From S2P Require Import Prelude JsString Value Cbor Profiles Validation ValidatePayload Models.
From S2P Require Import Cose Database Typed ServerBodies Conversations Envelopes Delivery Worker.
From S2P Require Import Receiver DeliveryRules System Safety.
From Stdlib Require Import ZArith.
Open Scope Z_scope.

(** ** The next attempt *)

(** [Math.round(base * (0.75 + Math.random() * 0.5))], whatever [Math.random] returns. *)
Definition jitter_spec (jitter : Z -> Z) : Prop :=
  forall base, 0 < base -> 3 * base - 2 <= 4 * jitter base <= 5 * base + 2.

Lemma backoff_bounds attempt : 1 <= attempt -> 10000 <= backoff attempt <= 3600000.
Proof.
  intros Ha. unfold backoff. pose proof (Z.pow_pos_nonneg 2 (Z.min (attempt - 1) 9)). lia.
Qed.

(** A message that is put on hold before its deadline is attempted again strictly later, at most
    one second after the deadline (which that attempt then finds to have passed), and, unless the
    sender's provider asked for a later time, within 75 minutes. *)
Theorem nextAttempt_bounds env c retryAfter :
  jitter_spec (we_jitter env) -> 1 <= attemptCount c ->
  we_now env <= deliveryDeadline (claim_envelope c) * 1000 ->
  we_now env < nextAttempt env c retryAfter <= deliveryDeadline (claim_envelope c) * 1000 + 1000 /\
  (match retryAfter with None => True | Some t => t <= we_now env + 4500000 end -> 0 <= we_now env ->
   nextAttempt env c retryAfter <= we_now env + 4500001).
Proof.
  intros Hj Ha Hn. pose proof (backoff_bounds (attemptCount c) Ha) as Hb.
  pose proof (Hj (backoff (attemptCount c)) ltac:(lia)) as Hjb.
  unfold nextAttempt. destruct retryAfter; cbn; lia.
Qed.

Section liveness.
Context `{HailEnv} `{Cborg} `{Keys}.
Context `{ConnectionFunctions} `{Triggers} `{AccountFences} `{Calendar} `{EnvelopeAuthority}.
Context (limits : EnvelopeAdmissionLimits).
(** No constraint refuses a write. *)
Context (Hwrites : forall t r db, refuses t r db = None).

#[local] Set Default Proof Using "Type*".

Lemma write_Ok t f db : write t f db = Ok (tt, set t (f (db t)) db).
Proof. unfold write. by rewrite Hwrites. Qed.

(** ** Claiming *)

Lemma In_due_rows (db : Database) now locked k w r :
  db delivery_work !! k = Some w -> db received_envelopes !! k = Some r ->
  due db now k w r = true -> k ∉ locked -> In (k, w, r) (due_rows db now locked).
Proof.
  intros Hw Hr Hd Hl. unfold due_rows. rewrite <- list_elem_of_In, sort_by_perm, list_elem_of_omap.
  exists (k, w). split; [by apply (elem_of_map_to_list (M := gmap msg_key))|].
  apply bind_Some. exists r. split; [exact Hr|]. by rewrite Hd, bool_decide_eq_false_2.
Qed.

(** C17: When a message is due and not locked by another transaction, the worker claims a message
    that is due: neither an undecodable envelope nor a mismatch stands in the way. *)
Theorem due_claimed w k row r token leaseSeconds locked now t1 :
  reachable limits w -> db w delivery_work !! k = Some row -> db w received_envelopes !! k = Some r ->
  due (db w) now k row r = true -> k ∉ locked ->
  exists c db', claimDue token leaseSeconds locked now t1 (db w) = Ok (Some c, db') /\
    claim_taken c leaseSeconds now (db w) db'.
Proof.
  intros Hreach Hrow Hr Hdue Hl. apply reachable_invariant in Hreach as [Hrows _ _].
  pose proof (In_due_rows _ _ _ _ _ _ Hrow Hr Hdue Hl) as Hin.
  destruct (claimDue token leaseSeconds locked now t1 (db w)) as [[claim db']|e] eqn:Hc.
  { pose proof (claimDue_Ok _ _ _ _ _ _ _ _ Hc) as Hok. destruct claim as [c|].
    - exists c, db'. split; [done|]. apply Hok.
    - destruct Hok as [_ Hnil]. rewrite Hnil in Hin. destruct Hin. }
  unfold claimDue, mbind, Tx_bind, query in Hc.
  destruct (due_rows (db w) now locked) as [|[[k' w'] r'] l] eqn:Hrest; [destruct Hin|].
  assert (Hin' : In (k', w', r') (due_rows (db w) now locked)) by (rewrite Hrest; by left).
  apply due_rows_In in Hin' as (_ & Hr' & _ & _).
  destruct (ro_received _ Hrows _ _ Hr') as (e' & (object & Ho & He) & Hkey & _).
  unfold throwing in Hc. rewrite Ho in Hc. cbv beta iota zeta in Hc. subst e' k'.
  cbn [envelope_key fst snd] in Hc. rewrite !jstr_eqb_refl in Hc. cbn [negb orb] in Hc.
  rewrite write_Ok in Hc. cbv beta iota zeta in Hc. rewrite write_Ok in Hc. discriminate Hc.
Qed.

(** ** Ending *)

Lemma finish_succeeds w c t started now :
  reachable limits w -> In c (issued w) -> holds c (db w) = true ->
  exists db', finish c t started now (db w) = Ok (tt, db').
Proof.
  intros Hreach Hc Hh. apply reachable_invariant in Hreach as [Hrows Hclaims _].
  destruct (holds_pending _ _ Hh) as (row & expiry & Hrow & Hp & _).
  destruct (co_claims _ Hclaims c Hc) as (_ & r & Hr & _).
  pose proof (claim_reply w c r Hrows Hclaims Hc Hr) as Hreply.
  assert (Hpub : db w terminal_status_publications !! claim_key c = None).
  { apply eq_None_not_Some. intros (row' & Hrow' & Hp')%(ro_published _ Hrows). congruence. }
  assert (Hsettle : exists db1, settle_capability c t (db w) = Ok (tt, db1) /\
    forall t, t <> reply_capabilities -> db1 t = db w t).
  { unfold settle_capability. destruct (reply_capability c) as [ck|]; [|by exists (db w)].
    pose proof (capability_for_pending _ _ _ Hp (ro_reply _ Hrows _ _ _ _ Hrow Hr Hreply)) as (cap & Hcap & Hs & Hk).
    unfold mbind, Tx_bind, query. rewrite Hcap. unfold owns_capability. rewrite Hs, bool_decide_eq_true_2 by done.
    cbn [negb]. rewrite write_Ok. eexists. split; [done|]. intros t' Ht'. by rewrite set_ne. }
  destruct Hsettle as (db1 & Hsettle & Hframe).
  unfold finish, mbind, Tx_bind. rewrite Hsettle, write_Ok. unfold insert_unique, mbind, Tx_bind, query.
  rewrite set_ne, Hframe, Hpub, write_Ok by done. by eexists.
Qed.

Lemma fail_succeeds w c reason started t1 t2 :
  reachable limits w -> In c (issued w) -> holds c (db w) = true ->
  exists db' n t reason', fail c reason started t1 t2 (db w) = Ok (tt, db') /\
    (reason' = reason \/ reason' = delivery_expired) /\
    status_of (claim_key c) db' = Some (failed, Some (ReasonOf (FailureReason reason')), n, t).
Proof.
  intros Hreach Hc Hh. unfold fail, lockClaim. unfold mbind at 1, Tx_bind at 1, query. rewrite Hh. cbn [negb].
  set (reason' := if expired _ _ then _ else _).
  destruct (finish_succeeds w c (TerminalFailed reason') started t2 Hreach Hc Hh) as [db' Hf].
  destruct (holds_pending _ _ Hh) as (row & expiry & Hrow & Hp & _).
  exists db', (w_status_revision row + 1), (w_next_attempt_at row, t2), reason'. split; [done|]. split.
  { unfold reason'. destruct (expired _ _); auto. }
  apply finish_Ok in Hf as [[Hwork _ _ _] _]. unfold status_of. rewrite Hwork. tables. by rewrite update_same, Hrow.
Qed.

(** C16: A round of the worker that claims a message after its deadline ends it as expired, whatever
    the other processes do meanwhile that leaves the lease in place. *)
Theorem expired_round_ends env w c db1 w2 :
  reachable limits w -> we_token env ∉ map leaseToken (issued w) ->
  claimDue (we_token env) 180 (we_locked env) (we_claim_clock env).1 (we_claim_clock env).2 (db w) =
    Ok (Some c, db1) ->
  deliveryDeadline (claim_envelope c) * 1000 < we_now env ->
  rtc (step limits) {| db := db1; issued := c :: issued w |} w2 -> db w2 = we_others env 1 db1 ->
  holds c (db w2) = true -> In c (issued w2) ->
  exists db' n t, processOne env (db w) = (Ok WorkerFailed, db') /\
    status_of (claim_key c) db' = Some (failed, Some (ReasonOf (FailureReason delivery_expired)), n, t).
Proof.
  intros Hreach Hfresh Hclaim Htime Hsteps Hothers Hh Hc.
  assert (Hreach2 : reachable limits w2).
  { eapply reachable_steps; [|exact Hsteps]. eapply reachable_step; [exact Hreach|].
    by eapply step_claim; [|exact Hclaim]. }
  destruct (fail_succeeds w2 c delivery_expired (dc_start (we_clock env)) (dc_before (we_clock env))
    (dc_finish (we_clock env)) Hreach2 Hc Hh) as (db' & n & t & reason' & Hf & Hr & Hs).
  exists db', n, t. split; [|by destruct Hr as [->| ->]].
  unfold processOne. unfold mbind at 1, Act_bind at 1, begin. rewrite Hclaim.
  apply Z.ltb_lt in Htime as ->. unfold fail_claim, mbind, Act_bind, meanwhile, begin.
  rewrite <- Hothers, Hf. done.
Qed.
End liveness.
