(* ===== verification/Scenario.v ===== *)
(** * A provider at work

    A concrete run: an account has sent a message that may be answered; the answer is received,
    claimed by a worker and delivered.  The hypotheses of the theorems of [Safety.v] hold along it. *)

From S2P Require Import Prelude JsString Value Rfc8949 Cbor Profiles Validation ValidatePayload Models.
From S2P Require Import ValidationRules Roundtrip Cose CoseRules WebCrypto Database Typed.
From S2P Require Import ServerBodies Conversations Envelopes Delivery Worker Receiver DeliveryRules.
From S2P Require Import System Safety Liveness.
From Stdlib Require Import ZArith.
Open Scope Z_scope.

#[local] Existing Instance example_env.
#[local] Existing Instance Reference.cborg.

(** Connections permit everything, nothing is fenced or refused. *)
#[local] Instance example_keys : Keys := {|
  subtle := example_subtle;
  ed25519PublicKeyFromDidKey := fun _ => Ok (example_key (js "verify")) |}.
#[local] Instance example_connections : ConnectionFunctions := {|
  hail_connection_message_permission := fun _ _ _ _ _ _ => Ok (Some true);
  hail_connection_handover_blocked := fun _ _ _ => false |}.
#[local] Instance example_triggers : Triggers := fun _ _ _ => None.
#[local] Instance example_fences : AccountFences := fun _ _ => Ok tt.
#[local] Program Instance example_calendar : Calendar := {| in_24_months := fun t => t + seconds 63072000 |}.
Next Obligation. intros t. unfold seconds. lia. Qed.
#[local] Instance example_authority : EnvelopeAuthority := fun _ _ _ => Ok tt.

Definition alice : jstr := js "did:plc:aaaaaaaaaaaaaaaaaaaaaaaa".
Definition bob : jstr := js "did:plc:aaaaaaaaaaaaaaaaaaaaaaab".
Definition uuid (c : String.string) : jstr := js "00000000-0000-7000-8000-00000000000" ++ js c.

(** Any payload in a COSE envelope whose signature is the start of what it signs. *)
Definition signed (key_id : jstr) (v : hvalue) : bytes :=
  representation_of envelope key_id (encode_item (item_of_hail v))
    (take 64 (signed_bytes envelope key_id (encode_item (item_of_hail v)))).

(** What Alice sent to Bob, with permission to answer. *)
Definition question_cose : bytes := signed (alice ++ js "#hail-messaging") example_envelope.

Definition answer_body : bytes := encode_item (item_of_hail (HMap true
  [(js "version", HNum 1); (js "profile", HStr (js "spt-1")); (js "blocks", HArr [])])).
Definition answer : hvalue :=
  HMap true
    [(js "type", HStr (js "hail.envelope")); (js "version", HNum 1);
     (js "message_id", example_uuid "3"); (js "from", example_did "b"); (js "to", example_did "a");
     (js "authorization", HMap true [(js "type", HStr (js "reply")); (js "reply_to", example_uuid "1")]);
     (js "created_at", HNum 1000); (js "expires_at", HNum 2000);
     (js "body", HMap true
        [(js "digest", example_digest); (js "size", HNum (Z.of_nat (length answer_body)));
         (js "media_type", HStr (js "application/hail-body+cbor")); (js "profile", HStr (js "spt-1"));
         (js "available_until", HNum 2593000);
         (js "access", HMap true [(js "type", HStr (js "bearer")); (js "token", HBytes (repeat x00 32));
                                  (js "expires_at", HNum 2593000)])]);
     (js "reply", HMap true [(js "allowed", HBool false)])].
Definition answer_cose : bytes := signed (bob ++ js "#hail-messaging") answer.

Definition no_rows : Database := fun t => ltac:(destruct t; exact ∅).

Definition alice_account : jstr := js "account-a".

(** Alice's account, the sent question and the capability to answer it. *)
Definition asked : Database :=
  set provider_accounts {[alice_account := {| a_did := alice; a_active := true; a_public := true; a_closed := false |}]}
  (set sent_envelopes {[(alice, uuid "1") := {|
     s_recipient_did := bob; s_authorization := AuthorizedByGrant (uuid "2");
     s_envelope_cose := question_cose; s_envelope_digest := repeat x00 32; s_body_digest := repeat x00 32;
     s_sender_account_id := alice_account; s_conversation_message_id := None |}]}
  (set reply_capabilities {[(alice, uuid "1") := {|
     c_permitted_recipient_did := bob; c_reply_until := 1001; c_state := Available; c_claimed := None |}]}
  no_rows)).

(** ** The steps *)

Definition answer_object : InspectedHailObject HailEnvelope := ltac:(
  let r := eval vm_compute in (inspectTyped Profiles.envelope answer_cose) in
  match r with Ok ?object => exact object end).

Definition answer_decision : EnvelopeDecision := {|
  decided_payload := payload answer_object; Envelopes.representation := answer_cose;
  payloadDigest := sha256 (payloadBytes answer_object); envelopeDigest := sha256 (payloadBytes answer_object);
  localAccountId := alice_account; signingPublicKey := js "did:key:z6Mk";
  evidence := {| document := []; data := []; log := [] |}; retainAuthority := Some (Ok tt);
  conversationDescriptor := None |}.

Lemma answer_inspected : inspectTyped Profiles.envelope answer_cose = Ok answer_object.
Proof. vm_compute. reflexivity. Qed.

Lemma answer_consistent : decision_consistent answer_decision.
Proof. split; [|done]. exists answer_object. split; [exact answer_inspected|done]. Qed.

Definition at_1000 : accept_clock := {|
  at_start := seconds 1000; at_admission := seconds 1000; at_insert := seconds 1000;
  at_read := seconds 1000; at_member := seconds 1000; at_decision := seconds 1000 |}.
Definition delivering_at_1010 : deliver_clock := {|
  dc_start := seconds 1010; dc_before := seconds 1010; dc_member := seconds 1010;
  dc_after := seconds 1010; dc_finish := seconds 1010 |}.

Definition w_asked : world := {| db := asked; issued := [] |}.
Definition w_answered : world :=
  {| db := (accept answer_decision ENVELOPE_ADMISSION at_1000 asked).2; issued := [] |}.

Definition answer_claim : DeliveryClaim := {|
  senderDid := bob; messageId := uuid "3"; leaseToken := js "lease-1"; attemptCount := 1;
  claim_envelope := payload answer_object |}.
Definition claiming : result exn (option DeliveryClaim * Database) :=
  claimDue (js "lease-1") 180 ∅ (seconds 1005) (seconds 1005) (db w_answered).

(** The result and the database of a transaction that returned. *)
Definition result_of {A} (r : result exn (A * Database)) : option A :=
  match r with Ok (a, _) => Some a | Err _ => None end.
Definition database_of {A} (r : result exn (A * Database)) : Database :=
  match r with Ok (_, db) => db | Err _ => no_rows end.
Lemma result_of_Ok {A} (r : result exn (A * Database)) a : result_of r = Some a -> r = Ok (a, database_of r).
Proof. destruct r as [[a' db']|e]; [|done]. by intros [= ->]. Qed.

Definition w_claimed : world := {| db := database_of claiming; issued := [answer_claim] |}.
Definition delivering : result exn (delivery_outcome * Database) :=
  deliver answer_claim answer_body [] (Ok true) delivering_at_1010 (db w_claimed).
Definition w_delivered : world :=
  {| db := (begin (deliver answer_claim answer_body [] (Ok true) delivering_at_1010) (db w_claimed)).2;
     issued := [answer_claim] |}.

Lemma asked_reachable : reachable ENVELOPE_ADMISSION w_asked.
Proof. exists w_asked. split; [|apply rtc_refl]. by repeat split. Qed.

Lemma step_answered : step ENVELOPE_ADMISSION w_asked w_answered.
Proof. apply (step_accept _ w_asked answer_decision at_1000 answer_consistent). Qed.

Lemma claiming_Ok : claiming = Ok (Some answer_claim, db w_claimed).
Proof. apply result_of_Ok. vm_compute. reflexivity. Qed.

Lemma step_claimed : step ENVELOPE_ADMISSION w_answered w_claimed.
Proof.
  apply (step_claim _ w_answered (js "lease-1") 180 ∅ (seconds 1005) (seconds 1005)).
  - apply not_elem_of_nil.
  - exact claiming_Ok.
Qed.

Lemma delivering_Ok : delivering = Ok (OutcomeDelivered, database_of delivering).
Proof. apply result_of_Ok. vm_compute. reflexivity. Qed.

Lemma step_delivered : step ENVELOPE_ADMISSION w_claimed w_delivered.
Proof. apply (step_deliver _ w_claimed answer_claim). by left. Qed.

Lemma answered_reachable : reachable ENVELOPE_ADMISSION w_answered.
Proof. eapply reachable_step; [apply asked_reachable|apply step_answered]. Qed.
Lemma claimed_reachable : reachable ENVELOPE_ADMISSION w_claimed.
Proof. eapply reachable_step; [apply answered_reachable|apply step_claimed]. Qed.

(** ** The theorems apply *)

Definition answer_key : msg_key := (bob, uuid "3").
Definition answer_status (w : world) : option (HailDeliveryState * Z) :=
  (fun s => (s.1.1.1, s.1.2)) <$> status_of answer_key (db w).

Example the_run :
  answer_status w_asked = None /\ answer_status w_answered = Some (accepted, 1) /\
  answer_status w_claimed = Some (accepted, 1) /\ answer_status w_delivered = Some (delivered, 2).
Proof. vm_compute. done. Qed.

Lemma status_refinement_witness :
  rtc status_step (status_of answer_key (db w_asked)) (status_of answer_key (db w_delivered)).
Proof.
  apply (status_refinement ENVELOPE_ADMISSION); [apply asked_reachable|].
  eapply rtc_l; [apply step_answered|]. eapply rtc_l; [apply step_claimed|]. apply rtc_once, step_delivered.
Defined.

Lemma revision_identifies_status_witness : exists t,
  status_of answer_key (db w_claimed) = Some (accepted, None, 1, t) /\
  exists s' r' n' t', status_of answer_key (db w_delivered) = Some (s', r', n', t') /\ 1 <= n' /\
    (n' = 1 \/ ended accepted = true -> (s', r', n', t') = (accepted, None, 1, t)).
Proof.
  eexists. split; [vm_compute; reflexivity|].
  eapply (revision_identifies_status ENVELOPE_ADMISSION w_claimed).
  - apply claimed_reachable.
  - apply rtc_once, step_delivered.
  - vm_compute. reflexivity.
Defined.

Lemma answer_uses_reply : uses_reply (db w_claimed) answer_key (alice, uuid "1").
Proof.
  eexists _, _. split; [vm_compute; reflexivity|]. split; [vm_compute; reflexivity|].
  split; [reflexivity|]. by left.
Qed.

Lemma reply_at_most_once_witness :
  uses_reply (db w_claimed) answer_key (alice, uuid "1") /\
  forall k, uses_reply (db w_claimed) k (alice, uuid "1") -> k = answer_key.
Proof.
  split; [apply answer_uses_reply|]. intros k Hk.
  apply (reply_at_most_once ENVELOPE_ADMISSION w_claimed k answer_key (alice, uuid "1"));
    [apply claimed_reachable|exact Hk|apply answer_uses_reply].
Defined.

Lemma identifier_reserved_witness : exists r,
  db w_delivered received_envelopes !! answer_key = Some r /\
  (accept answer_decision ENVELOPE_ADMISSION at_1000 (db w_delivered)).1 <> Ok OutcomeAccepted.
Proof.
  assert (Hr : exists r, db w_claimed received_envelopes !! answer_key = Some r)
    by (eexists; vm_compute; reflexivity).
  destruct Hr as [r Hr]. exists r.
  destruct (identifier_reserved ENVELOPE_ADMISSION w_claimed w_delivered answer_key r answer_decision at_1000)
    as [Hk Ha].
  - apply claimed_reachable.
  - apply rtc_once, step_delivered.
  - exact Hr.
  - split; [exact Hk|]. by apply Ha.
Defined.

Lemma acceptance_queues_witness : exists t, status_of answer_key (db w_answered) = Some (accepted, None, 1, t).
Proof.
  destruct (acceptance_queues ENVELOPE_ADMISSION answer_decision at_1000 asked) as (_ & _ & Hs & _).
  - vm_compute. reflexivity.
  - exact Hs.
Defined.

Lemma outstanding_bounded_witness :
  pending_count (db w_claimed) (fun k _ => jstr_eqb k.1 bob) = 1 /\
  pending_count (db w_claimed) (fun k _ => jstr_eqb k.1 bob) <= 16.
Proof.
  split; [vm_compute; reflexivity|].
  apply (outstanding_bounded ENVELOPE_ADMISSION w_claimed bob claimed_reachable); cbn; lia.
Defined.

Lemma one_holder_witness :
  holds answer_claim (db w_claimed) = true /\
  forall c, In c (issued w_claimed) -> claim_key c = answer_key -> holds c (db w_claimed) = true -> c = answer_claim.
Proof.
  assert (Hh : holds answer_claim (db w_claimed) = true) by (vm_compute; reflexivity).
  split; [exact Hh|]. intros c Hc Hk Hc'.
  apply (one_holder ENVELOPE_ADMISSION w_claimed); [apply claimed_reachable|exact Hc|by left|exact Hk|exact Hc'|exact Hh].
Defined.

Lemma claim_limits_witness :
  leases_of_sender (db w_answered) (seconds 1005) bob = 0 /\
  leases_of_sender (db w_claimed) (seconds 1005) bob <= 1.
Proof.
  split; [vm_compute; reflexivity|].
  destruct (claim_limits (js "lease-1") 180 ∅ (seconds 1005) (seconds 1005) (db w_answered) answer_claim
    (db w_claimed)) as (r & _ & Hs & _); [exact claiming_Ok|exact Hs].
Defined.

Lemma delivered_verified_witness :
  verified_body (body_of (payload answer_object)) (database_of delivering) = Some answer_body /\
  capability_is Consumed answer_key (database_of delivering reply_capabilities !! (alice, uuid "1")).
Proof.
  destruct (delivered_verified ENVELOPE_ADMISSION w_claimed answer_claim answer_body [] (Ok true)
    delivering_at_1010 (database_of delivering)) as (_ & _ & _ & _ & Hb & _ & _ & _ & Hc & _).
  - exact claimed_reachable.
  - by left.
  - exact delivering_Ok.
  - split; [exact Hb|]. by apply (Hc (uuid "1")).
Defined.

(** ** Progress *)

(** A worker round past every deadline, with nobody interfering. *)
Definition late_round : worker_env := {|
  we_retrieve := fun _ => Ok (RetrieveFailed body_invalid);
  we_authorize := fun _ _ => Ok true; we_can_authorize := true;
  we_token := js "lease-1"; we_locked := ∅;
  we_claim_clock := (seconds 1005, seconds 1005); we_now := 3000000;
  we_jitter := fun base => base; we_clock := delivering_at_1010; we_others := fun _ db => db |}.

Lemma nextAttempt_bounds_witness : 2000000 <
  nextAttempt {| we_retrieve := we_retrieve late_round; we_authorize := we_authorize late_round;
    we_can_authorize := true; we_token := []; we_locked := ∅; we_claim_clock := (0, 0); we_now := 2000000;
    we_jitter := fun base => base; we_clock := delivering_at_1010; we_others := fun _ db => db |}
    answer_claim None <= 2301000.
Proof.
  match goal with |- _ < nextAttempt ?env _ _ <= _ =>
    pose proof (nextAttempt_bounds env answer_claim None) as Hn end.
  assert (Hd : deliveryDeadline (claim_envelope answer_claim) = 2300) by reflexivity.
  rewrite Hd in Hn. apply Hn; [intros base Hb; cbn; lia|cbn; lia|cbn; lia].
Defined.

Lemma due_claimed_witness : exists c db',
  claimDue (js "lease-1") 180 ∅ (seconds 1005) (seconds 1005) (db w_answered) = Ok (Some c, db').
Proof.
  assert (Hrow : exists row r, db w_answered delivery_work !! answer_key = Some row /\
    db w_answered received_envelopes !! answer_key = Some r /\
    due (db w_answered) (seconds 1005) answer_key row r = true)
    by (eexists _, _; split; [vm_compute; reflexivity|split; vm_compute; reflexivity]).
  destruct Hrow as (row & r & Hrow & Hr & Hdue).
  destruct (due_claimed ENVELOPE_ADMISSION (fun _ _ _ => eq_refl) w_answered answer_key row r (js "lease-1") 180
    ∅ (seconds 1005) (seconds 1005)) as (c & db' & Hc & _).
  - apply answered_reachable.
  - exact Hrow.
  - exact Hr.
  - exact Hdue.
  - apply not_elem_of_empty.
  - exists c, db'. exact Hc.
Defined.

Lemma expired_round_ends_witness : exists db' n t,
  processOne late_round (db w_answered) = (Ok WorkerFailed, db') /\
  status_of answer_key db' = Some (failed, Some (ReasonOf (FailureReason delivery_expired)), n, t).
Proof.
  apply (expired_round_ends ENVELOPE_ADMISSION (fun _ _ _ => eq_refl) late_round w_answered answer_claim
    (db w_claimed) w_claimed).
  - apply answered_reachable.
  - apply not_elem_of_nil.
  - exact claiming_Ok.
  - vm_compute. reflexivity.
  - apply rtc_refl.
  - reflexivity.
  - vm_compute. reflexivity.
  - by left.
Defined.
