(* ===== verification/GrantScenario.v ===== *)
(** * A grant is issued, used, received and revoked

    Alice permits Bob to send her news; a message of Bob is accepted, Bob's provider receives the
    grant and its revocation, and Alice's lineage stays revoked. *)

From S2P Require Import Prelude JsString Value Rfc8949 Cbor Profiles Validation ValidatePayload Models.
From S2P Require Import ValidationRules Roundtrip Cose CoseRules WebCrypto Database Typed.
From S2P Require Import ServerBodies Conversations Envelopes Delivery DeliveryRules System Scenario.
From S2P Require Import Grants GrantRules.
From Stdlib Require Import ZArith.
Open Scope Z_scope.

(** The environment of the examples with digests that differ: the last bytes of what is digested. *)
#[local] Instance granting_env : HailEnv := {|
  sha256 := fun b => take 32 (rev b ++ repeat x00 32);
  normalize_NFC := fun s => s; toLowerCase := fun s => s; toUnicode_error := fun _ => false;
  toASCII := fun s => Some s;
  parseDomain := fun s => {| registrable := Some s; isIcann := true; isPrivate := false |};
  newURL := fun _ => Some {| protocol := js "https:"; username := []; password := [] |} |}.
#[local] Existing Instance Reference.cborg.
#[local] Existing Instance Reference.cborg_spec.
#[local] Existing Instance example_connections.
#[local] Existing Instance example_triggers.
#[local] Existing Instance example_fences.
#[local] Existing Instance example_calendar.
#[local] Existing Instance example_authority.
#[local] Instance example_grant_authority : GrantAuthority := fun _ _ _ => Ok tt.

Definition stamped (t : HailSignedPayloadType) (key_id : jstr) (stamp : Byte.byte) (v : hvalue) : bytes :=
  representation_of t key_id (encode_item (item_of_hail v)) (repeat stamp 64).
Definition hash_of (stamp : Byte.byte) : hvalue :=
  HMap true [(js "algorithm", HStr (js "sha-256")); (js "value", HBytes (repeat stamp 32))].

Definition bobs_address : jstr := js "bob@b.example".
Definition binding_cose : bytes := stamped Profiles.address_binding (bob ++ js "#hail-identity") x11
  (HMap true
    [(js "type", HStr (js "hail.address-binding")); (js "version", HNum 2);
     (js "address", HStr bobs_address); (js "did", HStr bob); (js "issued_at", HNum 10);
     (js "key_id", HStr (bob ++ js "#hail-identity"))]).
Definition profile_cose : bytes := stamped Profiles.sender_profile (bob ++ js "#hail-messaging") x12
  (HMap true
    [(js "type", HStr (js "hail.sender-profile")); (js "version", HNum 1); (js "did", HStr bob);
     (js "revision", HNum 1); (js "display_name", HStr (js "Bob")); (js "categories", HArr []);
     (js "updated_at", HNum 10); (js "key_id", HStr (bob ++ js "#hail-messaging"))]).

Definition grant_value (revision : Z) (previous : hvalue) (status : String.string) : hvalue :=
  HMap true
    [(js "type", HStr (js "hail.grant")); (js "version", HNum 1); (js "grant_id", example_uuid "2");
     (js "revision", HNum revision); (js "previous", previous); (js "grantor", HStr alice);
     (js "grantee", HStr bob);
     (js "scope", HArr [HMap true [(js "type", HStr (js "categories")); (js "values", HArr [HStr (js "news")])]]);
     (js "status", HStr (js status)); (js "issued_at", HNum 20); (js "updated_at", HNum (20 + revision));
     (js "expires_at", HNum 5000);
     (js "consent_context", HMap true
        [(js "grantee_address", HStr bobs_address); (js "address_binding_hash", hash_of x11);
         (js "sender_profile_hash", hash_of x12)]);
     (js "key_id", HStr (alice ++ js "#hail-identity"))].
Arguments grant_value revision previous status%_string.

Definition first_cose : bytes := stamped Profiles.grant (alice ++ js "#hail-identity") x01 (grant_value 1 HNull "active").
Definition revocation_cose : bytes := stamped Profiles.grant (alice ++ js "#hail-identity") x02
  (grant_value 2 (HBytes (repeat x01 32)) "revoked").

Definition first_object : InspectedHailObject HailGrant := ltac:(
  let r := eval vm_compute in (inspectTyped Profiles.grant first_cose) in match r with Ok ?o => exact o end).
Definition revocation_object : InspectedHailObject HailGrant := ltac:(
  let r := eval vm_compute in (inspectTyped Profiles.grant revocation_cose) in match r with Ok ?o => exact o end).
Definition binding_object : InspectedHailObject HailAddressBinding := ltac:(
  let r := eval vm_compute in (inspectTyped Profiles.address_binding binding_cose) in match r with Ok ?o => exact o end).
Definition profile_object : InspectedHailObject HailSenderProfile := ltac:(
  let r := eval vm_compute in (inspectTyped Profiles.sender_profile profile_cose) in match r with Ok ?o => exact o end).

(** ** The runs *)

Definition bob_account : jstr := js "account-b".
Definition no_grants : Database :=
  set provider_accounts {[alice_account := {| a_did := alice; a_active := true; a_public := true; a_closed := false |};
                          bob_account := {| a_did := bob; a_active := true; a_public := true; a_closed := false |}]}
    no_rows.

Definition revision_of (account : jstr) (role : grant_role) (representation : bytes)
    (object : InspectedHailObject HailGrant) : SignedGrantRevision := {|
  sgr_account := account; sgr_role := role; sgr_payload := payload object; sgr_representation := representation;
  sgr_digest := sha256 representation; sgr_signing_key := js "did:key:z6Mi" |}.
Definition alices_first : SignedGrantRevision := revision_of alice_account RoleGrantor first_cose first_object.
Definition alices_revocation : SignedGrantRevision :=
  revision_of alice_account RoleGrantor revocation_cose revocation_object.

Definition bobs_consent : GrantConsentEvidence := {|
  address := {| va_address := bobs_address; va_did := bob; va_serviceBase := js "https://b.example/hail";
                va_messagingDidKey := js "did:key:z6Mk"; va_binding := payload binding_object;
                va_representation := binding_cose; va_digest := sha256 binding_cose |};
  senderProfile := {| vp_did := bob; vp_serviceBase := js "https://b.example/hail";
                      vp_messagingDidKey := js "did:key:z6Mk"; vp_profile := payload profile_object;
                      vp_representation := profile_cose; vp_digest := sha256 profile_cose |} |}.

(** Alice's provider issues the grant, and revokes it. *)
Definition issuing : result exn (unit * Database) :=
  insertAuthoritativeRevision1 alices_first bobs_consent (js "https://b.example/hail") (seconds 25) no_grants.
Definition issued_db : Database := database_of issuing.
Definition revoking : result exn (unit * Database) :=
  appendAuthoritativeRevocation {| gu_revision := alices_revocation; gu_expectedCurrentRevision := 1;
    gu_expectedCurrentDigest := repeat x01 32; gu_consent := None; gu_destination := None |} (seconds 30) issued_db.
Definition revoked_db : Database := database_of revoking.

(** Bob's provider receives both. *)
Definition receiving_first : result exn (SignedGrantRevision * Database) :=
  acceptReceivedRevision (revision_of bob_account RoleGrantee first_cose first_object) no_grants.
Definition received_db : Database := database_of receiving_first.
Definition receiving_revocation : result exn (SignedGrantRevision * Database) :=
  acceptReceivedRevision (revision_of bob_account RoleGrantee revocation_cose revocation_object) received_db.
Definition withdrawn_db : Database := database_of receiving_revocation.

Lemma issuing_Ok : issuing = Ok (tt, issued_db).
Proof. apply result_of_Ok. vm_compute. reflexivity. Qed.
Lemma revoking_Ok : revoking = Ok (tt, revoked_db).
Proof. apply result_of_Ok. vm_compute. reflexivity. Qed.
Lemma receiving_first_Ok : exists g, receiving_first = Ok (g, received_db).
Proof. eexists. apply result_of_Ok. vm_compute. reflexivity. Qed.
Lemma receiving_revocation_Ok : exists g, receiving_revocation = Ok (g, withdrawn_db).
Proof. eexists. apply result_of_Ok. vm_compute. reflexivity. Qed.

Lemma issued_reachable : grants_reachable issued_db.
Proof.
  exists no_grants. do 2 (split; [reflexivity|]). apply rtc_once. eapply step_begin. exact issuing_Ok.
Qed.
Lemma revoking_step : grant_step issued_db revoked_db.
Proof.
  eapply step_update. pose proof revoking_Ok as Hr. unfold revoking, appendAuthoritativeRevocation in Hr.
  destruct (bool_decide _); [exact Hr|discriminate Hr].
Qed.
Lemma revoked_reachable : grants_reachable revoked_db.
Proof. eapply grants_reachable_steps; [exact issued_reachable|]. apply rtc_once. exact revoking_step. Qed.
Lemma withdrawn_reachable : grants_reachable withdrawn_db.
Proof.
  destruct receiving_first_Ok as [g Hg], receiving_revocation_Ok as [g' Hg'].
  exists no_grants. do 2 (split; [reflexivity|]).
  eapply rtc_l; [eapply step_receive; exact Hg|]. apply rtc_once. eapply step_receive. exact Hg'.
Qed.

(** ** The theorems along the runs *)

Definition the_grant : jstr := uuid "2".
Definition news : hvalue :=
  HMap true
    [(js "type", HStr (js "hail.envelope")); (js "version", HNum 1);
     (js "message_id", example_uuid "4"); (js "from", HStr bob); (js "to", HStr alice);
     (js "authorization", HMap true [(js "type", HStr (js "grant")); (js "grant_id", HStr the_grant)]);
     (js "category", HStr (js "news")); (js "created_at", HNum 1000); (js "expires_at", HNum 2000);
     (js "body", HMap true
        [(js "digest", hash_of x07); (js "size", HNum 10);
         (js "media_type", HStr (js "application/hail-body+cbor")); (js "profile", HStr (js "spt-1"));
         (js "available_until", HNum 2593000);
         (js "access", HMap true [(js "type", HStr (js "bearer")); (js "token", HBytes (repeat x00 32));
                                  (js "expires_at", HNum 2593000)])]);
     (js "reply", HMap true [(js "allowed", HBool false)])].
Definition news_cose : bytes := stamped Profiles.envelope (bob ++ js "#hail-messaging") x03 news.
Definition news_object : InspectedHailObject HailEnvelope := ltac:(
  let r := eval vm_compute in (inspectTyped Profiles.envelope news_cose) in match r with Ok ?o => exact o end).
Definition news_decision : EnvelopeDecision := {|
  decided_payload := payload news_object; Envelopes.representation := news_cose;
  payloadDigest := sha256 (payloadBytes news_object); envelopeDigest := sha256 (payloadBytes news_object);
  localAccountId := alice_account; signingPublicKey := js "did:key:z6Mk";
  evidence := {| document := []; data := []; log := [] |}; retainAuthority := Some (Ok tt);
  conversationDescriptor := None |}.

Definition admitting_news : M EnvelopeOutcome * Database := accept news_decision ENVELOPE_ADMISSION at_1000 issued_db.
Lemma news_admitted : admitting_news = (Ok OutcomeAccepted, admitting_news.2).
Proof.
  assert (H : admitting_news.1 = Ok OutcomeAccepted) by (vm_compute; reflexivity).
  destruct admitting_news as [o db]. cbn in H |- *. by rewrite H.
Qed.

Definition lineage_of (db : Database) : Lineage := default (lineage_row alices_first) (db grant_lineages !! the_grant).
Lemma revoked_lineage : revoked_db grant_lineages !! the_grant = Some (lineage_of revoked_db).
Proof. vm_compute. reflexivity. Qed.
Lemma withdrawn_lineage : withdrawn_db grant_lineages !! the_grant = Some (lineage_of withdrawn_db).
Proof. vm_compute. reflexivity. Qed.
Lemma withdrawn_is_revoked : l_active (lineage_of revoked_db) = false /\
  l_current_revision (lineage_of withdrawn_db) = l_current_revision (lineage_of revoked_db).
Proof. split; vm_compute; reflexivity. Qed.

(** A worker takes the publication of the grant. *)
Definition publishing : M (option GrantPublicationClaim) * Database :=
  claimDuePublication (js "lease-3") 180000 ∅ (seconds 40) revoked_db.
Lemma publishing_takes : match publishing.1 with Ok (Some c) => gc_attempt c = 1 | _ => False end.
Proof. vm_compute. reflexivity. Qed.

Lemma same_representations n r' : withdrawn_db grant_revisions !! (the_grant, n) = Some r' ->
  exists n r, revoked_db grant_revisions !! (the_grant, n) = Some r /\ gr_cose r = gr_cose r'.
Proof.
  intros Hn. assert (Hs : is_Some (withdrawn_db grant_revisions !! (the_grant, n))) by by eexists.
  apply (lo_rows _ _ _ (go_lineage _ (reachable_ok _ withdrawn_reachable) _ _ withdrawn_lineage)) in Hs.
  assert (Hc : l_current_revision (lineage_of withdrawn_db) = 2) by (vm_compute; reflexivity).
  assert (H12 : n = 1 \/ n = 2) by lia. exists n. clear Hs Hc.
  assert (Hcose : forall n, n = 1 \/ n = 2 -> exists c,
    gr_cose <$> revoked_db grant_revisions !! (the_grant, n) = Some c /\
    gr_cose <$> withdrawn_db grant_revisions !! (the_grant, n) = Some c).
  { intros m [-> | ->]; eexists; split; vm_compute; reflexivity. }
  destruct (Hcose n H12) as (c & H1' & H2'). apply fmap_Some in H1' as (r & Hr & ->).
  apply fmap_Some in H2' as (r'' & Hr'' & Hc). exists r. split; [done|].
  pose proof (eq_trans (eq_sym Hn) Hr'') as [= <-]. done.
Qed.

Lemma grant_chain_witness : lineage_ok the_grant (lineage_of revoked_db) revoked_db.
Proof. apply (grant_chain revoked_db the_grant _ revoked_reachable revoked_lineage). Defined.

Lemma grant_admits_witness : exists l g, issued_db grant_lineages !! the_grant = Some l /\
  issued_db grant_revisions !! (the_grant, l_current_revision l) = Some (revision_row g) /\
  g_status (sgr_payload g) = grant_active.
Proof.
  destruct (grant_admits issued_db admitting_news.2 news_decision ENVELOPE_ADMISSION at_1000 the_grant)
    as (l & g & Hl & _ & Hr & _ & _ & _ & _ & Hs & _).
  - exact issued_reachable.
  - reflexivity.
  - exact news_admitted.
  - exists l, g. repeat (split; [assumption|]). exact Hs.
Defined.

Lemma revoked_for_good_witness :
  publishing.2 grant_lineages !! the_grant = Some (lineage_of revoked_db) /\
  (accept news_decision ENVELOPE_ADMISSION at_1000 publishing.2).1 <> Ok OutcomeAccepted.
Proof.
  destruct (revoked_for_good revoked_db publishing.2 the_grant (lineage_of revoked_db)) as (Hl & _ & Ha).
  - exact revoked_reachable.
  - exact revoked_lineage.
  - apply withdrawn_is_revoked.
  - apply rtc_once. apply (proj1 (publication_is_step revoked_db)).
  - split; [exact Hl|]. apply Ha. reflexivity.
Defined.

Lemma grantee_follows_grantor_witness : l_active (lineage_of withdrawn_db) = l_active (lineage_of revoked_db).
Proof.
  apply (grantee_follows_grantor revoked_db withdrawn_db the_grant).
  - exact revoked_reachable.
  - exact withdrawn_reachable.
  - exact revoked_lineage.
  - exact withdrawn_lineage.
  - exact same_representations.
  - apply withdrawn_is_revoked.
Defined.
