(* ===== verification/Status.v ===== *)
(** * Signing and receiving the status of a message (apps/server/src/delivery/status.ts, status-receiver.ts)

    The provider of the recipient reports the state of a delivery in a signed status.  The payload
    is a function of the row of the delivery, so that every status of one revision has the same
    payload, whatever key signs it; the database keeps the payload of each revision and refuses
    another. *)

From S2P Require Import Prelude JsString Value Cbor Profiles Validation ValidatePayload Models Base64Url.
From S2P Require Import Cose WebCrypto Typed Database ServerBodies Conversations Envelopes Receiver.
From Stdlib Require Import ZArith.
Open Scope Z_scope.

(** The join of a received envelope with its delivery. *)
Record StatusRow := {
  st_sender_did : jstr;
  st_message_id : jstr;
  st_received : Received;
  st_accepted_at : Z;
  st_work : Work;
}.

Definition status_row_of (key : msg_key) (db : Database) : option StatusRow :=
  received ← db received_envelopes !! key;
  work ← db delivery_work !! key;
  match r_outcome received, r_accepted_at received with
  | ReceivedAccepted, Some accepted_at =>
      Some {| st_sender_did := key.1; st_message_id := key.2; st_received := received;
              st_accepted_at := accepted_at; st_work := work |}
  | _, _ => None
  end.

(** [Date.getTime()] of an instant, in milliseconds. *)
Definition getTime (t : instant) : Z := t / 1000.

Definition enum_text {A} `{EqDecision A} (values : list (String.string * A)) (a : A) : jstr :=
  match List.find (fun v => bool_decide (v.2 = a)) values with
  | Some (text, _) => js text
  | None => []
  end.

#[export] Instance HailHoldReason_eq_dec : EqDecision HailHoldReason.
Proof. solve_decision. Defined.
#[export] Instance HailFailureReason_eq_dec : EqDecision HailFailureReason.
Proof. solve_decision. Defined.
#[export] Instance HailCancellationReason_eq_dec : EqDecision HailCancellationReason.
Proof. solve_decision. Defined.

Definition state_text (s : HailDeliveryState) : jstr := enum_text delivery_states s.
Definition reason_text (r : work_reason) : jstr :=
  match r with
  | ReasonOf (HoldReason r) => enum_text hold_reasons r
  | ReasonOf (FailureReason r) => enum_text failure_reasons r
  | ReasonOf (CancellationReason r) => enum_text cancellation_reasons r
  | AccountClosed => js "account-closed"
  end.
Definition reason_value (r : option work_reason) : hvalue :=
  match r with Some r => HStr (reason_text r) | None => HNull end.

Definition occurred_at (row : StatusRow) : Z :=
  getTime (if w_status_revision (st_work row) =? 1 then st_accepted_at row
           else w_transitioned_at (st_work row)) / 1000.

(** [Math.ceil(ms / 1000)]. *)
Definition ceil_seconds (ms : Z) : Z := - (- ms / 1000).

Definition status_common (row : StatusRow) : HailRecord :=
  [(js "type", HStr (js "hail.delivery-status")); (js "version", HNum 1);
   (js "message_id", HStr (st_message_id row));
   (js "envelope_digest", HMap false [(js "algorithm", HStr (js "sha-256"));
      (js "value", HBytes (r_envelope_digest (st_received row)))]);
   (js "from", HStr (r_recipient_did (st_received row))); (js "to", HStr (st_sender_did row));
   (js "occurred_at", HNum (occurred_at row))].

Definition retry_at (row : StatusRow) (envelope : HailEnvelope) : Z :=
  Z.max (occurred_at row)
    (Z.min (deliveryDeadline envelope) (ceil_seconds (getTime (w_next_attempt_at (st_work row))))).

(** The members of a state; only a hold has the instant of the next attempt. *)
Definition status_members (row : StatusRow) (retry : Z) : HailRecord :=
  let work := st_work row in
  match w_state work with
  | accepted => [(js "revision", HNum 1); (js "state", HStr (state_text accepted))]
  | on_hold =>
      [(js "revision", HNum (w_status_revision work)); (js "state", HStr (state_text on_hold));
       (js "reason", reason_value (w_reason work)); (js "retry_at", HNum retry)]
  | delivered =>
      [(js "revision", HNum (w_status_revision work)); (js "state", HStr (state_text delivered))]
  | state =>
      [(js "revision", HNum (w_status_revision work)); (js "state", HStr (state_text state));
       (js "reason", reason_value (w_reason work))]
  end.

Record AccountKeyRecord := { k_role : jstr; k_algorithm : jstr; k_publicKey : jstr }.

(** The collaborators of the signer: the account's key, its decryption and import, the resolver,
    what [retainPublicSigningAuthority] raises, and the other processes. *)
Record signer_env := {
  sg_getKey : jstr -> jstr -> M AccountKeyRecord;
  sg_resolve : jstr -> M ResolvedHailDid;
  sg_decrypt : jstr -> AccountKeyRecord -> M bytes;
  sg_import : bytes -> M CryptoKey;
  sg_serviceBase : jstr;
  sg_retain : bytes -> M unit;
  sg_others : nat -> Database -> Database;
}.

Section signer.
Context `{HailEnv} `{Cborg} `{Keys} `{Triggers}.

(** The payload of the status that a row announces. *)
Definition status_payload (row : StatusRow) : M hvalue :=
  retry ← match w_state (st_work row) with
          | on_hold =>
              inspected ← inspectTyped Profiles.envelope (r_envelope_cose (st_received row));
              Ok (retry_at row (payload inspected))
          | _ => Ok 0
          end;
  Ok (HMap false (status_common row ++ status_members row retry)).

Definition announced_revision (row : StatusRow) : Z :=
  match w_state (st_work row) with accepted => 1 | _ => w_status_revision (st_work row) end.

Definition status_error {A} (message : String.string) : M A := Err (OtherError (js message)).
Arguments status_error {A} message%_string.

(** Key, resolution and signature; what is signed is verified before it is kept. *)
Definition sign_status (env : signer_env) (row : StatusRow) (status : hvalue) (key : AccountKeyRecord)
    : M bytes :=
  let recipient := r_recipient_did (st_received row) in
  resolved ← sg_resolve env recipient;
  _ ← throw_if (negb (jstr_eqb (k_algorithm key) (js "ed25519"))
                || negb (jstr_eqb (k_publicKey key) (messagingDidKey resolved))
                || negb (jstr_eqb (serviceBase resolved) (sg_serviceBase env)))
        (OtherError (js "Current PLC does not authorize status signing"));
  secret ← sg_decrypt env (r_local_account_id (st_received row)) key;
  private ← sg_import env secret;
  signer ← createWebCryptoSigner (recipient ++ js "#hail-messaging") private subtle;
  cose ← signPayload delivery_status (of_hail status) signer;
  _ ← verifySignedPayload delivery_status cose (messaging_verifier recipient (k_publicKey key));
  _ ← throw_if (16384 <? Z.of_nat (length cose)) (OtherError (js "Signed status exceeds 16 KiB"));
  Ok cose.

(** The payload of a revision is kept once; the wrapper once for each key. *)
Definition keep_status (env : signer_env) (key : msg_key) (revision : Z) (public_key : jstr)
    (payloadBytes cose : bytes) : Tx unit :=
  existing ← query (fun db => db delivery_status_payloads !! (key, revision));
  _ ← match existing with
      | None => write delivery_status_payloads <[(key, revision) := payloadBytes]>
      | Some stored =>
          if bool_decide (stored = payloadBytes) then mret tt
          else throw_error "Status revision conflicts with persisted payload"
      end;
  _ ← write delivery_status_wrappers (insert_new (key, revision, public_key) cose);
  throwing (sg_retain env cose).

Definition signable_account (row : StatusRow) (db : Database) : bool :=
  match db provider_accounts !! r_local_account_id (st_received row) with
  | Some a => jstr_eqb (a_did a) (r_recipient_did (st_received row)) && a_active a && a_public a
  | None => false
  end.

Definition signCurrent (env : signer_env) (senderDid messageId : jstr) : Act (option bytes) :=
  let key := (senderDid, messageId) in
  row ← act (fun db => Ok (status_row_of key db));
  match row with
  | None => mret None
  | Some row =>
      status ← act (fun _ => status_payload row);
      payloadBytes ← act (fun _ => encodePayload (Signed delivery_status) (of_hail status)
                                     DEFAULT_HAIL_RESOURCE_LIMITS);
      _ ← meanwhile (sg_others env 0);
      active ← act (fun db => Ok (signable_account row db));
      if negb active then act (fun _ => status_error "Status signer is not publicly active")
      else
        key_record ← act (fun _ => sg_getKey env (r_local_account_id (st_received row)) (js "hail-messaging"));
        cose ← act (fun _ => sign_status env row status key_record);
        _ ← meanwhile (sg_others env 1);
        _ ← begin (keep_status env key (announced_revision row) (k_publicKey key_record)
                     payloadBytes cose) : Act unit;
        mret (Some cose)
  end.
End signer.

(** ** Receiving the status of a message (apps/server/src/delivery/status-receiver.ts)

    The provider of the sender authenticates a status against the key of the recipient and the
    envelope it sent, and keeps the latest revision.  An error before the transaction is answered
    like an unknown message; the transaction's own errors reach the caller. *)

Inductive StatusOutcome := StatusAcknowledged | StatusUnknown | StatusConflict | StatusBadRequest.

Definition ds_revision (p : HailDeliveryStatus) : Z :=
  match p.2 with
  | StatusAccepted => 1
  | StatusOnHold n _ _ | StatusDelivered n | StatusFailed n _ | StatusCancelled n _ => n
  end.
Definition ds_state (p : HailDeliveryStatus) : HailDeliveryState :=
  match p.2 with
  | StatusAccepted => accepted
  | StatusOnHold _ _ _ => on_hold
  | StatusDelivered _ => delivered
  | StatusFailed _ _ => failed
  | StatusCancelled _ _ => cancelled
  end.
Definition ds_key (p : HailDeliveryStatus) : msg_key := (ds_to p.1, ds_message_id p.1).

Definition terminal_status (s : HailDeliveryState) : bool :=
  match s with delivered | failed | cancelled => true | _ => false end.

Record status_env := {
  se_resolve : jstr -> M ResolvedHailDid;
  se_serviceBase : jstr;
  se_others : nat -> Database -> Database;
}.

(** The sent envelope the status is about. *)
Definition sent_matches (p : HailDeliveryStatus) (sent : option Sent) : bool :=
  match sent with
  | Some s => jstr_eqb (s_recipient_did s) (ds_from p.1)
              && bool_decide (s_envelope_digest s = digest_value (ds_envelope_digest p.1))
  | None => false
  end.

Section receiver.
Context `{HailEnv} `{Cborg} `{Keys} `{Triggers}.

(** What the stored status says to a new one: the early returns of [apply]. *)
Definition status_verdict (current : option SentStatus) (p : HailDeliveryStatus) (bs : bytes)
    : option StatusOutcome :=
  match current with
  | Some c =>
      if ds_revision p <? ss_current_revision c then Some StatusAcknowledged
      else if ds_revision p =? ss_current_revision c then
        Some (if bool_decide (ss_payload_bytes c = bs) then StatusAcknowledged else StatusConflict)
      else if terminal_status (ss_current_state c) || bool_decide (ds_state p = accepted)
              || (ds_revision p <=? ss_current_revision c) then Some StatusConflict
      else None
  | None =>
      if negb (bool_decide (ds_state p = accepted)) && negb (terminal_status (ds_state p))
      then Some StatusConflict else None
  end.

Definition next_status (current : option SentStatus) (p : HailDeliveryStatus) (bs cose : bytes)
    (publicKey : jstr) : SentStatus := {|
  ss_recipient_did := match current with Some c => ss_recipient_did c | None => ds_from p.1 end;
  ss_current_revision := ds_revision p; ss_current_state := ds_state p; ss_payload_bytes := bs;
  ss_cose := cose; ss_signing_public_key := publicKey;
  ss_revision_gap := match current with
    | Some c => ss_revision_gap c + (ds_revision p - ss_current_revision c - 1)
    | None => ds_revision p - 1
    end |}.

(** [value] is the payload before it is read at its type. *)
Definition apply_status (value : hvalue) (p : HailDeliveryStatus) (bs cose : bytes) (publicKey : jstr)
    : Tx StatusOutcome :=
  sent ← query (fun db => db sent_envelopes !! ds_key p);
  if negb (sent_matches p sent) then mret StatusUnknown
  else
    current ← query (fun db => db sent_delivery_status !! ds_key p);
    match status_verdict current p bs with
    | Some outcome => mret outcome
    | None =>
        encoded ← throwing (encodePayload (Signed delivery_status) (of_hail value)
                              DEFAULT_HAIL_RESOURCE_LIMITS);
        if negb (Cbor.equalBytes encoded bs) then mret StatusBadRequest
        else
          _ ← write sent_delivery_status <[ds_key p := next_status current p bs cose publicKey]>;
          mret StatusAcknowledged
    end.

(** The part of [receive] inside [try]: a status to apply, or an answer. *)
Definition authenticate_status (env : status_env) (pathDigest : jstr) (cose : bytes)
    : Act (StatusOutcome + (hvalue * HailDeliveryStatus * bytes * jstr)) :=
  object ← act (fun _ => inspectSignedPayload delivery_status cose);
  p ← act (fun _ => typed (Signed delivery_status) (payload object) : M HailDeliveryStatus);
  candidate ← act (fun db => Ok (db sent_envelopes !! ds_key p));
  match candidate with
  | None => mret (inl StatusUnknown)
  | Some sent =>
      recipient ← act (fun _ => se_resolve env (ds_from p.1));
      _ ← act (fun _ => verifySignedPayload delivery_status cose
                          (messaging_verifier (ds_from p.1) (messagingDidKey recipient)));
      sender ← act (fun _ => se_resolve env (ds_to p.1));
      _ ← meanwhile (se_others env 0);
      local ← act (fun db => Ok (getAccountByDid (ds_to p.1) db));
      if negb (jstr_eqb (serviceBase sender) (se_serviceBase env))
         || match local with Some (_, a) => negb (a_active a && a_public a) | None => true end
      then mret (inl StatusUnknown)
      else if negb (sent_matches p (Some sent)) then mret (inl StatusUnknown)
      else if negb (jstr_eqb pathDigest (encodeBase64Url (digest_value (ds_envelope_digest p.1))))
      then mret (inl StatusBadRequest)
      else mret (inr (payload object, p, payloadBytes object, messagingDidKey recipient))
  end.

Definition receive_status (env : status_env) (pathDigest : jstr) (cose : bytes) : Act StatusOutcome :=
  authenticated ← rescue (authenticate_status env pathDigest cose) (mret (inl StatusUnknown));
  match authenticated with
  | inl outcome => mret outcome
  | inr (value, p, bs, publicKey) =>
      _ ← meanwhile (se_others env 1);
      begin (apply_status value p bs cose publicKey) : Act StatusOutcome
  end.
End receiver.
