(* ===== verification/StatusRules.v ===== *)
(** * Statuses between two providers

    What the recipient's provider signs and what the sender's provider keeps: a signed status reads
    back as the row it was made from, statuses of one revision agree for ever, and whatever statuses
    arrive, in any order, late or again, the sender's record is a past status of the recipient. *)

From S2P Require Import Prelude JsString Value Rfc8949 Cbor Profiles Validation ValidatePayload Models Soundness.
From S2P Require Import Invariance Roundtrip Cose CoseRules Database Typed ServerBodies Conversations.
From S2P Require Import Envelopes Delivery Receiver DeliveryRules System Safety Status.
From Stdlib Require Import ZArith.
Open Scope Z_scope.

Definition row_key (row : StatusRow) : msg_key := (st_sender_did row, st_message_id row).

(** ** The payload of a status *)

Section payloads.
Context `{HailEnv} `{Cborg}.

(** The payload is a function of the envelope and of the status. *)
Lemma status_payload_row row row' :
  row_key row = row_key row' -> st_received row = st_received row' ->
  st_accepted_at row = st_accepted_at row' ->
  status_row (st_work row) = status_row (st_work row') ->
  status_payload row = status_payload row'.
Proof.
  destruct row as [s m r a [st re n at' na le tr]], row' as [s' m' r' a' [st' re' n' at2 na' le' tr']].
  unfold row_key, status_row. cbn. intros [= <- <-] <- <- [= <- <- <- <- <-]. reflexivity.
Qed.

Lemma status_payload_Ok row v : status_payload row = Ok v -> exists retry,
  v = HMap false (status_common row ++ status_members row retry).
Proof. intros (retry & _ & [= <-])%bind_Ok. by exists retry. Qed.

Lemma status_wf row v : status_payload row = Ok v -> hail_wf v = true.
Proof.
  intros [retry ->]%status_payload_Ok. unfold status_members, reason_value.
  destruct (w_state (st_work row)), (w_reason (st_work row)); vm_compute; reflexivity.
Qed.

Lemma same_trans u : forall v w, same u v -> same v w -> same u w.
Proof.
  induction u as [| | | | |l IH|n m IH] using hvalue_ind'; intros v w Hab Hbc;
    inversion Hab; subst; try done; inversion Hbc; subst; try done.
  - apply same_arr. rewrite Forall_forall in IH. apply Forall2_same_length_lookup_2.
    + by etrans; eapply Forall2_length.
    + intros i x y Hx Hy.
      match goal with H1 : Forall2 same l ?l1, H2 : Forall2 same ?l1 _ |- _ =>
        destruct (Forall2_lookup_l _ _ _ _ _ H1 Hx) as (z & Hz & Hxz);
        pose proof (Forall2_lookup_lr _ _ _ _ _ _ H2 Hz Hy) end.
      eapply IH; [by eapply list_elem_of_lookup_2|done..].
  - apply same_map. intros k.
    match goal with H1 : forall k, osame (get m k) (get ?m1 k), H2 : forall k, osame (get ?m1 k) _ |- _ =>
      specialize (H1 k); specialize (H2 k); inversion H1 as [x z Hxz Hx Hz|Hx Hz]; rewrite <- Hz in H2;
      inversion H2; subst; constructor end.
    symmetry in Hx. apply get_In in Hx. rewrite Forall_forall in IH. eapply (IH (k, x)); eauto.
Qed.

Lemma same_req_num r r' k z a : rec_same r r' -> field r k = Some (HNum z) ->
  req r' k as_number = Some a -> a = z.
Proof.
  intros Hs Hf. unfold req. pose proof (Hs (js k)) as Hk. unfold field in *. rewrite Hf in Hk.
  inversion Hk as [v w Hv| ]; subst. inversion Hv; subst. cbn. congruence.
Qed.
Lemma same_req_str {A} r r' k s (f : hvalue -> option A) a : rec_same r r' -> field r k = Some (HStr s) ->
  req r' k f = Some a -> f (HStr s) = Some a.
Proof.
  intros Hs Hf. unfold req. pose proof (Hs (js k)) as Hk. unfold field in *. rewrite Hf in Hk.
  inversion Hk as [v w Hv| ]; subst. inversion Hv; subst. done.
Qed.

Lemma announced_of_shape row : work_shape (st_work row) -> announced_revision row = w_status_revision (st_work row).
Proof. unfold work_shape, announced_revision. destruct (w_state _); naive_solver. Qed.

(** What a reader of the type finds in a payload that agrees with the one of a row. *)
Record reads_as (row : StatusRow) (p : HailDeliveryStatus) : Prop := {
  ra_revision : ds_revision p = announced_revision row;
  ra_state : ds_state p = w_state (st_work row);
  ra_key : ds_key p = row_key row;
  ra_from : ds_from p.1 = r_recipient_did (st_received row);
}.

Lemma status_reads row v v' p : status_payload row = Ok v -> same v v' ->
  as_HailDeliveryStatus v' = Some p -> reads_as row p.
Proof.
  intros [retry ->]%status_payload_Ok Hs Hp. inversion Hs as [? Hl| |n n' m m' Hm]; subst; [discriminate Hl|].
  unfold as_HailDeliveryStatus in Hp. cbn [as_record mbind option_bind] in Hp.
  apply bind_Some in Hp as ([] & _ & Hp). apply bind_Some in Hp as ([] & _ & Hp).
  apply bind_Some in Hp as (mid & Hmid & Hp). apply bind_Some in Hp as (dig & _ & Hp).
  apply bind_Some in Hp as (from & Hfrom & Hp). apply bind_Some in Hp as (to & Hto & Hp).
  apply bind_Some in Hp as (at' & _ & Hp). apply bind_Some in Hp as (variant & Hvar & [= <-]).
  eapply (same_req_str _ _ "message_id") in Hmid; [|exact Hm|reflexivity].
  eapply (same_req_str _ _ "from") in Hfrom; [|exact Hm|reflexivity].
  eapply (same_req_str _ _ "to") in Hto; [|exact Hm|reflexivity].
  injection Hmid as <-. injection Hfrom as <-. injection Hto as <-.
  unfold as_status_variant in Hvar.
  apply bind_Some in Hvar as (n1 & Hn & Hvar). apply bind_Some in Hvar as (s & Hst & Hvar).
  assert (Hs' : s = w_state (st_work row)).
  { eapply (same_req_str _ _ "state" (state_text (w_state (st_work row)))) in Hst; [|exact Hm|].
    - destruct (w_state (st_work row)); by injection Hst as <-.
    - unfold status_members. by destruct (w_state (st_work row)). }
  assert (Hr : n1 = announced_revision row).
  { eapply same_req_num; [exact Hm| |exact Hn].
    unfold status_members, announced_revision. by destruct (w_state (st_work row)). }
  subst s n1. unfold announced_revision in *.
  destruct (w_state (st_work row)) eqn:Hw; cbn in Hvar.
  - apply bind_Some in Hvar as ([] & _ & Hvar). apply bind_Some in Hvar as ([] & _ & Hvar).
    apply bind_Some in Hvar as ([] & _ & [= <-]). split; cbn; unfold announced_revision; rewrite ?Hw; done.
  - apply bind_Some in Hvar as (reason & _ & Hvar). apply fmap_Some in Hvar as (t & _ & ->).
    split; cbn; unfold announced_revision; rewrite ?Hw; done.
  - apply bind_Some in Hvar as ([] & _ & Hvar). apply bind_Some in Hvar as ([] & _ & [= <-]).
    split; cbn; unfold announced_revision; rewrite ?Hw; done.
  - apply bind_Some in Hvar as ([] & _ & Hvar). apply fmap_Some in Hvar as (t & _ & ->).
    split; cbn; unfold announced_revision; rewrite ?Hw; done.
  - apply bind_Some in Hvar as ([] & _ & Hvar). apply fmap_Some in Hvar as (t & _ & ->).
    split; cbn; unfold announced_revision; rewrite ?Hw; done.
Qed.
End payloads.

(** ** What keeping a payload changes *)

Section keeping.
Context `{Triggers}.

Lemma keep_Ok env k n public_key bs cose (db db' : Database) u :
  keep_status env k n public_key bs cose db = Ok (u, db') ->
  (forall j b, db' delivery_status_payloads !! j = Some b ->
     db delivery_status_payloads !! j = Some b \/ j = (k, n) /\ b = bs) /\
  (forall t, t <> delivery_status_payloads -> t <> delivery_status_wrappers -> db' t = db t).
Proof.
  intros Hkeep. unfold keep_status in Hkeep. tx. split.
  - intros j b. rewrite set_ne by done. destruct (_ !! _) as [stored|].
    + case_bool_decide; tx; auto.
    + tx. rewrite set_eq. intros [[-> ->]|[_ Hj]]%insert_cases; auto.
  - intros t H1' H2'. rewrite set_ne by done. destruct (_ !! _) as [stored|]; [case_bool_decide|]; tx; [done|].
    by rewrite set_ne.
Qed.

Lemma keep_unchanged env k n public_key bs cose (db : Database) t :
  t <> delivery_status_payloads -> t <> delivery_status_wrappers ->
  (begin (keep_status env k n public_key bs cose) db).2 t = db t.
Proof.
  intros H1' H2'. apply (begin_preserves (fun db' => db' t = db t)); [done|].
  intros u db' Hk. by apply keep_Ok in Hk as [_ ->].
Qed.
End keeping.

(** ** What a provider signs, the other reads *)

Section signed.
Context `{HailEnv} `{CborgSpec}.
#[local] Set Default Proof Using "Type*".

Lemma encodePayload_bytes t v bs : hail_wf v = true ->
  encodePayload t (of_hail v) DEFAULT_HAIL_RESOURCE_LIMITS = Ok bs -> bs = encode_item (item_of_hail v).
Proof.
  intros Hw (u & _ & Hb)%bind_Ok.
  apply encode_Ok in Hb as (w & Ha & _ & _ & ->); [|apply default_limits_ok|by rewrite js_wf_of_hail].
  rewrite as_hail_of_hail in Ha. by injection Ha as <-.
Qed.

Lemma encodePayload_valid t v : hail_fits DEFAULT_HAIL_RESOURCE_LIMITS v ->
  validatePayload t (of_hail v) = Ok v ->
  encodePayload t (of_hail v) DEFAULT_HAIL_RESOURCE_LIMITS = Ok (encode_item (item_of_hail v)).
Proof.
  intros Hf Hv. unfold encodePayload. rewrite Hv. cbn [mbind result_bind].
  apply encode_Ok; [apply default_limits_ok|rewrite js_wf_of_hail; apply Hf|].
  exists v. auto using as_hail_of_hail, narrow_of_hail.
Qed.

(** An inspected payload encodes to the bytes it was read from. *)
Lemma inspected_reencodes t rep object : t <> connection_control ->
  inspectSignedPayload t rep = Ok object ->
  encodePayload (Signed t) (of_hail (payload object)) DEFAULT_HAIL_RESOURCE_LIMITS = Ok (payloadBytes object).
Proof.
  intros Ht (p & Hp & Ho)%bind_Ok. apply Ok_eq in Ho as <-. apply parse_Ok in Hp as [].
  cbn [inspectedResult payload payloadBytes]. rewrite parsed_bytes, <- structuredClone_item.
  assert (Hw : hail_wf (parsed_payload p) = true) by apply parsed_fits.
  pose proof (validatePayload_narrows (Signed t) _ _ ltac:(by rewrite js_wf_of_hail) parsed_valid) as (_ & Hf & _).
  apply encodePayload_valid; [by apply structuredClone_fits|].
  eapply validatePayload_same; [apply structuredClone_same|by apply structuredClone_fits| |exact parsed_valid].
  intros [=]; congruence.
Qed.

(** A signed status, as the other provider inspects it. *)
Lemma signed_status_reads row v signer cose object p bs :
  status_payload row = Ok v -> signPayload delivery_status (of_hail v) signer = Ok cose ->
  inspectSignedPayload delivery_status cose = Ok object ->
  typed (Signed delivery_status) (payload object) = Ok p ->
  encodePayload (Signed delivery_status) (of_hail v) DEFAULT_HAIL_RESOURCE_LIMITS = Ok bs ->
  reads_as row p /\ payloadBytes object = bs.
Proof.
  intros Hv Hs Hi Hp Hb. pose proof (status_wf _ _ Hv) as Hw. apply encodePayload_bytes in Hb as ->; [|done].
  apply sign_Ok in Hs as (u & s & Ha & Hf & Hval & Hk & Hl & _ & -> & Hlim); [|by rewrite js_wf_of_hail].
  rewrite as_hail_of_hail in Ha. injection Ha as <-.
  unfold inspectSignedPayload in Hi. rewrite parse_build in Hi by done.
  cbn [mbind result_bind] in Hi. apply Ok_eq in Hi as <-. split; [|done].
  unfold typed in Hp. cbn [inspectedResult payload parsed_of parsed_payload as_payload] in Hp.
  destruct (as_HailDeliveryStatus _) as [q|] eqn:Hq; [|discriminate Hp]. apply Ok_eq in Hp as <-.
  eapply status_reads; [exact Hv| |exact Hq].
  eapply same_trans; [by apply same_canonical|apply structuredClone_same].
Qed.

(** The cancellation of a closed account has a reason the protocol does not know, so its status is
    never encoded and never signed. *)
Lemma closed_status_unsignable row v : w_state (st_work row) = cancelled ->
  w_reason (st_work row) = Some AccountClosed -> status_payload row = Ok v ->
  exists e, encodePayload (Signed delivery_status) (of_hail v) DEFAULT_HAIL_RESOURCE_LIMITS = Err e.
Proof.
  intros Hs Hr Hv. destruct (encodePayload _ _ _) as [b|e] eqn:Hb; [|by exists e]. exfalso.
  apply bind_Ok in Hb as (w & Hw & _). pose proof (validatePayload_same_value _ _ _ Hw) as ->.
  apply validatePayload_sound in Hw as [_ [p Hp]]; [|done].
  apply status_payload_Ok in Hv as [retry ->]. cbn [as_payload] in Hp. unfold as_HailDeliveryStatus in Hp.
  repeat (apply bind_Some in Hp as (? & ? & Hp)).
  match goal with Hv : as_status_variant ?r = Some _, Hm : as_record _ = Some ?r |- _ =>
    injection Hm as <-; unfold as_status_variant in Hv end.
  unfold status_members, reason_value in *. rewrite Hs, Hr in *.
  match goal with Hv : _ = Some ?x |- _ => match type of x with delivery_status_variant => rename Hv into Hvar end end.
  cbn in Hvar. discriminate Hvar.
Qed.
End signed.
