(* ===== verification/StatusSystem.v ===== *)
(** * Two providers and their statuses

    The provider of the recipient runs ([System.v]), reads rows to sign at any time and keeps the
    payloads it signed; the provider of the sender receives any signed status any number of times and
    in any order.  Only the signer writes the kept payloads, and only the receiver the record of the
    sent statuses. *)

From S2P Require Import Prelude JsString Value Cbor Profiles Validation ValidatePayload Models.
From S2P Require Import Cose Database Typed ServerBodies Conversations Envelopes Delivery Receiver.
From S2P Require Import DeliveryRules System Safety Status StatusRules.
From Stdlib Require Import ZArith.
Open Scope Z_scope.

Record federation := {
  recipient : world;
  observed : list StatusRow;      (** the rows read by the signers *)
  sender : Database;
}.

(** The payload of a row and its encoding, when there is one. *)
Definition announces `{HailEnv} `{Cborg} (row : StatusRow) (v : hvalue) (bs : bytes) : Prop :=
  status_payload row = Ok v /\
  encodePayload (Signed delivery_status) (of_hail v) DEFAULT_HAIL_RESOURCE_LIMITS = Ok bs.

Section federation.
Context `{HailEnv} `{CborgSpec} `{Keys}.
Context `{ConnectionFunctions} `{Triggers} `{AccountFences} `{Calendar} `{EnvelopeAuthority}.
Context (limits : EnvelopeAdmissionLimits).
#[local] Set Default Proof Using "All".

Inductive fed_step : federation -> federation -> Prop :=
| fed_provider f w :
    step limits (recipient f) w ->
    db w delivery_status_payloads = db (recipient f) delivery_status_payloads ->
    fed_step f {| recipient := w; observed := observed f; sender := sender f |}
| fed_read f key row :
    status_row_of key (db (recipient f)) = Some row ->
    fed_step f {| recipient := recipient f; observed := row :: observed f; sender := sender f |}
| fed_keep f env row v bs public_key cose :
    In row (observed f) -> announces row v bs ->
    fed_step f {|
      recipient := {|
        db := (begin (keep_status env (row_key row) (announced_revision row) public_key bs cose)
                 (db (recipient f))).2;
        issued := issued (recipient f) |};
      observed := observed f; sender := sender f |}
| fed_receive f row v bs signer cose object p public_key :
    In row (observed f) -> announces row v bs ->
    signPayload delivery_status (of_hail v) signer = Ok cose ->
    inspectSignedPayload delivery_status cose = Ok object ->
    typed (Signed delivery_status) (payload object) = Ok p ->
    fed_step f {| recipient := recipient f; observed := observed f;
      sender := (begin (apply_status (payload object) p (payloadBytes object) cose public_key)
                   (sender f)).2 |}
| fed_sender f db' :
    db' sent_delivery_status = sender f sent_delivery_status ->
    fed_step f {| recipient := recipient f; observed := observed f; sender := db' |}.

Definition fed_initial (f : federation) : Prop :=
  reachable limits (recipient f) /\ db (recipient f) delivery_status_payloads = ∅ /\
  observed f = [] /\ sender f sent_delivery_status = ∅.

Definition fed_reachable (f : federation) : Prop := exists f0, fed_initial f0 /\ rtc fed_step f0 f.

(** ** The invariant *)

(** A row as it was read in the past of a database. *)
Record past_row (db : Database) (row : StatusRow) : Prop := {
  pr_received : db received_envelopes !! row_key row = Some (st_received row);
  pr_accepted : r_accepted_at (st_received row) = Some (st_accepted_at row);
  pr_shape : work_shape (st_work row);
  pr_status : rtc status_step (Some (status_row (st_work row))) (status_of (row_key row) db);
}.

(** Of two statuses of one message, one came from the other. *)
Definition ordered (row row' : StatusRow) : Prop :=
  row_key row = row_key row' ->
  rtc status_step (Some (status_row (st_work row))) (Some (status_row (st_work row'))) \/
  rtc status_step (Some (status_row (st_work row'))) (Some (status_row (st_work row))).

(** A stored payload is that of a row that was read. *)
Definition announced (f : federation) (k : msg_key) (n : Z) (s : HailDeliveryState) (bs : bytes) : Prop :=
  exists row v, In row (observed f) /\ row_key row = k /\ announced_revision row = n /\
    w_state (st_work row) = s /\ announces row v bs.

Record fed_invariant (f : federation) : Prop := {
  fi_reachable : reachable limits (recipient f);
  fi_past row : In row (observed f) -> past_row (db (recipient f)) row;
  fi_ordered row row' : In row (observed f) -> In row' (observed f) -> ordered row row';
  fi_kept k n bs : db (recipient f) delivery_status_payloads !! (k, n) = Some bs ->
    exists s, announced f k n s bs;
  fi_sender k ss : sender f sent_delivery_status !! k = Some ss ->
    announced f k (ss_current_revision ss) (ss_current_state ss) (ss_payload_bytes ss);
}.

Lemma steps_known o o' s r n t : rtc status_step o o' -> o = Some (s, r, n, t) ->
  exists s' r' n' t', o' = Some (s', r', n', t') /\
    ((s', r', n', t') = (s, r, n, t) \/ n < n' /\ ended s = false).
Proof.
  intros Hs. revert s r n t. induction Hs as [o|o o1 o' Hstep _ IH]; intros s r n t ->.
  { eexists _, _, _, _. eauto. }
  destruct (evolves_known _ _ _ _ _ _ (or_intror Hstep) eq_refl) as (s1 & r1 & n1 & t1 & -> & Hn).
  destruct (IH _ _ _ _ eq_refl) as (s2 & r2 & n2 & t2 & -> & Hn').
  eexists _, _, _, _. split; [reflexivity|]. destruct Hn as [[= -> -> -> ->]|[]]; [done|].
  destruct Hn' as [[= -> -> -> ->]|[]]; right; (split; [lia|done]).
Qed.

(** The revision tells statuses of one message apart. *)
Lemma ordered_equal row row' : row_key row = row_key row' -> ordered row row' ->
  w_status_revision (st_work row) = w_status_revision (st_work row') ->
  status_row (st_work row) = status_row (st_work row').
Proof.
  intros Hk Ho Hr. destruct (Ho Hk) as [Hs|Hs];
    destruct (steps_known _ _ _ _ _ _ Hs eq_refl) as (s & r & n & t & [= <- <- <- <-] & [He|[]]); try lia;
    unfold status_row; congruence.
Qed.
(** What ended is not followed by another revision. *)
Lemma ordered_ended row row' : row_key row = row_key row' -> ordered row row' ->
  w_status_revision (st_work row) < w_status_revision (st_work row') -> ended (w_state (st_work row)) = false.
Proof.
  intros Hk Ho Hr. destruct (Ho Hk) as [Hs|Hs];
    destruct (steps_known _ _ _ _ _ _ Hs eq_refl) as (s & r & n & t & [= <- <- <- <-] & [He|[]]); try lia; try done;
    injection He; lia.
Qed.

Lemma announces_unique row v v' bs bs' : announces row v bs -> announces row v' bs' -> bs = bs'.
Proof. intros [Hv Hb] [Hv' Hb']. rewrite Hv in Hv'. apply Ok_eq in Hv' as <-. rewrite Hb in Hb'. by apply Ok_eq in Hb'. Qed.

(** Two rows of one message and revision announce the same payload. *)
Lemma same_payload f row row' v v' bs bs' : fed_invariant f ->
  In row (observed f) -> In row' (observed f) -> row_key row = row_key row' ->
  announced_revision row = announced_revision row' ->
  announces row v bs -> announces row' v' bs' -> bs = bs' /\ w_state (st_work row) = w_state (st_work row').
Proof.
  intros [_ Hpast Hord _ _] Hi Hi' Hk Hr Ha Ha'. pose proof (Hpast _ Hi) as [Hrec Hacc Hsh _].
  pose proof (Hpast _ Hi') as [Hrec' Hacc' Hsh' _]. rewrite <- Hk, Hrec in Hrec'. injection Hrec' as Hrec'.
  rewrite !announced_of_shape in Hr by done.
  pose proof (ordered_equal _ _ Hk (Hord _ _ Hi Hi') Hr) as Hst.
  assert (Hp : status_payload row = status_payload row')
    by (apply status_payload_row; [done|done|congruence|done]).
  split; [|by injection Hst]. destruct Ha as [Hv Hb], Ha' as [Hv' Hb']. rewrite Hp, Hv' in Hv.
  apply Ok_eq in Hv as <-. rewrite Hb in Hb'. by apply Ok_eq in Hb'.
Qed.

(** ** Preservation *)

Lemma past_row_ext (db db' : Database) row :
  (forall r, db received_envelopes !! row_key row = Some r -> db' received_envelopes !! row_key row = Some r) ->
  rtc status_step (status_of (row_key row) db) (status_of (row_key row) db') ->
  past_row db row -> past_row db' row.
Proof. intros Hr Hs [H1' H2' H3' H4']. split; eauto. by etrans. Qed.

Lemma past_row_others (db db' : Database) row : others db db' -> past_row db row -> past_row db' row.
Proof.
  intros [Hu _]. apply past_row_ext.
  - intros r. by rewrite Hu by set_solver.
  - unfold status_of. by rewrite (Hu delivery_work) by set_solver.
Qed.

Lemma read_past key row w : reachable limits w -> status_row_of key (db w) = Some row ->
  past_row (db w) row /\ status_of (row_key row) (db w) = Some (status_row (st_work row)).
Proof.
  intros Hreach Hrow. apply reachable_invariant in Hreach as [[_ Hwork _ _ _] _ _].
  unfold status_row_of in Hrow. apply bind_Some in Hrow as (r & Hr & Hrow).
  apply bind_Some in Hrow as (work & Hw & Hrow). destruct (r_outcome r); try discriminate Hrow.
  destruct (r_accepted_at r) as [at_|] eqn:Hat; [|discriminate Hrow]. injection Hrow as <-.
  assert (Hs : status_of key (db w) = Some (status_row work)) by (unfold status_of; tables; by rewrite Hw).
  unfold row_key. cbn. rewrite <- surjective_pairing. split; [|done]. apply Hwork in Hw as [Hsh _].
  split; unfold row_key; cbn; rewrite <- ?surjective_pairing; try done. by rewrite Hs.
Qed.

Lemma announced_mono f f' k n s bs : (forall row, In row (observed f) -> In row (observed f')) ->
  announced f k n s bs -> announced f' k n s bs.
Proof. intros Hi (row & v & Hrow & Hrest). exists row, v. auto. Qed.

Lemma apply_status_Ok value p bs cose public_key (db db' : Database) o :
  apply_status value p bs cose public_key db = Ok (o, db') ->
  db' = db \/ o = StatusAcknowledged /\
    db' sent_delivery_status = <[ds_key p := next_status (db sent_delivery_status !! ds_key p) p bs cose public_key]>
      (db sent_delivery_status).
Proof.
  intros Ha. unfold apply_status in Ha. tx. destruct (negb (sent_matches _ _)); [tx; by left|]. tx.
  destruct (status_verdict _ _ _); [tx; by left|]. tx. destruct (negb _); [tx; by left|]. tx.
  right. by rewrite set_eq.
Qed.

Lemma fed_initial_invariant f : fed_initial f -> fed_invariant f.
Proof.
  intros (Hr & Hp & Ho & Hs). split; [done|..].
  - by rewrite Ho.
  - by rewrite Ho.
  - intros k n bs. rewrite Hp. tables. by rewrite lookup_empty.
  - intros k ss. rewrite Hs. tables. by rewrite lookup_empty.
Qed.

Lemma fed_step_invariant f f' : fed_step f f' -> fed_invariant f -> fed_invariant f'.
Proof.
  intros Hstep Hinv. pose proof Hinv as [Hreach Hpast Hord Hkept Hsend].
  destruct Hstep as [f w Hw Hp|f key row Hrow|f env row v bs pk cose Hin Ha|f row v bs signer cose object p pk Hin Ha Hsig Hi Ht|f db' Hdb];
    cbn in *.
  - split; cbn; try done; [by eapply reachable_step| |by rewrite Hp].
    intros row Hin. eapply past_row_ext; [| |by apply Hpast].
    + intros r. by eapply step_received.
    + destruct (step_evolves _ _ _ Hreach Hw (row_key row)) as [->|He]; [done|by apply rtc_once].
  - destruct (read_past _ _ _ Hreach Hrow) as [Hnew Hcur].
    assert (Hlast : forall row0, In row0 (observed f) -> row_key row0 = row_key row ->
      rtc status_step (Some (status_row (st_work row0))) (Some (status_row (st_work row)))).
    { intros row0 Hin0 Hk. rewrite <- Hcur, <- Hk. by apply Hpast. }
    split; cbn; [done| | |intros k n bs Hk; destruct (Hkept k n bs Hk) as [s Hs]; exists s|intros k ss Hk];
      try (eapply announced_mono; [|eauto]; cbn; by auto).
    + intros row0 [<-|Hin0]; auto.
    + intros row1 row2 [<-|H1'] [<-|H2'] Hk; [by left|right|left|by apply Hord]; by apply Hlast.
  - set (db' := (begin (keep_status env (row_key row) (announced_revision row) pk bs cose) (db (recipient f))).2).
    assert (Ho : others (db (recipient f)) db').
    { split; [|unfold db'; intros k; by rewrite keep_unchanged].
      intros t Ht. apply keep_unchanged; intros ->; set_solver. }
    split; cbn; [| |done| |done].
    + eapply reachable_step; [exact Hreach|]. by apply step_other.
    + intros row0 Hin0. by eapply past_row_others, Hpast.
    + intros k n bs'. unfold db'.
      apply (begin_preserves (fun db' => db' delivery_status_payloads !! (k, n) = Some bs' -> exists s,
        announced _ k n s bs')); [apply Hkept|].
      intros u db2 [Hk _]%keep_Ok [Hold|[[= -> ->] ->]]%Hk; [by apply Hkept|].
      exists (w_state (st_work row)), row, v. auto.
  - split; cbn; try done. intros k ss.
    destruct (signed_status_reads _ _ _ _ _ _ _ (proj1 Ha) Hsig Hi Ht (proj2 Ha)) as [[Hrev Hst Hkey _] ->].
    apply (begin_preserves (fun db' => db' sent_delivery_status !! k = Some ss -> announced _ k
      (ss_current_revision ss) (ss_current_state ss) (ss_payload_bytes ss))); [apply Hsend|].
    intros o db2 [->|[_ ->]]%apply_status_Ok; [apply Hsend|]. intros [[-> ->]|[_ Hk]]%insert_cases; [|by apply Hsend].
    exists row, v. cbn. rewrite Hkey. auto.
  - split; cbn; try done. rewrite Hdb. exact Hsend.
Qed.

Lemma fed_reachable_invariant f : fed_reachable f -> fed_invariant f.
Proof.
  intros (f0 & Hinit & Hsteps). apply fed_initial_invariant in Hinit.
  induction Hsteps as [f|f0 f1 f2 Hstep _ IH]; [done|]. by eapply IH, fed_step_invariant.
Qed.

(** ** What the providers know of each other *)

(** The signer never contradicts itself: whenever a row that was read at any time is signed, the
    payload the database keeps for its revision, if there is one, is the row's own payload; so the
    check for a conflicting persisted payload never fires, whatever key signs and however late. *)
Theorem status_never_contradicted f row v bs stored :
  fed_reachable f -> In row (observed f) -> announces row v bs ->
  db (recipient f) delivery_status_payloads !! (row_key row, announced_revision row) = Some stored ->
  stored = bs.
Proof.
  intros Hf%fed_reachable_invariant Hin Ha (s & row' & v' & Hin' & Hk & Hr & _ & Ha')%(fi_kept _ Hf).
  by destruct (same_payload f row' row v' v stored bs).
Qed.

(** C18: What the sender's provider records of a message is a status its recipient's provider has gone
    through: the recipient's current status was reached from the recorded state and revision, so the
    recorded revision is never ahead, an equal revision means the same state, and a recorded end is
    the recipient's current status. *)
Theorem sender_follows_recipient f k ss :
  fed_reachable f -> sender f sent_delivery_status !! k = Some ss ->
  (exists reason t, rtc status_step
     (Some (ss_current_state ss, reason, ss_current_revision ss, t)) (status_of k (db (recipient f)))) /\
  exists s r n t, status_of k (db (recipient f)) = Some (s, r, n, t) /\ ss_current_revision ss <= n /\
    (n = ss_current_revision ss \/ ended (ss_current_state ss) = true ->
     s = ss_current_state ss /\ n = ss_current_revision ss).
Proof.
  intros Hf%fed_reachable_invariant (row & v & Hin & <- & Hr & Hs & _)%(fi_sender _ Hf).
  destruct (fi_past _ Hf _ Hin) as [_ _ Hsh Hst]. rewrite announced_of_shape in Hr by done.
  split.
  - exists (w_reason (st_work row)), (w_next_attempt_at (st_work row), w_transitioned_at (st_work row)).
    rewrite <- Hs, <- Hr. exact Hst.
  - destruct (steps_known _ _ _ _ _ _ Hst eq_refl) as (s & r & n & t & -> & Hn).
    exists s, r, n, t. split; [done|]. rewrite <- Hs, <- Hr. destruct Hn as [[= -> -> -> ->]|[? He]].
    + split; [lia|done].
    + split; [lia|]. intros [?|?]; [lia|congruence].
Qed.

(** What receiving a status amounts to. *)
Lemma apply_status_eq row v bs signer cose object p public_key db :
  announces row v bs -> signPayload delivery_status (of_hail v) signer = Ok cose ->
  inspectSignedPayload delivery_status cose = Ok object ->
  typed (Signed delivery_status) (payload object) = Ok p ->
  apply_status (payload object) p (payloadBytes object) cose public_key db =
  (if negb (sent_matches p (db sent_envelopes !! row_key row)) then Ok (StatusUnknown, db)
   else match status_verdict (db sent_delivery_status !! row_key row) p bs with
        | Some o => Ok (o, db)
        | None => (_ ← write sent_delivery_status
                     <[row_key row := next_status (db sent_delivery_status !! row_key row) p bs cose public_key]>;
                   mret StatusAcknowledged) db
        end).
Proof.
  intros [Hv Hb] Hs Hi Ht. destruct (signed_status_reads _ _ _ _ _ _ _ Hv Hs Hi Ht Hb) as [[_ _ <- _] Hbs].
  apply inspected_reencodes in Hi; [|done]. rewrite Hbs in *. unfold apply_status.
  unfold mbind at 1, Tx_bind at 1, query at 1. destruct (negb (sent_matches _ _)); [done|].
  unfold mbind at 1, Tx_bind at 1, query at 1. destruct (status_verdict _ _ _); [done|].
  unfold mbind at 1, Tx_bind at 1. unfold throwing. rewrite Hi. by rewrite (proj2 (Cbor.equalBytes_eq _ _) eq_refl).
Qed.

(** The verdict on a status that was announced, given what an announced status recorded. *)
Lemma announced_verdict f row v bs p ss : fed_invariant f -> In row (observed f) -> announces row v bs ->
  reads_as row p -> sender f sent_delivery_status !! row_key row = Some ss ->
  status_verdict (Some ss) p bs = Some StatusAcknowledged /\ announced_revision row <= ss_current_revision ss \/
  status_verdict (Some ss) p bs = None /\ ss_current_revision ss < announced_revision row.
Proof.
  intros Hf Hin Ha [Hr Hs Hk _] (row' & v' & Hin' & Hk' & Hr' & Hs' & Ha')%(fi_sender _ Hf).
  unfold status_verdict. rewrite Hr, Hs, <- Hr', <- Hs'.
  destruct (Z.ltb_spec (announced_revision row) (announced_revision row')) as [Hlt|Hle]; [left; split; [done|lia]|].
  destruct (Z.eqb_spec (announced_revision row) (announced_revision row')) as [Heq|Hne].
  { destruct (same_payload f row' row v' v _ _ Hf Hin' Hin Hk' (eq_sym Heq) Ha' Ha) as [-> _].
    rewrite bool_decide_eq_true_2 by done. left. split; [done|lia]. }
  right. split; [|lia].
  pose proof (fi_past _ Hf _ Hin) as [_ _ Hsh _]. pose proof (fi_past _ Hf _ Hin') as [_ _ Hsh' _].
  assert (Hend : ended (w_state (st_work row')) = false).
  { eapply (ordered_ended row' row); [done|by apply (fi_ordered _ Hf)|].
    rewrite !announced_of_shape in Hle, Hne by done. lia. }
  assert (Hacc : w_state (st_work row) <> accepted).
  { intros Hw. assert (H1' : announced_revision row = 1) by (unfold announced_revision; by rewrite Hw).
    pose proof (proj1 Hsh'). rewrite <- announced_of_shape in * by done. lia. }
  replace (terminal_status (w_state (st_work row'))) with false by (by destruct (w_state (st_work row'))).
  rewrite bool_decide_eq_false_2 by done. cbn. by rewrite (proj2 (Z.leb_gt _ _)) by lia.
Qed.

(** Statuses are understood in any order: whichever status of the recipient's history arrives at
    the sender's provider, late, twice or after gaps, it is never malformed and never conflicts,
    unless it is a hold and nothing was recorded before; an acknowledged status leaves a record at
    least as recent, and every other answer leaves the record alone. *)
Theorem status_received_in_any_order f row v bs signer cose object p public_key o db' :
  fed_reachable f -> In row (observed f) -> announces row v bs ->
  signPayload delivery_status (of_hail v) signer = Ok cose ->
  inspectSignedPayload delivery_status cose = Ok object ->
  typed (Signed delivery_status) (payload object) = Ok p ->
  apply_status (payload object) p (payloadBytes object) cose public_key (sender f) = Ok (o, db') ->
  match o with
  | StatusAcknowledged => exists ss, db' sent_delivery_status !! row_key row = Some ss /\
      announced_revision row <= ss_current_revision ss
  | StatusUnknown => sent_matches p (sender f sent_envelopes !! row_key row) = false /\ db' = sender f
  | StatusConflict => w_state (st_work row) = on_hold /\ db' = sender f /\
      sender f sent_delivery_status !! row_key row = None
  | StatusBadRequest => False
  end.
Proof.
  intros Hf%fed_reachable_invariant Hin Ha Hs Hi Ht. rewrite (apply_status_eq row v bs signer) by done.
  destruct (signed_status_reads _ _ _ _ _ _ _ (proj1 Ha) Hs Hi Ht (proj2 Ha)) as [Hreads _].
  destruct (sent_matches _ _); cbn [negb]; [|by intros [= <- <-]].
  assert (Hwrote : forall current, (_ ← write sent_delivery_status
      <[row_key row := next_status current p bs cose public_key]>; mret StatusAcknowledged) (sender f) = Ok (o, db') ->
    o = StatusAcknowledged /\ exists ss, db' sent_delivery_status !! row_key row = Some ss /\
      announced_revision row <= ss_current_revision ss).
  { intros current Hw. tx. split; [done|]. eexists. rewrite set_eq. tables. rewrite insert_same.
    split; [done|]. cbn. rewrite (ra_revision _ _ Hreads). lia. }
  destruct (sender f sent_delivery_status !! row_key row) as [ss|] eqn:Hss.
  - destruct (announced_verdict f row v bs p ss Hf Hin Ha Hreads Hss) as [[-> Hle]|[-> _]].
    + intros [= <- <-]. exists ss. by split.
    + by intros [-> ?]%Hwrote.
  - destruct (status_verdict None p bs) as [verdict|] eqn:Hv; [|by intros [-> ?]%Hwrote].
    unfold status_verdict in Hv. rewrite (ra_state _ _ Hreads) in Hv. intros [= <- <-].
    destruct (w_state (st_work row)) eqn:Hw; try discriminate Hv. by injection Hv as <-.
Qed.
End federation.
