(* ===== verification/StatusScenario.v ===== *)
(** * Two providers exchange statuses

    The run of [Scenario.v], with the provider of the answer's sender: the provider of the recipient
    signs the final status and keeps its payload; the sender's provider records it, and then hears
    late that the answer was accepted. *)

From S2P Require Import Prelude JsString Value Rfc8949 Cbor Profiles Validation ValidatePayload Models.
From S2P Require Import ValidationRules Roundtrip Cose CoseRules WebCrypto Database Typed.
From S2P Require Import ServerBodies Conversations Envelopes Delivery Receiver DeliveryRules System.
From S2P Require Import Safety Scenario Status StatusRules StatusSystem.
From Stdlib Require Import ZArith.
Open Scope Z_scope.

#[local] Existing Instance example_env.
#[local] Existing Instance Reference.cborg.
#[local] Existing Instance Reference.cborg_spec.
#[local] Existing Instance example_keys.
#[local] Existing Instance example_connections.
#[local] Existing Instance example_triggers.
#[local] Existing Instance example_fences.
#[local] Existing Instance example_calendar.
#[local] Existing Instance example_authority.

Definition status_signer : HailSigner := {|
  signer_keyId := alice ++ js "#hail-messaging"; sign := fun b => Ok (JBytes (take 64 b)) |}.

Definition row_answered : StatusRow := ltac:(
  let r := eval vm_compute in (status_row_of answer_key (db w_answered)) in
  match r with Some ?row => exact row end).
Definition row_delivered : StatusRow := ltac:(
  let r := eval vm_compute in (status_row_of answer_key (db w_delivered)) in
  match r with Some ?row => exact row end).

(** The payload, its bytes, its signed form, and what the other provider reads in it. *)
Notation value_of row := ltac:(
  let r := eval vm_compute in (status_payload row) in match r with Ok ?v => exact v end) (only parsing).
Definition value_answered : hvalue := value_of row_answered.
Definition value_delivered : hvalue := value_of row_delivered.
Definition cose_of (v : hvalue) : bytes :=
  match signPayload delivery_status (of_hail v) status_signer with Ok cose => cose | Err _ => [] end.
Definition bytes_of_value (v : hvalue) : bytes := encode_item (item_of_hail v).
Notation object_of v := ltac:(
  let r := eval vm_compute in (inspectSignedPayload delivery_status (cose_of v)) in
  match r with Ok ?o => exact o end) (only parsing).
Definition object_answered : InspectedHailObject hvalue := object_of value_answered.
Definition object_delivered : InspectedHailObject hvalue := object_of value_delivered.
Notation status_of_object o := ltac:(
  let r := eval vm_compute in (typed (Signed delivery_status) (payload o)) in
  match r with Ok ?p => exact p end) (only parsing).
Definition status_answered : HailDeliveryStatus := status_of_object object_answered.
Definition status_delivered' : HailDeliveryStatus := status_of_object object_delivered.

(** Bob's provider has sent the answer. *)
Definition bobs_provider : Database :=
  set sent_envelopes {[answer_key := {|
    s_recipient_did := alice; s_authorization := AuthorizedByReply (uuid "1");
    s_envelope_cose := answer_cose; s_envelope_digest := sha256 (payloadBytes answer_object);
    s_body_digest := repeat x00 32; s_sender_account_id := js "account-b";
    s_conversation_message_id := None |}]} no_rows.

Definition an_env : signer_env := {|
  sg_getKey := fun _ role => Ok {| k_role := role; k_algorithm := js "ed25519"; k_publicKey := js "did:key:z6Mk" |};
  sg_resolve := fun _ => Err (OtherError []); sg_decrypt := fun _ _ => Ok []; sg_import := fun _ => Err (OtherError []);
  sg_serviceBase := js "https://a.example"; sg_retain := fun _ => Ok tt; sg_others := fun _ db => db |}.

Definition at_recipient (w : world) (rows : list StatusRow) : federation :=
  {| recipient := w; observed := rows; sender := bobs_provider |}.
Definition w_signed : world := {|
  db := (begin (keep_status an_env (row_key row_delivered) (announced_revision row_delivered) (js "did:key:z6Mk") (bytes_of_value value_delivered)
    (cose_of value_delivered)) (db w_delivered)).2;
  issued := issued w_delivered |}.
Definition both : list StatusRow := [row_delivered; row_answered].
Definition bob_informed : Database :=
  (begin (apply_status (payload object_delivered) status_delivered' (payloadBytes object_delivered)
     (cose_of value_delivered) (js "did:key:z6Mk")) bobs_provider).2.
Definition informed : federation := {| recipient := w_signed; observed := both; sender := bob_informed |}.

Lemma answered_announces : announces row_answered value_answered (bytes_of_value value_answered).
Proof. split; vm_compute; reflexivity. Qed.
Lemma delivered_announces : announces row_delivered value_delivered (bytes_of_value value_delivered).
Proof. split; vm_compute; reflexivity. Qed.

Notation fed_reaches := (fed_reachable ENVELOPE_ADMISSION).
Lemma fed_more f f' : fed_reaches f -> fed_step ENVELOPE_ADMISSION f f' -> fed_reaches f'.
Proof. intros (f0 & Hi & Hs) Hf. exists f0. split; [done|]. by eapply rtc_r. Qed.

Lemma read_answered : fed_step ENVELOPE_ADMISSION (at_recipient w_answered []) (at_recipient w_answered [row_answered]).
Proof.
  apply (fed_read _ (at_recipient w_answered []) answer_key row_answered). vm_compute. reflexivity.
Qed.
Lemma provider_claimed :
  fed_step ENVELOPE_ADMISSION (at_recipient w_answered [row_answered]) (at_recipient w_claimed [row_answered]).
Proof.
  apply (fed_provider _ (at_recipient w_answered [row_answered]) w_claimed step_claimed). vm_compute. reflexivity.
Qed.
Lemma provider_delivered :
  fed_step ENVELOPE_ADMISSION (at_recipient w_claimed [row_answered]) (at_recipient w_delivered [row_answered]).
Proof.
  apply (fed_provider _ (at_recipient w_claimed [row_answered]) w_delivered step_delivered). vm_compute. reflexivity.
Qed.
Lemma read_delivered :
  fed_step ENVELOPE_ADMISSION (at_recipient w_delivered [row_answered]) (at_recipient w_delivered both).
Proof.
  apply (fed_read _ (at_recipient w_delivered [row_answered]) answer_key row_delivered). vm_compute. reflexivity.
Qed.
Lemma keep_delivered :
  fed_step ENVELOPE_ADMISSION (at_recipient w_delivered both) (at_recipient w_signed both).
Proof.
  apply (fed_keep _ (at_recipient w_delivered both) an_env row_delivered value_delivered).
  - by left.
  - apply delivered_announces.
Qed.

Lemma signed_reachable : fed_reaches (at_recipient w_signed both).
Proof.
  eapply fed_more; [|apply keep_delivered]. eapply fed_more; [|apply read_delivered].
  eapply fed_more; [|apply provider_delivered]. eapply fed_more; [|apply provider_claimed].
  eapply fed_more; [|apply read_answered].
  exists (at_recipient w_answered []). split; [|apply rtc_refl].
  split; [apply answered_reachable|]. by split; [vm_compute|].
Qed.

Lemma informed_reachable : fed_reaches informed.
Proof.
  eapply fed_more; [apply signed_reachable|].
  apply (fed_receive _ (at_recipient w_signed both) row_delivered value_delivered (bytes_of_value value_delivered)
    status_signer (cose_of value_delivered) object_delivered status_delivered' (js "did:key:z6Mk")).
  - by left.
  - apply delivered_announces.
  - vm_compute. reflexivity.
  - vm_compute. reflexivity.
  - vm_compute. reflexivity.
Qed.

(** ** The theorems apply *)

Lemma status_never_contradicted_witness : exists stored,
  db w_signed delivery_status_payloads !! (answer_key, 2) = Some stored /\ stored = bytes_of_value value_delivered.
Proof.
  assert (Hs : exists stored, db w_signed delivery_status_payloads !! (answer_key, 2) = Some stored)
    by (eexists; vm_compute; reflexivity).
  destruct Hs as [stored Hs]. exists stored. split; [exact Hs|].
  apply (status_never_contradicted ENVELOPE_ADMISSION (at_recipient w_signed both) row_delivered value_delivered).
  - apply signed_reachable.
  - by left.
  - apply delivered_announces.
  - exact Hs.
Defined.

Lemma sender_follows_recipient_witness : exists ss,
  sender informed sent_delivery_status !! answer_key = Some ss /\ ss_current_state ss = delivered /\
  exists s r n t, status_of answer_key (db w_signed) = Some (s, r, n, t) /\ ss_current_revision ss <= n /\
    (n = ss_current_revision ss \/ ended (ss_current_state ss) = true ->
     s = ss_current_state ss /\ n = ss_current_revision ss).
Proof.
  assert (Hs : exists ss, sender informed sent_delivery_status !! answer_key = Some ss /\ ss_current_state ss = delivered)
    by (eexists; split; vm_compute; reflexivity).
  destruct Hs as (ss & Hs & Hst). exists ss. split; [exact Hs|]. split; [exact Hst|].
  destruct (sender_follows_recipient ENVELOPE_ADMISSION informed answer_key ss) as [_ Hn];
    [apply informed_reachable|exact Hs|exact Hn].
Defined.

Lemma status_received_in_any_order_witness : exists db',
  apply_status (payload object_answered) status_answered (payloadBytes object_answered)
    (cose_of value_answered) (js "did:key:z6Mk") bob_informed = Ok (StatusAcknowledged, db') /\
  exists ss, db' sent_delivery_status !! answer_key = Some ss /\ 1 <= ss_current_revision ss.
Proof.
  assert (Ho : exists db', apply_status (payload object_answered) status_answered (payloadBytes object_answered)
    (cose_of value_answered) (js "did:key:z6Mk") bob_informed = Ok (StatusAcknowledged, db')).
  { eexists. apply result_of_Ok. vm_compute. reflexivity. }
  destruct Ho as [db' Ho]. exists db'. split; [exact Ho|].
  apply (status_received_in_any_order ENVELOPE_ADMISSION informed row_answered value_answered
    (bytes_of_value value_answered) status_signer (cose_of value_answered) object_answered status_answered
    (js "did:key:z6Mk") StatusAcknowledged db').
  - apply informed_reachable.
  - right. by left.
  - apply answered_announces.
  - vm_compute. reflexivity.
  - vm_compute. reflexivity.
  - vm_compute. reflexivity.
  - exact Ho.
Defined.
