(* ===== verification/RateLimit.v ===== *)
(** * Limits on requests (apps/server/src/http/rate-limit.ts)

    A window of a minute per client, for a bounded number of clients: when a new client needs a
    place, the oldest one loses its window. *)

From S2P Require Import Prelude JsString Database.
From Stdlib Require Import ZArith.
Open Scope Z_scope.

Record bucket := { started : Z; count : Z }.

(** A JavaScript [Map]: the entries in the order of their insertion. *)
Notation buckets := (list (jstr * bucket)).

Definition bucket_of (key : jstr) (m : buckets) : option bucket :=
  snd <$> List.find (fun e => jstr_eqb e.1 key) m.

(** [Map.set]: an existing key keeps its place. *)
Fixpoint set_bucket (key : jstr) (b : bucket) (m : buckets) : buckets :=
  match m with
  | [] => [(key, b)]
  | e :: rest => if jstr_eqb e.1 key then (key, b) :: rest else e :: set_bucket key b rest
  end.

(** [FixedWindowRateLimit.take]: [None] lets the request through; a number is the seconds to wait. *)
Definition window (maximumBuckets : Z) (key : jstr) (now : Z) (m : buckets) : bucket * buckets :=
  match bucket_of key m with
  | Some b => if 60000 <=? now - started b then ({| started := now; count := 0 |}, m) else (b, m)
  | None => ({| started := now; count := 0 |},
             if maximumBuckets <=? Z.of_nat (length m) then tail m else m)
  end.

Definition ceil_div (a b : Z) : Z := - (- a / b).

Definition take (maximumBuckets : Z) (key : jstr) (ceiling now : Z) (m : buckets) : option Z * buckets :=
  let '(b, m) := window maximumBuckets key now m in
  let b := {| started := started b; count := count b + 1 |} in
  (if count b <=? ceiling then None else Some (Z.max 1 (ceil_div (60000 - (now - started b)) 1000)),
   set_bucket key b m).

(** The results of a sequence of requests of clients at instants. *)
Fixpoint takes (maximumBuckets ceiling : Z) (calls : list (jstr * Z)) (m : buckets)
    : list (jstr * option Z) * buckets :=
  match calls with
  | [] => ([], m)
  | (key, now) :: calls =>
      let '(r, m) := take maximumBuckets key ceiling now m in
      let '(rs, m) := takes maximumBuckets ceiling calls m in
      ((key, r) :: rs, m)
  end.

Definition is_admitted (key : jstr) (r : jstr * option Z) : bool :=
  jstr_eqb r.1 key && match r.2 with None => true | Some _ => false end.
Definition admitted (key : jstr) (rs : list (jstr * option Z)) : Z :=
  Z.of_nat (length (List.filter (is_admitted key) rs)).

(** ** Maps *)

Lemma bucket_of_cons key e m :
  bucket_of key (e :: m) = if jstr_eqb e.1 key then Some e.2 else bucket_of key m.
Proof. unfold bucket_of. cbn. by destruct (jstr_eqb _ _). Qed.

Lemma bucket_set_same key b m : bucket_of key (set_bucket key b m) = Some b.
Proof.
  induction m as [|e m IH]; cbn [set_bucket].
  - rewrite bucket_of_cons. cbn. by rewrite jstr_eqb_refl.
  - destruct (jstr_eqb e.1 key) eqn:He; rewrite bucket_of_cons; [cbn; by rewrite jstr_eqb_refl|by rewrite He].
Qed.

Lemma bucket_set_other key key' b m : key <> key' -> bucket_of key' (set_bucket key b m) = bucket_of key' m.
Proof.
  intros Hne. assert (Hf : jstr_eqb key key' = false)
    by (destruct (jstr_eqb key key') eqn:E; [by apply jstr_eqb_eq in E|done]).
  induction m as [|e m IH]; cbn [set_bucket]; [by rewrite bucket_of_cons; cbn; rewrite Hf|].
  destruct (jstr_eqb e.1 key) eqn:He; rewrite !bucket_of_cons; cbn; [|by rewrite IH].
  apply jstr_eqb_eq in He as ->. by rewrite Hf.
Qed.

Lemma bucket_of_None key m : bucket_of key m = None <-> key ∉ map fst m.
Proof.
  induction m as [|e m IH]; [by split; [intros _ []%elem_of_nil|]|].
  rewrite bucket_of_cons. cbn [map]. rewrite elem_of_cons. destruct (jstr_eqb e.1 key) eqn:He.
  - apply jstr_eqb_eq in He as <-. split; [done|]. intros Hn. destruct Hn. by left.
  - rewrite IH. split; [|naive_solver]. intros Hn [->|?]; [by rewrite jstr_eqb_refl in He|done].
Qed.

Lemma set_bucket_keys key b m :
  map fst (set_bucket key b m) = if decide (key ∈ map fst m) then map fst m else map fst m ++ [key].
Proof.
  induction m as [|e m IH]; [done|]. cbn [set_bucket map].
  destruct (jstr_eqb e.1 key) eqn:He.
  - apply jstr_eqb_eq in He as <-. cbn. by rewrite decide_True by by left.
  - assert (Hne : key <> e.1) by (intros ->; by rewrite jstr_eqb_refl in He).
    cbn [map]. rewrite IH. case_decide as Hin.
    + rewrite decide_True by by right. done.
    + rewrite decide_False; [done|]. rewrite elem_of_cons. naive_solver.
Qed.

(** ** One request *)

Lemma take_eq maximumBuckets key ceiling now m :
  let '(b, m1) := window maximumBuckets key now m in
  take maximumBuckets key ceiling now m =
    (if count b + 1 <=? ceiling then None else Some (Z.max 1 (ceil_div (60000 - (now - started b)) 1000)),
     set_bucket key {| started := started b; count := count b + 1 |} m1).
Proof. unfold take. by destruct (window _ _ _ _). Qed.

(** The map keeps its keys distinct and within its bound. *)
Record map_ok (maximumBuckets : Z) (m : buckets) : Prop := {
  mo_keys : NoDup (map fst m);
  mo_size : Z.of_nat (length m) <= maximumBuckets;
  mo_count key b : bucket_of key m = Some b -> 0 <= count b;
}.

Lemma bucket_of_tail key m b : NoDup (map fst m) -> bucket_of key (tail m) = Some b -> bucket_of key m = Some b.
Proof.
  destruct m as [|e m]; [done|]. cbn [tail map]. intros [Hn _]%NoDup_cons Hb. rewrite bucket_of_cons.
  destruct (jstr_eqb e.1 key) eqn:He; [|done]. apply jstr_eqb_eq in He as <-.
  apply bucket_of_None in Hn. congruence.
Qed.

Lemma window_ok maximumBuckets key now m b m1 : 1 <= maximumBuckets -> map_ok maximumBuckets m ->
  window maximumBuckets key now m = (b, m1) ->
  map_ok maximumBuckets m1 /\ 0 <= count b /\
  (key ∉ map fst m1 -> Z.of_nat (length m1) + 1 <= maximumBuckets).
Proof.
  intros Hmax Hok. pose proof Hok as [Hk Hs Hc]. unfold window. destruct (bucket_of key m) as [b0|] eqn:Hb.
  - assert (Hin : ~ (key ∉ map fst m)) by (rewrite <- bucket_of_None, Hb; done).
    destruct (60000 <=? _); intros [= <- <-]; repeat split; cbn; try done; by eauto.
  - destruct (Z.leb_spec maximumBuckets (Z.of_nat (length m))) as [Hle|Hlt]; intros [= <- <-].
    + destruct m as [|e m]; [cbn in Hle; lia|]. cbn [tail map length] in *. apply NoDup_cons in Hk as Hk'.
      split; [|split; [cbn; lia|lia]]. split; [apply Hk'|lia|].
      intros k b' Hb'. apply (Hc k). by apply (bucket_of_tail k (e :: m)).
    + split; [done|]. split; [cbn; lia|lia].
Qed.

Lemma take_ok maximumBuckets key ceiling now m : 1 <= maximumBuckets -> map_ok maximumBuckets m ->
  map_ok maximumBuckets (take maximumBuckets key ceiling now m).2.
Proof.
  intros Hmax Hok. pose proof (take_eq maximumBuckets key ceiling now m) as Ht.
  destruct (window _ _ _ _) as [b m1] eqn:Hw. rewrite Ht. cbn [snd].
  destruct (window_ok _ _ _ _ _ _ Hmax Hok Hw) as ([Hk Hs Hc] & Hb & Hroom).
  assert (Hkeys := set_bucket_keys key {| started := started b; count := count b + 1 |} m1).
  split.
  - rewrite Hkeys. case_decide; [done|]. apply NoDup_app. split; [done|].
    split; [|apply NoDup_singleton]. intros k Hin ->%list_elem_of_singleton. done.
  - apply (f_equal length) in Hkeys. rewrite length_map in Hkeys. rewrite Hkeys.
    case_decide as Hd; rewrite ?length_app, ?length_map; [done|]. cbn. specialize (Hroom Hd). lia.
  - intros k b'. destruct (decide (key = k)) as [<-|Hne].
    + rewrite bucket_set_same. intros [= <-]. cbn. lia.
    + rewrite bucket_set_other by done. apply Hc.
Qed.

Lemma takes_ok maximumBuckets ceiling calls : forall m, 1 <= maximumBuckets -> map_ok maximumBuckets m ->
  map_ok maximumBuckets (takes maximumBuckets ceiling calls m).2.
Proof.
  induction calls as [|[key now] calls IH]; intros m Hmax Hok; [done|]. cbn [takes].
  pose proof (take_ok maximumBuckets key ceiling now m Hmax Hok) as Hok'.
  destruct (take _ _ _ _ _) as [r m1]. specialize (IH m1 Hmax Hok').
  by destruct (takes _ _ _ m1) as [rs m2].
Qed.

Lemma no_buckets_ok maximumBuckets : 1 <= maximumBuckets -> map_ok maximumBuckets [].
Proof. intros Hmax. split; [apply NoDup_nil_2|cbn; lia|done]. Qed.

(** ** Room for every client *)

(** The clients fit: no window is ever dropped. *)
Record fits (maximumBuckets : Z) (ks : list jstr) (m : buckets) : Prop := {
  ft_keys : NoDup (map fst m);
  ft_known : map fst m ⊆ ks;
  ft_count key b : bucket_of key m = Some b -> 0 <= count b;
}.

Definition next_bucket (key : jstr) (now : Z) (m : buckets) : bucket :=
  match bucket_of key m with
  | Some b => if 60000 <=? now - started b then {| started := now; count := 0 |} else b
  | None => {| started := now; count := 0 |}
  end.

Lemma take_fits maximumBuckets ks key ceiling now m :
  Z.of_nat (length ks) <= maximumBuckets -> fits maximumBuckets ks m -> key ∈ ks ->
  let b := next_bucket key now m in
  let b' := {| started := started b; count := count b + 1 |} in
  fits maximumBuckets ks (set_bucket key b' m) /\
  take maximumBuckets key ceiling now m =
    (if count b + 1 <=? ceiling then None else Some (Z.max 1 (ceil_div (60000 - (now - started b)) 1000)),
     set_bucket key b' m).
Proof.
  intros Hmax [Hk Hin Hc] Hkey b b'.
  assert (Hw : window maximumBuckets key now m = (b, m)).
  { unfold window, b, next_bucket. destruct (bucket_of key m) as [b0|] eqn:Hb; [by destruct (60000 <=? _)|].
    rewrite (proj2 (Z.leb_gt _ _)); [done|]. apply bucket_of_None in Hb.
    assert (Hl : (length (key :: map fst m) <= length ks)%nat).
    { apply NoDup_incl_length; [apply NoDup_ListNoDup; by constructor|].
      intros k. rewrite <- !list_elem_of_In. rewrite elem_of_cons. intros [->|Hm]; [done|by apply Hin]. }
    cbn [length] in Hl. rewrite length_map in Hl. lia. }
  pose proof (take_eq maximumBuckets key ceiling now m) as Ht. rewrite Hw in Ht. split; [|done].
  assert (Hb : 0 <= count b).
  { unfold b, next_bucket. destruct (bucket_of key m) as [b0|] eqn:Hb; [|cbn; lia].
    destruct (60000 <=? _); [cbn; lia|by eapply Hc]. }
  assert (Hkeys := set_bucket_keys key b' m). split.
  - rewrite Hkeys. case_decide; [done|]. apply NoDup_app. split; [done|].
    split; [|apply NoDup_singleton]. intros k Hm ->%list_elem_of_singleton. done.
  - rewrite Hkeys. case_decide; [done|]. intros k [Hm| ->%list_elem_of_singleton]%elem_of_app; [by apply Hin|done].
  - intros k b0. destruct (decide (key = k)) as [<-|Hne].
    + rewrite bucket_set_same. intros [= <-]. cbn. lia.
    + rewrite bucket_set_other by done. apply Hc.
Qed.

Lemma admitted_cons key r rs :
  admitted key (r :: rs) = (if is_admitted key r then 1 else 0) + admitted key rs.
Proof. unfold admitted. cbn [List.filter]. destruct (is_admitted key r); cbn [length]; lia. Qed.
Lemma admitted_nil key : admitted key [] = 0.
Proof. done. Qed.

Section spans.
Context (maximumBuckets ceiling : Z) (ks : list jstr) (key : jstr).
Hypothesis room : Z.of_nat (length ks) <= maximumBuckets.
Hypothesis ceiling_pos : 0 <= ceiling.
#[local] Set Default Proof Using "All".

Lemma takes_other k now calls m : key <> k -> fits maximumBuckets ks m -> k ∈ ks ->
  let m1 := (take maximumBuckets k ceiling now m).2 in
  fits maximumBuckets ks m1 /\ bucket_of key m1 = bucket_of key m /\
  admitted key (takes maximumBuckets ceiling ((k, now) :: calls) m).1 =
  admitted key (takes maximumBuckets ceiling calls m1).1.
Proof.
  intros Hne Hf Hk m1. destruct (take_fits _ _ k ceiling now m room Hf Hk) as [Hf' Ht].
  unfold m1. cbn [takes]. rewrite Ht. cbn [snd]. split; [done|]. split; [by apply bucket_set_other|].
  destruct (takes _ _ calls _) as [rs m2]. cbn [fst]. rewrite admitted_cons. unfold is_admitted. cbn.
  destruct (jstr_eqb k key) eqn:He; [by apply jstr_eqb_eq in He|done].
Qed.

Lemma takes_same now calls m : fits maximumBuckets ks m -> key ∈ ks ->
  let b := next_bucket key now m in
  let m1 := set_bucket key {| started := started b; count := count b + 1 |} m in
  fits maximumBuckets ks m1 /\
  admitted key (takes maximumBuckets ceiling ((key, now) :: calls) m).1 =
  (if count b + 1 <=? ceiling then 1 else 0) + admitted key (takes maximumBuckets ceiling calls m1).1.
Proof.
  intros Hf Hk b m1. destruct (take_fits _ _ key ceiling now m room Hf Hk) as [Hf' Ht].
  split; [done|]. cbn [takes]. rewrite Ht. fold b m1. destruct (takes _ _ calls m1) as [rs m2]. cbn [fst].
  rewrite admitted_cons. unfold is_admitted. cbn. rewrite jstr_eqb_refl. by destruct (_ <=? _).
Qed.

(** Within its window a client gets what is left of the ceiling. *)
Lemma one_window calls : forall m b,
  fits maximumBuckets ks m -> map fst calls ⊆ ks -> bucket_of key m = Some b ->
  Forall (fun c => c.2 - started b < 60000) calls ->
  admitted key (takes maximumBuckets ceiling calls m).1 <= Z.max 0 (ceiling - count b).
Proof.
  induction calls as [|[k now] calls IH]; intros m b Hf Hks Hb Ht.
  { cbn [takes fst]. rewrite admitted_nil. lia. }
  apply Forall_cons in Ht as [Hnow Ht]. cbn in Hnow.
  assert (Hk : k ∈ ks) by (apply Hks; by left).
  assert (Hks' : map fst calls ⊆ ks) by (intros x Hx; apply Hks; by right).
  destruct (decide (key = k)) as [<-|Hne].
  - destruct (takes_same now calls m Hf Hk) as [Hf' ->].
    assert (Hnb : next_bucket key now m = b)
      by (unfold next_bucket; rewrite Hb; by rewrite (proj2 (Z.leb_gt _ _))).
    rewrite Hnb in *. pose proof (ft_count _ _ _ Hf _ _ Hb) as Hc.
    etrans; [apply Z.add_le_mono_l, (IH _ {| started := started b; count := count b + 1 |}); try done;
      by apply bucket_set_same|].
    cbn [count]. destruct (Z.leb_spec (count b + 1) ceiling); lia.
  - destruct (takes_other k now calls m Hne Hf Hk) as (Hf' & Hb' & ->). apply IH; try done. by rewrite Hb'.
Qed.

Lemma two_windows a calls : forall m,
  fits maximumBuckets ks m -> map fst calls ⊆ ks ->
  Forall (fun c => a <= c.2 < a + 60000) calls ->
  admitted key (takes maximumBuckets ceiling calls m).1 <=
  match bucket_of key m with Some b => Z.max 0 (ceiling - count b) | None => 0 end + ceiling.
Proof.
  induction calls as [|[k now] calls IH]; intros m Hf Hks Ht.
  { cbn [takes fst]. rewrite admitted_nil. destruct (bucket_of key m); lia. }
  apply Forall_cons in Ht as [Hnow Ht]. cbn in Hnow.
  assert (Hk : k ∈ ks) by (apply Hks; by left).
  assert (Hks' : map fst calls ⊆ ks) by (intros x Hx; apply Hks; by right).
  destruct (decide (key = k)) as [<-|Hne].
  - destruct (takes_same now calls m Hf Hk) as [Hf' ->].
    assert (Hfresh : next_bucket key now m = {| started := now; count := 0 |} ->
      (if count (next_bucket key now m) + 1 <=? ceiling then 1 else 0) +
      admitted key (takes maximumBuckets ceiling calls (set_bucket key
        {| started := started (next_bucket key now m); count := count (next_bucket key now m) + 1 |} m)).1 <= ceiling).
    { intros Hn. rewrite Hn in *. cbn [started count] in *.
      pose proof (one_window calls _ {| started := now; count := 0 + 1 |} Hf' Hks' (bucket_set_same _ _ _)) as Ho.
      cbn [started count] in Ho. specialize (Ho ltac:(eapply Forall_impl; [exact Ht|]; intros c Hc; cbn in Hc; lia)).
      destruct (Z.leb_spec (0 + 1) ceiling); lia. }
    destruct (bucket_of key m) as [b|] eqn:Hb.
    2: { assert (Hn : next_bucket key now m = {| started := now; count := 0 |})
           by (unfold next_bucket; by rewrite Hb). specialize (Hfresh Hn). lia. }
    destruct (Z.leb_spec 60000 (now - started b)) as [Hold|Hlive].
    + assert (Hn : next_bucket key now m = {| started := now; count := 0 |})
        by (unfold next_bucket; rewrite Hb; by rewrite (proj2 (Z.leb_le _ _))). specialize (Hfresh Hn). lia.
    + assert (Hn : next_bucket key now m = b)
        by (unfold next_bucket; rewrite Hb; by rewrite (proj2 (Z.leb_gt _ _))).
      rewrite Hn in *. etrans; [apply Z.add_le_mono_l, IH; done|]. rewrite bucket_set_same. cbn [count].
      pose proof (ft_count _ _ _ Hf _ _ Hb). destruct (Z.leb_spec (count b + 1) ceiling); lia.
  - destruct (takes_other k now calls m Hne Hf Hk) as (Hf' & Hb' & ->). rewrite <- Hb'. by apply IH.
Qed.

Lemma takes_fits calls : forall m, fits maximumBuckets ks m -> map fst calls ⊆ ks ->
  fits maximumBuckets ks (takes maximumBuckets ceiling calls m).2.
Proof.
  induction calls as [|[k now] calls IH]; intros m Hf Hks; [done|]. cbn [takes].
  assert (Hk : k ∈ ks) by (apply Hks; by left).
  destruct (take_fits _ _ k ceiling now m room Hf Hk) as [Hf' ->].
  assert (Hks' : map fst calls ⊆ ks) by (intros x Hx; apply Hks; by right).
  specialize (IH _ Hf' Hks'). by destruct (takes _ _ calls _) as [rs m2].
Qed.
End spans.

Lemma no_buckets_fit maximumBuckets ks : fits maximumBuckets ks [].
Proof. split; [apply NoDup_nil_2|set_solver|done]. Qed.

(** ** The guarantees *)

(** Whatever happened before, and whoever else asks, a client gets at most twice the ceiling in
    any span of less than a minute, in any order of the clock readings; and the table never grows
    past its bound.  The clients the limiter sees have to fit into the table: beyond that, a newcomer
    ends the window of the client that was inserted first. *)
Theorem rate_limit_spans maximumBuckets ceiling ks key before calls a :
  0 <= ceiling -> Z.of_nat (length ks) <= maximumBuckets ->
  map fst before ⊆ ks -> map fst calls ⊆ ks ->
  Forall (fun c => a <= c.2 < a + 60000) calls ->
  admitted key (takes maximumBuckets ceiling calls (takes maximumBuckets ceiling before []).2).1 <= 2 * ceiling.
Proof.
  intros Hc Hroom Hb Hks Ht.
  pose proof (takes_fits maximumBuckets ceiling ks key Hroom Hc before [] (no_buckets_fit _ _) Hb) as Hf.
  etrans; [by apply (two_windows maximumBuckets ceiling ks key Hroom Hc a)|].
  destruct (bucket_of key _) as [b|] eqn:Hbk; [|lia]. pose proof (ft_count _ _ _ Hf _ _ Hbk). lia.
Qed.

(** The table keeps at most the given number of clients, and a refusal tells the truth: it asks
    for between one second and a minute, and a client that waits that long is let through, as long as
    its window is still in the table. *)
Theorem refusal_is_honest maximumBuckets ceiling key now calls m r :
  1 <= maximumBuckets -> 1 <= ceiling ->
  m = (takes maximumBuckets ceiling calls []).2 ->
  (forall b, bucket_of key m = Some b -> started b <= now) ->
  (take maximumBuckets key ceiling now m).1 = Some r ->
  let m' := (take maximumBuckets key ceiling now m).2 in
  Z.of_nat (length m') <= maximumBuckets /\ 1 <= r <= 60 /\
  forall later, now + 1000 * r <= later -> (take maximumBuckets key ceiling later m').1 = None.
Proof.
  intros Hmax Hc -> Hpast Hr m'.
  pose proof (takes_ok maximumBuckets ceiling calls [] Hmax (no_buckets_ok _ Hmax)) as Hok.
  set (m := (takes maximumBuckets ceiling calls []).2) in *.
  split; [by apply take_ok|]. pose proof (take_eq maximumBuckets key ceiling now m) as Ht.
  assert (Hw : exists b, window maximumBuckets key now m = (b, (window maximumBuckets key now m).2) /\
    now - 60000 < started b <= now).
  { unfold window. destruct (bucket_of key m) as [b|] eqn:Hb; [|eexists; split; [done|cbn; lia]].
    specialize (Hpast b eq_refl). destruct (Z.leb_spec 60000 (now - started b)); eexists; (split; [done|]); cbn; lia. }
  destruct Hw as (b & Hw & Hs). rewrite Hw in Ht. unfold m'. rewrite Ht in Hr |- *. cbn [fst snd] in *.
  destruct (Z.leb_spec (count b + 1) ceiling) as [|Hfull]; [discriminate Hr|]. injection Hr as <-.
  unfold ceil_div. assert (Hq : -60 <= - (60000 - (now - started b)) / 1000 <= -1).
  { split; [apply Z.div_le_lower_bound|apply Z.lt_succ_r; apply Z.div_lt_upper_bound]; lia. }
  split; [lia|]. intros later Hl.
  set (m1 := set_bucket _ _ _). assert (Hb1 : bucket_of key m1 =
    Some {| started := started b; count := count b + 1 |}) by apply bucket_set_same.
  unfold take, window. rewrite Hb1. cbn [started count].
  assert (Hd : 1000 * (- (60000 - (now - started b)) / 1000) <= - (60000 - (now - started b)))
    by (apply Z.mul_div_le; lia).
  rewrite (proj2 (Z.leb_le 60000 (later - started b))) by lia. cbn [fst count started].
  by rewrite (proj2 (Z.leb_le (0 + 1) ceiling)) by lia.
Qed.

Lemma rate_limit_spans_witness :
  admitted [1%N] (takes 2 1 [([1%N], 59000); ([1%N], 60000); ([2%N], 60001); ([1%N], 60002)]
    (takes 2 1 [([1%N], 0)] []).2).1 = 1 /\
  admitted [1%N] (takes 2 1 [([1%N], 59000); ([1%N], 60000); ([2%N], 60001); ([1%N], 60002)]
    (takes 2 1 [([1%N], 0)] []).2).1 <= 2.
Proof.
  split; [vm_compute; reflexivity|].
  apply (rate_limit_spans 2 1 [[1%N]; [2%N]] [1%N] [([1%N], 0)] _ 59000); [lia|cbn; lia|set_solver..|].
  repeat constructor; cbn; lia.
Defined.

Lemma refusal_is_honest_witness :
  (take 2 [1%N] 1 500 (takes 2 1 [([1%N], 0)] []).2).1 = Some 60 /\ 1 <= 60 <= 60.
Proof.
  assert (Hr : (take 2 [1%N] 1 500 (takes 2 1 [([1%N], 0)] []).2).1 = Some 60) by (vm_compute; reflexivity).
  split; [exact Hr|].
  destruct (refusal_is_honest 2 1 [1%N] 500 [([1%N], 0)] _ 60 ltac:(lia) ltac:(lia) eq_refl) as (_ & H60 & _).
  - intros b Hb. vm_compute in Hb. injection Hb as <-. cbn. lia.
  - exact Hr.
  - exact H60.
Defined.
