(* ===== verification/Schedule.v ===== *)
(** * The schedule of protected responses (apps/server/src/http/protected-schedule.ts)

    Requests whose processing must not be observable from outside: the answer waits for a floor,
    admission depends on arrivals alone, and the work in progress is bounded.  The timers and the
    promises of [run] are the events of a state machine; a request is numbered by its arrival. *)

From S2P Require Import Prelude JsString Value Database.
From Stdlib Require Import ZArith.
Open Scope Z_scope.

Record ProtectedScheduleSettings := {
  minimumResponseMs : Z;
  processingDeadlineMs : Z;
  maxInFlight : Z;
  maxPerSource : option Z;
}.
Definition POC_PROTECTED_SCHEDULE : ProtectedScheduleSettings :=
  {| minimumResponseMs := 750; processingDeadlineMs := 10000; maxInFlight := 32; maxPerSource := None |}.

(** The check of the constructor. *)
Definition settings_ok (s : ProtectedScheduleSettings) : bool :=
  isSafeInteger (minimumResponseMs s) && (1 <=? minimumResponseMs s) &&
  isSafeInteger (processingDeadlineMs s) && (minimumResponseMs s <? processingDeadlineMs s) &&
  match maxPerSource s with Some n => isSafeInteger n && (1 <=? n) | None => true end &&
  isSafeInteger (maxInFlight s) && (1 <=? maxInFlight s).

Inductive ProtectedResult (T : Type) := Detailed (value : T) | Generic | Busy.
Arguments Detailed {T} value. Arguments Generic {T}. Arguments Busy {T}.

(** A request that was admitted. [rq_first] is what won the race, [rq_gated] that no process was
    started for it, [rq_settled] that its process has ended. *)
Record request (T : Type) := {
  rq_source : jstr;
  rq_wait : bool;
  rq_arrived : Z;
  rq_gated : bool;
  rq_settled : bool;
  rq_expired : bool;
  rq_floor : bool;
  rq_first : option (ProtectedResult T);
}.
Arguments rq_source {T} _. Arguments rq_wait {T} _. Arguments rq_arrived {T} _. Arguments rq_gated {T} _.
Arguments rq_settled {T} _. Arguments rq_expired {T} _. Arguments rq_floor {T} _. Arguments rq_first {T} _.

(** The fields of the schedule; [requests] has [None] for a request that was refused. *)
Record schedule (T : Type) := {
  inFlight : Z;
  processing : Z;
  sources : gmap jstr Z;
  requests : list (option (request T));
}.
Arguments inFlight {T} _. Arguments processing {T} _. Arguments sources {T} _. Arguments requests {T} _.

Definition new_schedule {T} : schedule T :=
  {| inFlight := 0; processing := 0; sources := ∅; requests := [] |}.

(** What happens, and to which request: a call of [run], its two timers, the end of its process,
    whose value is [None] when it is null or the process threw. *)
Inductive event (T : Type) :=
| Arrives (source : jstr) (waitForCompletion : bool)
| DeadlineFires (i : nat)
| FloorFires (i : nat)
| Settles (i : nat) (value : option T).
Arguments Arrives {T} source waitForCompletion. Arguments DeadlineFires {T} i.
Arguments FloorFires {T} i. Arguments Settles {T} i value.

Section run.
Context {T : Type} (settings : ProtectedScheduleSettings).

Definition per_source : Z := default (Z.min 8 (maxInFlight settings)) (maxPerSource settings).

(** The race is decided by what settles first. *)
Definition race (r : ProtectedResult T) (first : option (ProtectedResult T)) : option (ProtectedResult T) :=
  Some (default r first).

Definition arrive (now : Z) (source : jstr) (wait : bool) (s : schedule T) : schedule T :=
  let sourceCount := default 0 (sources s !! source) in
  if (maxInFlight settings <=? inFlight s) || (per_source <=? sourceCount)
  then {| inFlight := inFlight s; processing := processing s; sources := sources s;
          requests := requests s ++ [None] |}
  else
    let gated := maxInFlight settings <=? processing s in
    {| inFlight := inFlight s + 1;
       processing := if gated then processing s else processing s + 1;
       sources := <[source := sourceCount + 1]> (sources s);
       requests := requests s ++ [Some {|
         rq_source := source; rq_wait := wait; rq_arrived := now; rq_gated := gated; rq_settled := false;
         rq_expired := false; rq_floor := false; rq_first := if gated then Some Generic else None |}] |}.

Definition set_request (i : nat) (r : request T) (s : schedule T) : schedule T :=
  {| inFlight := inFlight s; processing := processing s; sources := sources s;
     requests := <[i := Some r]> (requests s) |}.

(** The callback of the deadline's timer; the difference of [undefined] is falsy. *)
Definition release (source : jstr) (m : gmap jstr Z) : gmap jstr Z :=
  match m !! source with
  | Some n => if n - 1 =? 0 then delete source m else <[source := n - 1]> m
  | None => delete source m
  end.
Definition expire (i : nat) (r : request T) (s : schedule T) : schedule T :=
  set_request i {|
    rq_source := rq_source r; rq_wait := rq_wait r; rq_arrived := rq_arrived r; rq_gated := rq_gated r;
    rq_settled := rq_settled r; rq_expired := true; rq_floor := rq_floor r;
    rq_first := if rq_wait r then race Generic (rq_first r) else rq_first r |}
  {| inFlight := inFlight s - 1; processing := processing s; sources := release (rq_source r) (sources s);
     requests := requests s |}.

Definition reach_floor (i : nat) (r : request T) (s : schedule T) : schedule T :=
  set_request i {|
    rq_source := rq_source r; rq_wait := rq_wait r; rq_arrived := rq_arrived r; rq_gated := rq_gated r;
    rq_settled := rq_settled r; rq_expired := rq_expired r; rq_floor := true;
    rq_first := if rq_wait r then rq_first r else race Generic (rq_first r) |} s.

Definition settle (i : nat) (value : option T) (r : request T) (s : schedule T) : schedule T :=
  set_request i {|
    rq_source := rq_source r; rq_wait := rq_wait r; rq_arrived := rq_arrived r; rq_gated := rq_gated r;
    rq_settled := true; rq_expired := rq_expired r; rq_floor := rq_floor r;
    rq_first := race match value with Some v => Detailed v | None => Generic end (rq_first r) |}
  {| inFlight := inFlight s; processing := processing s - 1; sources := sources s; requests := requests s |}.

(** An event at an instant; [None] when it cannot happen: a timer fires once and not before its
    time, and a process that was started ends once. *)
Definition schedule_step (now : Z) (e : event T) (s : schedule T) : option (schedule T) :=
  match e with
  | Arrives source wait => Some (arrive now source wait s)
  | DeadlineFires i =>
      r ← mjoin (requests s !! i);
      if negb (rq_expired r) && (rq_arrived r + processingDeadlineMs settings <=? now)
      then Some (expire i r s) else None
  | FloorFires i =>
      r ← mjoin (requests s !! i);
      if negb (rq_floor r) && (rq_arrived r + minimumResponseMs settings <=? now)
      then Some (reach_floor i r s) else None
  | Settles i value =>
      r ← mjoin (requests s !! i);
      if negb (rq_gated r) && negb (rq_settled r) then Some (settle i value r s) else None
  end.

Fixpoint schedule_run (events : list (Z * event T)) (s : schedule T) : option (schedule T) :=
  match events with
  | [] => Some s
  | (now, e) :: events => s' ← schedule_step now e s; schedule_run events s'
  end.

(** What [run] resolves to: once the floor is reached, the winner of the race. *)
Definition answer (r : option (request T)) : option (ProtectedResult T) :=
  match r with
  | None => Some Busy
  | Some r => if rq_floor r then rq_first r else None
  end.

(** What can be seen of admission: the events it depends on, and who was refused. *)
Definition is_admission (e : Z * event T) : bool :=
  match e.2 with Arrives _ _ | DeadlineFires _ => true | _ => false end.
Definition refused (r : option (request T)) : bool :=
  match r with None => true | Some _ => false end.
End run.

(** ** Admission does not depend on the outcomes *)

Lemma join_Some {A} (o : option (option A)) a : mjoin o = Some a -> o = Some (Some a).
Proof. by destruct o as [[a'|]|]; intros [= ->]. Qed.

Section rules.
Context {T : Type} (settings : ProtectedScheduleSettings).

Notation view := (Z * gmap jstr Z * list (option (jstr * Z * bool)))%type.
Definition request_view (r : request T) : jstr * Z * bool := (rq_source r, rq_arrived r, rq_expired r).
Definition entry_view (r : option (request T)) : option (jstr * Z * bool) := request_view <$> r.
Definition view_of (s : schedule T) : view := (inFlight s, sources s, (fmap (M:=list) entry_view (requests s))).

(** The effect of an event on the view, computed from the view. *)
Definition view_step (e : Z * event T) (v : view) : view :=
  let '(n, m, l) := v in
  match e.2 with
  | Arrives source _ =>
      if (maxInFlight settings <=? n) || (per_source settings <=? default 0 (m !! source)) then (n, m, l ++ [None])
      else (n + 1, <[source := default 0 (m !! source) + 1]> m, l ++ [Some (source, e.1, false)])
  | DeadlineFires i =>
      match mjoin (l !! i) with
      | Some (source, arrived, _) => (n - 1, release source m, <[i := Some (source, arrived, true)]> l)
      | None => v
      end
  | _ => v
  end.

Lemma set_request_view i r r' (s : schedule T) n p m :
  mjoin (requests s !! i) = Some r ->
  view_of (set_request i r' {| inFlight := n; processing := p; sources := m; requests := requests s |}) =
  (n, m, <[i := Some (request_view r')]> ((fmap (M:=list) entry_view (requests s)))).
Proof. intros _. unfold view_of, set_request. cbn. f_equal. exact (list_fmap_insert entry_view (requests s) i (Some r')). Qed.

Lemma view_lookup i r (s : schedule T) : mjoin (requests s !! i) = Some r ->
  (fmap (M:=list) entry_view (requests s)) !! i = Some (Some (request_view r)).
Proof.
  intros Hr. apply join_Some in Hr. rewrite list_lookup_fmap, Hr. done.
Qed.

Lemma same_view i r r' (s : schedule T) p : mjoin (requests s !! i) = Some r -> request_view r' = request_view r ->
  view_of (set_request i r' {| inFlight := inFlight s; processing := p; sources := sources s;
                               requests := requests s |}) = view_of s.
Proof.
  intros Hr He. erewrite set_request_view by done. rewrite He. unfold view_of. f_equal.
  by apply list_insert_id, (view_lookup _ r).
Qed.

Lemma step_view now e s s' : schedule_step settings now e s = Some s' ->
  view_of s' = if is_admission (now, e) then view_step (now, e) (view_of s) else view_of s.
Proof.
  destruct e as [source wait|i|i|i value]; cbn [schedule_step is_admission snd].
  - intros [= <-]. unfold arrive, view_step, view_of at 2. cbn [fst snd]. destruct (_ || _); unfold view_of; cbn.
    + by rewrite fmap_app.
    + by rewrite fmap_app.
  - intros (r & Hr & Hs)%bind_Some. destruct (_ && _); [|discriminate Hs]. injection Hs as <-.
    unfold expire. rewrite (set_request_view _ r) by done. unfold view_step, view_of. cbn [snd].
    rewrite (view_lookup _ _ _ Hr). done.
  - intros (r & Hr & Hs)%bind_Some. destruct (_ && _); [|discriminate Hs]. injection Hs as <-.
    unfold reach_floor. destruct s as [n p m l]. by apply (same_view i r _ {| inFlight := n; processing := p;
      sources := m; requests := l |} p).
  - intros (r & Hr & Hs)%bind_Some. destruct (_ && _); [|discriminate Hs]. injection Hs as <-.
    unfold settle. by apply (same_view i r).
Qed.

Lemma run_view events : forall s s', schedule_run settings events s = Some s' ->
  view_of s' = foldl (fun v e => view_step e v) (view_of s) (List.filter is_admission events).
Proof.
  induction events as [|[now e] events IH]; intros s s'; cbn [schedule_run].
  - by intros [= <-].
  - intros (s1 & Hs & Hr)%bind_Some. rewrite (IH _ _ Hr), (step_view _ _ _ _ Hs). cbn [List.filter].
    by destruct (is_admission _).
Qed.

(** ** Invariants *)

Definition outstanding (r : request T) : bool := negb (rq_expired r).
Definition working (r : request T) : bool := negb (rq_gated r) && negb (rq_settled r).
Definition of_source (source : jstr) (r : request T) : bool := outstanding r && jstr_eqb (rq_source r) source.

Definition weigh (p : request T -> bool) (r : option (request T)) : Z :=
  match r with Some r => if p r then 1 else 0 | None => 0 end.
Fixpoint tally (p : request T -> bool) (l : list (option (request T))) : Z :=
  match l with [] => 0 | r :: l => weigh p r + tally p l end.

Lemma tally_app p l l' : tally p (l ++ l') = tally p l + tally p l'.
Proof. induction l as [|r l IH]; cbn [app tally]; [done|]. rewrite IH. lia. Qed.
Lemma tally_insert p l i r r' : l !! i = Some r ->
  tally p (<[i := r']> l) = tally p l - weigh p r + weigh p r'.
Proof.
  revert i. induction l as [|r0 l IH]; intros [|i]; try done.
  - intros [= ->]. cbn [tally insert list_insert]. lia.
  - intros Hi. change (<[S i:=r']> (r0 :: l)) with (r0 :: <[i:=r']> l). cbn [tally]. rewrite (IH _ Hi). lia.
Qed.
Lemma tally_nonneg p l : 0 <= tally p l.
Proof.
  induction l as [|r l IH]; cbn [tally]; [done|]. unfold weigh. destruct r as [r|]; [destruct (p r)|]; lia.
Qed.

Definition counted (n : Z) : option Z := if n =? 0 then None else Some n.

Record schedule_ok (s : schedule T) : Prop := {
  so_flight : inFlight s = tally outstanding (requests s);
  so_processing : processing s = tally working (requests s);
  so_sources source : sources s !! source = counted (tally (of_source source) (requests s));
  so_flight_max : inFlight s <= maxInFlight settings;
  so_processing_max : processing s <= maxInFlight settings;
  so_source_max source : tally (of_source source) (requests s) <= Z.max 0 (per_source settings);
  so_first r : In (Some r) (requests s) -> rq_floor r = true -> rq_wait r = false -> is_Some (rq_first r);
}.

Lemma counted_default n : default 0 (counted n) = n.
Proof. unfold counted. by destruct (Z.eqb_spec n 0) as [->|]. Qed.

Lemma new_ok : 0 <= maxInFlight settings -> schedule_ok new_schedule.
Proof. intros Hm. split; cbn; try done; try lia; intros *; by rewrite ?lookup_empty. Qed.

(** A change of one request keeps the invariant when the counters follow. *)
Lemma change_ok i r r' (s : schedule T) n p m : schedule_ok s -> mjoin (requests s !! i) = Some r ->
  n = inFlight s - weigh outstanding (Some r) + weigh outstanding (Some r') ->
  p = processing s - weigh working (Some r) + weigh working (Some r') ->
  (forall source, m !! source =
     counted (tally (of_source source) (requests s) - weigh (of_source source) (Some r)
              + weigh (of_source source) (Some r'))) ->
  weigh outstanding (Some r') <= weigh outstanding (Some r) ->
  weigh working (Some r') <= weigh working (Some r) ->
  (forall source, weigh (of_source source) (Some r') <= weigh (of_source source) (Some r)) ->
  (rq_floor r' = true -> rq_wait r' = false -> is_Some (rq_first r')) ->
  schedule_ok (set_request i r' {| inFlight := n; processing := p; sources := m; requests := requests s |}).
Proof.
  intros [H1' H2' H3' H4' H5' H6' H7'] Hi%join_Some -> -> Hm Ho Hw Hs Hf.
  split; cbn [set_request inFlight processing sources requests]; intros *;
    rewrite ?(tally_insert _ _ _ _ _ Hi); rewrite <- ?H1', <- ?H2'; try lia.
  - apply Hm.
  - specialize (H6' source). specialize (Hs source). lia.
  - rewrite <- list_elem_of_In. intros [j Hj]%list_elem_of_lookup. apply list_lookup_insert_Some in Hj as
      [(_ & [= <-] & _)|[_ Hj]]; [done|]. apply H7'. apply list_elem_of_In. by eapply list_elem_of_lookup_2.
Qed.

Lemma weigh_source source r : weigh (of_source source) (Some r) =
  if bool_decide (rq_source r = source) then weigh outstanding (Some r) else 0.
Proof.
  cbn [weigh]. unfold of_source. case_bool_decide as Hs.
  - subst. rewrite jstr_eqb_refl. by rewrite andb_true_r.
  - destruct (jstr_eqb _ _) eqn:He; [by apply jstr_eqb_eq in He|]. by rewrite andb_false_r.
Qed.

Lemma release_counted (source k : jstr) (m : gmap jstr Z) n : m !! k = counted n ->
  0 <= n - (if bool_decide (source = k) then 1 else 0) ->
  release source m !! k = counted (n - (if bool_decide (source = k) then 1 else 0) + 0).
Proof.
  intros Hk Hn. unfold release. case_bool_decide as Hs.
  - subst. rewrite Hk. unfold counted. rewrite (proj2 (Z.eqb_neq n 0)) by lia.
    destruct (Z.eqb_spec (n - 1) 0) as [Hz|Hz].
    + rewrite lookup_delete_eq. by rewrite (proj2 (Z.eqb_eq _ _)) by lia.
    + rewrite lookup_insert_eq. rewrite (proj2 (Z.eqb_neq _ _)) by lia. f_equal. lia.
  - assert (Hrel : forall o : option Z, match o with
      | Some n => if n - 1 =? 0 then delete source m else <[source:=n - 1]> m
      | None => delete source m end !! k = m !! k).
    { intros [j|]; [destruct (j - 1 =? 0)|]; by rewrite ?lookup_delete_ne, ?lookup_insert_ne. }
    rewrite Hrel, Hk. f_equal. lia.
Qed.

Lemma step_ok now e s s' : schedule_step settings now e s = Some s' -> schedule_ok s -> schedule_ok s'.
Proof.
  intros Hstep Hok. pose proof Hok as [H1' H2' H3' H4' H5' H6' H7'].
  destruct e as [source wait|i|i|i value]; cbn [schedule_step] in Hstep.
  - injection Hstep as <-. unfold arrive. rewrite H3', counted_default.
    destruct (_ || _) eqn:Hfull; [|apply orb_false_iff in Hfull as [Hm%Z.leb_gt Hp%Z.leb_gt]].
    + split; cbn; intros *; rewrite ?tally_app; cbn [tally weigh]; rewrite ?Z.add_0_r; try done.
      intros [Hin|[Hr|[]]]%in_app_or; [by apply H7'|discriminate Hr].
    + set (gated := maxInFlight settings <=? processing s).
      set (r := {| rq_source := source; rq_first := if gated then Some Generic else None |}).
      assert (Ho : weigh outstanding (Some r) = 1) by done.
      assert (Hw : weigh working (Some r) = if gated then 0 else 1) by (cbn; by destruct gated).
      assert (Hs : forall k, weigh (of_source k) (Some r) = if jstr_eqb source k then 1 else 0) by done.
      split; cbn [inFlight processing sources requests]; intros *; rewrite ?tally_app; cbn [tally];
        rewrite ?Ho, ?Hw, ?Hs, ?Z.add_0_r, <- ?H1', <- ?H2'; try lia.
      * destruct gated; lia.
      * destruct (jstr_eqb source source0) eqn:He.
        -- apply jstr_eqb_eq in He as <-. rewrite lookup_insert_eq. unfold counted.
           pose proof (tally_nonneg (of_source source) (requests s)). by rewrite (proj2 (Z.eqb_neq _ _)) by lia.
        -- rewrite lookup_insert_ne by (intros ->; by rewrite jstr_eqb_refl in He). by rewrite H3', Z.add_0_r.
      * unfold gated. destruct (Z.leb_spec (maxInFlight settings) (processing s)); lia.
      * specialize (H6' source0). destruct (jstr_eqb source source0) eqn:He; [apply jstr_eqb_eq in He as <-|]; lia.
      * intros [Hin|[[= <-]|[]]]%in_app_or; [by apply H7'|done].
  - apply bind_Some in Hstep as (r & Hr & Hs). destruct (_ && _) eqn:Hg; [|discriminate Hs].
    apply andb_true_iff in Hg as [Hg _]. injection Hs as <-. unfold expire.
    assert (Ho : weigh outstanding (Some r) = 1) by (cbn; unfold outstanding; by rewrite Hg).
    match goal with |- schedule_ok (set_request i ?q _) => set (r' := q) end.
    assert (Ho' : weigh outstanding (Some r') = 0) by done.
    assert (Hw' : weigh working (Some r') = weigh working (Some r)) by done.
    assert (Hs' : forall k, weigh (of_source k) (Some r') = 0) by done.
    pose proof Hr as Hi. apply join_Some in Hi.
    apply (change_ok i r r'); rewrite ?Ho, ?Ho', ?Hw'; try done; try lia.
    + intros source. rewrite Hs', weigh_source, Ho. apply release_counted; [apply H3'|].
      pose proof (tally_insert (of_source source) (requests s) i (Some r) None Hi) as Ht.
      pose proof (tally_nonneg (of_source source) (<[i:=None]> (requests s))) as Hn.
      rewrite weigh_source, Ho in Ht. cbn [weigh] in Ht. case_bool_decide; lia.
    + intros source. rewrite Hs', weigh_source, Ho. case_bool_decide; lia.
    + intros Hf Hw. cbn [rq_wait rq_floor rq_first r'] in *. rewrite Hw. apply H7'; [|done..].
      apply list_elem_of_In. by eapply list_elem_of_lookup_2.
  - apply bind_Some in Hstep as (r & Hr & Hs). destruct (_ && _) eqn:Hg; [|discriminate Hs].
    injection Hs as <-. unfold reach_floor. destruct s as [n p m l].
    apply (change_ok i r _ {| inFlight := n; processing := p; sources := m; requests := l |}); try done;
      unfold outstanding, working, of_source in *; cbn in *; try lia.
    + intros source. rewrite H3'. f_equal. unfold outstanding. cbn. lia.
    + intros _ ->. by eexists.
  - apply bind_Some in Hstep as (r & Hr & Hs). destruct (_ && _) eqn:Hg; [|discriminate Hs].
    injection Hs as <-. apply andb_true_iff in Hg as [Hg Hset]. unfold settle.
    apply (change_ok i r); try done; unfold outstanding, working, of_source in *; cbn in *; rewrite ?Hg, ?Hset; cbn; try lia.
    intros source. rewrite H3'. f_equal. unfold outstanding. cbn. lia.
Qed.

Lemma run_ok events : forall s s', schedule_run settings events s = Some s' -> schedule_ok s -> schedule_ok s'.
Proof.
  induction events as [|[now e] events IH]; intros s s'; cbn [schedule_run]; [by intros [= <-]|].
  intros (s1 & Hs & Hr)%bind_Some Hok. eapply IH; [done|]. by eapply step_ok.
Qed.

(** ** The guarantees *)

(** Admission tells nothing about what was looked up: two runs with the same arrivals and the same
    deadlines, whatever the processes return and whenever they end, have the same number of requests
    in flight, in all and for every source, and refuse the same requests; and a request that is not
    told to wait is answered exactly when its floor is reached, whatever its process does. *)
Theorem admission_independent (events events' : list (Z * event T)) (s s' : schedule T) :
  schedule_run settings events new_schedule = Some s ->
  schedule_run settings events' new_schedule = Some s' ->
  List.filter is_admission events = List.filter is_admission events' ->
  inFlight s = inFlight s' /\ sources s = sources s' /\
  map refused (requests s) = map refused (requests s') /\
  (0 <= maxInFlight settings -> forall r : request T, In (Some r) (requests s) -> rq_wait r = false ->
     (is_Some (answer (Some r)) <-> rq_floor r = true)).
Proof.
  intros Hr Hr' He. pose proof (run_view _ _ _ Hr) as Hv. pose proof (run_view _ _ _ Hr') as Hv'.
  rewrite He, <- Hv' in Hv. injection Hv as Hn Hm Hl. split; [done|]. split; [done|]. split.
  - assert (Href : forall l : list (option (request T)), map refused l =
      map (fun v => match v with None => true | Some _ => false end) (fmap (M:=list) entry_view l)).
    { induction l as [|[r|] l IH]; cbn; [done|..]; by rewrite IH. }
    by rewrite (Href (requests s)), Hl, <- Href.
  - intros Hmax r Hin Hw. cbn [answer]. destruct (rq_floor r) eqn:Hf; [|split; [by intros []|done]].
    split; [done|]. intros _. by eapply (so_first _ (run_ok _ _ _ Hr (new_ok Hmax))).
Qed.

(** The schedule stays within its settings: it has at most [maxInFlight] requests in flight and at
    most as many processes, no source has more than its share, and its counters count exactly the
    requests whose deadline has not passed, in all and for every source, and the processes that have
    not ended; a source without requests has no entry. *)
Theorem schedule_bounded (events : list (Z * event T)) (s : schedule T) :
  settings_ok settings = true -> schedule_run settings events new_schedule = Some s ->
  inFlight s = tally outstanding (requests s) /\ 0 <= inFlight s <= maxInFlight settings /\
  processing s = tally working (requests s) /\ 0 <= processing s <= maxInFlight settings /\
  forall source, sources s !! source = counted (tally (of_source source) (requests s)) /\
    tally (of_source source) (requests s) <= per_source settings.
Proof.
  intros Hset Hr. unfold settings_ok in Hset. rewrite !andb_true_iff, !Z.leb_le in Hset.
  assert (Hps : 1 <= per_source settings).
  { unfold per_source. destruct (maxPerSource settings) as [n|]; cbn [default]; [|lia].
    destruct Hset as [[[_ Hn] _] _]. apply andb_true_iff in Hn as [_ Hn%Z.leb_le]. done. }
  assert (Hok : schedule_ok s) by (eapply run_ok; [exact Hr|apply new_ok; lia]).
  destruct Hok as [H1' H2' H3' H4' H5' H6' _].
  split; [done|]. split; [rewrite H1' in *; pose proof (tally_nonneg outstanding (requests s)); lia|].
  split; [done|]. split; [rewrite H2' in *; pose proof (tally_nonneg working (requests s)); lia|].
  intros source. split; [done|]. specialize (H6' source). lia.
Qed.
End rules.

(** ** Example *)

(** Two requests that find something and one that does not: the same to the outside. *)
Definition found : list (Z * event Z) :=
  [(0, Arrives [1%N] false); (5, Settles 0 (Some 7)); (10, Arrives [2%N] false); (750, FloorFires 0);
   (760, FloorFires 1); (800, Settles 1 (Some 8)); (10000, DeadlineFires 0)].
Definition not_found : list (Z * event Z) :=
  [(0, Arrives [1%N] false); (10, Arrives [2%N] false); (740, Settles 0 None); (755, FloorFires 0);
   (760, FloorFires 1); (10000, DeadlineFires 0)].

Lemma admission_independent_witness : exists s s',
  schedule_run POC_PROTECTED_SCHEDULE found new_schedule = Some s /\
  schedule_run POC_PROTECTED_SCHEDULE not_found new_schedule = Some s' /\
  map answer (requests s) = [Some (Detailed 7); Some Generic] /\ inFlight s = inFlight s'.
Proof.
  eexists _, _. split; [vm_compute; reflexivity|]. split; [vm_compute; reflexivity|].
  split; [vm_compute; reflexivity|].
  apply (admission_independent POC_PROTECTED_SCHEDULE found not_found); vm_compute; reflexivity.
Defined.

Lemma schedule_bounded_witness : exists s,
  schedule_run POC_PROTECTED_SCHEDULE found new_schedule = Some s /\ 0 <= inFlight s <= 32.
Proof.
  eexists. split; [vm_compute; reflexivity|].
  apply (schedule_bounded POC_PROTECTED_SCHEDULE found); vm_compute; reflexivity.
Defined.
