(* ===== verification/Http.v ===== *)
(** * Responses of other providers

    A response as the code reads it: its status, its headers under lower-case names, and a body read
    chunk by chunk, where a read may fail.  Cancelling a body always succeeds and is not modelled. *)

From S2P Require Import Prelude JsString Regex Value Base64Url.
From Stdlib Require Import ZArith.
Open Scope Z_scope.

(** A read of the body: a chunk, or a failure; the end of the list is the end of the body. *)
Notation body_read := (option bytes) (only parsing).

Record Response := {
  rs_status : Z;
  rs_headers : list (jstr * jstr);
  rs_body : option (list body_read);
}.

(** [response.headers.get(name)]. *)
Definition header (name : String.string) (r : Response) : option jstr :=
  snd <$> List.find (fun e => jstr_eqb e.1 (js name)) (rs_headers r).
Arguments header name%_string r.

(** [toLowerCase] of a header, whose characters are those of Latin-1. *)
Definition lower_char (u : N) : N :=
  (if (65 <=? u) && (u <=? 90) || ((192 <=? u) && (u <=? 222) && negb (u =? 215)) then u + 32 else u)%N.
Definition toLowerCase (s : jstr) : jstr := map lower_char s.

(** [/^\d+$/], and [Number] of such a text.  Every number the code compares it with is below 2^53,
    where rounding to a double changes no comparison. *)
Definition DIGITS : regex := plus (RClass [range "0" "9"]).
Definition decimal (s : jstr) : Z := fold_left (fun n u => 10 * n + (Z.of_N u - 48)) s 0.

(** Node's [digest("base64")]: the standard alphabet, padded to a multiple of four characters. *)
Definition base64_char (u : N) : N :=
  (if u =? char "-" then char "+" else if u =? char "_" then char "/" else u)%N.
Definition base64 (bs : bytes) : jstr :=
  let text := map base64_char (encodeBase64Url bs) in
  text ++ repeat (char "=") ((4 - length text mod 4) mod 4).

Example base64_hello : base64 (map byte_of_N (js "hello")) = js "aGVsbG8=".
Proof. vm_compute. reflexivity. Qed.
Example base64_bytes : base64 (map byte_of_N [251; 255; 254]%N) = js "+//+".
Proof. vm_compute. reflexivity. Qed.
Example decimal_2097152 : decimal (js "2097152") = 2097152.
Proof. vm_compute. reflexivity. Qed.
