(* ===== verification/Retriever.v ===== *)
(** * Retrieving a body from its sender (apps/server/src/delivery/retriever.ts)

    The bytes come from another provider, which may answer anything: a retrieval ends with bytes that
    are the announced body, with a reason to try again, or with a failure. *)

From S2P Require Import Prelude JsString Regex Value Cbor Profiles Validation ValidatePayload Models.
From S2P Require Import Base64Url Cose Database Typed ServerBodies Conversations Envelopes Delivery.
From S2P Require Import Worker Receiver Http.
From Stdlib Require Import ZArith.
Open Scope Z_scope.

(** ** Reading a response *)

Inductive transfer_error := TransferInterrupted | OversizedTransfer.

(** The loop over the reader: [total] bytes were read in the [chunks], latest first. *)
Fixpoint read_body (limit total : Z) (chunks : list bytes) (reads : list (option bytes))
    : result transfer_error (list bytes) :=
  match reads with
  | [] => Ok (reverse chunks)
  | None :: _ => Err TransferInterrupted
  | Some chunk :: reads =>
      let total := total + Z.of_nat (length chunk) in
      if limit <? total then Err OversizedTransfer else read_body limit total (chunk :: chunks) reads
  end.

Definition content_length (r : Response) : option jstr := header "content-length" r.

Definition boundedResponse (r : Response) (limit : Z) : result transfer_error bytes :=
  _ ← throw_if (match content_length r with
                | Some text => negb (rx_test DIGITS text) || (limit <? decimal text)
                | None => false
                end) OversizedTransfer;
  match rs_body r with
  | None => Err TransferInterrupted
  | Some reads =>
      chunks ← read_body limit 0 [] reads;
      let bs := concat chunks in
      _ ← throw_if (match content_length r with
                    | Some text => negb (Z.of_nat (length bs) =? decimal text)
                    | None => false
                    end) TransferInterrupted;
      Ok bs
  end.

(** Instants are milliseconds; [date_parse] is [Date.parse], [None] for [NaN]. *)
Definition retryAfter (date_parse : jstr -> option Z) (r : Response) (now : Z) : option Z :=
  match header "retry-after" r with
  | None | Some [] => None
  | Some value =>
      if rx_test DIGITS value then Some (now + Z.min (decimal value) 86400 * 1000)
      else
        parsed ← date_parse value;
        if now <? parsed then Some (Z.min parsed (now + 86400000)) else None
  end.

(** ** Retrieval *)

Inductive gunzip_error := ZBufError | GunzipError.

(** The collaborators: what resolving, checking a target and fetching give for the attempt (the first
    or the second resolution) and the request of the attempt (the body, then each attachment), the
    clock at that request, and zlib. *)
Record retriever_env := {
  rt_resolve : nat -> jstr -> M ResolvedHailDid;
  rt_target : nat -> nat -> jstr -> M unit;     (** [new URL] and [validateTarget] *)
  rt_fetch : nat -> nat -> jstr -> bytes -> M Response;
  rt_now : nat -> nat -> Z;
  rt_gunzip : bytes -> Z -> result gunzip_error bytes;
  rt_date_parse : jstr -> option Z;
}.

Section retriever.
Context `{HailEnv} `{Cborg}.

Definition validateContentDigest (value : option jstr) (wire : bytes) : bool :=
  match value with
  | None => true
  | Some value => jstr_eqb value (js "sha-256=:" ++ base64 (sha256 wire) ++ js ":")
  end.

Definition integrity_failed : RetrievalResult := RetrieveFailed body_integrity_failed.
Definition interrupted : RetrievalResult := RetrieveLater body_transfer_interrupted None.

Definition body_url (base : jstr) (e : HailEnvelope) : jstr :=
  base ++ js "/bodies/" ++ encodeBase64Url (digest_value (bd_digest (e_body e))).

(** The wire of the body: a status other than 200 and every other answer ends the attempt; [None] is
    the answer of an unknown body. *)
Definition fetch_wire (env : retriever_env) (attempt : nat) (e : HailEnvelope) (response : Response)
    : option RetrievalResult + (bytes * bool) :=
  let status := rs_status response in
  if status =? 404 then inl None
  else if (status =? 429) || (status =? 503) || (500 <=? status) then
    inl (Some (RetrieveLater (if status =? 429 then sender_rate_limited else body_temporarily_unavailable)
                 (retryAfter (rt_date_parse env) response (rt_now env attempt 0))))
  else if (status =? 406) || (status =? 415) then inl (Some (RetrieveFailed body_unsupported))
  else if negb (status =? 200) then inl (Some (RetrieveLater sender_unreachable None))
  else if negb (bool_decide (toLowerCase <$> header "content-type" response
                             = Some (js "application/hail-body+cbor"))) then inl (Some integrity_failed)
  else
    let encoding := default (js "identity") (toLowerCase <$> header "content-encoding" response) in
    let gzip := jstr_eqb encoding (js "gzip") in
    if negb (jstr_eqb encoding (js "identity")) && negb gzip then inl (Some (RetrieveFailed body_unsupported))
    else match boundedResponse response (if gzip then 2097152 else bd_size (e_body e)) with
    | Err OversizedTransfer => inl (Some integrity_failed)
    | Err TransferInterrupted => inl (Some interrupted)
    | Ok wire =>
        if negb (validateContentDigest (header "content-digest" response) wire)
        then inl (Some integrity_failed) else inr (wire, gzip)
    end.

(** From the wire to the announced body. *)
Definition body_bytes (env : retriever_env) (e : HailEnvelope) (wire : bytes) (gzip : bool)
    : RetrievalResult + bytes :=
  match (if gzip then rt_gunzip env wire (bd_size (e_body e)) else Ok wire) with
  | Err ZBufError => inl interrupted
  | Err GunzipError => inl integrity_failed
  | Ok bs =>
      if negb (Z.of_nat (length bs) =? bd_size (e_body e))
         || negb (Cbor.equalBytes (sha256 bs) (digest_value (bd_digest (e_body e))))
      then inl integrity_failed
      else match validateBodyBytes bs (Some (bd_profile (e_body e))) with
      | Err _ => inl (RetrieveFailed body_invalid)
      | Ok _ => inr bs
      end
  end.

(** One attachment. *)
Definition fetch_attachment (env : retriever_env) (attempt index : nat) (file : HailAttachment)
    (response : Response) : option RetrievalResult + bytes :=
  let status := rs_status response in
  if negb (status =? 200) then
    if status =? 404 then inl None
    else inl (Some (RetrieveLater (if status =? 429 then sender_rate_limited else body_temporarily_unavailable)
                      (retryAfter (rt_date_parse env) response (rt_now env attempt index))))
  else if negb (bool_decide (header "content-type" response = Some (js "application/octet-stream")))
          || negb (bool_decide (header "content-encoding" response ∈ [Some (js "identity"); None]))
  then inl (Some integrity_failed)
  else match boundedResponse response (att_size file) with
  | Err OversizedTransfer => inl (Some integrity_failed)
  | Err TransferInterrupted => inl (Some interrupted)
  | Ok data =>
      if negb (validateContentDigest (header "content-digest" response) data) then inl (Some integrity_failed)
      else match validateAttachmentBytes file data with
      | Err _ => inl (Some integrity_failed)
      | Ok _ => inr data
      end
  end.

Fixpoint fetch_attachments (env : retriever_env) (attempt index : nat) (base : jstr) (e : HailEnvelope)
    (files : list HailAttachment) (attachments : list bytes) : M (option RetrievalResult + list bytes) :=
  match files with
  | [] => Ok (inr (reverse attachments))
  | file :: files =>
      let url := body_url base e ++ js "/attachments/" ++ encodeBase64Url (digest_value (att_digest file)) in
      _ ← rt_target env attempt index url;
      response ← rt_fetch env attempt index url (access_token (bd_access (e_body e)));
      match fetch_attachment env attempt index file response with
      | inl result => Ok (inl result)
      | inr data => fetch_attachments env attempt (S index) base e files (data :: attachments)
      end
  end.

(** [None] is the answer of an unknown body. *)
Definition at_ (env : retriever_env) (attempt : nat) (base : jstr) (e : HailEnvelope)
    : M (option RetrievalResult) :=
  let url := body_url base e in
  _ ← rt_target env attempt 0 url;
  response ← rt_fetch env attempt 0 url (access_token (bd_access (e_body e)));
  match fetch_wire env attempt e response with
  | inl result => Ok result
  | inr (wire, gzip) =>
      match body_bytes env e wire gzip with
      | inl result => Ok (Some result)
      | inr bs =>
          files ← bodyAttachments bs;
          fetched ← fetch_attachments env attempt 1 base e files [];
          Ok match fetched with
             | inl result => result
             | inr attachments => Some (RetrievedBody bs attachments)
             end
      end
  end.

Definition retrieve (env : retriever_env) (e : HailEnvelope) : RetrievalResult :=
  let size := bd_size (e_body e) in
  if (size <? 1) || (BODY_MAX_BYTES <? size) then integrity_failed
  else
    let attempts : M RetrievalResult :=
      sender ← rt_resolve env 0 (e_from e);
      first ← at_ env 0 (serviceBase sender) e;
      match first with
      | Some result => Ok result
      | None =>
          refreshed ← rt_resolve env 1 (e_from e);
          if jstr_eqb (serviceBase refreshed) (serviceBase sender)
          then Ok (RetrieveFailed body_authorization_failed)
          else
            second ← at_ env 1 (serviceBase refreshed) e;
            Ok match second with
               | Some result => result
               | None => RetrieveFailed body_authorization_failed
               end
      end in
    match attempts with
    | Ok result => result
    | Err _ => RetrieveLater sender_unreachable None
    end.
End retriever.
