(* ===== verification/RetrieverRules.v ===== *)
(** * What a retrieval guarantees

    However the sender's provider answers, a retrieved body is the announced one with valid
    attachments, and no more than the limit is ever taken from a response. *)

From S2P Require Import Prelude JsString Regex Value Rfc8949 Cbor Profiles Validation ValidatePayload Models.
From S2P Require Import Base64Url Cose Database Typed ServerBodies Conversations Envelopes Delivery.
From S2P Require Import ValidationRules CoseRules Worker Receiver Http Retriever Scenario.
From Stdlib Require Import ZArith.
Open Scope Z_scope.

(** ** Bounded reads *)

Lemma read_body_Ok limit reads : forall total chunks out,
  read_body limit total chunks reads = Ok out ->
  exists more, reads = map Some more /\ out = reverse chunks ++ more /\
    (more = [] \/ total + Z.of_nat (length (concat more)) <= limit).
Proof.
  induction reads as [|[chunk|] reads IH]; intros total chunks out; cbn [read_body]; [|destruct (Z.ltb_spec limit (total + Z.of_nat (length chunk))) as [|Hle]|]; try done.
  - intros [= <-]. exists []. rewrite app_nil_r. auto.
  - intros (more & -> & -> & Hm)%IH. exists (chunk :: more). split; [done|].
    rewrite reverse_cons, <- app_assoc. split; [done|]. right. cbn [concat]. rewrite length_app.
    destruct Hm as [->|Hm]; cbn [concat length]; lia.
Qed.

Lemma read_body_oversized limit pre rest : forall total chunks,
  limit < total + Z.of_nat (length (concat pre)) -> total <= limit ->
  read_body limit total chunks (map Some pre ++ rest) = Err OversizedTransfer.
Proof.
  induction pre as [|chunk pre IH]; intros total chunks Hl Ht; cbn [concat length] in Hl; [lia|].
  cbn [map app read_body]. rewrite length_app in Hl.
  destruct (Z.ltb_spec limit (total + Z.of_nat (length chunk))); [done|]. apply IH; lia.
Qed.

Lemma bounded_Ok r limit bs : 0 <= limit -> boundedResponse r limit = Ok bs ->
  Z.of_nat (length bs) <= limit /\ exists chunks, rs_body r = Some (map Some chunks) /\ bs = concat chunks /\
  forall text, content_length r = Some text -> rx_test DIGITS text = true /\ decimal text = Z.of_nat (length bs).
Proof.
  intros Hl Hb. unfold boundedResponse in Hb. apply bind_Ok in Hb as ([] & Hh%throw_if_Ok & Hb).
  destruct (rs_body r) as [reads|]; [|discriminate Hb]. apply bind_Ok in Hb as (out & Hr & Hb).
  apply bind_Ok in Hb as ([] & Hlen%throw_if_Ok & Hb). apply Ok_eq in Hb as <-.
  apply read_body_Ok in Hr as (more & -> & -> & Hm). cbn [reverse app rev_append] in *. split.
  - destruct Hm as [->|Hm]; [cbn; lia|]. lia.
  - exists more. split; [done|]. split; [done|]. intros text Ht. rewrite Ht in Hh, Hlen.
    apply orb_false_iff in Hh as [Hd _]. apply negb_false_iff in Hd, Hlen. apply Z.eqb_eq in Hlen. done.
Qed.

(** Nothing more than the limit is taken from a response: what was read has at most that many bytes,
    is what the chunks held, and has the announced length if there was one; and as soon as the chunks
    exceed the limit the transfer is refused, whatever would follow, even without an end. *)
Theorem response_bounded r limit : 0 <= limit ->
  (forall bs, boundedResponse r limit = Ok bs ->
     Z.of_nat (length bs) <= limit /\ exists chunks, rs_body r = Some (map Some chunks) /\ bs = concat chunks /\
     forall text, content_length r = Some text ->
       rx_test DIGITS text = true /\ decimal text = Z.of_nat (length bs)) /\
  (forall pre rest, rs_body r = Some (map Some pre ++ rest) -> limit < Z.of_nat (length (concat pre)) ->
     boundedResponse r limit = Err OversizedTransfer).
Proof.
  intros Hl. split; [intros bs; by apply bounded_Ok|]. intros pre rest Hb Hp. unfold boundedResponse.
  destruct (match content_length r with
            | Some text => negb (rx_test DIGITS text) || (limit <? decimal text) | None => false end); [done|].
  cbn [throw_if mbind result_bind]. rewrite Hb. by rewrite read_body_oversized by lia.
Qed.

(** ** What was retrieved *)

Section rules.
Context `{HailEnv} `{Cborg}.

Lemma body_bytes_Ok env e wire gzip bs : body_bytes env e wire gzip = inr bs ->
  Z.of_nat (length bs) = bd_size (e_body e) /\ sha256 bs = digest_value (bd_digest (e_body e)) /\
  exists p, validateBodyBytes bs (Some (bd_profile (e_body e))) = Ok p.
Proof.
  unfold body_bytes. destruct (if gzip then _ else _) as [bs'|[]]; [|discriminate..].
  destruct (_ || _) eqn:Hc; [discriminate|]. apply orb_false_iff in Hc as [Hs Hd].
  apply negb_false_iff in Hs, Hd. apply Z.eqb_eq in Hs. apply Cbor.equalBytes_eq in Hd.
  destruct (validateBodyBytes bs' _) as [p|] eqn:Hv; [|discriminate]. intros [= <-]. eauto.
Qed.

Lemma fetch_attachment_Ok env attempt index file response data :
  fetch_attachment env attempt index file response = inr data ->
  validateAttachmentBytes file data = Ok tt.
Proof.
  unfold fetch_attachment. destruct (negb (_ =? 200)); [by destruct (_ =? 404)|].
  destruct (_ || _); [done|]. destruct (boundedResponse _ _) as [d|[]]; [|done..].
  destruct (negb _); [done|]. destruct (validateAttachmentBytes file d) as [[]|] eqn:Hv; [|done]. by intros [= <-].
Qed.

Lemma fetch_attachments_Ok env attempt base e files : forall index attachments out,
  fetch_attachments env attempt index base e files attachments = Ok (inr out) ->
  exists more, out = reverse attachments ++ more /\
    Forall2 (fun file data => validateAttachmentBytes file data = Ok tt) files more.
Proof.
  induction files as [|file files IH]; intros index attachments out; cbn [fetch_attachments].
  - intros [= <-]. exists []. rewrite app_nil_r. split; [done|constructor].
  - intros Hf. apply bind_Ok in Hf as ([] & _ & Hf). apply bind_Ok in Hf as (response & _ & Hf).
    destruct (fetch_attachment _ _ _ _ _) as [r|data] eqn:Ha; [discriminate Hf|].
    apply IH in Hf as (more & -> & Hm). exists (data :: more). rewrite reverse_cons, <- app_assoc.
    split; [done|]. constructor; [by eapply fetch_attachment_Ok|done].
Qed.

Lemma attachments_valid files attachments : 
  Forall2 (fun file data => validateAttachmentBytes file data = Ok tt) files attachments ->
  forall i, iforM i (zip files attachments) (fun _ '(file, data) => validateAttachmentBytes file data) = Ok tt.
Proof.
  induction 1 as [|file data files attachments Hv _ IH]; intros i; [done|].
  cbn [zip zip_with iforM]. rewrite Hv. cbn [mbind result_bind]. apply IH.
Qed.

Lemma at_Ok env attempt base e bs attachments : at_ env attempt base e = Ok (Some (RetrievedBody bs attachments)) ->
  exists files, check_body e bs attachments = Ok files.
Proof.
  intros Ha. unfold at_ in Ha. apply bind_Ok in Ha as ([] & _ & Ha). apply bind_Ok in Ha as (response & _ & Ha).
  destruct (fetch_wire _ _ _ _) as [r|[wire gzip]] eqn:Hw.
  { apply Ok_eq in Ha as ->. unfold fetch_wire in Hw. exfalso. revert Hw.
    repeat (destruct (_ : bool); [done|]). destruct (boundedResponse _ _) as [?|[]]; [|done..]. by destruct (negb _). }
  destruct (body_bytes _ _ _ _) as [r|bs'] eqn:Hb.
  { apply Ok_eq in Ha as [= ->]. unfold body_bytes in Hb. exfalso. revert Hb.
    destruct (if gzip then _ else _) as [?|[]]; [|done..]. destruct (_ || _); [done|]. by destruct (validateBodyBytes _ _). }
  apply bind_Ok in Ha as (files & Hfiles & Ha). apply bind_Ok in Ha as (fetched & Hf & Ha).
  apply Ok_eq in Ha. destruct fetched as [r|out].
  { exfalso. subst r. clear -Hf. revert Hf. generalize 1%nat ([] : list bytes).
    induction files as [|file files IH]; intros index acc; cbn [fetch_attachments]; [done|]. intros Hf.
    apply bind_Ok in Hf as ([] & _ & Hf). apply bind_Ok in Hf as (response & _ & Hf).
    destruct (fetch_attachment _ _ _ _ _) as [r|data] eqn:Ha; [|by eapply IH].
    apply Ok_eq in Hf as [= ->]. unfold fetch_attachment in Ha. revert Ha.
    destruct (negb (_ =? 200)); [by destruct (_ =? 404)|]. destruct (_ || _); [done|].
    destruct (boundedResponse _ _) as [?|[]]; [|done..]. destruct (negb _); [done|].
    by destruct (validateAttachmentBytes _ _). }
  injection Ha as -> ->. apply fetch_attachments_Ok in Hf as (more & -> & Hm).
  apply body_bytes_Ok in Hb as (Hs & Hd & p & Hp). exists files. unfold check_body, bodyDigest.
  rewrite (proj2 (Z.eqb_eq _ _) Hs), (proj2 (Cbor.equalBytes_eq _ _) Hd).
  cbn [negb orb throw_if mbind result_bind]. rewrite Hp. cbn [mbind result_bind]. rewrite Hfiles.
  cbn [mbind result_bind reverse rev_append app]. rewrite (Forall2_length _ _ _ Hm), Nat.eqb_refl.
  cbn [negb throw_if mbind result_bind]. by rewrite attachments_valid.
Qed.

(** C19: A retrieved body can be delivered: whatever the two attempts were answered, bytes that a
    retrieval returns pass every check the delivery makes before its transaction (the announced size
    and digest, the profile, the number of attachments, and the bytes of each attachment), so that a
    delivery never throws for them. *)
Theorem retrieved_deliverable env e bs attachments :
  retrieve env e = RetrievedBody bs attachments ->
  1 <= Z.of_nat (length bs) <= BODY_MAX_BYTES /\
  exists files, check_body e bs attachments = Ok files /\
    Forall2 (fun file data => validateAttachmentBytes file data = Ok tt) files attachments.
Proof.
  intros Hr. assert (Hc : 1 <= bd_size (e_body e) <= BODY_MAX_BYTES /\ exists files, check_body e bs attachments = Ok files).
  { unfold retrieve in Hr. destruct (_ || _) eqn:Hsize; [discriminate Hr|].
    apply orb_false_iff in Hsize as [H1'%Z.ltb_ge H2'%Z.ltb_ge]. split; [lia|].
    destruct (_ ≫= _) as [r|] eqn:Ht in Hr; [subst r|discriminate Hr].
    apply bind_Ok in Ht as (sender & _ & Ht). apply bind_Ok in Ht as (first & Hf & Ht).
    destruct first as [r|]; [apply Ok_eq in Ht as ->; by eapply at_Ok|].
    apply bind_Ok in Ht as (refreshed & _ & Ht). destruct (jstr_eqb _ _); [discriminate Ht|].
    apply bind_Ok in Ht as (second & Hs & Ht). apply Ok_eq in Ht.
    destruct second as [r|]; [subst r; by eapply at_Ok|discriminate Ht]. }
  destruct Hc as (Hsize & files & Hc). pose proof Hc as Hc'. unfold check_body in Hc'.
  apply bind_Ok in Hc' as ([] & Hs%throw_if_Ok & Hc'). apply orb_false_iff in Hs as [Hs _].
  apply negb_false_iff, Z.eqb_eq in Hs. split; [lia|]. exists files. split; [done|].
  apply bind_Ok in Hc' as (p & _ & Hc'). apply bind_Ok in Hc' as (files' & _ & Hc').
  apply bind_Ok in Hc' as ([] & Hlen%throw_if_Ok & Hc'). apply bind_Ok in Hc' as ([] & Hall & Hc').
  apply Ok_eq in Hc' as ->. apply negb_false_iff, Nat.eqb_eq in Hlen. clear -Hlen Hall. revert Hlen Hall.
  generalize 0%nat. revert attachments.
  induction files as [|file files IH]; intros [|data attachments] i Hlen Hall; try discriminate Hlen; [constructor|].
  cbn [zip zip_with iforM] in Hall. apply bind_Ok in Hall as ([] & Hv & Hall).
  constructor; [done|]. eapply IH; [by injection Hlen|exact Hall].
Qed.
End rules.

(** ** Example *)

Lemma response_bounded_witness :
  boundedResponse {| rs_status := 200; rs_headers := [(js "content-length", js "3")];
    rs_body := Some [Some [x01]; Some [x02; x03]] |} 3 = Ok [x01; x02; x03] /\
  boundedResponse {| rs_status := 200; rs_headers := [];
    rs_body := Some (map Some [[x01]; [x02; x03; x04]] ++ [None; Some [x05]]) |} 3 = Err OversizedTransfer.
Proof.
  split.
  - vm_compute. reflexivity.
  - refine (proj2 (response_bounded _ 3 _) [[x01]; [x02; x03; x04]] [None; Some [x05]] _ _);
      [lia|reflexivity|cbn; lia].
Defined.

#[local] Existing Instance example_env.
#[local] Existing Instance Reference.cborg.

(** The sender of the answer moved: the first provider does not know the body. *)
Definition moved_sender : retriever_env := {|
  rt_resolve := fun attempt d => Ok {| did := d;
    identityDidKey := []; messagingDidKey := [];
    serviceBase := js (if attempt =? 0 then "https://old.example/hail" else "https://new.example/hail")%nat%string;
    resolved_evidence := {| document := []; data := []; log := [] |} |};
  rt_target := fun _ _ _ => Ok tt;
  rt_fetch := fun attempt _ _ _ => Ok (if (attempt =? 0)%nat
    then {| rs_status := 404; rs_headers := []; rs_body := None |}
    else {| rs_status := 200; rs_headers := [(js "content-type", js "Application/hail-body+cbor")];
            rs_body := Some [Some (take 5 answer_body); Some (drop 5 answer_body)] |});
  rt_now := fun _ _ => 0; rt_gunzip := fun _ _ => Err GunzipError; rt_date_parse := fun _ => None |}.

Lemma retrieved_deliverable_witness :
  retrieve moved_sender (payload answer_object) = RetrievedBody answer_body [] /\
  exists files, check_body (payload answer_object) answer_body [] = Ok files.
Proof.
  assert (Hr : retrieve moved_sender (payload answer_object) = RetrievedBody answer_body [])
    by (vm_compute; reflexivity).
  split; [exact Hr|].
  destruct (retrieved_deliverable moved_sender (payload answer_object) answer_body [] Hr) as (_ & files & Hc & _).
  exists files. exact Hc.
Defined.
