(* ===== verification/Publisher.v ===== *)
(** * Publishing final statuses (apps/server/src/delivery/status-publisher.ts)

    When a delivery has ended, the recipient's provider sends the signed status to the sender's until
    it is acknowledged or refused, at growing intervals and until a deadline.  A publisher leases a
    publication, signs and sends outside transactions, and then finishes what it still holds. *)

From S2P Require Import Prelude JsString Regex Value Cbor Profiles Validation ValidatePayload Models.
From S2P Require Import Base64Url Cose WebCrypto Database Typed ServerBodies Conversations Envelopes.
From S2P Require Import Delivery Receiver Status Http.
From Stdlib Require Import ZArith.
Open Scope Z_scope.

(** [pc_retryUntil] is the [Date] of the deadline, in milliseconds. *)
Record PublicationClaim := {
  pc_senderDid : jstr;
  pc_messageId : jstr;
  pc_token : jstr;
  pc_attempt : Z;
  pc_retryUntil : Z;
}.
Definition publication_key (c : PublicationClaim) : msg_key := (pc_senderDid c, pc_messageId c).

Inductive publish_outcome := PublishIdle | PublishAcknowledged | PublishRetry | PublishBlocked.

(** ** Claiming *)

Definition publishing (p : Publication) : bool :=
  match p_state p with Pending | Retry => true | Acknowledged | Blocked => false end.
Definition publication_leased (p : Publication) (now : Z) : bool :=
  match p_lease p with Some (_, expiry) => now <? expiry | None => false end.

(** The condition of the query, for one publication with its envelope. *)
Definition publication_due (db : Database) (now : Z) (p : Publication) (r : Received) : bool :=
  publishing p && (p_next_attempt_at p <=? now) && negb (publication_leased p now)
  && negb (bool_decide (is_Some (db provider_migration_fences !! r_recipient_did r))).

Definition publication_leb (a b : msg_key * Publication * Received * Work) : bool :=
  match then_compare (p_next_attempt_at a.1.1.2 ?= p_next_attempt_at b.1.1.2)
          (jstr_compare a.1.1.1.2 b.1.1.1.2) with
  | Gt => false
  | _ => true
  end.

Definition due_publications (db : Database) (now : Z) (locked : gset msg_key)
    : list (msg_key * Publication * Received * Work) :=
  sort_by publication_leb (omap (fun '(k, p) =>
    r ← db received_envelopes !! k;
    w ← db delivery_work !! k;
    if publication_due db now p r && negb (bool_decide (k ∈ locked)) then Some (k, p, r, w) else None)
    (map_to_list (db terminal_status_publications))).

Definition lease_publication (token : jstr) (now : Z) (p : Publication) : Publication := {|
  p_state := p_state p; p_attempt_count := p_attempt_count p + 1; p_next_attempt_at := p_next_attempt_at p;
  p_lease := Some (token, now + seconds 60); p_last_http_status := p_last_http_status p;
  p_acknowledged_at := p_acknowledged_at p |}.

(** Until when a status is worth sending: the sender may still replay the message, and thirty days. *)
Definition retry_until (envelope : HailEnvelope) (w : Work) : Z :=
  let replay := Z.max (e_expires_at envelope) (bd_available_until (e_body envelope)) + 300 in
  Z.max (replay * 1000) (getTime (w_transitioned_at w) + 2592000000).

(** ** Finishing *)

(** What is written when an attempt ends. *)
Record publication_end := {
  pe_state : publication_state;
  pe_status : option Z;
  pe_next : option Z;      (** a [Date], in milliseconds *)
}.

Definition finish_publication_row (e : publication_end) (now : Z) (p : Publication) : Publication := {|
  p_state := pe_state e; p_attempt_count := p_attempt_count p;
  p_next_attempt_at := default (p_next_attempt_at p) (milliseconds <$> pe_next e);
  p_lease := None; p_last_http_status := pe_status e;
  p_acknowledged_at := match pe_state e with Acknowledged => Some now | _ => p_acknowledged_at p end |}.

(** The condition of the update: the lease is the claim's, and the publication has not ended. *)
Definition holds_publication (c : PublicationClaim) (p : Publication) : bool :=
  publishing p && match p_lease p with Some (token, _) => jstr_eqb token (pc_token c) | None => false end.

(** ** Times *)

Definition nominal_delay (attempt : Z) : Z :=
  if 5 <? attempt then 86400
  else default 86400 ([30; 120; 600; 3600; 21600] !! Z.to_nat (Z.min (attempt - 1) 4)).

(** [Math.ceil(0.8 * s)] and [Math.floor(1.2 * s)], exact for the delays above. *)
Definition low_delay (s : Z) : Z := 8 * s / 10.
Definition high_delay (s : Z) : Z := 12 * s / 10.

(** [pick n] is [Math.floor(Math.random() * n)]. *)
Definition next_publication (pick : Z -> Z) (now attempt : Z) (remote : option Z) : Z :=
  let low := low_delay (nominal_delay attempt) in
  let high := high_delay (nominal_delay attempt) in
  Z.max (now + (low + pick (high - low + 1)) * 1000) (default 0 remote).

Definition parseRetryAfter (date_parse : jstr -> option Z) (value : option jstr) (now : Z) : option Z :=
  match value with
  | None | Some [] => None
  | Some value =>
      let max := now + 86400000 in
      if rx_test DIGITS value then Some (Z.min max (now + decimal value * 1000))
      else
        parsed ← date_parse value;
        if now <? parsed then Some (Z.min parsed max) else None
  end.

(** ** One publication *)

(** The collaborators of one round and what it reads; [pb_now] gives the readings of the clock for
    [Retry-After], the deadline and the next attempt, in milliseconds. *)
Record publisher_env := {
  pb_token : jstr;
  pb_locked : gset msg_key;
  pb_claim_now : Z;
  pb_signer : signer_env;
  pb_resolve : jstr -> M ResolvedHailDid;
  pb_target : jstr -> M unit;             (** [new URL] and [validateTarget] *)
  pb_fetch : jstr -> bytes -> M Response;
  pb_now : nat -> Z;
  pb_pick : Z -> Z;
  pb_date_parse : jstr -> option Z;
  pb_finish_now : Z;
  pb_others : Database -> Database;
}.

Section publisher.
Context `{HailEnv} `{Cborg} `{Keys} `{Triggers}.

Definition claim_publication (token : jstr) (locked : gset msg_key) (now : Z) : Tx (option PublicationClaim) :=
  rows ← query (fun db => due_publications db now locked);
  match rows with
  | [] => mret None
  | (key, p, r, w) :: _ =>
      inspected ← throwing (inspectTyped Profiles.envelope (r_envelope_cose r));
      _ ← write terminal_status_publications (update_row key (lease_publication token now));
      mret (Some {| pc_senderDid := key.1; pc_messageId := key.2; pc_token := token;
                    pc_attempt := p_attempt_count p + 1;
                    pc_retryUntil := retry_until (payload inspected) w |})
  end.

Definition finish_publication (c : PublicationClaim) (e : publication_end) (now : Z) : Tx unit :=
  write terminal_status_publications (fun m =>
    match m !! publication_key c with
    | Some p => if holds_publication c p then <[publication_key c := finish_publication_row e now p]> m else m
    | None => m
    end).

(** Signing the current status and sending it. *)
Definition send_status (env : publisher_env) (c : PublicationClaim) : Act Response :=
  cose ← signCurrent (pb_signer env) (pc_senderDid c) (pc_messageId c);
  match cose with
  | None => act (fun _ => status_error "Terminal delivery status is unavailable")
  | Some cose =>
      inspected ← act (fun _ => inspectTyped delivery_status cose);
      let status : HailDeliveryStatus := payload inspected in
      if negb (terminal_status (ds_state status))
      then act (fun _ => status_error "Terminal publication has a nonterminal snapshot")
      else
        sender ← act (fun _ => pb_resolve env (pc_senderDid c));
        let url := serviceBase sender ++ js "/deliveries/"
                   ++ encodeBase64Url (digest_value (ds_envelope_digest status.1)) in
        _ ← act (fun _ => pb_target env url);
        act (fun _ => pb_fetch env url cose)
  end.

Definition acknowledges (r : Response) : bool :=
  (rs_status r =? 204) && bool_decide (rs_body r = None)
  && match header "content-encoding" r with None | Some [] => true | Some _ => false end.
Definition refusals : list Z := [400; 409; 405; 413; 415].
Definition postponements : list Z := [429; 503].

(** What follows an attempt that was neither acknowledged nor refused. *)
Definition reschedule (env : publisher_env) (c : PublicationClaim) (status retryAfter : option Z)
    : Act publish_outcome :=
  if pc_retryUntil c <=? pb_now env 1 then
    _ ← begin (finish_publication c {| pe_state := Blocked; pe_status := status; pe_next := None |}
                 (pb_finish_now env)) : Act unit;
    mret PublishBlocked
  else
    let next := Z.min (pc_retryUntil c)
                  (next_publication (pb_pick env) (pb_now env 2) (pc_attempt c) retryAfter) in
    _ ← begin (finish_publication c {| pe_state := Retry; pe_status := status; pe_next := Some next |}
                 (pb_finish_now env)) : Act unit;
    mret PublishRetry.

(** The end of an attempt inside [try]: an error of the update itself is caught like any other. *)
Definition conclude (env : publisher_env) (c : PublicationClaim) (r : Response) : Act publish_outcome :=
  let status := Some (rs_status r) in
  let finished state outcome :=
    rescue (_ ← begin (finish_publication c {| pe_state := state; pe_status := status; pe_next := None |}
                         (pb_finish_now env)) : Act unit;
            mret outcome)
           (reschedule env c status None) in
  if acknowledges r then finished Acknowledged PublishAcknowledged
  else if bool_decide (rs_status r ∈ refusals) then finished Blocked PublishBlocked
  else reschedule env c status
         (if bool_decide (rs_status r ∈ postponements)
          then parseRetryAfter (pb_date_parse env) (header "retry-after" r) (pb_now env 0) else None).

Definition publishOne (env : publisher_env) : Act publish_outcome :=
  claim ← begin (claim_publication (pb_token env) (pb_locked env) (pb_claim_now env))
            : Act (option PublicationClaim);
  match claim with
  | None => mret PublishIdle
  | Some c =>
      sent ← rescue (Some <$> send_status env c) (mret None);
      _ ← meanwhile (pb_others env);
      match sent with
      | Some r => conclude env c r
      | None => reschedule env c None None
      end
  end.
End publisher.
