(* ===== verification/PublisherRules.v ===== *)
(** * What publishing a final status guarantees

    A round that claimed a publication ends it or schedules the next attempt within the deadline; it
    gives a publication up only when the sender's provider refused the status or the deadline has
    passed; what has ended stays as it is. *)

From S2P Require Import Prelude JsString Regex Value Rfc8949 Cbor Profiles Validation ValidatePayload Models.
From S2P Require Import Base64Url Cose CoseRules WebCrypto Database Typed ServerBodies Conversations.
From S2P Require Import Envelopes Delivery Receiver DeliveryRules System Status StatusRules.
From S2P Require Import Http Publisher.
From Stdlib Require Import ZArith.
Open Scope Z_scope.

(** ** Code that leaves a table alone *)

Definition leaves (t : table) {A} (m : Act A) : Prop := runs (fun db db' => db' t = db t) m.
#[local] Instance leaving_preorder (t : table) : PreOrder (fun db db' : Database => db' t = db t).
Proof. split; [done|]. intros db1 db2 db3 H1 H2. by rewrite H2. Qed.

Section rules.
Context `{HailEnv} `{Cborg} `{Keys} `{Triggers}.

Lemma signCurrent_leaves env senderDid messageId t :
  t <> delivery_status_payloads -> t <> delivery_status_wrappers ->
  (forall n db, sg_others env n db t = db t) -> leaves t (signCurrent env senderDid messageId).
Proof.
  intros H1' H2' Ho. unfold signCurrent. apply runs_bind; [apply runs_act|]. intros [row|]; [|apply runs_ret].
  repeat (apply runs_bind; [first [apply runs_act | apply runs_meanwhile; apply Ho]|intros ?]).
  destruct (negb _); [apply runs_act|].
  repeat (apply runs_bind; [first [apply runs_act | apply runs_meanwhile; apply Ho]|intros ?]).
  apply runs_bind; [|intros; apply runs_ret]. apply runs_begin. intros db u db' Hk.
  by apply keep_Ok in Hk as [_ ->].
Qed.

Lemma send_leaves env c t :
  t <> delivery_status_payloads -> t <> delivery_status_wrappers ->
  (forall n db, sg_others (pb_signer env) n db t = db t) -> leaves t (send_status env c).
Proof.
  intros H1' H2' Ho. unfold send_status. apply runs_bind; [by apply signCurrent_leaves|].
  intros [cose|]; [|apply runs_act]. apply runs_bind; [apply runs_act|intros inspected].
  destruct (negb _); [apply runs_act|]. repeat (apply runs_bind; [apply runs_act|intros ?]). apply runs_act.
Qed.

(** ** Sending *)

(** A response was the answer to a signed status of an ended delivery. *)
Lemma send_Ok env c db r db' : send_status env c db = (Ok r, db') -> exists cose object url,
  inspectTyped delivery_status cose = Ok object /\ terminal_status (ds_state (payload object)) = true /\
  pb_fetch env url cose = Ok r.
Proof.
  intros Hs. unfold send_status in Hs. apply bind_Act in Hs as (cose & db1 & _ & Hs).
  destruct cose as [cose|]; [|discriminate Hs]. apply bind_Act in Hs as (object & db2 & Hi & Hs).
  injection Hi as Hi <-. destruct (negb _) eqn:Ht; [discriminate Hs|]. apply negb_false_iff in Ht.
  apply bind_Act in Hs as (sender & db3 & _ & Hs). apply bind_Act in Hs as ([] & db4 & _ & Hs).
  injection Hs as Hf <-. eauto 6.
Qed.

(** ** Times *)

Lemma nominal_delays attempt : In (nominal_delay attempt) [30; 120; 600; 3600; 21600; 86400].
Proof.
  unfold nominal_delay. destruct (5 <? attempt); [by do 5 right; left|].
  destruct (Z.to_nat (Z.min (attempt - 1) 4)) as [|[|[|[|[|n]]]]]; cbn; auto 10.
Qed.

Lemma next_publication_bounds pick now attempt remote : (forall n, 0 < n -> 0 <= pick n < n) ->
  now + 24000 <= next_publication pick now attempt remote /\
  next_publication pick now attempt remote <= Z.max (now + 103680000) (default 0 remote).
Proof.
  intros Hpick. unfold next_publication. pose proof (nominal_delays attempt) as Hin. cbn [In] in Hin.
  set (s := nominal_delay attempt) in *.
  pose proof (Hpick (high_delay s - low_delay s + 1)) as Hp.
  repeat destruct Hin as [Hs|Hin]; try done; rewrite <- Hs in *; unfold low_delay, high_delay in *;
    vm_compute (8 * _ / 10) in *; vm_compute (12 * _ / 10) in *; cbn in Hp; lia.
Qed.

(** ** Transactions *)

Record publication_claimed (token : jstr) (now : Z) (c : PublicationClaim) (db db' : Database) : Prop := {
  pcl_token : pc_token c = token;
  pcl_row : exists p w, db terminal_status_publications !! publication_key c = Some p /\ publishing p = true /\
    db delivery_work !! publication_key c = Some w /\
    getTime (w_transitioned_at w) + 2592000000 <= pc_retryUntil c;
  pcl_lease : db' terminal_status_publications =
    update_row (publication_key c) (lease_publication token now) (db terminal_status_publications);
}.

Lemma claim_publication_Ok token locked now db c db' :
  claim_publication token locked now db = Ok (Some c, db') -> publication_claimed token now c db db'.
Proof.
  intros Hc. unfold claim_publication in Hc. tx. destruct (due_publications db now locked) as [|[[[k p] r] w] rest] eqn:Hd;
    [tx; discriminate|]. tx. injection He as <-.
  assert (Hin : (k, p, r, w) ∈ due_publications db now locked) by (rewrite Hd; by left).
  unfold due_publications in Hin. rewrite sort_by_perm in Hin.
  apply list_elem_of_omap in Hin as ([k' p'] & Hin & Hrow). tables. apply elem_of_map_to_list in Hin.
  apply bind_Some in Hrow as (r' & Hr & Hrow). apply bind_Some in Hrow as (w' & Hw & Hrow).
  destruct (_ && _) eqn:Hdue; [|discriminate Hrow]. injection Hrow as -> -> -> ->.
  apply andb_true_iff in Hdue as [Hdue _]. unfold publication_due in Hdue. rewrite !andb_true_iff in Hdue.
  split; cbn; unfold publication_key; cbn; rewrite <- ?surjective_pairing; [done| |by rewrite set_eq].
  exists p, w. split; [done|]. split; [apply Hdue|]. split; [done|]. unfold retry_until. lia.
Qed.

Definition unrefused : Prop := forall t r db, refuses t r db = None.

Lemma finish_publication_held c e now (db : Database) p : unrefused ->
  db terminal_status_publications !! publication_key c = Some p -> holds_publication c p = true ->
  begin (finish_publication c e now) db =
  (Ok tt, set terminal_status_publications
    (<[publication_key c := finish_publication_row e now p]> (db terminal_status_publications)) db).
Proof.
  intros Ht Hp Hh. unfold begin, finish_publication, write. rewrite Ht. tables. by rewrite Hp, Hh.
Qed.

(** A finish changes nothing but a publication its claim holds. *)
Lemma finish_publication_Ok c e now (db db' : Database) u : finish_publication c e now db = Ok (u, db') ->
  forall k p, db terminal_status_publications !! k = Some p ->
  db' terminal_status_publications !! k = Some p \/ publishing p = true /\ k = publication_key c.
Proof.
  intros Hf k p Hp. unfold finish_publication in Hf. apply write_Tx in Hf as ->. rewrite set_eq. tables.
  destruct (decide (k = publication_key c)) as [->|Hne].
  - rewrite Hp. destruct (holds_publication c p) eqn:Hh; [|by left]. right.
    unfold holds_publication in Hh. by apply andb_true_iff in Hh as [Hh _].
  - left. case_row (publication_key c) as [q|]; [|done].
    destruct (holds_publication c q); [by rewrite insert_other|done].
Qed.

(** An action that leaves a publication that has ended as it is. *)
Definition keeping (k : msg_key) (p : Publication) (db db' : Database) : Prop :=
  db terminal_status_publications !! k = Some p -> db' terminal_status_publications !! k = Some p.
Definition keeps (k : msg_key) (p : Publication) {A} (m : Act A) : Prop := runs (keeping k p) m.
#[local] Instance keeping_preorder k p : PreOrder (keeping k p).
Proof. split; [by intros db Hk|]. intros db1 db2 db3 H1' H2' Hk. by apply H2', H1'. Qed.

Lemma keeps_leaves k p {A} (m : Act A) : leaves terminal_status_publications m -> keeps k p m.
Proof. intros Hm db Hk. by rewrite (Hm db). Qed.
Lemma keeps_finish k p c e now : publishing p = false -> keeps k p (begin (finish_publication c e now) : Act unit).
Proof.
  intros Hp db Hk. apply (begin_preserves (fun db' => db' terminal_status_publications !! k = Some p)); [done|].
  intros u db' Hf. destruct (finish_publication_Ok _ _ _ _ _ _ Hf k p Hk) as [?|[? _]]; [done|congruence].
Qed.

Lemma keeps_reschedule k p env c status retryAfter : publishing p = false ->
  keeps k p (reschedule env c status retryAfter).
Proof.
  intros Hp. unfold reschedule. destruct (_ <=? _);
    (apply runs_bind; [by apply keeps_finish|intros; by apply keeps_leaves]).
Qed.

Lemma keeps_conclude k p env c r : publishing p = false -> keeps k p (conclude env c r).
Proof.
  intros Hp. unfold conclude. destruct (acknowledges r); [|case_bool_decide]; [| |by apply keeps_reschedule];
    (apply runs_rescue; [|by apply keeps_reschedule]);
    (apply runs_bind; [by apply keeps_finish|intros; by apply keeps_leaves]).
Qed.

(** An ended publication is never touched again: a publication that was acknowledged or blocked stays
    exactly as it is through any round of any publisher, whatever the other side answers, whenever
    leases run out and whichever updates fail. *)
Theorem ended_publication_final env (db : Database) k p :
  (forall d, pb_others env d terminal_status_publications = d terminal_status_publications) ->
  (forall n d, sg_others (pb_signer env) n d terminal_status_publications = d terminal_status_publications) ->
  db terminal_status_publications !! k = Some p -> publishing p = false ->
  (publishOne env db).2 terminal_status_publications !! k = Some p.
Proof.
  intros Ho Hsg Hk Hp. revert db Hk. change (keeps k p (publishOne env)). unfold publishOne. apply runs_bind.
  - intros db Hk. apply (begin_preserves (fun db' => db' terminal_status_publications !! k = Some p)); [done|].
    intros [c|] db' Hc.
    + apply claim_publication_Ok in Hc as [_ (p' & w & Hp' & Hpub & _) Hl]. rewrite Hl. tables.
      rewrite update_other; [done|]. intros ->. tables. congruence.
    + unfold claim_publication in Hc. tx. destruct (due_publications _ _ _) as [|[[[k' p'] r] w] rest]; by tx.
  - intros [c|]; [|by apply keeps_leaves]. apply runs_bind.
    { apply keeps_leaves, runs_rescue; [|apply runs_ret]. apply runs_fmap, send_leaves; done. }
    intros sent. apply runs_bind; [apply keeps_leaves; by apply runs_meanwhile|]. intros [].
    destruct sent as [r|]; [by apply keeps_conclude|by apply keeps_reschedule].
Qed.

(** ** A round *)

(** The end of a round that claimed [c]. *)
Definition round_end (env : publisher_env) (c : PublicationClaim) (o : publish_outcome) (p : Publication) : Prop :=
  p_lease p = None /\
  match o with
  | PublishIdle => False
  | PublishAcknowledged => p_state p = Acknowledged /\ exists url cose object r,
      inspectTyped delivery_status cose = Ok object /\ terminal_status (ds_state (payload object)) = true /\
      pb_fetch env url cose = Ok r /\ acknowledges r = true
  | PublishBlocked => p_state p = Blocked /\
      (pc_retryUntil c <= pb_now env 1 \/ exists url cose r, pb_fetch env url cose = Ok r /\ rs_status r ∈ refusals)
  | PublishRetry => p_state p = Retry /\ pb_now env 1 < pc_retryUntil c /\ exists next,
      p_next_attempt_at p = milliseconds next /\
      Z.min (pc_retryUntil c) (pb_now env 2 + 24000) <= next <= pc_retryUntil c
  end.

Lemma reschedule_round env c status retryAfter (db : Database) p : unrefused ->
  (forall n, 0 < n -> 0 <= pb_pick env n < n) ->
  db terminal_status_publications !! publication_key c = Some p -> holds_publication c p = true ->
  exists o db' p', reschedule env c status retryAfter db = (Ok o, db') /\
    db' terminal_status_publications !! publication_key c = Some p' /\ round_end env c o p'.
Proof.
  intros Ht Hpick Hp Hh. unfold reschedule. destruct (Z.leb_spec (pc_retryUntil c) (pb_now env 1)) as [Hle|Hgt].
  - unfold mbind, Act_bind. rewrite (finish_publication_held _ _ _ _ p) by done.
    eexists _, _, _. split; [reflexivity|]. rewrite set_eq. tables. split; [apply insert_same|].
    split; [done|]. split; [done|]. by left.
  - pose proof (next_publication_bounds (pb_pick env) (pb_now env 2) (pc_attempt c) retryAfter Hpick) as [Hn _].
    unfold mbind, Act_bind. rewrite (finish_publication_held _ _ _ _ p) by done.
    eexists _, _, _. split; [reflexivity|]. rewrite set_eq. tables. split; [apply insert_same|].
    split; [done|]. split; [done|]. split; [done|]. eexists. split; [reflexivity|]. lia.
Qed.

(** A round that claims a publication comes to an end: it is acknowledged, only when a signed final
    status was sent and the answer was an empty 204; or blocked, only when the status was refused for
    good or the deadline had passed; or it is due again between 24 seconds later and the deadline,
    which is at least thirty days after the delivery ended.  The lease is given back each time. *)
Theorem publication_round env (db : Database) c db1 : unrefused ->
  claim_publication (pb_token env) (pb_locked env) (pb_claim_now env) db = Ok (Some c, db1) ->
  (forall d, pb_others env d terminal_status_publications = d terminal_status_publications) ->
  (forall n d, sg_others (pb_signer env) n d terminal_status_publications = d terminal_status_publications) ->
  (forall n, 0 < n -> 0 <= pb_pick env n < n) ->
  (exists w, db delivery_work !! publication_key c = Some w /\
     getTime (w_transitioned_at w) + 2592000000 <= pc_retryUntil c) /\
  exists o db' p, publishOne env db = (Ok o, db') /\
    db' terminal_status_publications !! publication_key c = Some p /\ round_end env c o p.
Proof.
  intros Ht Hc Ho Hsg Hpick. pose proof (claim_publication_Ok _ _ _ _ _ _ Hc) as [Htok (p0 & w & Hp0 & Hpub & Hw & Hr) Hl].
  split; [by exists w|].
  assert (Hp1 : db1 terminal_status_publications !! publication_key c =
    Some (lease_publication (pb_token env) (pb_claim_now env) p0))
    by (rewrite Hl; tables; rewrite update_same; by rewrite Hp0).
  assert (Hh : holds_publication c (lease_publication (pb_token env) (pb_claim_now env) p0) = true).
  { unfold holds_publication, publishing in *. cbn. rewrite Htok, jstr_eqb_refl, andb_true_r. done. }
  unfold publishOne. unfold mbind at 1, Act_bind at 1. unfold begin. rewrite Hc.
  unfold mbind at 1, Act_bind at 1.
  assert (Hsl : leaves terminal_status_publications (send_status env c)) by by apply send_leaves.
  assert (Hsend : (rescue (Some <$> send_status env c) (mret None) db1).2 terminal_status_publications
    = db1 terminal_status_publications) by exact (runs_rescue _ _ (runs_fmap _ _ Hsl) (runs_ret _) db1).
  assert (Hres : forall r db2, rescue (Some <$> send_status env c) (mret None) db1 = (Ok (Some r), db2) ->
    exists url cose object, inspectTyped delivery_status cose = Ok object /\
      terminal_status (ds_state (payload object)) = true /\ pb_fetch env url cose = Ok r).
  { intros r db2. unfold rescue, fmap, Act_fmap. destruct (send_status env c db1) as [[r'|e] db3] eqn:Hs.
    - intros [= <- <-]. apply send_Ok in Hs as (cose & object & url & Hi & Hterm & Hf). by exists url, cose, object.
    - by intros [=]. }
  assert (Hok : exists sent db2, rescue (Some <$> send_status env c) (mret None) db1 = (Ok sent, db2)).
  { unfold rescue, fmap, Act_fmap. destruct (send_status env c db1) as [[r'|e] db3]; eexists _, _; reflexivity. }
  destruct Hok as (sent & db2 & Hok). rewrite Hok in Hsend |- *. cbn [snd] in Hsend.
  unfold mbind at 1, Act_bind at 1, meanwhile at 1.
  assert (Hp2 : pb_others env db2 terminal_status_publications !! publication_key c =
    Some (lease_publication (pb_token env) (pb_claim_now env) p0)) by (rewrite Ho, Hsend; done).
  destruct sent as [r|]; [|by apply (reschedule_round _ _ _ _ _ _ Ht Hpick Hp2 Hh)].
  destruct (Hres r db2 Hok) as (url & cose & object & Hi & Hterm & Hf). unfold conclude.
  destruct (acknowledges r) eqn:Hack; [|case_bool_decide as Href].
  - unfold rescue, mbind, Act_bind. rewrite (finish_publication_held _ _ _ _ _ Ht Hp2 Hh).
    eexists _, _, _. split; [reflexivity|]. rewrite set_eq. tables. split; [apply insert_same|].
    split; [done|]. split; [done|]. by exists url, cose, object, r.
  - unfold rescue, mbind, Act_bind. rewrite (finish_publication_held _ _ _ _ _ Ht Hp2 Hh).
    eexists _, _, _. split; [reflexivity|]. rewrite set_eq. tables. split; [apply insert_same|].
    split; [done|]. split; [done|]. right. by exists url, cose, r.
  - by apply (reschedule_round _ _ _ _ _ _ Ht Hpick Hp2 Hh).
Qed.
End rules.
