(* ===== verification/GrantReceiver.v ===== *)
(** * Receiving grants (apps/server/src/grants/receiver.ts, routes.ts)

    The provider of the grantor puts every revision of a grant to the provider of the grantee.  It is
    authenticated with the grantor's identity key, its preconditions and its place in the lineage are
    checked, and the repository keeps it; the answer carries the digest of what was received.

    The abort signal, the rate limit and the response schedule in front of the handler are not part of
    it (see [RateLimit] and [Schedule]). *)

From S2P Require Import Prelude JsString Regex Value Cbor Profiles Validation ValidatePayload Models.
From S2P Require Import Base64Url Cose WebCrypto Database Typed ServerBodies Conversations Envelopes.
From S2P Require Import Grants Receiver Http.
From Stdlib Require Import ZArith.
Open Scope Z_scope.

(** ** Entity tags *)

Definition quote_mark : N := 34%N.
Definition etag (bs : bytes) : jstr := quote_mark :: encodeBase64Url bs ++ [quote_mark].

Definition STRONG_ETAG : regex :=
  seqs [RClass [(quote_mark, quote_mark)]; rep (RClass BASE64URL_CLASS) 43; RClass [(quote_mark, quote_mark)]].

(** The group of the pattern is what stands between the marks. *)
Definition parseStrongEtag (value : jstr) : option bytes :=
  if rx_test STRONG_ETAG value then
    match decodeBase64Url (take 43 (drop 1 value)) None with
    | Ok bs => if (length bs =? 32)%nat then Some bs else None
    | Err _ => None
    end
  else None.

(** [text.includes(needle)]. *)
Fixpoint js_includes (text needle : jstr) : bool :=
  jstr_eqb (take (length needle) text) needle
  || match text with [] => false | _ :: text => js_includes text needle end.

Definition error_message (e : exn) : jstr :=
  match e with
  | CodecError e => message e
  | OtherError m | StatusError _ m => m
  | OutOfFuel => []
  end.

(** The code 23505 is the one of a unique violation. *)
Definition conflictFromPersistence (e : exn) : bool :=
  bool_decide (e = unique_violation)
  || existsb (fun needle => js_includes (error_message e) (js needle))
       ["Grant revision"; "Grant lineage"; "Grant parties"; "terminal"; "active pair"]%string.

(** ** What a reception answers *)

Record GrantConditions := { ifMatch : option jstr; ifNoneMatch : option jstr }.
Record GrantReceiveResult := { gres_status : Z; gres_etag : jstr; gres_created : bool }.
Record GrantReceiveError := { gerr_status : Z; gerr_message : jstr; gerr_disclose : bool }.

Definition receive_error (status : Z) (message : String.string) : GrantReceiveError :=
  {| gerr_status := status; gerr_message := js message; gerr_disclose := true |}.
Arguments receive_error status message%_string.
Definition undisclosed (status : Z) (message : String.string) : GrantReceiveError :=
  {| gerr_status := status; gerr_message := js message; gerr_disclose := false |}.
Arguments undisclosed status message%_string.

(** The collaborators: what authenticates an account, what retains a resolution, the collation, the
    clock in seconds, and what other processes do before the statements. *)
Record grant_receiver_env := {
  gv_resolve : jstr -> M ResolvedHailDid;
  gv_retain : option (ResolvedHailDid -> M unit);
  gv_localeCompare : jstr -> jstr -> comparison;
  gv_serviceBase : jstr;
  gv_now : Z;
  gv_others : nat -> Database -> Database;
}.

Record authenticated_grant := {
  ag_payload : HailGrant; ag_account : jstr; ag_identityDidKey : jstr; ag_retain : M unit;
}.

Definition exactRepresentation (current : option SignedGrantRevision) (representation : bytes) : bool :=
  match current with
  | Some c => Cbor.equalBytes (sgr_representation c) representation
  | None => false
  end.

(** A revision that is already kept. *)
Definition kept_already (p : HailGrant) (digest : bytes) : GrantReceiveResult := {|
  gres_status := if g_revision p =? 1 then 412 else 204; gres_etag := etag digest; gres_created := false |}.
Definition newly_kept (p : HailGrant) (digest : bytes) : GrantReceiveResult := {|
  gres_status := if g_revision p =? 1 then 201 else 204; gres_etag := etag digest;
  gres_created := g_revision p =? 1 |}.

Definition timestamps_invalid (p : HailGrant) (now : Z) : bool :=
  (now + 300 <? g_issued_at p) || (now + 300 <? g_updated_at p)
  || match g_expires_at p with Some t => t <? g_issued_at p | None => false end.

Definition check_conditions (p : HailGrant) (c : GrantConditions) : option GrantReceiveError :=
  if g_revision p =? 1 then
    match ifMatch c, ifNoneMatch c with
    | None, None => Some (receive_error 428 "If-None-Match is required for an initial Grant")
    | None, Some tag => if jstr_eqb tag (js "*") then None
                        else Some (receive_error 400 "Initial Grant condition is invalid")
    | Some _, _ => Some (receive_error 400 "Initial Grant condition is invalid")
    end
  else
    match ifNoneMatch c, ifMatch c with
    | Some _, _ => Some (receive_error 400 "Grant update condition is invalid")
    | None, None => Some (receive_error 428 "If-Match is required for a Grant update")
    | None, Some tag =>
        match parseStrongEtag tag, g_previous p with
        | None, _ => Some (receive_error 400 "Grant update condition is invalid")
        | Some _, Some previous => if jstr_eqb tag (etag previous) then None
                                   else Some (receive_error 412 "Grant update precondition failed")
        | Some _, None => Some (receive_error 412 "Grant update precondition failed")
        end
    end.

Section receiver.
Context `{HailEnv} `{Cborg} `{Keys} `{Triggers} `{GrantAuthority}.

Definition identity_verifier (owner key : jstr) : HailVerifier :=
  createWebCryptoVerifier (fun keyId =>
    if negb (jstr_eqb keyId (owner ++ js "#hail-identity"))
    then Err (OtherError (js "Unexpected Grant key ID"))
    else ed25519PublicKeyFromDidKey key) subtle.

Definition retain_resolutions (env : grant_receiver_env) (grantor grantee : ResolvedHailDid) : M unit :=
  match gv_retain env with
  | None => Ok tt
  | Some retain =>
      iforM 0 (match gv_localeCompare env (did grantor) (did grantee) with
               | Gt => [grantee; grantor]
               | _ => [grantor; grantee]
               end) (fun _ r => retain r)
  end.

(** The part inside the first [try]; [None] when the request was misdirected. *)
Definition authenticate_grant (env : grant_receiver_env) (pathGrantId : jstr) (representation : bytes)
    : Act (option authenticated_grant) :=
  inspected ← act (fun _ => inspectTyped Profiles.grant representation);
  let p : HailGrant := payload inspected in
  _ ← act (fun _ => throw_if (negb (jstr_eqb (g_grant_id p) pathGrantId))
                      (OtherError (js "Grant path does not match payload")));
  grantor ← act (fun _ => gv_resolve env (g_grantor p));
  _ ← act (fun _ => verifySignedPayload Profiles.grant representation
                      (identity_verifier (g_grantor p) (identityDidKey grantor)));
  grantee ← act (fun _ => gv_resolve env (g_grantee p));
  if negb (jstr_eqb (serviceBase grantee) (gv_serviceBase env)) then mret None
  else
    _ ← meanwhile (gv_others env 0);
    account ← act (fun db => Ok (getAccountByDid (g_grantee p) db));
    match account with
    | Some (id, a) =>
        if negb (a_active a) || negb (a_public a)
        then act (fun _ => grant_error "Grantee is not locally authoritative")
        else mret (Some {| ag_payload := p; ag_account := id; ag_identityDidKey := identityDidKey grantor;
                           ag_retain := retain_resolutions env grantor grantee |})
    | None => act (fun _ => grant_error "Grantee is not locally authoritative")
    end.

(** What the stored revision says to another one. *)
Definition check_succession (current : option SignedGrantRevision) (p : HailGrant)
    : M (option GrantReceiveError) :=
  match current with
  | Some c =>
      let q := sgr_payload c in
      restricts ← restrictsAuthorization q p;
      Ok (if restricts && negb (bool_decide (g_consent_context q = g_consent_context p))
          then Some (receive_error 409 "Restrictions must retain prior consent")
          else if negb (bool_decide (sgr_role c = RoleGrantee)) || negb (jstr_eqb (g_grantor q) (g_grantor p))
                  || negb (jstr_eqb (g_grantee q) (g_grantee p)) || negb (g_issued_at p =? g_issued_at q)
                  || negb (g_revision p =? g_revision q + 1) || bool_decide (g_status q = grant_revoked)
                  || negb (bool_decide (g_previous p = Some (sgr_digest c)))
                  || (g_updated_at p <=? g_updated_at q)
          then Some (receive_error 409 "The submitted revision conflicts with stored state")
          else if g_revision p =? 1 then Some (receive_error 409 "Grant ID is already in use")
          else None)
  | None =>
      Ok (if negb (g_revision p =? 1) || negb (bool_decide (g_status p = grant_active))
          then Some (receive_error 409 "The submitted Grant does not begin a valid lineage")
          else None)
  end.

Definition received_revision (a : authenticated_grant) (representation : bytes) : SignedGrantRevision := {|
  sgr_account := ag_account a; sgr_role := RoleGrantee; sgr_payload := ag_payload a;
  sgr_representation := representation; sgr_digest := sha256 representation;
  sgr_signing_key := ag_identityDidKey a |}.

(** The repository keeps the revision, or finds that another request did. *)
Definition persist_grant (env : grant_receiver_env) (a : authenticated_grant) (representation : bytes)
    : Act (GrantReceiveError + GrantReceiveResult) :=
  let p := ag_payload a in
  stored ← caught (_ ← act (fun _ => ag_retain a);
                   _ ← meanwhile (gv_others env 2);
                   begin (acceptReceivedRevision (received_revision a representation)) : Act SignedGrantRevision);
  match stored with
  | Ok _ => mret (inr (newly_kept p (sha256 representation)))
  | Err e =>
      if conflictFromPersistence e then
        _ ← meanwhile (gv_others env 3);
        winner ← act (findReceivedForSender (g_grant_id p) (g_grantee p));
        mret (if exactRepresentation winner representation then inr (kept_already p (sha256 representation))
              else inl (receive_error 409 "The submitted revision conflicts with stored state"))
      else mret (inl (receive_error 503 "Grant storage is temporarily unavailable"))
  end.

Definition receiveGrant (env : grant_receiver_env) (pathGrantId : jstr) (representation : bytes)
    (conditions : GrantConditions) : Act (GrantReceiveError + GrantReceiveResult) :=
  authenticated ← rescue (Some <$> authenticate_grant env pathGrantId representation) (mret None);
  match authenticated with
  | None => mret (inl (undisclosed 400 "Bad Request"))
  | Some None => mret (inl (undisclosed 421 "Misdirected Request"))
  | Some (Some a) =>
      let p := ag_payload a in
      if timestamps_invalid p (gv_now env) then mret (inl (receive_error 400 "Grant timestamps are invalid"))
      else match check_conditions p conditions with
      | Some e => mret (inl e)
      | None =>
          _ ← meanwhile (gv_others env 1);
          found ← rescue (Some <$> act (findReceivedForSender pathGrantId (g_grantee p))) (mret None);
          match found with
          | None => mret (inl (receive_error 503 "Grant storage is temporarily unavailable"))
          | Some current =>
              if exactRepresentation current representation
              then mret (inr (kept_already p (sha256 representation)))
              else
                refused ← act (fun _ => check_succession current p);
                match refused with
                | Some e => mret (inl e)
                | None => persist_grant env a representation
                end
          end
      end
  end.
End receiver.

(** ** The handler of [PUT /hail/grants/:grantId] *)

Definition MAX_GRANT_BYTES : Z := 262144.

(** What the handler reads of a request whose method and media type are right: the path parameter, the
    preconditions, the declared length and the body, whose reads may fail. *)
Record grant_request := {
  gq_grant_id : jstr;
  gq_conditions : GrantConditions;
  gq_content_length : option jstr;
  gq_body : option (list (option bytes));
}.

Fixpoint read_request (total : Z) (chunks : list bytes) (reads : list (option bytes))
    : M (GrantReceiveError + list bytes) :=
  match reads with
  | [] => Ok (inr (reverse chunks))
  | None :: _ => Err (OtherError (js "The body could not be read"))
  | Some chunk :: reads =>
      let total := total + Z.of_nat (length chunk) in
      if MAX_GRANT_BYTES <? total then Ok (inl (receive_error 413 "Grant request exceeds its transport limit"))
      else read_request total (chunk :: chunks) reads
  end.

Definition requestBytes (q : grant_request) : M (GrantReceiveError + bytes) :=
  if match gq_content_length q with
     | Some text => negb (rx_test DIGITS text) || (MAX_GRANT_BYTES <? decimal text)
     | None => false
     end
  then Ok (inl (receive_error 413 "Grant request exceeds its transport limit"))
  else match gq_body q with
  | None => Ok (inr [])
  | Some reads =>
      r ← read_request 0 [] reads;
      Ok (match r with inl e => inl e | inr chunks => inr (concat chunks) end)
  end.

Definition GRANT_ID_PATTERN : regex :=
  seqs [rep hex_digit 8; lit "-"; rep hex_digit 4; lit "-7"; rep hex_digit 3; lit "-";
        RClass [one "8"; one "9"; one "a"; one "b"]; rep hex_digit 3; lit "-"; rep hex_digit 12].

Definition titles : list (Z * String.string) :=
  [(409, "Conflict"); (412, "Precondition Failed"); (413, "Content Too Large");
   (415, "Unsupported Media Type"); (421, "Misdirected Request"); (428, "Precondition Required");
   (429, "Too Many Requests"); (503, "Service Unavailable")]%string.
Definition titleFor (status : Z) : jstr :=
  match List.find (fun e => e.1 =? status) titles with Some e => js e.2 | None => js "Bad Request" end.

(** [JSON.stringify] of a problem, whose texts have no character to escape. *)
Definition quoted (text : jstr) : jstr := quote_mark :: text ++ [quote_mark].
Definition member (name : String.string) (value : jstr) : jstr := quoted (js name) ++ js ":" ++ value.
Arguments member name%_string value.
Definition problem (status : Z) (title : jstr) (detail : option jstr) : bytes :=
  map byte_of_N (js "{" ++ member "type" (quoted (js "about:blank")) ++ js "," ++ member "title" (quoted title)
    ++ js "," ++ member "status" (show_Z status)
    ++ match detail with Some d => js "," ++ member "detail" (quoted d) | None => [] end ++ js "}").

Definition no_store : jstr * jstr := (js "cache-control", js "no-store").
Definition problem_json : jstr * jstr := (js "content-type", js "application/problem+json").

Definition problem_answer (e : GrantReceiveError) : Response := {|
  rs_status := gerr_status e;
  rs_headers := [no_store; problem_json]
    ++ (if gerr_status e =? 503 then [(js "retry-after", js "30")] else []);
  rs_body := Some [Some (problem (gerr_status e) (titleFor (gerr_status e))
    (if gerr_disclose e then Some (gerr_message e) else None))] |}.

Definition success_answer (hailServiceBase grantId : jstr) (r : GrantReceiveResult) : Response :=
  let headers := [no_store; (js "etag", gres_etag r)] in
  if gres_status r =? 412 then
    {| rs_status := 412; rs_headers := headers ++ [problem_json];
       rs_body := Some [Some (problem 412 (titleFor 412) None)] |}
  else
    {| rs_status := gres_status r;
       rs_headers := headers ++ (if gres_created r
         then [(js "location", hailServiceBase ++ js "/grants/" ++ grantId)] else []);
       rs_body := None |}.

Definition put_grant `{HailEnv} `{Cborg} `{Keys} `{Triggers} `{GrantAuthority} (env : grant_receiver_env)
    (hailServiceBase : jstr) (q : grant_request) : Act Response :=
  outcome ← caught
    (if negb (rx_test GRANT_ID_PATTERN (gq_grant_id q)) then mret (inl (undisclosed 400 "Bad Request"))
     else
       bs ← act (fun _ => requestBytes q);
       match bs with
       | inl e => mret (inl e)
       | inr bs => receiveGrant env (gq_grant_id q) bs (gq_conditions q)
       end);
  mret match outcome with
       | Ok (inr r) => success_answer hailServiceBase (gq_grant_id q) r
       | Ok (inl e) => problem_answer e
       | Err _ => problem_answer (receive_error 503 "Grant processing is temporarily unavailable")
       end.
