(* ===== verification/GrantPublisher.v ===== *)
(** * Publishing grants (apps/server/src/grants/publisher.ts)

    The provider of the grantor puts the revisions of its lineages, one at a time and each after its
    predecessor was acknowledged, to the provider of the grantee, until they are acknowledged or
    refused for good. *)

From S2P Require Import Prelude JsString Regex Value Cbor Profiles Validation ValidatePayload Models.
From S2P Require Import Base64Url Cose WebCrypto Database Typed ServerBodies Conversations Envelopes.
From S2P Require Import Grants Receiver Http GrantReceiver.
From Stdlib Require Import ZArith.
Open Scope Z_scope.

Definition EMPTY_RESPONSE_LIMIT : Z := 65536.

Inductive GrantPublishOutcome := GrantIdle | GrantAcknowledged | GrantRetry | GrantBlocked.

Definition expectedEtag (c : GrantPublicationClaim) : jstr := etag (sgr_digest (gc_grant c)).

Definition conditionHeaders (c : GrantPublicationClaim) : M GrantConditions :=
  let p := sgr_payload (gc_grant c) in
  if g_revision p =? 1 then Ok {| ifMatch := None; ifNoneMatch := Some (js "*") |}
  else match g_previous p with
  | None => Err (OtherError (js "Grant update is missing its predecessor digest"))
  | Some previous => Ok {| ifMatch := Some (etag previous); ifNoneMatch := None |}
  end.

(** Instants are milliseconds; [date_parse] is [new Date], [None] for an invalid date. *)
Definition grantRetryAfter (date_parse : jstr -> option Z) (r : Response) (now : Z) : option Z :=
  match header "retry-after" r with
  | None | Some [] => None
  | Some value =>
      if rx_test DIGITS value then Some (now + Z.min (decimal value) 3600 * 1000)
      else
        instant ← date_parse value;
        if instant <=? now then None else Some (Z.min instant (now + 3600000))
  end.

Definition response_error {A} (message : String.string) : M A := Err (OtherError (js message)).
Arguments response_error {A} message%_string.

Fixpoint read_response (total : Z) (chunks : list bytes) (reads : list (option bytes)) : M (list bytes) :=
  match reads with
  | [] => Ok (reverse chunks)
  | None :: _ => response_error "The response could not be read"
  | Some chunk :: reads =>
      let total := total + Z.of_nat (length chunk) in
      if EMPTY_RESPONSE_LIMIT <? total
      then response_error "Grant publication response exceeds its size limit"
      else read_response total (chunk :: chunks) reads
  end.

Definition boundedResponseBytes (r : Response) : M bytes :=
  if match header "content-length" r with
     | Some text => negb (rx_test DIGITS text) || (EMPTY_RESPONSE_LIMIT <? decimal text)
     | None => false
     end
  then response_error "Grant publication response exceeds its size limit"
  else match rs_body r with
  | None => Ok []
  | Some reads => concat (A:=Byte.byte) <$> read_response 0 [] reads
  end.

(** What is sent: the target, the representation and the conditions. *)
Record grant_put := { gpt_url : jstr; gpt_body : bytes; gpt_conditions : GrantConditions }.

(** The collaborators of one round and what it reads: the lease and the instant of the claim, what
    resolves an account, [new URL] with its [href] and the check of the target, the exchange with the
    other provider, the readings of the clock after an answer and after a failure (in milliseconds),
    [Math.round(base * (0.75 + Math.random() * 0.5) * 1000)], the clock of the database when the
    publication is finished (in each of the two places), and what other processes do meanwhile. *)
Record grant_publisher_env := {
  gb_token : jstr;
  gb_locked : gset (jstr * Z);
  gb_claim_now : Z;
  gb_resolve : jstr -> M ResolvedHailDid;
  gb_url : jstr -> M jstr;
  gb_target : jstr -> M unit;
  gb_fetch : grant_put -> M Response;
  gb_now : nat -> Z;
  gb_jittered : Z -> Z;
  gb_date_parse : jstr -> option Z;
  gb_finish_now : nat -> Z;
  gb_others : Database -> Database;
}.

Definition base_seconds (attempt : Z) : Z := Z.min 3600 (30 * 2 ^ Z.min (attempt - 1) 7).
Definition nextGrantAttempt (env : grant_publisher_env) (c : GrantPublicationClaim) (now : Z) : Z :=
  now + gb_jittered env (base_seconds (gc_attempt c)).

Definition grant_refusals : list Z := [400; 405; 409; 412; 413; 415; 428].

Definition claim_result (c : GrantPublicationClaim) (status : option Z) (error : option jstr)
    : publication_result := {|
  gpr_grant_id := g_grant_id (sgr_payload (gc_grant c)); gpr_revision := g_revision (sgr_payload (gc_grant c));
  gpr_token := gc_token c; gpr_status := status; gpr_error := error |}.

(** [error.message.slice(0, 1024)]. *)
Definition failure_text (e : exn) : jstr := take 1024 (error_message e).

Section publisher.
Context `{HailEnv} `{Cborg} `{Triggers}.

(** The request and the answer to it, with the bytes of its body. *)
Definition exchange (env : grant_publisher_env) (c : GrantPublicationClaim) : M (jstr * Response * bytes) :=
  let p := sgr_payload (gc_grant c) in
  grantee ← gb_resolve env (g_grantee p);
  url ← gb_url env (serviceBase grantee ++ js "/grants/" ++ g_grant_id p);
  _ ← gb_target env url;
  conditions ← conditionHeaders c;
  response ← gb_fetch env {| gpt_url := url; gpt_body := sgr_representation (gc_grant c);
                             gpt_conditions := conditions |};
  body ← boundedResponseBytes response;
  Ok (url, response, body).

Definition normal_success (c : GrantPublicationClaim) (status : Z) : bool :=
  let revision := g_revision (sgr_payload (gc_grant c)) in
  (revision =? 1) && (status =? 201) || (1 <? revision) && (status =? 204).
Definition converged_creation (c : GrantPublicationClaim) (status : Z) : bool :=
  (g_revision (sgr_payload (gc_grant c)) =? 1) && (status =? 412).

(** The answer acknowledges the revision: its tag is the digest.  A success with a body, or a creation
    without its location, is an error. *)
Definition acknowledged_by (c : GrantPublicationClaim) (url : jstr) (r : Response) (body : bytes) : M bool :=
  if (normal_success c (rs_status r) || converged_creation c (rs_status r))
     && bool_decide (header "etag" r = Some (expectedEtag c))
  then
    _ ← throw_if (normal_success c (rs_status r) && negb (length body =? 0)%nat)
          (OtherError (js "Successful Grant publication response must have no content"));
    _ ← throw_if ((rs_status r =? 201) && negb (bool_decide (header "location" r = Some url)))
          (OtherError (js "Created Grant response has an invalid Location"));
    Ok true
  else Ok false.

(** The part inside [try], after the claim. *)
Definition attempt_publication (env : grant_publisher_env) (c : GrantPublicationClaim)
    : Act GrantPublishOutcome :=
  '(url, r, body) ← act (fun _ => exchange env c);
  _ ← meanwhile (gb_others env);
  ok ← act (fun _ => acknowledged_by c url r body);
  let status := Some (rs_status r) in
  if ok : bool then
    _ ← begin (acknowledgePublication (claim_result c status None) (expectedEtag c) (gb_finish_now env 0)) : Act unit;
    mret GrantAcknowledged
  else if bool_decide (rs_status r ∈ grant_refusals) then
    _ ← begin (blockPublication (claim_result c status
          (Some (js "Grant publication was permanently rejected with HTTP " ++ show_Z (rs_status r))))
          (gb_finish_now env 0)) : Act unit;
    mret GrantBlocked
  else
    let now := gb_now env 0 in
    let next := default (nextGrantAttempt env c now) (grantRetryAfter (gb_date_parse env) r now) in
    _ ← begin (retryPublication (claim_result c status
          (Some (js "Grant publication returned transient HTTP " ++ show_Z (rs_status r))))
          (milliseconds next) (gb_finish_now env 0)) : Act unit;
    mret GrantRetry.

Definition publishGrant (env : grant_publisher_env) : Act GrantPublishOutcome :=
  claim ← claimDuePublication (gb_token env) 30000 (gb_locked env) (gb_claim_now env);
  match claim with
  | None => mret GrantIdle
  | Some c =>
      outcome ← caught (attempt_publication env c);
      match outcome with
      | Ok outcome => mret outcome
      | Err e =>
          _ ← begin (retryPublication (claim_result c None (Some (failure_text e)))
                (milliseconds (nextGrantAttempt env c (gb_now env 1))) (gb_finish_now env 1)) : Act unit;
          mret GrantRetry
      end
  end.
End publisher.
