(* ===== verification/GrantExchange.v ===== *)
(** * What the exchange of grants guarantees

    Receiving and publishing are executions of the machine of [GrantRules]; what a reception answers
    for is kept exactly as it was signed; what a publisher sees acknowledged, the other provider keeps;
    and a revision that follows what the other provider has arrives. *)

From S2P Require Import Prelude JsString Regex Value Cbor Profiles Validation ValidatePayload Models.
From S2P Require Import Base64Url Cose CoseRules WebCrypto Database Typed ServerBodies Conversations.
From S2P Require Import Envelopes DeliveryRules Grants GrantRules Receiver Http GrantReceiver GrantPublisher.
From Stdlib Require Import ZArith.
Open Scope Z_scope.

Section exchange.
Context `{HailEnv} `{Cborg} `{Keys} `{Triggers} `{GrantAuthority}.

(** ** Both are executions *)

Notation execution := (rtc grant_step).

Lemma runs_step {A} (tx : Tx A) : (forall (db : Database) a db', tx db = Ok (a, db') -> grant_step db db') ->
  runs execution (begin tx).
Proof. intros Htx. apply runs_begin. intros db a db' Hr. apply rtc_once. by eapply Htx. Qed.

Lemma receive_runs env path rep conditions : (forall n db, execution db (gv_others env n db)) ->
  runs execution (receiveGrant env path rep conditions).
Proof.
  intros Ho. unfold receiveGrant. apply runs_bind.
  { apply runs_rescue; [|auto with runs]. apply runs_fmap. unfold authenticate_grant.
    do 5 (apply runs_bind; [apply runs_act|intros ?]). destruct (negb _); [apply runs_ret|].
    apply runs_bind; [by apply runs_meanwhile|intros _]. apply runs_bind; [apply runs_act|].
    intros [[id account]|]; [destruct (_ || _)|]; auto with runs. }
  intros [[a|]|]; [|auto with runs..]. destruct (timestamps_invalid _ _); [auto with runs|].
  destruct (check_conditions _ _); [auto with runs|].
  apply runs_bind; [by apply runs_meanwhile|intros _]. apply runs_bind; [auto with runs|].
  intros [current|]; [|auto with runs]. destruct (exactRepresentation _ _); [auto with runs|].
  apply runs_bind; [apply runs_act|]. intros [e|]; [auto with runs|].
  unfold persist_grant. apply runs_bind.
  { apply runs_caught, runs_bind; [apply runs_act|intros _]. apply runs_bind; [by apply runs_meanwhile|intros _].
    apply runs_step. intros db g db' Hr. by eapply step_receive. }
  intros [g|e]; [auto with runs|]. destruct (conflictFromPersistence e); [|auto with runs].
  apply runs_bind; [by apply runs_meanwhile|intros _]. auto with runs.
Qed.

Lemma put_runs env base q : (forall n db, execution db (gv_others env n db)) ->
  runs execution (put_grant env base q).
Proof.
  intros Ho. unfold put_grant. apply runs_bind; [|auto with runs]. apply runs_caught.
  destruct (negb _); [auto with runs|]. apply runs_bind; [auto with runs|].
  intros [e|bs]; [auto with runs|by apply receive_runs].
Qed.

Lemma publish_runs env : (forall db, execution db (gb_others env db)) -> runs execution (publishGrant env).
Proof.
  intros Ho. unfold publishGrant. apply runs_bind.
  { intros db. apply rtc_once. apply (proj1 (publication_is_step db)). }
  assert (Hf : forall input state next tag now, runs execution (begin (finishPublication input state next tag now))).
  { intros. apply runs_step. intros db [] db' Hr. by eapply (proj2 (publication_is_step db)). }
  intros [c|]; [|auto with runs]. apply runs_bind.
  - apply runs_caught. unfold attempt_publication. apply runs_bind; [auto with runs|]. intros [[url r] body].
    apply runs_bind; [by apply runs_meanwhile|intros _]. apply runs_bind; [auto with runs|]. intros [].
    + apply runs_bind; [apply Hf|auto with runs].
    + case_bool_decide; (apply runs_bind; [apply Hf|auto with runs]).
  - intros [o|e]; [auto with runs|]. apply runs_bind; [apply Hf|auto with runs].
Qed.

(** ** What is answered for is kept *)

(** The provider keeps this representation as a revision of the lineage. *)
Definition keeps_revision (id : jstr) (revision : Z) (rep : bytes) (db : Database) : Prop :=
  exists r, db grant_revisions !! (id, revision) = Some r /\ gr_cose r = rep.

Lemma grantFromRow_Ok id n l r g : grantFromRow id n l r = Ok g -> exists object,
  inspectTyped Profiles.grant (gr_cose r) = Ok object /\ sgr_payload g = payload object /\
  sgr_representation g = gr_cose r /\ g_revision (sgr_payload g) = n /\ sgr_digest g = gr_digest r /\
  sgr_role g = (if l_grantor_role l then RoleGrantor else RoleGrantee) /\
  g_grant_id (sgr_payload g) = id /\ sgr_digest g = sha256 (sgr_representation g).
Proof.
  intros (o & Ho & (t1 & _ & (t2 & _ & (t3 & _ & ([] & Hc%throw_if_Ok & [= <-])%bind_Ok)%bind_Ok)%bind_Ok)%bind_Ok)%bind_Ok.
  rewrite !orb_false_iff in Hc. exists o. repeat (split; [done|]). cbn.
  destruct Hc as [[[[[[[[[[[[Hd%negb_false_iff%Cbor.equalBytes_eq Hid%negb_false_iff%jstr_eqb_eq] _] _]
    Hn%negb_false_iff%Z.eqb_eq] _] _] _] _] _] _] _] _]. done.
Qed.

Lemma find_current_Ok id (db : Database) g : findCurrentByGrantId id db = Ok (Some g) -> exists l r,
  db grant_lineages !! id = Some l /\ db grant_revisions !! (id, l_current_revision l) = Some r /\
  grantFromRow id (l_current_revision l) l r = Ok g.
Proof.
  unfold findCurrentByGrantId. destruct (db grant_lineages !! id) as [l|] eqn:Hl; [|done].
  unfold findRevision. rewrite Hl. destruct (db grant_revisions !! _) as [r|] eqn:Hr; [|done].
  intros (g' & Hg & [= <-])%fmap_Ok. by exists l, r.
Qed.

(** What a sender's grant is: the current revision of the lineage. *)
Lemma find_received_Ok id sender (db : Database) g : findReceivedForSender id sender db = Ok (Some g) ->
  exists c, findCurrentByGrantId id db = Ok (Some c) /\ sgr_payload g = sgr_payload c /\
    sgr_representation g = sgr_representation c /\ sgr_digest g = sgr_digest c /\
    g_grantee (sgr_payload c) = sender /\ sgr_role g = RoleGrantee.
Proof.
  intros (c & Hc & Hg)%bind_Ok. destruct c as [c|]; [|done].
  destruct (jstr_eqb _ _) eqn:Hs; cbn [negb] in Hg; [|done]. apply jstr_eqb_eq in Hs. exists c.
  destruct (sgr_role c) eqn:Hr; [|by injection Hg as <-].
  destruct (db collocated_grant_receivers !! _) as [account|]; [|done].
  destruct (db provider_accounts !! account) as [a|]; [|done].
  destruct (_ && _) in Hg; [|done]. by injection Hg as <-.
Qed.

Lemma exact_kept id sender (db : Database) current rep object :
  findReceivedForSender id sender db = Ok current -> exactRepresentation current rep = true ->
  inspectTyped Profiles.grant rep = Ok object -> keeps_revision id (g_revision (payload object)) rep db.
Proof.
  intros Hf He Ho. destruct current as [g|]; [|done]. apply Cbor.equalBytes_eq in He.
  apply find_received_Ok in Hf as (c & Hc & _ & Hrep & _).
  apply find_current_Ok in Hc as (l & r & _ & Hr & Hg).
  apply grantFromRow_Ok in Hg as (o & Ho' & Hp & Hcose & Hn & _).
  assert (Hsame : gr_cose r = rep) by congruence. rewrite Hsame, Ho in Ho'. apply Ok_eq in Ho' as <-.
  exists r. by rewrite <- Hp, Hn.
Qed.

Lemma acceptReceived_kept input (db db' : Database) g : acceptReceivedRevision input db = Ok (g, db') ->
  keeps_revision (g_grant_id (sgr_payload input)) (g_revision (sgr_payload input)) (sgr_representation input) db'.
Proof.
  unfold acceptReceivedRevision. set (i := as_received _ _). intros Hi.
  apply bind_Tx in Hi as ([] & db1 & Hc & Hi). apply throwing_Tx in Hc as [Hc%checkedInput_Ok ->].
  apply bind_Tx in Hi as ([] & db1 & Hp & Hi). apply bind_Tx in Hp as (r & db2 & Hq & Hp).
  apply query_Tx in Hq as [_ ->]. apply throwing_Tx in Hp as [_ ->].
  apply bind_Tx in Hi as (lineage & db1 & Hx & Hi). apply query_Tx in Hx as [-> ->].
  assert (Hnew : forall db1, db1 grant_revisions =
    <[(g_grant_id (sgr_payload i), g_revision (sgr_payload i)) := revision_row i]> (db grant_revisions) ->
    keeps_revision (g_grant_id (sgr_payload input)) (g_revision (sgr_payload input)) (sgr_representation input) db1).
  { intros db1 Hr. exists (revision_row i). rewrite Hr. tables. split; [apply insert_same|done]. }
  destruct (db grant_lineages !! _) as [l|] eqn:Hl.
  2: { apply bind_Tx in Hi as ([] & db1 & Hx & Hi). apply read_back_unchanged in Hi as ->.
       destruct (accept_first_change _ _ _ tt Hc Hx) as [_ [Hn _] _ _ _ Hr]. apply Hnew. by rewrite Hr, Hn. }
  destruct (_ || _) eqn:Hb in Hi; [discriminate Hi|].
  apply orb_false_iff in Hb as [Hg%negb_false_iff%jstr_eqb_eq He%negb_false_iff%jstr_eqb_eq].
  apply bind_Tx in Hi as (existing & db1 & Hx & Hi). apply query_Tx in Hx as [-> ->].
  destruct (l_grantor_role l).
  { pose proof (proj2 (accept_collocated_change _ _ _ _ _ _ Hi)) as Hr. unfold accept_collocated in Hi.
    destruct (db grant_revisions !! _) as [r'|] eqn:Hrow; [|discriminate Hi].
    destruct (Cbor.equalBytes _ _) eqn:Heq; cbn [negb] in Hi; [|discriminate Hi].
    apply Cbor.equalBytes_eq in Heq. exists r'. by rewrite Hr. }
  destruct (negb _) in Hi; [discriminate Hi|].
  destruct (db grant_revisions !! (g_grant_id (sgr_payload i), g_revision (sgr_payload i))) as [r'|] eqn:Hrow.
  - destruct (Cbor.equalBytes _ _) eqn:Heq; cbn [negb] in Hi; [|discriminate Hi].
    apply Cbor.equalBytes_eq in Heq. apply fmap_Tx in Hi as (g' & Hg' & _).
    apply throwing_Tx in Hg' as [_ ->]. by exists r'.
  - apply bind_Tx in Hi as ([] & db1 & Hx & Hi). apply read_back_unchanged in Hi as ->.
    destruct (accept_advance_change _ l _ _ tt Hc Hl Hg He Hx) as [_ _ _ _ Hr]. by apply Hnew.
Qed.

(** What the first part of a reception establishes. *)
Record authentic (env : grant_receiver_env) (path : jstr) (rep : bytes) (a : authenticated_grant) : Prop := {
  au_object : exists object, inspectTyped Profiles.grant rep = Ok object /\ payload object = ag_payload a;
  au_path : g_grant_id (ag_payload a) = path;
  au_signed : exists grantor verified, gv_resolve env (g_grantor (ag_payload a)) = Ok grantor /\
    identityDidKey grantor = ag_identityDidKey a /\
    verifySignedPayload Profiles.grant rep
      (identity_verifier (g_grantor (ag_payload a)) (identityDidKey grantor)) = Ok verified;
  au_local : exists grantee, gv_resolve env (g_grantee (ag_payload a)) = Ok grantee /\
    serviceBase grantee = gv_serviceBase env;
}.

Lemma authenticate_Ok env path rep (db : Database) a db' :
  authenticate_grant env path rep db = (Ok (Some a), db') -> authentic env path rep a.
Proof.
  unfold authenticate_grant. intros Ha.
  apply bind_Act in Ha as (object & db1 & Ho & Ha). apply act_Ok in Ho as [Ho ->].
  apply bind_Act in Ha as ([] & db1 & Hp & Ha). apply act_Ok in Hp as [Hp%throw_if_Ok%negb_false_iff%jstr_eqb_eq ->].
  apply bind_Act in Ha as (grantor & db1 & Hg & Ha). apply act_Ok in Hg as [Hg ->].
  apply bind_Act in Ha as (verified & db1 & Hv & Ha). apply act_Ok in Hv as [Hv ->].
  apply bind_Act in Ha as (grantee & db1 & He & Ha). apply act_Ok in He as [He ->].
  destruct (jstr_eqb _ _) eqn:Hs; cbn [negb] in Ha; [|discriminate Ha]. apply jstr_eqb_eq in Hs.
  apply bind_Act in Ha as ([] & db1 & _ & Ha). apply bind_Act in Ha as ([[id account]|] & db2 & _ & Ha); [|discriminate Ha].
  destruct (_ || _); [discriminate Ha|]. injection Ha as <- _.
  split; [by exists object|done|by exists grantor, verified|by exists grantee].
Qed.

Lemma settled_status p digest b : gres_status (if b : bool then newly_kept p digest else kept_already p digest) =
  if g_revision p =? 1 then (if b then 201 else 412) else 204.
Proof. by destruct b; cbn; destruct (_ =? _). Qed.

(** What the receiver answers for. *)
Definition answered_for (env : grant_receiver_env) (path : jstr) (rep : bytes) (r : GrantReceiveResult)
    (db' : Database) : Prop :=
  exists a, authentic env path rep a /\ timestamps_invalid (ag_payload a) (gv_now env) = false /\
    keeps_revision path (g_revision (ag_payload a)) rep db' /\
    exists new : bool, r = if new then newly_kept (ag_payload a) (sha256 rep) else kept_already (ag_payload a) (sha256 rep).

Lemma persist_Ok env a path rep (db : Database) r db' : authentic env path rep a ->
  timestamps_invalid (ag_payload a) (gv_now env) = false ->
  persist_grant env a rep db = (Ok (inr r), db') -> answered_for env path rep r db'.
Proof.
  intros Ha Ht Hp. destruct (au_object _ _ _ _ Ha) as (object & Ho & Hpay).
  exists a. split; [done|]. split; [done|]. unfold persist_grant in Hp.
  apply bind_Act in Hp as ([g|e] & db1 & Hc & Hp); apply caught_Ok in Hc.
  - injection Hp as <- <-. split; [|by exists true].
    apply bind_Act in Hc as ([] & db2 & _ & Hc). apply bind_Act in Hc as ([] & db3 & _ & Hc).
    apply begin_Ok, acceptReceived_kept in Hc as Hacc. cbn in Hacc. by rewrite (au_path _ _ _ _ Ha) in Hacc.
  - clear Hc. destruct (conflictFromPersistence e); [|discriminate Hp].
    apply bind_Act in Hp as ([] & db2 & _ & Hp). apply bind_Act in Hp as (winner & db3 & Hw & Hp).
    apply act_Ok in Hw as [Hw ->]. destruct (exactRepresentation winner rep) eqn:He; [|discriminate Hp].
    injection Hp as <- <-. split; [|by exists false].
    rewrite <- Hpay, <- (au_path _ _ _ _ Ha). by eapply exact_kept.
Qed.

Lemma receive_answers env path rep conditions (db : Database) r db' :
  receiveGrant env path rep conditions db = (Ok (inr r), db') -> answered_for env path rep r db'.
Proof.
  unfold receiveGrant. intros Hr. apply bind_Act in Hr as (au & db1 & Hau & Hr).
  apply rescue_Ok in Hau as [Hau|(e & db2 & _ & Hau)]; [|by injection Hau as <- <-].
  unfold fmap, Act_fmap in Hau. destruct (authenticate_grant _ _ _ db) as [[au'|e] db2] eqn:Hok; [|done].
  injection Hau as <- <-. destruct au' as [a|]; [|done]. apply authenticate_Ok in Hok.
  destruct (timestamps_invalid _ _) eqn:Ht; [done|]. destruct (check_conditions _ _); [done|].
  apply bind_Act in Hr as ([] & db3 & _ & Hr). apply bind_Act in Hr as (found & db4 & Hf & Hr).
  apply rescue_Ok in Hf as [Hf|(e & db5 & _ & Hf)]; [|by injection Hf as <- <-].
  unfold fmap, Act_fmap in Hf. destruct (act _ db3) as [[current|e] db5] eqn:Hact; [|done].
  injection Hf as <- <-. apply act_Ok in Hact as [Hact ->].
  destruct (exactRepresentation current rep) eqn:He.
  - injection Hr as <- <-. destruct (au_object _ _ _ _ Hok) as (object & Ho & Hpay).
    exists a. split; [done|]. split; [done|]. split; [|by exists false].
    rewrite <- Hpay, <- (au_path _ _ _ _ Hok). by eapply exact_kept; [rewrite (au_path _ _ _ _ Hok)|..].
  - apply bind_Act in Hr as (refused & db5 & Hs & Hr). apply act_Ok in Hs as [_ ->].
    destruct refused; [done|]. by eapply persist_Ok.
Qed.

(** ** What is acknowledged *)

Lemma claimDuePublication_Ok token duration locked now (db : Database) c db' :
  claimDuePublication token duration locked now db = (Ok (Some c), db') -> exists k p l r,
  due_grant_publications db now locked = (k, p) :: tail (due_grant_publications db now locked) /\
  db' = set grant_publications (update_row k (lease_grant_publication token (now + duration * 1000))
    (db grant_publications)) db /\
  db grant_lineages !! k.1 = Some l /\ db grant_revisions !! k = Some r /\
  grantFromRow k.1 k.2 l r = Ok (gc_grant c) /\ gc_destination c = gp_destination p /\
  gc_token c = token /\ gc_expires c = now + duration * 1000 /\ gc_attempt c = gp_attempt_count p + 1.
Proof.
  unfold claimDuePublication. destruct (_ || _); [discriminate|]. intros Hc.
  apply bind_Act in Hc as ([[[k p] [l r]]|] & db1 & Hb & Hc); [|discriminate Hc].
  apply bind_Act in Hc as (g & db2 & Hg & Hc). apply act_Ok in Hg as [Hg ->]. injection Hc as <- <-.
  apply begin_Ok in Hb as Htx. apply bind_Tx in Htx as (rows & db3 & Hq & Htx). apply query_Tx in Hq as [-> ->].
  destruct (due_grant_publications db now locked) as [|[k' p'] rows] eqn:Hdue; [by apply ret_Tx in Htx as [[=] _]|].
  apply bind_Tx in Htx as ([] & db3 & Hw & Htx). apply write_Tx in Hw as ->.
  apply bind_Tx in Htx as (row & db3 & Hq & Htx). apply query_Tx in Hq as [-> ->]. apply ret_Tx in Htx as [Hx ->].
  rewrite !set_ne in Hx by done. destruct (db grant_lineages !! k'.1) as [l'|] eqn:Hl; [|discriminate Hx].
  cbn in Hx. apply fmap_Some in Hx as (lr & Hx & [= -> -> <-]). apply fmap_Some in Hx as (r' & Hr & [= -> ->]).
  by exists k', p', l', r'.
Qed.

Lemma finishPublication_Ok input state next tag now (db db' : Database) u :
  finishPublication input state next tag now db = Ok (u, db') -> exists p,
  db grant_publications !! (gpr_grant_id input, gpr_revision input) = Some p /\
  owns_publication input now p = true /\
  db' = set grant_publications (update_row (gpr_grant_id input, gpr_revision input)
    (finished_publication input state next tag now) (db grant_publications)) db.
Proof.
  unfold finishPublication. intros Hf. apply bind_Tx in Hf as (owned & db1 & Hq & Hf). apply query_Tx in Hq as [Ho ->].
  destruct owned; cbn [negb] in Hf; [|discriminate Hf]. apply write_Tx in Hf as ->.
  destruct (db grant_publications !! _) as [p|] eqn:Hp; [|done]. by exists p.
Qed.

(** A publication that was acknowledged was answered with the tag of what was sent. *)
Lemma publish_acknowledged env (db db' : Database) : publishGrant env db = (Ok GrantAcknowledged, db') ->
  exists c db1 url r body p, claimDuePublication (gb_token env) 30000 (gb_locked env) (gb_claim_now env) db = (Ok (Some c), db1) /\
    exchange env c = Ok (url, r, body) /\ acknowledged_by c url r body = Ok true /\
    db' grant_publications !! (g_grant_id (sgr_payload (gc_grant c)), g_revision (sgr_payload (gc_grant c))) = Some p /\
    gp_state p = Acknowledged.
Proof.
  unfold publishGrant. intros Hp. apply bind_Act in Hp as ([c|] & db1 & Hc & Hp); [|discriminate Hp].
  apply bind_Act in Hp as ([o|e] & db2 & Ha & Hp).
  2: { apply bind_Act in Hp as ([] & db3 & _ & Hp). discriminate Hp. }
  injection Hp as -> ->. apply caught_Ok in Ha. unfold attempt_publication in Ha.
  apply bind_Act in Ha as ([[url r] body] & db3 & He & Ha). apply act_Ok in He as [He ->].
  apply bind_Act in Ha as ([] & db4 & _ & Ha). apply bind_Act in Ha as (ok & db5 & Hk & Ha). apply act_Ok in Hk as [Hk ->].
  destruct ok.
  2: { case_bool_decide; (apply bind_Act in Ha as ([] & db5 & _ & Ha); discriminate Ha). }
  apply bind_Act in Ha as ([] & db5 & Hf & Ha). injection Ha as <-. apply begin_Ok in Hf as Hfin.
  apply finishPublication_Ok in Hfin as (p & Hrow & _ & ->). exists c, db1, url, r, body. eexists.
  repeat (split; [done|]). rewrite set_eq. tables. cbn [claim_result gpr_grant_id gpr_revision] in *.
  rewrite update_same. rewrite Hrow. split; [reflexivity|done].
Qed.

Lemma exchange_Ok env c url r body : exchange env c = Ok (url, r, body) -> exists conditions grantee,
  gb_resolve env (g_grantee (sgr_payload (gc_grant c))) = Ok grantee /\
  gb_url env (serviceBase grantee ++ js "/grants/" ++ g_grant_id (sgr_payload (gc_grant c))) = Ok url /\
  conditionHeaders c = Ok conditions /\
  gb_fetch env {| gpt_url := url; gpt_body := sgr_representation (gc_grant c); gpt_conditions := conditions |} = Ok r.
Proof.
  intros (grantee & Hg & (url' & Hu & (t & _ & (conditions & Hc & (r' & Hr & (body' & _ & Heq)%bind_Ok)%bind_Ok)%bind_Ok)%bind_Ok)%bind_Ok)%bind_Ok.
  apply Ok_eq in Heq. simplify_eq. by exists conditions, grantee.
Qed.

Lemma acknowledged_tag c url r body : acknowledged_by c url r body = Ok true ->
  header "etag" r = Some (expectedEtag c) /\ rs_status r ∈ [201; 204; 412].
Proof.
  unfold acknowledged_by. destruct (_ && _) eqn:Hb; [|done].
  apply andb_true_iff in Hb as [Hs Ht%bool_decide_eq_true]. intros _. split; [done|].
  unfold normal_success, converged_creation in Hs. rewrite !elem_of_cons.
  apply orb_true_iff in Hs as [Hs|Hs]; [apply orb_true_iff in Hs as [Hs|Hs]|]; lia.
Qed.

(** ** Two providers *)

(** A request that carries what the publisher sends to the service at [base]. *)
Record carries (base : jstr) (put : grant_put) (q : grant_request) : Prop := {
  ca_url : gpt_url put = base ++ js "/grants/" ++ gq_grant_id q;
  ca_conditions : gq_conditions q = gpt_conditions put;
  ca_body : exists chunks, gq_body q = Some (map Some chunks) /\ concat chunks = gpt_body put;
  ca_length : match gq_content_length q with
              | Some text => rx_test DIGITS text = true /\ decimal text = Z.of_nat (length (gpt_body put))
              | None => True
              end;
}.

(** Every answer is the one the other provider gives to the request, from one of its states. *)
Definition served (env : grant_publisher_env) (other : grant_receiver_env) (base : jstr) (db : Database) : Prop :=
  forall put r, gb_fetch env put = Ok r -> exists q, carries base put q /\ (put_grant other base q db).1 = Ok r.

Lemma read_request_chunks chunks total acc : 0 <= total ->
  total + Z.of_nat (length (concat chunks)) <= MAX_GRANT_BYTES ->
  read_request total acc (map Some chunks) = Ok (inr (reverse acc ++ chunks)).
Proof.
  revert total acc. induction chunks as [|chunk chunks IH]; intros total acc Ht Hl; cbn [read_request map].
  { by rewrite app_nil_r. }
  cbn [concat] in Hl. rewrite length_app in Hl.
  destruct (Z.ltb_spec MAX_GRANT_BYTES (total + Z.of_nat (length chunk))); [lia|].
  rewrite IH by lia. rewrite reverse_cons, <- app_assoc. done.
Qed.

Lemma read_request_Ok chunks total acc l : read_request total acc (map Some chunks) = Ok (inr l) ->
  l = reverse acc ++ chunks.
Proof.
  revert total acc. induction chunks as [|chunk chunks IH]; intros total acc; cbn [read_request map].
  { rewrite app_nil_r. by intros [= <-]. }
  destruct (_ <? _); [done|]. intros ->%IH. by rewrite reverse_cons, <- app_assoc.
Qed.

Lemma carried_bytes base put q bs : carries base put q -> requestBytes q = Ok (inr bs) -> bs = gpt_body put.
Proof.
  intros [_ _ (chunks & Hb & Hc) _] Hr. unfold requestBytes in Hr. rewrite Hb in Hr.
  destruct (match gq_content_length q with Some _ => _ | None => false end); [done|].
  apply bind_Ok in Hr as ([e|l] & Hl & Hr); [done|]. apply read_request_Ok in Hl as ->. cbn in Hr.
  by injection Hr as <-.
Qed.

Lemma no_tag e : header "etag" (problem_answer e) = None.
Proof. unfold header, problem_answer. cbn [rs_headers]. by destruct (gerr_status e =? 503); vm_compute. Qed.

Lemma tag_of base id res : header "etag" (success_answer base id res) = Some (gres_etag res).
Proof.
  unfold header, success_answer. destruct (_ =? 412); reflexivity.
Qed.

(** An answer with a tag is the one to a grant that is kept. *)
Lemma put_answers other base q (db : Database) r tag : (put_grant other base q db).1 = Ok r ->
  header "etag" r = Some tag -> exists bs res, requestBytes q = Ok (inr bs) /\
    answered_for other (gq_grant_id q) bs res (put_grant other base q db).2 /\
    r = success_answer base (gq_grant_id q) res /\ gres_etag res = tag.
Proof.
  intros Hr Ht. destruct (put_grant other base q db) as [r' db'] eqn:Hp. cbn [fst snd] in *. subst r'.
  unfold put_grant in Hp. apply bind_Act in Hp as (outcome & db1 & Ho & Hp). apply caught_Ok in Ho.
  injection Hp as <- <-.
  destruct outcome as [[e|res]|e]; [by rewrite no_tag in Ht| |by rewrite no_tag in Ht].
  rewrite tag_of in Ht. injection Ht as <-. destruct (negb _); [done|].
  apply bind_Act in Ho as ([e|bs] & db2 & Hb & Ho); apply act_Ok in Hb as [Hb ->]; [done|].
  exists bs, res. split; [done|]. split; [|done]. by eapply receive_answers.
Qed.

Lemma claimed_object token duration locked now (db : Database) c db' :
  claimDuePublication token duration locked now db = (Ok (Some c), db') -> exists object,
  inspectTyped Profiles.grant (sgr_representation (gc_grant c)) = Ok object /\ payload object = sgr_payload (gc_grant c).
Proof.
  intros (k & p & l & r & _ & _ & _ & _ & Hg & _)%claimDuePublication_Ok. apply grantFromRow_Ok in Hg as (o & Ho & Hp & Hc & _).
  exists o. by rewrite Hc.
Qed.

(** What is answered with a tag is kept. *)
Lemma tagged_kept other base put q (db : Database) r tag object : carries base put q ->
  (put_grant other base q db).1 = Ok r -> header "etag" r = Some tag ->
  inspectTyped Profiles.grant (gpt_body put) = Ok object ->
  keeps_revision (g_grant_id (payload object)) (g_revision (payload object)) (gpt_body put) (put_grant other base q db).2.
Proof.
  intros Hq Hr Ht Ho. destruct (put_answers _ _ _ _ _ _ Hr Ht) as (bs & res & Hb & Hans & _ & _).
  apply (carried_bytes _ _ _ _ Hq) in Hb as ->.
  destruct Hans as (a & [(object' & Ho' & Hpay) Hid _ _] & _ & Hk & _).
  rewrite Ho in Ho'. apply Ok_eq in Ho' as <-. cbn [HailPayloadByType] in *. by rewrite <- Hid, <- Hpay in Hk.
Qed.

(** The publisher's own record of the end of a publication. *)
Definition acknowledged_row (c : GrantPublicationClaim) (db : Database) : Prop := exists p,
  db grant_publications !! (g_grant_id (sgr_payload (gc_grant c)), g_revision (sgr_payload (gc_grant c))) = Some p /\
  gp_state p = Acknowledged.
End exchange.

Section two_providers.
Context `{HailEnv} `{Cborg} `{Keys} `{Triggers} `{GrantAuthority}.

(** C26: What a provider answers for, it keeps as it was signed: when the submission of a grant is
    answered with success, or as one that is known, then the bytes submitted are a grant of that
    identifier, its signature verifies under the identity key that the resolver names for its grantor,
    this provider serves its grantee, its times are in order, and these very bytes are stored as its
    revision; the tag is their digest, and only the first revision is a creation. *)
Theorem received_grant_kept env path rep conditions (db : Database) r db' :
  receiveGrant env path rep conditions db = (Ok (inr r), db') -> exists object grantor grantee verified,
    inspectTyped Profiles.grant rep = Ok object /\ g_grant_id (payload object) = path /\
    gv_resolve env (g_grantor (payload object)) = Ok grantor /\
    verifySignedPayload Profiles.grant rep
      (identity_verifier (g_grantor (payload object)) (identityDidKey grantor)) = Ok verified /\
    gv_resolve env (g_grantee (payload object)) = Ok grantee /\ serviceBase grantee = gv_serviceBase env /\
    timestamps_invalid (payload object) (gv_now env) = false /\
    keeps_revision path (g_revision (payload object)) rep db' /\
    gres_etag r = etag (sha256 rep) /\
    (gres_created r = true -> g_revision (payload object) = 1) /\
    gres_status r = if g_revision (payload object) =? 1 then (if gres_created r then 201 else 412) else 204.
Proof.
  intros (a & [(object & Ho & Hp) Hid (grantor & verified & Hg & _ & Hv) (grantee & He & Hs)] & Ht & Hk & new & ->)%receive_answers.
  exists object, grantor, grantee, verified. cbn [HailPayloadByType] in *. rewrite Hp.
  repeat (split; [done|]). destruct new; cbn; destruct (Z.eqb_spec (g_revision (ag_payload a)) 1); done.
Qed.

(** C27: Acknowledged means delivered: when a round of the publisher ends with an acknowledgement, and
    its request was answered by the provider of the grantee, then that provider keeps exactly the bytes
    of the revision that was claimed, under its identifier and number, and the publication is recorded
    as acknowledged. *)
Theorem acknowledged_grant_kept env other base (db other_db db' : Database) :
  served env other base other_db -> publishGrant env db = (Ok GrantAcknowledged, db') ->
  exists c db1 put q,
    claimDuePublication (gb_token env) 30000 (gb_locked env) (gb_claim_now env) db = (Ok (Some c), db1) /\
    gpt_body put = sgr_representation (gc_grant c) /\ carries base put q /\
    keeps_revision (g_grant_id (sgr_payload (gc_grant c))) (g_revision (sgr_payload (gc_grant c)))
      (sgr_representation (gc_grant c)) (put_grant other base q other_db).2 /\
    acknowledged_row c db'.
Proof.
  intros Hserved (c & db1 & url & r & body & p & Hc & He & Ha & Hp & Hst)%publish_acknowledged.
  apply acknowledged_tag in Ha as [Ht _]. apply exchange_Ok in He as (conditions & grantee & _ & _ & _ & Hf).
  destruct (Hserved _ _ Hf) as (q & Hq & Hr). destruct (claimed_object _ _ _ _ _ _ _ Hc) as (object & Ho & Hpay).
  cbn [HailPayloadByType] in *. eexists c, db1, _, q. split; [done|]. split; [|split; [exact Hq|]]; [done|].
  split; [rewrite <- Hpay; exact (tagged_kept _ _ _ _ _ _ _ _ Hq Hr Ht Ho)|by exists p].
Qed.
End two_providers.
