(* ===== verification/GrantArrival.v ===== *)
(** * The next revision arrives

    Between two undisturbed providers, a revision that follows what the provider of the grantee has is
    published, received, kept and acknowledged in one round. *)

From S2P Require Import Prelude JsString Regex Value Cbor Profiles Validation ValidatePayload Models.
From S2P Require Import ValidationRules Base64Url Cose CoseRules WebCrypto Database Typed ServerBodies.
From S2P Require Import Conversations Envelopes DeliveryRules Grants GrantRules Receiver Http GrantReceiver.
From S2P Require Import GrantPublisher GrantExchange PublisherRules.
From Stdlib Require Import ZArith.
Open Scope Z_scope.

(** ** Entity tags *)

Lemma matches_rep_intro rs w : Forall (fun u => in_ranges rs u = true) w -> rx_matches (rep (RClass rs) (length w)) w.
Proof.
  induction 1 as [|u w Hu _ IH]; [constructor|]. cbn [rep length].
  change (u :: w) with ([u] ++ w). by constructor; [constructor|].
Qed.

Lemma tag_text bs : length bs = 32%nat ->
  length (encodeBase64Url bs) = 43%nat /\ Forall (fun u => in_ranges BASE64URL_CLASS u = true) (encodeBase64Url bs).
Proof.
  intros Hl. destruct (spells_exists bs) as (ds & pad & [Ht Hd Hp Hlen _]). rewrite Ht, length_map. split; [lia|].
  apply Forall_map. eapply Forall_impl; [exact Hd|]. intros d Hd'. by apply char_of_spec.
Qed.

(** The tag of a digest is one that the receiver reads. *)
Lemma parse_etag bs : length bs = 32%nat -> parseStrongEtag (etag bs) = Some bs.
Proof.
  intros Hl. destruct (tag_text bs Hl) as [Hlen Hclass]. unfold parseStrongEtag.
  assert (Hm : rx_test STRONG_ETAG (etag bs) = true).
  { apply rx_test_spec. unfold STRONG_ETAG, etag. cbn [seqs].
    change (quote_mark :: encodeBase64Url bs ++ [quote_mark]) with ([quote_mark] ++ encodeBase64Url bs ++ [quote_mark]).
    constructor; [by constructor|]. constructor; [|by constructor]. rewrite <- Hlen. by apply matches_rep_intro. }
  rewrite Hm. change (take 43 (drop 1 (etag bs))) with (take 43 (encodeBase64Url bs ++ [quote_mark])).
  rewrite take_app_le by lia. rewrite take_ge by lia.
  rewrite (proj2 (decodeBase64Url_Ok _ None bs)) by done. by rewrite Hl.
Qed.

(** What the publisher asks for is what the receiver asks of it. *)
Lemma conditions_agree c conditions : conditionHeaders c = Ok conditions ->
  (forall previous, g_previous (sgr_payload (gc_grant c)) = Some previous -> length previous = 32%nat) ->
  check_conditions (sgr_payload (gc_grant c)) conditions = None.
Proof.
  unfold conditionHeaders, check_conditions. intros Hc Hl. destruct (g_revision _ =? 1).
  - apply Ok_eq in Hc as <-. reflexivity.
  - destruct (g_previous _) as [previous|] eqn:Hp; [|done]. apply Ok_eq in Hc as <-. cbn [ifMatch ifNoneMatch].
    rewrite parse_etag by auto. by rewrite jstr_eqb_refl.
Qed.

(** ** The repository accepts what is ready *)

Section repository.
Context `{HailEnv} `{CborgSpec} `{Triggers} `{GrantAuthority}.
#[local] Set Default Proof Using "Type*".

Lemma grantFromRow_row input l : checked input ->
  l_grantor_did l = g_grantor (sgr_payload input) -> l_grantee_did l = g_grantee (sgr_payload input) ->
  grantFromRow (g_grant_id (sgr_payload input)) (g_revision (sgr_payload input)) l (revision_row input) = Ok {|
    sgr_account := l_local_account_id l;
    sgr_role := if l_grantor_role l then RoleGrantor else RoleGrantee;
    sgr_payload := sgr_payload input; sgr_representation := sgr_representation input;
    sgr_digest := sgr_digest input; sgr_signing_key := sgr_signing_key input |}.
Proof.
  intros [(o & Ho & Hp) Hd] Hg He. pose proof (inspected_grant_ok _ _ Ho) as (_ & _ & _ & _ & _ & _ & _ & _ & Hi & Hu & Ht).
  cbn [HailPayloadByType] in *. rewrite Hp in Hi, Hu, Ht. unfold grantFromRow. cbn [revision_row gr_cose gr_issued_at gr_updated_at gr_expires_at gr_digest
    gr_status gr_previous gr_scope gr_binding_hash gr_profile_hash gr_signing_public_key].
  rewrite Ho. cbn [mbind result_bind]. unfold safeInteger. rewrite Hi, Hu. cbn [mbind result_bind].
  assert (Hexp : match g_expires_at (sgr_payload input) with
                 | None => Ok None
                 | Some t => Some <$> (if isSafeInteger t then Ok t
                     else Err (OtherError (js "Persisted Grant " ++ js "expires_at" ++ js " is unsafe")))
                 end = Ok (g_expires_at (sgr_payload input)) :> M (option Z)).
  { destruct (g_expires_at _) as [t|]; [|done]. by rewrite (Ht t). }
  rewrite Hexp. cbn [mbind result_bind]. cbn [HailPayloadByType] in *. rewrite Hp, Hd, Hg, He.
  rewrite !jstr_eqb_refl, !Z.eqb_refl, !bool_decide_eq_true_2 by done.
  rewrite !(proj2 (Cbor.equalBytes_eq _ _)) by done. done.
Qed.

(** What the database of the grantee's provider has to be for a revision to follow. *)
Record follows (account : jstr) (p : HailGrant) (digest : bytes) (db : Database) : Prop := {
  fo_account : exists a, getAccountByDid (g_grantee p) db = Some (account, a) /\ a_active a = true /\ a_public a = true;
  fo_digest n r : db grant_revisions !! (g_grant_id p, n) = Some r -> gr_digest r <> digest;
  fo_place : match db grant_lineages !! g_grant_id p with
    | None => g_revision p = 1 /\ g_status p = grant_active /\
        forall id l, db grant_lineages !! id = Some l -> active_pair p id l = false
    | Some l => l_grantor_role l = false /\ l_local_account_id l = account /\
        l_grantor_did l = g_grantor p /\ l_grantee_did l = g_grantee p /\ l_active l = true /\
        g_revision p = l_current_revision l + 1 /\ g_previous p = Some (l_current_digest l) /\
        forall r, db grant_revisions !! (g_grant_id p, l_current_revision l) = Some r ->
          gr_updated_at r < g_updated_at p
    end;
}.

Lemma find_row_all {K V} `{Countable K} (f : K -> V -> bool) (m : gmap K V) :
  (forall k v, m !! k = Some v -> f k v = false) -> find_row f m = None.
Proof.
  intros Hf. unfold find_row. destruct (List.find _ _) as [[k v]|] eqn:E; [|done].
  apply List.find_some in E as [Hin Hk]. apply list_elem_of_In, elem_of_map_to_list in Hin.
  cbn in Hk. by rewrite (Hf k v Hin) in Hk.
Qed.

Context (Hfree : unrefused) (Hretain : forall input consent db, retainPublicGrantAuthority input consent db = Ok tt).

Lemma insert_unique_fresh {V} t (lookup : Database -> option V) f (db : Database) : lookup db = None ->
  insert_unique t lookup f db = Ok (tt, set t (f (db t)) db).
Proof.
  intros Hl. unfold insert_unique, mbind, Tx_bind, query. rewrite Hl. unfold write. by rewrite Hfree.
Qed.

Lemma insertRevision_fresh input (db : Database) :
  (forall n r, db grant_revisions !! (g_grant_id (sgr_payload input), n) = Some r -> gr_digest r <> sgr_digest input) ->
  db grant_revisions !! (g_grant_id (sgr_payload input), g_revision (sgr_payload input)) = None ->
  insertRevision input db = Ok (tt, set grant_revisions (<[(g_grant_id (sgr_payload input), g_revision (sgr_payload input)) :=
    revision_row input]> (db grant_revisions)) db).
Proof.
  intros Hd Hn. unfold insertRevision. apply bind_Tx. eexists _, db. split; [by apply query_Tx|].
  rewrite find_row_all.
  - by apply insert_unique_fresh.
  - intros [id n] r Hr. cbn. destruct (jstr_eqb id _) eqn:E; [|done]. apply jstr_eqb_eq in E as ->.
    apply bool_decide_eq_false. by eapply Hd.
Qed.

Lemma read_back_Ok input l (db : Database) : checked input ->
  db grant_lineages !! g_grant_id (sgr_payload input) = Some l ->
  l_grantor_did l = g_grantor (sgr_payload input) -> l_grantee_did l = g_grantee (sgr_payload input) ->
  l_current_revision l = g_revision (sgr_payload input) ->
  db grant_revisions !! (g_grant_id (sgr_payload input), g_revision (sgr_payload input)) = Some (revision_row input) ->
  exists g, read_back input db = Ok (g, db).
Proof.
  intros Hc Hl Hg He Hn Hr. eexists. unfold read_back. apply bind_Tx. eexists tt, db.
  split; [by rewrite Hretain|]. apply bind_Tx. eexists _, db. split.
  { apply throwing_Tx. split; [|done]. unfold findCurrentByGrantId, findRevision. rewrite Hl, Hn. rewrite Hr.
    rewrite grantFromRow_row by done. reflexivity. }
  reflexivity.
Qed.

Lemma checkedInput_role input role : sgr_role input = role -> checked input -> checkedInput input role = Ok tt.
Proof using Type.
  intros Hr [(o & Ho & Hp) Hd]. unfold checkedInput. rewrite Hr, bool_decide_eq_true_2 by done. cbn [negb throw_if].
  cbn [mbind result_bind]. rewrite Ho. cbn [mbind result_bind HailPayloadByType] in *. rewrite Hp, Hd.
  rewrite bool_decide_eq_true_2, (proj2 (Cbor.equalBytes_eq _ _)) by done. done.
Qed.

Lemma accept_first_fresh input (db : Database) : grants_ok db ->
  db grant_lineages !! g_grant_id (sgr_payload input) = None ->
  g_revision (sgr_payload input) = 1 -> g_status (sgr_payload input) = grant_active ->
  (forall id l, db grant_lineages !! id = Some l -> active_pair (sgr_payload input) id l = false) ->
  accept_first input db = Ok (tt,
    set grant_revisions (<[(g_grant_id (sgr_payload input), 1) := revision_row input]> (db grant_revisions))
      (set grant_lineages (<[g_grant_id (sgr_payload input) := lineage_row input]> (db grant_lineages)) db)).
Proof.
  intros Hok Hl Hn Hs Hpair. unfold accept_first. rewrite Hn, Hs, bool_decide_eq_true_2 by done. cbn [negb orb Z.eqb].
  assert (Hnone : forall n, db grant_revisions !! (g_grant_id (sgr_payload input), n) = None).
  { intros n. destruct (db grant_revisions !! _) as [r|] eqn:Hr; [|done].
    apply (go_owned _ Hok) in Hr as [l Hr]. by pose proof (eq_trans (eq_sym Hl) Hr). }
  apply bind_Tx. eexists tt, _. split.
  - unfold insertLineage. apply bind_Tx. eexists _, db. split; [by apply query_Tx|].
    rewrite find_row_all by done. by apply insert_unique_fresh.
  - rewrite insertRevision_fresh; rewrite set_ne, ?Hn by done; [done| |by apply Hnone].
    intros n r Hr. by rewrite Hnone in Hr.
Qed.

Lemma accept_advance_next input l (db : Database) : grants_ok db ->
  db grant_lineages !! g_grant_id (sgr_payload input) = Some l ->
  follows (sgr_account input) (sgr_payload input) (sgr_digest input) db ->
  accept_advance input l db = Ok (tt,
    set grant_lineages (update_row (g_grant_id (sgr_payload input)) (advance_lineage input) (db grant_lineages))
      (set grant_revisions (<[(g_grant_id (sgr_payload input), g_revision (sgr_payload input)) := revision_row input]>
        (db grant_revisions)) db)).
Proof.
  intros Hok Hl [_ Hd Hp]. rewrite Hl in Hp. destruct Hp as (_ & _ & _ & _ & Ha & Hn & Hprev & Ht).
  pose proof (go_lineage _ Hok _ _ Hl) as Hlin.
  assert (Hs : is_Some (db grant_revisions !! (g_grant_id (sgr_payload input), l_current_revision l)))
    by (apply (lo_rows _ _ _ Hlin); pose proof (lo_current _ _ _ Hlin); lia).
  destruct Hs as [current Hc]. specialize (Ht _ Hc).
  destruct (lo_signed _ _ _ Hlin _ _ Hc) as (i & [(o & Ho & Hpay) _] & -> & _ & _ & _).
  pose proof (inspected_grant_ok _ _ Ho) as (_ & _ & _ & _ & _ & _ & _ & _ & _ & Hsafe & _).
  cbn [HailPayloadByType] in *. rewrite Hpay in Hsafe. cbn [revision_row gr_updated_at] in Ht.
  assert (Hadv : advances input l (Some (revision_row i)) = Ok true).
  { unfold advances. rewrite Ha, Hn, Z.eqb_refl, Hprev. rewrite bool_decide_eq_true_2 by done.
    cbn [negb orb revision_row gr_updated_at]. unfold safeInteger. rewrite Hsafe. cbn [mbind result_bind]. f_equal. lia. }
  unfold accept_advance. apply bind_Tx. eexists _, db. split; [by apply query_Tx|].
  apply bind_Tx. exists true, db. split.
  - apply throwing_Tx. split; [|done]. exact Hadv.
  - cbn [negb]. apply bind_Tx. eexists tt, _. split.
    + apply insertRevision_fresh; [done|].
      destruct (db grant_revisions !! (_, g_revision _)) as [r|] eqn:Hr; [|done].
      assert (Hs : is_Some (db grant_revisions !! (g_grant_id (sgr_payload input), g_revision (sgr_payload input)))) by by eexists.
      apply (lo_rows _ _ _ Hlin) in Hs. lia.
    + unfold write. rewrite Hfree. by rewrite set_ne.
Qed.

(** What follows is accepted. *)
Lemma accept_follows input (db : Database) : grants_ok db -> checked input ->
  follows (sgr_account input) (sgr_payload input) (sgr_digest input) db ->
  exists g db', acceptReceivedRevision input db = Ok (g, db').
Proof.
  intros Hok Hc Hf. set (i := as_received (sgr_account input) input).
  assert (Hacc : exists a, db provider_accounts !! sgr_account input = Some a /\ a_active a = true /\ a_did a = g_grantee (sgr_payload input)).
  { destruct (fo_account _ _ _ _ Hf) as (a & Ha & Hact & _). apply find_row_Some in Ha as [Ha [Hd _]%andb_true_iff].
    apply jstr_eqb_eq in Hd. by exists a. }
  destruct Hacc as (a & Ha & Hact & Hdid).
  assert (Hci : checked i) by (by destruct Hc; split).
  pose proof Hf as [_ Hd Hp].
  change (sgr_payload input) with (sgr_payload i) in *. change (sgr_digest input) with (sgr_digest i) in *.
  assert (Hgo : exists g db', (match db grant_lineages !! g_grant_id (sgr_payload i) with
    | None => _ ← accept_first i; read_back i
    | Some l => _ ← accept_advance i l; read_back i
    end : Tx SignedGrantRevision) db = Ok (g, db')).
  { destruct (db grant_lineages !! _) as [l|] eqn:Hl.
    - pose proof (accept_advance_next i l db Hok Hl Hf) as Hadv. destruct Hp as (_ & _ & Hg & He & _).
      edestruct (read_back_Ok i (advance_lineage i l)) as [g Hr]; [exact Hci|..|
        exists g; eexists; apply bind_Tx; eexists tt, _; split; [exact Hadv|exact Hr]].
      + rewrite set_eq. tables. by rewrite update_same, Hl.
      + done.
      + done.
      + done.
      + rewrite set_ne, set_eq by done. tables. apply insert_same.
    - destruct Hp as (Hn & Hs & Hpair). pose proof (accept_first_fresh i db Hok Hl Hn Hs Hpair) as Hacc.
      edestruct (read_back_Ok i (lineage_row i)) as [g Hr]; [exact Hci|..|
        exists g; eexists; apply bind_Tx; eexists tt, _; split; [exact Hacc|exact Hr]].
      + rewrite set_ne, set_eq by done. tables. apply insert_same.
      + done.
      + done.
      + done.
      + rewrite set_eq, Hn. tables. apply insert_same. }
  destruct Hgo as (g & db' & Hgo). exists g, db'. unfold acceptReceivedRevision. fold i.
  apply bind_Tx. exists tt, db. split; [by apply throwing_Tx; rewrite checkedInput_role|].
  apply bind_Tx. exists tt, db. split.
  { unfold party_account. apply bind_Tx. eexists _, db. split; [by apply query_Tx|]. apply throwing_Tx. split; [|done].
    change (sgr_account i) with (sgr_account input). rewrite ?Ha, Hact. cbn [accountParty]. rewrite Hdid, jstr_eqb_refl. done. }
  apply bind_Tx. eexists _, db. split; [by apply query_Tx|]. destruct (db grant_lineages !! _) as [l|] eqn:Hl; [|done].
  destruct Hp as (Hrole & Hacc & Hg & He & _ & Hn & _). rewrite Hg, He, !jstr_eqb_refl. cbn [negb orb].
  apply bind_Tx. eexists _, db. split; [by apply query_Tx|]. rewrite Hrole.
  change (sgr_account i) with (sgr_account input). rewrite Hacc, jstr_eqb_refl. cbn [negb].
  destruct (db grant_revisions !! (_, g_revision _)) as [r|] eqn:Hr; [|done].
  assert (Hs : is_Some (db grant_revisions !! (g_grant_id (sgr_payload i), g_revision (sgr_payload i)))) by by eexists.
  apply (lo_rows _ _ _ (go_lineage _ Hok _ _ Hl)) in Hs. lia.
Qed.
End repository.

(** ** The receiver answers *)

(** [p] may follow [q]: issued when it was, and with its consent if it restricts it. *)
Definition compatible (q p : HailGrant) `{HailEnv} `{Cborg} : Prop :=
  g_issued_at p = g_issued_at q /\ exists restricts, restrictsAuthorization q p = Ok restricts /\
    (restricts = true -> g_consent_context q = g_consent_context p).

Section receiver.
Context `{HailEnv} `{CborgSpec} `{Keys} `{Triggers} `{GrantAuthority}.
#[local] Set Default Proof Using "Type*".

(** What the receiver finds: nothing, or the revision before. *)
Lemma found_before p account digest (db : Database) : grants_ok db -> follows account p digest db ->
  exists current, findReceivedForSender (g_grant_id p) (g_grantee p) db = Ok current /\
  (forall rep, sha256 rep = digest -> exactRepresentation current rep = false) /\
  match current with
  | None => g_revision p = 1 /\ g_status p = grant_active
  | Some c => findCurrentByGrantId (g_grant_id p) db = Ok (Some c) /\ sgr_role c = RoleGrantee /\
      g_grantor (sgr_payload c) = g_grantor p /\ g_grantee (sgr_payload c) = g_grantee p /\
      g_revision p = g_revision (sgr_payload c) + 1 /\ 1 <= g_revision (sgr_payload c) /\
      g_status (sgr_payload c) = grant_active /\
      g_previous p = Some (sgr_digest c) /\ g_updated_at (sgr_payload c) < g_updated_at p
  end.
Proof.
  intros Hok [_ Hd Hp]. unfold findReceivedForSender, findCurrentByGrantId.
  destruct (db grant_lineages !! g_grant_id p) as [l|] eqn:Hl; [|exists None; by destruct Hp as (? & ? & _)].
  destruct Hp as (Hrole & _ & Hg & He & Ha & Hn & Hprev & Ht). pose proof (go_lineage _ Hok _ _ Hl) as Hlin.
  pose proof (lo_current _ _ _ Hlin) as Hpos.
  assert (Hs : is_Some (db grant_revisions !! (g_grant_id p, l_current_revision l))) by (apply (lo_rows _ _ _ Hlin); lia).
  destruct Hs as [r Hc]. specialize (Ht _ Hc). pose proof (Hd _ _ Hc) as Hne.
  destruct (lo_last _ _ _ Hlin _ Hc) as [Hdig Hact]. rewrite Ha in Hact. symmetry in Hact. apply bool_decide_eq_true in Hact.
  destruct (lo_signed _ _ _ Hlin _ _ Hc) as (i & Hck & -> & Hid & Hrev & Hgi & Hei).
  assert (Hfr : findRevision (g_grant_id p) (l_current_revision l) db = Ok (Some {|
    sgr_account := l_local_account_id l; sgr_role := RoleGrantee; sgr_payload := sgr_payload i;
    sgr_representation := sgr_representation i; sgr_digest := sgr_digest i; sgr_signing_key := sgr_signing_key i |})).
  { unfold findRevision. rewrite Hl, Hc, <- Hid, <- Hrev, grantFromRow_row, Hrole by done. done. }
  rewrite Hfr. cbn [mbind result_bind sgr_payload sgr_role]. rewrite Hei, He, jstr_eqb_refl. cbn [negb].
  eexists. split; [reflexivity|]. split.
  { intros rep Hrep. cbn [exactRepresentation sgr_representation]. apply not_true_iff_false. intros Heq%Cbor.equalBytes_eq.
    apply Hne. cbn [revision_row gr_digest]. by rewrite (ck_digest _ Hck), Heq. }
  cbn [sgr_role sgr_payload sgr_digest]. split; [done|]. rewrite Hgi, Hg, Hei, He, Hrev.
  cbn [revision_row gr_digest gr_status gr_updated_at] in *. rewrite Hdig in Hprev. done.
Qed.

(** The receiver of a grant: whom it resolves and serves, and that nothing else happens meanwhile. *)
Record receiver_ready (env : grant_receiver_env) (rep : bytes) (p : HailGrant) (account : jstr) (db : Database) : Prop := {
  rr_quiet n d : gv_others env n d = d;
  rr_grantor : exists grantor, gv_resolve env (g_grantor p) = Ok grantor /\
    (exists verified, verifySignedPayload Profiles.grant rep
       (identity_verifier (g_grantor p) (identityDidKey grantor)) = Ok verified) /\
    exists grantee, gv_resolve env (g_grantee p) = Ok grantee /\ serviceBase grantee = gv_serviceBase env /\
      retain_resolutions env grantor grantee = Ok tt;
  rr_times : timestamps_invalid p (gv_now env) = false;
  rr_follows : follows account p (sha256 rep) db;
  rr_compatible c : findCurrentByGrantId (g_grant_id p) db = Ok (Some c) -> compatible (sgr_payload c) p;
}.

Lemma succession_allowed p account digest (db : Database) current : grants_ok db -> follows account p digest db ->
  (forall c, findCurrentByGrantId (g_grant_id p) db = Ok (Some c) -> compatible (sgr_payload c) p) ->
  findReceivedForSender (g_grant_id p) (g_grantee p) db = Ok current ->
  check_succession current p = Ok None.
Proof.
  intros Hok Hf Hcomp Hfound. destruct (found_before _ _ _ _ Hok Hf) as (current' & Hfound' & _ & Hc).
  rewrite Hfound in Hfound'. apply Ok_eq in Hfound' as <-. unfold check_succession.
  destruct current as [c|]; [|by destruct Hc as [-> ->]].
  destruct Hc as (Hcur & Hrole & Hg & He & Hn & Hpos & Hs & Hprev & Ht).
  destruct (Hcomp _ Hcur) as (Hi & restricts & Hr & Hsame). rewrite Hr. cbn [mbind result_bind].
  assert (Hno : restricts && negb (bool_decide (g_consent_context (sgr_payload c) = g_consent_context p)) = false).
  { destruct restricts; [|done]. by rewrite bool_decide_eq_true_2 by auto. }
  rewrite Hno, Hrole, Hg, He, Hi, Hn, Hs, Hprev, !jstr_eqb_refl, !Z.eqb_refl.
  rewrite (bool_decide_eq_false_2 (grant_active = grant_revoked)), !bool_decide_eq_true_2 by done. cbn [negb orb].
  destruct (Z.leb_spec (g_updated_at p) (g_updated_at (sgr_payload c))); [lia|].
  destruct (Z.eqb_spec (g_revision (sgr_payload c) + 1) 1); [lia|]. done.
Qed.

Context (Hfree : unrefused) (Hretain : forall input consent db, retainPublicGrantAuthority input consent db = Ok tt).

Lemma authenticate_ready env rep object account (db : Database) :
  inspectTyped Profiles.grant rep = Ok object ->
  receiver_ready env rep (payload object) account db -> exists a,
  authenticate_grant env (g_grant_id (payload object)) rep db = (Ok (Some a), db) /\
  ag_payload a = payload object /\ ag_account a = account /\ ag_retain a = Ok tt.
Proof using Type*.
  intros Ho [Hq (grantor & Hg & (verified & Hv) & grantee & He & Hb & Hr) _ Hf _].
  destruct (fo_account _ _ _ _ Hf) as (a & Ha & Hact & Hpub).
  unfold authenticate_grant, mbind, Act_bind, act, meanwhile. rewrite Ho. cbn [HailPayloadByType] in *.
  rewrite jstr_eqb_refl. cbn [negb throw_if]. rewrite Hg, Hv, He, Hb, jstr_eqb_refl. cbn [negb].
  rewrite Hq, Ha, Hact, Hpub. cbn [negb orb]. eexists. split; [reflexivity|]. done.
Qed.

(** What follows is kept, and answered for as new. *)
Lemma receive_follows env rep conditions object account (db : Database) : grants_ok db ->
  inspectTyped Profiles.grant rep = Ok object -> check_conditions (payload object) conditions = None ->
  receiver_ready env rep (payload object) account db -> exists db',
  receiveGrant env (g_grant_id (payload object)) rep conditions db =
    (Ok (inr (newly_kept (payload object) (sha256 rep))), db').
Proof using Type*.
  intros Hok Ho Hc Hready. destruct (authenticate_ready _ _ _ _ _ Ho Hready) as (a & Ha & Hp & Hacc & Hret).
  destruct Hready as [Hq _ Ht Hf Hcomp]. destruct (found_before _ _ _ _ Hok Hf) as (current & Hfound & Hnew & _).
  pose proof (succession_allowed _ _ _ _ _ Hok Hf Hcomp Hfound) as Hsucc.
  assert (Hstored : exists g db', acceptReceivedRevision (received_revision a rep) db = Ok (g, db')).
  { apply accept_follows; try done.
    - split; cbn [received_revision sgr_representation sgr_payload sgr_digest]; [by exists object|done].
    - cbn [received_revision sgr_account sgr_payload sgr_digest]. by rewrite Hp, Hacc. }
  destruct Hstored as (g & db' & Hstored). exists db'.
  unfold receiveGrant, rescue, mbind at 1, Act_bind at 1, fmap at 1, Act_fmap at 1. rewrite Ha.
  cbn [HailPayloadByType] in *. rewrite Hp, Ht, Hc. unfold mbind, Act_bind, meanwhile, act, fmap, Act_fmap.
  rewrite Hq, Hfound, Hnew, Hsucc by done. unfold persist_grant, caught, mbind, Act_bind, act, meanwhile, begin.
  rewrite Hret, Hq, Hstored, Hp. done.
Qed.

(** *** The request is the one that was sent *)

Lemma carried_request base put q : carries base put q -> Z.of_nat (length (gpt_body put)) <= MAX_GRANT_BYTES ->
  requestBytes q = Ok (inr (gpt_body put)).
Proof using Type.
  intros [_ _ (chunks & Hb & Hc) Hl] Hsize. unfold requestBytes. rewrite Hb.
  assert (Hdeclared : match gq_content_length q with
    | Some text => negb (rx_test DIGITS text) || (MAX_GRANT_BYTES <? decimal text)
    | None => false
    end = false).
  { destruct (gq_content_length q) as [text|]; [|done]. destruct Hl as [-> ->]. cbn [negb orb]. lia. }
  rewrite Hdeclared. rewrite read_request_chunks by (rewrite ?Hc; lia). cbn. by rewrite Hc.
Qed.

Lemma put_follows env base put q object account (db : Database) : grants_ok db ->
  carries base put q -> gpt_url put = base ++ js "/grants/" ++ g_grant_id (payload object) ->
  Z.of_nat (length (gpt_body put)) <= MAX_GRANT_BYTES ->
  inspectTyped Profiles.grant (gpt_body put) = Ok object ->
  check_conditions (payload object) (gpt_conditions put) = None ->
  receiver_ready env (gpt_body put) (payload object) account db ->
  (put_grant env base q db).1 = Ok (success_answer base (g_grant_id (payload object))
    (newly_kept (payload object) (sha256 (gpt_body put)))).
Proof using Type*.
  intros Hok Hca Hurl Hsize Ho Hc Hready. destruct (receive_follows _ _ _ _ _ _ Hok Ho Hc Hready) as [db' Hr].
  assert (Hid : gq_grant_id q = g_grant_id (payload object)).
  { rewrite (ca_url _ _ _ Hca) in Hurl. apply app_inv_head in Hurl. by apply app_inv_head in Hurl. }
  pose proof (inspected_grant_ok _ _ Ho) as (_ & _ & _ & _ & _ & _ & _ & Huuid & _).
  unfold put_grant. rewrite Hid. change GRANT_ID_PATTERN with UUID_V7_PATTERN. cbn [HailPayloadByType] in *.
  rewrite Huuid. cbn [negb]. rewrite (carried_request _ _ _ Hca Hsize), (ca_conditions _ _ _ Hca).
  unfold mbind, Act_bind, caught, act, mret, Act_ret. by rewrite Hr.
Qed.
End receiver.

(** ** The publisher sees it *)

Section publisher.
Context `{HailEnv} `{CborgSpec} `{Keys} `{Triggers} `{GrantAuthority}.
#[local] Set Default Proof Using "Type*".
Context (Hfree : unrefused) (Hretain : forall input consent db, retainPublicGrantAuthority input consent db = Ok tt).

(** The answer to a new revision acknowledges it. *)
Lemma success_acknowledges c base url rep : sgr_digest (gc_grant c) = sha256 rep ->
  1 <= g_revision (sgr_payload (gc_grant c)) ->
  url = base ++ js "/grants/" ++ g_grant_id (sgr_payload (gc_grant c)) ->
  let r := success_answer base (g_grant_id (sgr_payload (gc_grant c)))
             (newly_kept (sgr_payload (gc_grant c)) (sha256 rep)) in
  boundedResponseBytes r = Ok [] /\ acknowledged_by c url r [] = Ok true.
Proof using Type.
  intros Hd Hn ->. unfold success_answer, newly_kept, acknowledged_by, normal_success, converged_creation, expectedEtag.
  cbn [gres_status gres_etag gres_created]. rewrite Hd.
  destruct (Z.eqb_spec (g_revision (sgr_payload (gc_grant c))) 1) as [->|Hne].
  - cbn [Z.eqb Z.ltb Pos.eqb rs_status rs_body rs_headers]. split; [reflexivity|].
    cbn. rewrite bool_decide_eq_true_2 by reflexivity. cbn. by rewrite bool_decide_eq_true_2 by reflexivity.
  - assert (Hlt : (1 <? g_revision (sgr_payload (gc_grant c))) = true) by lia. rewrite Hlt.
    cbn. split; [reflexivity|]. by rewrite bool_decide_eq_true_2 by reflexivity.
Qed.

(** The publication that was claimed is held by the claim. *)
Lemma claim_held token duration locked now finish_now (db : Database) c db' status :
  claimDuePublication token duration locked now db = (Ok (Some c), db') -> finish_now < now + duration * 1000 ->
  exists db1, acknowledgePublication (claim_result c status None) (expectedEtag c) finish_now db' = Ok (tt, db1) /\
    acknowledged_row c db1.
Proof.
  intros (k & p & l & r & Hdue & -> & _ & _ & Hg & _ & Htok & _)%claimDuePublication_Ok Hlt.
  apply grantFromRow_Ok in Hg as (_ & _ & _ & _ & Hn & _ & _ & Hid & _).
  assert (Hk : (g_grant_id (sgr_payload (gc_grant c)), g_revision (sgr_payload (gc_grant c))) = k)
    by (rewrite Hn, Hid; by destruct k).
  assert (Hin : (k, p) ∈ due_grant_publications db now locked) by (rewrite Hdue; by left).
  unfold due_grant_publications in Hin. rewrite sort_by_perm in Hin. apply list_elem_of_In, List.filter_In in Hin as [Hin Hb].
  tables. apply list_elem_of_In, elem_of_map_to_list in Hin. apply andb_true_iff in Hb as [Hb _].
  unfold grant_publication_due in Hb. cbn [fst snd] in Hb. rewrite !andb_true_iff in Hb. destruct Hb as [[[[Hun _] _] _] _].
  set (p' := lease_grant_publication token (now + duration * 1000) p).
  assert (Hrow : (set grant_publications (update_row k (lease_grant_publication token (now + duration * 1000))
      (db grant_publications)) db) grant_publications !! k = Some p').
  { rewrite set_eq. tables. rewrite update_same. by rewrite Hin. }
  eexists. split.
  - unfold acknowledgePublication, finishPublication. cbn [claim_result gpr_grant_id gpr_revision]. rewrite Hk.
    apply bind_Tx. exists true. eexists. split.
    + apply query_Tx. split; [|reflexivity]. rewrite Hrow. unfold owns_publication, p'. cbn [lease_grant_publication gp_lease].
      cbn [claim_result gpr_token]. rewrite Htok, jstr_eqb_refl. symmetry.
      apply andb_true_iff. split; [exact Hun|]. cbn [andb]. lia.
    + cbn [negb]. unfold write. by rewrite Hfree.
  - unfold acknowledged_row. rewrite Hk.
    exists (finished_publication (claim_result c status None) Acknowledged None (Some (expectedEtag c)) finish_now p').
    split; [|done]. rewrite set_eq. tables. rewrite update_same. by rewrite Hrow.
Qed.

(** What a round of the publisher relies on: whom it resolves, a transport that delivers the request
    and its answer, and an end of the attempt within the lease. *)
Record publisher_ready (env : grant_publisher_env) (other : grant_receiver_env) (base : jstr)
    (c : GrantPublicationClaim) (db : Database) : Prop := {
  pr_quiet d : gb_others env d = d;
  pr_service : exists grantee, gb_resolve env (g_grantee (sgr_payload (gc_grant c))) = Ok grantee /\
    serviceBase grantee = base;
  pr_url : let url := base ++ js "/grants/" ++ g_grant_id (sgr_payload (gc_grant c)) in
    gb_url env url = Ok url /\ gb_target env url = Ok tt;
  pr_transport put : gpt_url put = base ++ js "/grants/" ++ g_grant_id (sgr_payload (gc_grant c)) ->
    exists q, carries base put q /\ gb_fetch env put = (put_grant other base q db).1;
  pr_lease : gb_finish_now env 0 < gb_claim_now env + 30000 * 1000;
  pr_size : Z.of_nat (length (sgr_representation (gc_grant c))) <= MAX_GRANT_BYTES;
}.

Lemma exchange_follows env other base c account db0 db1 db : grants_ok db ->
  claimDuePublication (gb_token env) 30000 (gb_locked env) (gb_claim_now env) db0 = (Ok (Some c), db1) ->
  publisher_ready env other base c db ->
  receiver_ready other (sgr_representation (gc_grant c)) (sgr_payload (gc_grant c)) account db ->
  exists url r, exchange env c = Ok (url, r, []) /\ acknowledged_by c url r [] = Ok true /\
    url = base ++ js "/grants/" ++ g_grant_id (sgr_payload (gc_grant c)).
Proof.
  intros Hok Hclaim [_ (grantee & Hg & Hbase) [Hurl Htarget] Htransport _ Hsize] Hready.
  destruct (claimed_object _ _ _ _ _ _ _ Hclaim) as (object & Ho & Hpay).
  pose proof (inspected_grant_ok _ _ Ho) as (Hpos & Hprev & Hlen & _). cbn [HailPayloadByType] in *.
  rewrite Hpay in Hpos, Hprev, Hlen.
  assert (Hcond : exists conditions, conditionHeaders c = Ok conditions).
  { unfold conditionHeaders. destruct (Z.eqb_spec (g_revision (sgr_payload (gc_grant c))) 1) as [?|Hne]; [by eexists|].
    destruct (g_previous _) as [previous|]; [by eexists|]. by destruct Hne; apply Hprev. }
  destruct Hcond as [conditions Hcond].
  set (url := base ++ js "/grants/" ++ g_grant_id (sgr_payload (gc_grant c))) in *.
  set (put := {| gpt_url := url; gpt_body := sgr_representation (gc_grant c); gpt_conditions := conditions |}).
  destruct (Htransport put eq_refl) as (q & Hq & Hf).
  assert (Hd : sgr_digest (gc_grant c) = sha256 (sgr_representation (gc_grant c))).
  { destruct (claimDuePublication_Ok _ _ _ _ _ _ _ Hclaim) as (k & p & l & r & _ & _ & _ & _ & Hrow & _).
    apply grantFromRow_Ok in Hrow as (_ & _ & _ & _ & _ & _ & _ & _ & Hd). exact Hd. }
  destruct (success_acknowledges c base url _ Hd Hpos eq_refl) as [Hbody Hack].
  eexists url, _. split; [|split; [exact Hack|done]]. unfold exchange. rewrite Hg. cbn [mbind result_bind]. rewrite Hbase. fold url. rewrite Hurl.
  cbn [mbind result_bind]. rewrite Htarget. cbn [mbind result_bind]. rewrite Hcond. cbn [mbind result_bind].
  fold put. rewrite Hf. rewrite <- Hpay in Hready.
  rewrite (put_follows Hfree Hretain other base put q object account db Hok Hq); cbn [put gpt_url gpt_body gpt_conditions HailPayloadByType]; rewrite ?Hpay.
  - cbn [mbind result_bind]. rewrite Hbody. done.
  - done.
  - exact Hsize.
  - exact Ho.
  - by apply conditions_agree.
  - by rewrite Hpay in Hready.
Qed.
End publisher.

(** ** Arrival *)

Section arrival.
Context `{HailEnv} `{CborgSpec} `{Keys} `{Triggers} `{GrantAuthority}.
#[local] Set Default Proof Using "Type*".
Context (Hfree : unrefused) (Hretain : forall input consent db, retainPublicGrantAuthority input consent db = Ok tt).

(** C28: The next revision arrives: let the publisher of a grantor's provider take a publication, and
    let the grantee's provider be in any state it reaches in which the revision follows (it is the
    first of a new lineage, or the successor of the current revision).  If both resolve the parties
    rightly, the signature verifies, the clocks agree to five minutes, requests and answers get
    through within the lease and nothing is refused, then one round ends with an acknowledgement: the
    grantor's provider records it, and the grantee's provider keeps exactly these bytes. *)
Theorem next_revision_arrives env other base c account (db db1 other_db : Database) : grants_reachable other_db ->
  claimDuePublication (gb_token env) 30000 (gb_locked env) (gb_claim_now env) db = (Ok (Some c), db1) ->
  publisher_ready env other base c other_db ->
  receiver_ready other (sgr_representation (gc_grant c)) (sgr_payload (gc_grant c)) account other_db ->
  exists db' q, publishGrant env db = (Ok GrantAcknowledged, db') /\ acknowledged_row c db' /\
    keeps_revision (g_grant_id (sgr_payload (gc_grant c))) (g_revision (sgr_payload (gc_grant c)))
      (sgr_representation (gc_grant c)) (put_grant other base q other_db).2.
Proof.
  intros Hreach Hclaim Hpub Hready. pose proof (reachable_ok _ Hreach) as Hok.
  destruct (exchange_follows Hfree Hretain _ _ _ _ _ _ _ _ Hok Hclaim Hpub Hready) as (url & r & He & Ha & Hurl).
  destruct (claim_held Hfree _ _ _ _ _ _ _ _ (Some (rs_status r)) Hclaim (pr_lease _ _ _ _ _ Hpub)) as (db' & Hfin & Hrow).
  assert (Hround : publishGrant env db = (Ok GrantAcknowledged, db')).
  { unfold publishGrant, mbind, Act_bind. rewrite Hclaim. unfold caught, attempt_publication, mbind, Act_bind, act, meanwhile.
    rewrite He, Ha, (pr_quiet _ _ _ _ _ Hpub). unfold begin. by rewrite Hfin. }
  pose proof (exchange_Ok _ _ _ _ _ He) as (conditions & grantee & _ & _ & _ & Hf).
  destruct (pr_transport _ _ _ _ _ Hpub {| gpt_url := url; gpt_body := sgr_representation (gc_grant c); gpt_conditions := conditions |} Hurl)
    as (q & Hq & Hfetch). exists db', q. split; [done|]. split; [done|].
  apply acknowledged_tag in Ha as [Ht _]. rewrite Hfetch in Hf.
  destruct (claimed_object _ _ _ _ _ _ _ Hclaim) as (object & Ho & Hpay). cbn [HailPayloadByType] in *. rewrite <- Hpay.
  exact (tagged_kept _ _ _ _ _ _ _ _ Hq Hf Ht Ho).
Qed.
End arrival.
