(* ===== verification/ConversationRules.v ===== *)
(** * What changes of participation guarantee

    An account takes part in a conversation, has left it, or its participation has lapsed.  Who can
    change which into which, that a descriptor once held is never replaced, and that a revival request
    takes effect once. *)

From S2P Require Import Prelude JsString Value Cbor Profiles Validation ValidatePayload Models.
From S2P Require Import Cose Database Typed ServerBodies Conversations Envelopes DeliveryRules.
From Stdlib Require Import ZArith.
Open Scope Z_scope.

(** A membership has the instant it was left at while it is left. *)
Definition membership_ok (m : Membership) : Prop := m_state m = MemberLeft <-> is_Some (m_left_at m).
Definition memberships_ok (db : Database) : Prop :=
  forall k m, db conversation_memberships !! k = Some m -> membership_ok m.

Section rules.
Context `{HailEnv} `{Cborg} `{Keys}.
Context `{ConnectionFunctions} `{Triggers} `{AccountFences} `{Calendar}.

Lemma conversationState_Some owner identity now (db : Database) s :
  conversationState owner identity now db = Some s -> exists m d,
    db conversation_memberships !! (o_account_id owner, identity_key identity) = Some m /\
    db conversation_descriptors !! identity_key identity = Some d /\
    cs_state s = membership_now m now /\ cs_expires_at s = m_expires_at m.
Proof. unfold conversationState. intros (m & Hm & (d & Hd & [= <-])%bind_Some)%bind_Some. by exists m, d. Qed.

(** ** Changes by the account *)

(** Participation for another 24 months from an instant. *)
Definition renewed (m : Membership) (t : Z) : Prop :=
  m_state m = MemberActive /\ m_expires_at m = in_24_months t /\ m_last_activity_at m = Some t /\ m_left_at m = None.

(** What an action of the account makes of its membership. *)
Definition changed (action : membership_action) (is_creator : bool) (now updated_at : Z) (m m' : Membership) : Prop :=
  match action with
  | ActionOpen =>
      match membership_now m now with
      | inl MemberActive => renewed m' updated_at \/ m' = m
      | _ => m' = m
      end
  | ActionLeave => m_state m' = MemberLeft /\ m_left_at m' = Some (default updated_at (m_left_at m))
                   /\ m_expires_at m' = m_expires_at m
  | ActionRejoin => membership_now m now = inl MemberLeft /\ renewed m' updated_at
  | ActionRevive => membership_now m now = inr tt /\ is_creator = true /\ renewed m' updated_at
  end.

Lemma renew_explicit m t : renewed (renew_membership true t m) t.
Proof. done. Qed.
Lemma renew_activity m t : renewed (renew_membership false t m) t \/ renew_membership false t m = m.
Proof. unfold renew_membership. cbn [orb]. destruct (match m_last_activity_at m with None => true | Some _ => _ end); auto. by left. Qed.

Record membership_change (owner : Owner) (identity : ConversationIdentity) (action : membership_action)
    (now updated_at : Z) (db db' : Database) : Prop := {
  mc_row : exists m m',
    db conversation_memberships !! (o_account_id owner, identity_key identity) = Some m /\
    db' conversation_memberships !! (o_account_id owner, identity_key identity) = Some m' /\
    changed action (jstr_eqb (o_did owner) (creator identity)) now updated_at m m';
  mc_others k : k <> (o_account_id owner, identity_key identity) ->
    db' conversation_memberships !! k = db conversation_memberships !! k;
  mc_tables t : t <> conversation_memberships -> db' t = db t;
}.

Lemma change_Ok owner identity action now updated_at read_at db s db' :
  changeConversationMembership owner identity action now updated_at read_at db = Ok (s, db') ->
  membership_change owner identity action now updated_at db db' /\
  s = conversationState owner identity read_at db'.
Proof.
  intros Hc. unfold changeConversationMembership in Hc. apply bind_Tx in Hc as (u & db1 & Hl & Hc).
  apply lockOwner_reads in Hl as ->. apply bind_Tx in Hc as (current & db1 & Hq & Hc). apply query_Tx in Hq as [-> ->].
  destruct (conversationState owner identity now db) as [cs|] eqn:Hs; [|discriminate Hc].
  apply conversationState_Some in Hs as (m & d & Hm & Hd & Hst & _).
  apply bind_Tx in Hc as (u1 & db1 & Hcheck & Hc). apply bind_Tx in Hc as (u2 & db2 & Hw & Hc).
  apply query_Tx in Hc as [-> ->]. split; [|done].
  assert (Hwrite : forall f, changed action (jstr_eqb (o_did owner) (creator identity)) now updated_at m (f m) ->
    membership_change owner identity action now updated_at db (set conversation_memberships
      (update_row (o_account_id owner, identity_key identity) f (db conversation_memberships)) db)).
  { intros f Hch. split.
    - exists m, (f m). rewrite set_eq. tables. by rewrite update_same, Hm.
    - intros k Hk. rewrite set_eq. tables. by rewrite update_other.
    - intros t Ht. by rewrite set_ne. }
  destruct action, (cs_state cs) as [[|]|[]] eqn:Hcs; try discriminate Hcheck;
    try (destruct (jstr_eqb (o_did owner) (creator identity)) eqn:Hcr; [|discriminate Hcheck]); tx;
    try (apply Hwrite; unfold changed; rewrite <- ?Hst);
    try (by repeat split); try exact (renew_activity _ _).
  all: split; [exists m, m; unfold changed; rewrite <- Hst; done|done|done].
Qed.

(** Participation changes as the account may change it: opening a conversation never brings back
    what was left or has lapsed, leaving keeps the first instant it was left at, only what was left is
    rejoined, only the creator revives and only what has lapsed, and each renewal lasts 24 months;
    no other membership and no other table changes. *)
Theorem membership_changes owner identity action now updated_at read_at db s db' :
  changeConversationMembership owner identity action now updated_at read_at db = Ok (s, db') ->
  membership_change owner identity action now updated_at db db'.
Proof. intros Hc. by apply change_Ok in Hc as [Hc _]. Qed.

(** ** Admission *)

Record admission_effect (owner : Owner) (descriptor : InspectedHailObject HailConversation) (admitted : bool)
    (inserted_at : Z) (db db' : Database) : Prop := {
  ae_descriptors k d : db conversation_descriptors !! k = Some d -> db' conversation_descriptors !! k = Some d;
  ae_memberships k m : db conversation_memberships !! k = Some m -> db' conversation_memberships !! k = Some m;
  ae_new k m : db' conversation_memberships !! k = Some m ->
    db conversation_memberships !! k = Some m \/ m = new_membership inserted_at;
  ae_tables t : t <> conversation_descriptors -> t <> conversation_memberships -> db' t = db t;
  ae_admitted : admitted = true -> o_did owner ∈ cv_participants (payload descriptor) /\ exists d m,
    db' conversation_descriptors !! (cv_from (payload descriptor), cv_conversation_id (payload descriptor)) = Some d /\
    d_hash d = sha256 (representationBytes descriptor) /\
    db' conversation_memberships !!
      (o_account_id owner, (cv_from (payload descriptor), cv_conversation_id (payload descriptor))) = Some m /\
    m_state m = MemberActive;
}.

Lemma admission_none owner descriptor inserted_at db : admission_effect owner descriptor false inserted_at db db.
Proof. by split; auto. Qed.

Lemma insert_new_keeps {K V} `{Countable K} (k : K) (v : V) (m : gmap K V) j x :
  m !! j = Some x -> insert_new k v m !! j = Some x.
Proof.
  intros Hj. unfold insert_new. destruct (m !! k) eqn:Hk; [done|]. rewrite lookup_insert_ne; [done|]. congruence.
Qed.
Lemma insert_new_cases {K V} `{Countable K} (k : K) (v : V) (m : gmap K V) j x :
  insert_new k v m !! j = Some x -> m !! j = Some x \/ x = v.
Proof.
  unfold insert_new. destruct (m !! k); [by left|]. rewrite lookup_insert_Some. intros [[_ ->]|[_ ?]]; auto.
Qed.

Lemma admit_Ok owner descriptor proof now inserted_at read_at db b db' :
  admitConversation owner descriptor proof now inserted_at read_at db = Ok (b, db') ->
  admission_effect owner descriptor b inserted_at db db'.
Proof.
  intros Ha. pose proof (fun t => admitConversation_frame _ _ _ _ _ _ _ _ _ t Ha) as Hframe.
  unfold admitConversation in Ha. destruct (_ || _) eqn:Hguard; [tx; apply admission_none|].
  apply orb_false_iff in Hguard as [_ Hin]. apply negb_false_iff in Hin.
  set (identity := {| creator := cv_from (payload descriptor);
                      conversationId := cv_conversation_id (payload descriptor) |}) in *.
  set (digest := sha256 (representationBytes descriptor)) in *.
  apply bind_Tx in Ha as (i & db1 & Hi & Ha).
  assert (db1 = db) as -> by (destruct (jstr_eqb _ _); [by tx|by eapply introduced_reads]).
  destruct i; [|tx; apply admission_none]. cbn [negb] in Ha. apply bind_Tx in Ha as (u & db1 & Hl & Ha).
  apply lockOwner_reads in Hl as ->. apply bind_Tx in Ha as (previous & db1 & Hp & Ha).
  apply query_Tx in Hp as [-> ->]. apply bind_Tx in Ha as (u1 & db1 & Hcheck & Ha).
  assert (db1 = db /\ forall d, db conversation_descriptors !! identity_key identity = Some d -> d_hash d = digest) as [-> Hsame].
  { destruct (db conversation_descriptors !! _) as [d|]; [|tx; by split].
    case_bool_decide; [|by tx]. tx. split; [done|]. by intros d' [= <-]. }
  clear Hcheck. destruct (outside_admission _ _); [tx; apply admission_none|].
  apply bind_Tx in Ha as (u2 & db1 & Hd & Ha). apply bind_Tx in Ha as (u3 & db2 & Hm & Ha).
  apply query_Tx in Ha as [-> ->]. apply write_Tx in Hm as ->.
  assert (Hdesc : (forall k d, db conversation_descriptors !! k = Some d -> db1 conversation_descriptors !! k = Some d) /\
    (exists d, db1 conversation_descriptors !! identity_key identity = Some d /\ d_hash d = digest) /\
    db1 conversation_memberships = db conversation_memberships).
  { destruct (db conversation_descriptors !! identity_key identity) as [d|] eqn:Hold.
    - tx. split; [done|]. split; [|done]. exists d. split; [done|by apply Hsame].
    - tx. rewrite set_eq in Hd. tables.
      destruct (insert_new _ _ _ !! identity_key identity) as [w|] eqn:Hw; [|discriminate Hd].
      case_bool_decide as Hh; [|discriminate Hd]. tx. rewrite set_eq, set_ne by done. tables.
      split; [intros k d; apply insert_new_keeps|]. split; [by exists w|done]. }
  destruct Hdesc as (Hkeep & (d & Hd' & Hh) & Hmem). clear Hd. split.
  - intros k d0 Hk. rewrite set_ne by done. by apply Hkeep.
  - intros k m Hk. rewrite set_eq. tables. rewrite Hmem. by apply insert_new_keeps.
  - intros k m. rewrite set_eq. tables. rewrite Hmem. apply insert_new_cases.
  - exact Hframe.
  - intros Hb. split; [by apply includes_elem in Hin|].
    destruct (conversationState _ _ _ _) as [s|] eqn:Hs; [|discriminate Hb].
    apply conversationState_Some in Hs as (m & d' & Hm & _ & Hst & _). exists d, m.
    rewrite (set_ne conversation_memberships conversation_descriptors) by done.
    split; [exact Hd'|]. split; [done|]. split; [exact Hm|].
    unfold is_active in Hb. rewrite Hst in Hb. unfold membership_now in Hb. by destruct (m_state m).
Qed.

(** Admission never rewrites: whatever descriptor is offered, by whom and with what proof, every
    descriptor and every membership stays as it is, left and lapsed ones too; a conversation counts as
    admitted only if the account is on the roster, takes part, and holds the very descriptor that was
    offered, and a second descriptor with the same creator and identifier is not admitted. *)
Theorem admission_preserves owner descriptor proof now inserted_at read_at db b db' :
  admitConversation owner descriptor proof now inserted_at read_at db = Ok (b, db') ->
  admission_effect owner descriptor b inserted_at db db' /\
  (b = true -> forall d, db conversation_descriptors !!
     (cv_from (payload descriptor), cv_conversation_id (payload descriptor)) = Some d ->
   d_hash d = sha256 (representationBytes descriptor)).
Proof.
  intros Ha%admit_Ok. split; [done|]. intros -> d Hd. destruct Ha as [Hdesc _ _ _ Hadm].
  destruct (Hadm eq_refl) as (_ & d' & m & Hd' & Hh & _). apply Hdesc in Hd. congruence.
Qed.

(** ** Revival *)

Definition receipt_key (owner : Owner) (request : InspectedHailObject HailConversationRevival) : jstr * jstr * jstr :=
  (o_account_id owner, rv_from (payload request), rv_request_id (payload request)).
Definition revived_key (owner : Owner) (request : InspectedHailObject HailConversationRevival)
    : jstr * conversation_key :=
  (o_account_id owner, (rv_from (payload request), rv_conversation_id (payload request))).

(** The first time a request is seen. *)
Record revival_effect (owner : Owner) (request : InspectedHailObject HailConversationRevival)
    (o : revival_outcome) (read_at updated_at : Z) (db db' : Database) : Prop := {
  re_receipt : exists r, db' conversation_revival_receipts !! receipt_key owner request = Some r /\
    rr_outcome r = o /\ rr_request_hash r = sha256 (representationBytes request);
  re_row : exists m m', db conversation_memberships !! revived_key owner request = Some m /\
    db' conversation_memberships !! revived_key owner request = Some m' /\
    match o with
    | RevivalRenewed => membership_now m read_at = inr tt /\ m' = extend_membership updated_at m
    | RevivalActive => membership_now m read_at = inl MemberActive /\ m' = m
    | RevivalLeft => membership_now m read_at = inl MemberLeft /\ m' = m
    | RevivalDenied => membership_now m read_at = inr tt /\ m' = m
    end;
  re_others k : k <> revived_key owner request ->
    db' conversation_memberships !! k = db conversation_memberships !! k;
  re_tables t : t <> conversation_memberships -> t <> conversation_revival_receipts -> db' t = db t;
}.

(** A revival is answered from its receipt, or has its effect. *)
Lemma revive_Ok owner request connection now read_at updated_at db o db' :
  reviveConversation owner request connection now read_at updated_at db = Ok (o, db') ->
  match db conversation_revival_receipts !! receipt_key owner request with
  | Some r => db' = db /\ rr_outcome r = o /\ rr_request_hash r = sha256 (representationBytes request)
  | None => revival_effect owner request o read_at updated_at db db'
  end.
Proof.
  intros Hr. unfold reviveConversation in Hr. destruct (_ || _); [discriminate Hr|].
  apply bind_Tx in Hr as (connected & db1 & Hc & Hr). apply connectionMessageAllowed_reads in Hc as ->.
  apply bind_Tx in Hr as (u & db1 & Hl & Hr). apply lockOwner_reads in Hl as ->.
  apply bind_Tx in Hr as (held & db1 & Hh & Hr). apply query_Tx in Hh as [-> ->].
  destruct (held_descriptor _ _ _) as [d|]; [|discriminate Hr].
  apply bind_Tx in Hr as (verified & db1 & Hv & Hr). apply throwing_Tx in Hv as [_ ->].
  apply bind_Tx in Hr as (u1 & db1 & Hb & Hr). apply throwing_Tx in Hb as [_ ->].
  apply bind_Tx in Hr as (prior & db1 & Hp & Hr). apply query_Tx in Hp as [-> ->].
  fold (receipt_key owner request) in Hr.
  destruct (db conversation_revival_receipts !! receipt_key owner request) as [r|] eqn:Hrec.
  { case_bool_decide as Hh; [|discriminate Hr]. by tx. }
  destruct (revival_window _ _); [discriminate Hr|]. apply bind_Tx in Hr as (st & db1 & Hs & Hr).
  apply query_Tx in Hs as [-> ->]. destruct (conversationState _ _ _ _) as [s|] eqn:Hs; [|discriminate Hr].
  apply conversationState_Some in Hs as (m & d' & Hm & _ & Hst & _).
  apply bind_Tx in Hr as (introductions & db1 & Hi & Hr). apply query_Tx in Hi as [-> ->].
  set (permitted := connected && _) in *. apply bind_Tx in Hr as (u2 & db1 & Hw & Hr).
  apply bind_Tx in Hr as (u3 & db2 & Hins & Hr). apply write_Tx in Hins as ->.
  assert (o = revive_outcome s permitted /\ db' = set conversation_revival_receipts _ db1) as [-> ->] by (by tx).
  clear Hr.
  assert (Hreceipts : db1 conversation_revival_receipts = db conversation_revival_receipts)
    by (destruct (revive_outcome s permitted); tx; by rewrite ?set_ne).
  change (o_account_id owner, identity_key _) with (revived_key owner request) in *.
  split.
  - eexists. rewrite set_eq. tables. unfold insert_new. rewrite Hreceipts. tables.
    fold (receipt_key owner request). rewrite Hrec, lookup_insert_eq. by split.
  - unfold revive_outcome, membership_now in *. rewrite Hst in *.
    destruct (m_state m) eqn:Hms; [destruct (m_expires_at m <=? read_at) eqn:He; [destruct permitted|]|]; tx;
      rewrite set_ne by done.
    all: try (exists m, m; rewrite Hms, ?He; done).
    exists m, (extend_membership updated_at m). rewrite set_eq. tables. rewrite update_same, Hm.
    unfold revived_key. cbn. rewrite Hms, He. done.
  - intros k Hk. rewrite set_ne by done. destruct (revive_outcome s permitted); tx; [|done..].
    rewrite set_eq. tables. by rewrite update_other.
  - intros t H1' H2'. rewrite set_ne by done. destruct (revive_outcome s permitted); tx; [|done..]. by rewrite set_ne.
Qed.

(** A revival request takes effect once: when it is seen for the first time it renews a lapsed
    participation if it may and leaves every other participation alone, and its answer is recorded;
    from then on the same request is answered the same and changes nothing, however often and however
    late it comes, and another request under its identifier is refused. *)
Theorem revival_once owner request connection now read_at updated_at db o db' :
  reviveConversation owner request connection now read_at updated_at db = Ok (o, db') ->
  (db conversation_revival_receipts !! receipt_key owner request = None ->
     revival_effect owner request o read_at updated_at db db') /\
  forall request2 connection2 now2 read_at2 updated_at2 (db2 db3 : Database) o2,
    receipt_key owner request2 = receipt_key owner request ->
    db2 conversation_revival_receipts !! receipt_key owner request =
      db' conversation_revival_receipts !! receipt_key owner request ->
    reviveConversation owner request2 connection2 now2 read_at2 updated_at2 db2 = Ok (o2, db3) ->
    o2 = o /\ db3 = db2 /\ sha256 (representationBytes request2) = sha256 (representationBytes request).
Proof.
  intros Hr. apply revive_Ok in Hr. split; [intros Hnew; by rewrite Hnew in Hr|].
  intros request2 connection2 now2 read_at2 updated_at2 db2 db3 o2 Hkey Hsame H2'. apply revive_Ok in H2'.
  assert (Hrec : exists r, db' conversation_revival_receipts !! receipt_key owner request = Some r /\
    rr_outcome r = o /\ rr_request_hash r = sha256 (representationBytes request)).
  { destruct (db conversation_revival_receipts !! receipt_key owner request) as [r|] eqn:Hrec.
    - destruct Hr as (-> & Ho & Hh). by exists r.
    - by destruct Hr as [Hrec' _ _ _]. }
  destruct Hrec as (r & Hrec & Ho & Hh). rewrite Hkey, Hsame, Hrec in H2'. destruct H2' as (-> & Ho2 & Hh2).
  repeat split; congruence.
Qed.

(** ** The membership rows *)

Lemma changed_ok action is_creator now updated_at m m' :
  changed action is_creator now updated_at m m' -> membership_ok m -> membership_ok m'.
Proof.
  assert (Hren : forall t, renewed m' t -> membership_ok m').
  { intros t (Hs & _ & _ & Hl). unfold membership_ok. rewrite Hs, Hl. split; [done|by intros []]. }
  unfold changed. intros Hc Hm. destruct action.
  - destruct (membership_now m now) as [[]|]; [destruct Hc as [Hc| ->]; [by eapply Hren|done]|by subst..].
  - destruct Hc as (Hs & Hl & _). unfold membership_ok. rewrite Hs, Hl. split; [by eexists|done].
  - destruct Hc as [_ Hc]. by eapply Hren.
  - destruct Hc as (_ & _ & Hc). by eapply Hren.
Qed.

(** Every transaction keeps the rows well formed: left exactly with an instant it was left at. *)
Lemma memberships_preserved (db db' : Database) :
  ((exists owner identity action now updated_at read_at s,
      changeConversationMembership owner identity action now updated_at read_at db = Ok (s, db')) \/
   (exists owner descriptor proof now inserted_at read_at b,
      admitConversation owner descriptor proof now inserted_at read_at db = Ok (b, db')) \/
   (exists owner request connection now read_at updated_at o,
      reviveConversation owner request connection now read_at updated_at db = Ok (o, db'))) ->
  memberships_ok db -> memberships_ok db'.
Proof.
  intros [(owner & identity & action & now & updated_at & read_at & s & Hc)|
         [(owner & descriptor & proof & now & inserted_at & read_at & b & Ha)|
          (owner & request & connection & now & read_at & updated_at & o & Hr)]] Hok k m Hk.
  - apply change_Ok in Hc as [[(m0 & m1 & Hm0 & Hm1 & Hch) Hothers _] _].
    destruct (decide (k = (o_account_id owner, identity_key identity))) as [->|Hne].
    + rewrite Hm1 in Hk. injection Hk as <-. eapply changed_ok; [exact Hch|]. by eapply Hok.
    + rewrite Hothers in Hk by done. by eapply Hok.
  - apply admit_Ok in Ha. destruct (ae_new _ _ _ _ _ _ Ha _ _ Hk) as [Hold| ->]; [by eapply Hok|].
    unfold membership_ok. cbn. split; [done|by intros []].
  - apply revive_Ok in Hr. destruct (db conversation_revival_receipts !! _) as [r|]; [destruct Hr as (-> & _); by eapply Hok|].
    destruct Hr as [_ (m0 & m1 & Hm0 & Hm1 & Hch) Hothers _].
    destruct (decide (k = revived_key owner request)) as [->|Hne]; [|rewrite Hothers in Hk by done; by eapply Hok].
    rewrite Hm1 in Hk. injection Hk as <-. pose proof (Hok _ _ Hm0) as Hm.
    destruct o; destruct Hch as [_ ->]; try done.
Qed.
End rules.
