(* ===== verification/Service.v ===== *)
(** * Sending envelopes (apps/server/src/envelopes/service.ts)

    The provider of a sender checks what authorizes a message (a received grant, an invitation to
    reply, a live connection or a conversation), builds the envelope around a published body, signs
    it with the account's messaging key, verifies what it signed, and stores it.  Also the reads of
    envelopes/repository.ts that only sending uses.

    Other processes may change the database between the statements. *)

From S2P Require Import Prelude JsString Value Cbor Profiles Validation ValidatePayload Models Base64Url.
From S2P Require Import Cose WebCrypto Database Typed ServerBodies Conversations Envelopes Receiver.
From S2P Require Import Status Grants.
From Stdlib Require Import ZArith.
Open Scope Z_scope.

(** ** What is read *)

Record PublishedBodyInfo := { pb_size : Z; pb_senderAccountId : jstr; pb_profile : body_profile }.

(** A row of [conversationForSender], with the descriptor it decodes. *)
Record SenderConversation := {
  sc_descriptor_cose : bytes; sc_descriptor_hash : bytes; sc_account_id : jstr; sc_active : bool;
  sc_descriptor : HailConversation;
}.

Section reads.
Context `{HailEnv} `{Cborg}.

Definition publishedBody (senderDid : jstr) (digest : bytes) (db : Database)
    : M (option PublishedBodyInfo) :=
  let row := find_row (fun (k : bytes * jstr) _ =>
    bool_decide (k.1 = digest)
    && match db provider_accounts !! k.2 with
       | Some a => jstr_eqb (a_did a) senderDid && a_active a && a_public a
       | None => false
       end) (db detached_bodies) in
  match row with
  | None => Ok None
  | Some (k, body) =>
      profile ← validateBodyBytes (b_bytes body) None;
      Ok (Some {| pb_size := Z.of_nat (length (b_bytes body)); pb_senderAccountId := k.2;
                  pb_profile := profile |})
  end.

(** The messages [senderDid] sent under an identifier; without a sender, the messages of anyone. *)
Definition reply_source (recipientDid messageId : jstr) (senderDid : option jstr) (db : Database)
    (k : msg_key) (r : Received) : bool :=
  jstr_eqb (r_recipient_did r) recipientDid && jstr_eqb k.2 messageId
  && match r_outcome r with ReceivedAccepted => true | _ => false end
  && match senderDid with
     | None => true
     | Some sender => jstr_eqb k.1 sender && match db delivered_messages !! k with
         | Some d => jstr_eqb (dm_recipient_did d) (r_recipient_did r) && negb (dm_trashed d)
         | None => false
         end
     end.

Definition receivedReplyOpportunity (recipientDid messageId : jstr) (senderDid : option jstr)
    (db : Database) : M (option HailEnvelope) :=
  match List.filter (fun e => reply_source recipientDid messageId senderDid db e.1 e.2)
          (map_to_list (db received_envelopes)) with
  | [(_, r)] =>
      inspected ← inspectTyped Profiles.envelope (r_envelope_cose r);
      let e : HailEnvelope := payload inspected in
      Ok (if jstr_eqb (e_to e) recipientDid && jstr_eqb (e_message_id e) messageId then Some e else None)
  | _ => Ok None
  end.

Definition conversationForSender (sender : jstr) (identity : ConversationIdentity) (now : Z)
    (db : Database) : M (option SenderConversation) :=
  let row := find_row (fun account (a : Account) =>
    jstr_eqb (a_did a) sender && negb (a_closed a) && a_active a && negb (fenced db account)
    && bool_decide (is_Some (db conversation_memberships !! (account, identity_key identity))))
    (db provider_accounts) in
  match row with
  | None => Ok None
  | Some (account, _) =>
      match db conversation_descriptors !! identity_key identity,
            db conversation_memberships !! (account, identity_key identity) with
      | Some d, Some m =>
          inspected ← inspectTyped Profiles.conversation (d_cose d);
          Ok (Some {| sc_descriptor_cose := d_cose d; sc_descriptor_hash := d_hash d;
                      sc_account_id := account;
                      sc_active := match m_state m with
                                   | MemberActive => now <? m_expires_at m
                                   | MemberLeft => false
                                   end;
                      sc_descriptor := payload inspected |})
      | _, _ => Ok None
      end
  end.
End reads.

(** ** The payload *)

(** The members of the argument [conversation]. *)
Record conversation_part := {
  cp_message_id : jstr; cp_introduction : option conversation_introduction;
}.

(** The arguments of an envelope that is signed, and what its creation found. *)
Record draft := {
  dr_sender : jstr; dr_recipient : jstr; dr_authorization : HailEnvelopeAuthorization;
  dr_category : option jstr; dr_reply_until : option Z; dr_message_id : jstr;
  dr_parent : option HailMessageReference; dr_conversation : option conversation_part;
  dr_now : Z; dr_digest : bytes; dr_size : Z; dr_profile : body_profile; dr_token : bytes;
}.

Definition digest_record (value : bytes) : hvalue :=
  HMap false [(js "algorithm", HStr (js "sha-256")); (js "value", HBytes value)].

Definition authorization_value (a : HailEnvelopeAuthorization) : hvalue :=
  HMap false match a with
  | AuthorizedByGrant grant_id =>
      [(js "type", HStr (js "grant")); (js "grant_id", HStr grant_id)]
  | AuthorizedByReply reply_to =>
      [(js "type", HStr (js "reply")); (js "reply_to", HStr reply_to)]
  | AuthorizedByConnection connection_id epoch =>
      [(js "type", HStr (js "connection")); (js "connection_id", HStr connection_id);
       (js "epoch", HNum epoch)]
  | AuthorizedByConversation creator conversation_id descriptor_hash =>
      [(js "type", HStr (js "conversation")); (js "creator", HStr creator);
       (js "conversation_id", HStr conversation_id); (js "membership_revision", HNum 1);
       (js "descriptor_hash", digest_record (digest_value descriptor_hash))]
  end.

Definition reference_value (r : HailMessageReference) : hvalue :=
  HMap false [(js "sender", HStr (mr_sender r)); (js "message_id", HStr (mr_message_id r))].

Definition conversation_members (c : option conversation_part) : HailRecord :=
  match c with
  | None => []
  | Some c =>
      (js "conversation_message_id", HStr (cp_message_id c)) ::
      match cp_introduction c with
      | None => []
      | Some i => [(js "conversation_introduction", HMap false
          [(js "connection_id", HStr (in_connection_id i)); (js "epoch", HNum (in_epoch i));
           (js "descriptor", HBytes (in_descriptor i))])]
      end
  end.

Definition draft_version (d : draft) : envelope_version :=
  match dr_authorization d, dr_parent d with
  | AuthorizedByConversation _ _ _, _ => v4
  | _, Some _ => v3
  | AuthorizedByConnection _ _, None => v2
  | _, None => v1
  end.
Definition version_number (v : envelope_version) : Z :=
  match v with v1 => 1 | v2 => 2 | v3 => 3 | v4 => 4 end.

Definition available_until (d : draft) : Z := dr_now d + 31 * 86400.

Definition body_value (d : draft) : hvalue :=
  HMap false
    [(js "digest", digest_record (dr_digest d)); (js "size", HNum (dr_size d));
     (js "media_type", HStr (js "application/hail-body+cbor"));
     (js "profile", HStr (enum_text body_profiles (dr_profile d)));
     (js "available_until", HNum (available_until d));
     (js "access", HMap false [(js "type", HStr (js "bearer")); (js "token", HBytes (dr_token d));
                               (js "expires_at", HNum (available_until d))])].

Definition reply_value (until : option Z) : hvalue :=
  HMap false match until with
  | None => [(js "allowed", HBool false)]
  | Some until => [(js "allowed", HBool true); (js "until", HNum until)]
  end.

Definition envelope_value (d : draft) : hvalue :=
  HMap false (
    [(js "type", HStr (js "hail.envelope")); (js "version", HNum (version_number (draft_version d)))]
    ++ conversation_members (dr_conversation d)
    ++ match dr_parent d with Some r => [(js "in_reply_to", reference_value r)] | None => [] end
    ++ [(js "message_id", HStr (dr_message_id d)); (js "from", HStr (dr_sender d));
        (js "to", HStr (dr_recipient d)); (js "authorization", authorization_value (dr_authorization d))]
    ++ match dr_category d with Some c => [(js "category", HStr c)] | None => [] end
    ++ [(js "created_at", HNum (dr_now d)); (js "expires_at", HNum (dr_now d + 7 * 86400));
        (js "body", body_value d); (js "reply", reply_value (dr_reply_until d))]).

Definition conversation_value (id sender : jstr) (participants : list jstr) (now : Z) : hvalue :=
  HMap false
    [(js "type", HStr (js "hail.conversation")); (js "version", HNum 1); (js "conversation_id", HStr id);
     (js "from", HStr sender); (js "membership_revision", HNum 1);
     (js "participants", HArr (map HStr participants)); (js "created_at", HNum now);
     (js "admission_until", HNum (now + 7 * 86400))].

(** ** [EnvelopeService] *)

(** The collaborators: the account's key, its decryption and import, the resolver, the
    connections, the random values, what [requireFreshPublicAuthority] raises; the clock of the
    service in seconds (its first reading and the one of [createSigned]), the clock of the database in
    the statements, and what other processes do before each of them. *)
Record service_env := {
  sv_getKey : jstr -> jstr -> M AccountKeyRecord;
  sv_resolve : jstr -> M ResolvedHailDid;
  sv_decrypt : jstr -> AccountKeyRecord -> M bytes;
  sv_import : bytes -> M CryptoKey;
  sv_live : option (Database -> jstr -> jstr -> jstr -> Z -> M bool);
  sv_uuidV7 : Z -> M jstr;
  sv_newBodyToken : bytes;
  sv_fresh : PlcResolutionEvidence -> Database -> M unit;
  sv_serviceBase : jstr;
  sv_now : nat -> Z;
  sv_clock : nat -> Z;
  sv_others : nat -> Database -> Database;
}.

Record CreatedEnvelope := {
  cr_payload : HailEnvelope; cr_representation : bytes; cr_digest : bytes; cr_destination : jstr;
}.

Definition service_error {A} (message : String.string) : Act A :=
  act (fun _ => Err (OtherError (js message))).
Arguments service_error {A} message%_string.

(** [Number.isSafeInteger], with the integer. *)
Definition safe_number (n : jsnum) : option Z :=
  match n with
  | JInt z => if isSafeInteger z then Some z else None
  | JNegZero => Some 0
  | JNotInteger => None
  end.

Definition reply_end (replyUntil : option jsnum) (now : Z) : M (option Z) :=
  match replyUntil with
  | None => Ok None
  | Some n =>
      match safe_number n with
      | Some until =>
          if until <=? now then Err (OtherError (js "Reply permission must end after envelope creation"))
          else Ok (Some until)
      | None => Err (OtherError (js "Reply permission must end after envelope creation"))
      end
  end.

(** [live(owner, peer, authorization)] of connections that may be absent. *)
Definition connection_live (env : service_env) (owner peer connection_id : jstr) (epoch : Z)
    (db : Database) : M bool :=
  match sv_live env with
  | None => Ok false
  | Some live => live db owner peer connection_id epoch
  end.

Section service.
Context `{HailEnv} `{Cborg} `{Keys}.
Context `{ConnectionFunctions} `{Triggers} `{AccountFences} `{Calendar}.

Definition active_account (senderDid : jstr) (db : Database) : option jstr :=
  match getAccountByDid senderDid db with
  | Some (id, a) => if a_active a && a_public a then Some id else None
  | None => None
  end.

Definition envelope_verifier (senderDid key : jstr) : HailVerifier :=
  createWebCryptoVerifier (fun kid =>
    if negb (jstr_eqb kid (senderDid ++ js "#hail-messaging"))
    then Err (OtherError (js "Invalid envelope signer"))
    else ed25519PublicKeyFromDidKey key) subtle.

(** The signature with the account's key. *)
Definition sign_payload (env : service_env) (t : HailSignedPayloadType) (account senderDid : jstr)
    (key : AccountKeyRecord) (payload : hvalue) : M bytes :=
  secret ← sv_decrypt env account key;
  private ← sv_import env secret;
  signer ← createWebCryptoSigner (senderDid ++ js "#hail-messaging") private subtle;
  signPayload t (of_hail payload) signer.

(** The last step is at the type of the payload, which it has once it is signed ([typed_valid]). *)
Definition sign_envelope (env : service_env) (account : jstr) (key : AccountKeyRecord) (d : draft)
    : M (HailEnvelope * bytes) :=
  representation ← sign_payload env Profiles.envelope account (dr_sender d) key (envelope_value d);
  _ ← verifySignedPayload Profiles.envelope representation (envelope_verifier (dr_sender d) (k_publicKey key));
  _ ← throw_if (16384 <? Z.of_nat (length representation)) (OtherError (js "Signed envelope exceeds 16 KiB"));
  payload ← typed (Signed Profiles.envelope) (envelope_value d);
  Ok (payload, representation).

Definition body_digest (digestText : jstr) : M bytes :=
  digest ← decodeBase64Url digestText None;
  _ ← throw_if (negb (length digest =? 32)%nat || negb (jstr_eqb (encodeBase64Url digest) digestText))
        (OtherError (js "Invalid body digest"));
  Ok digest.

(** The key the resolver names for the sender, and where the recipient receives. *)
Definition signing_key (env : service_env) (account senderDid recipientDid : jstr)
    : M (AccountKeyRecord * jstr) :=
  sender ← sv_resolve env senderDid;
  recipient ← sv_resolve env recipientDid;
  key ← sv_getKey env account (js "hail-messaging");
  _ ← throw_if (negb (jstr_eqb (messagingDidKey sender) (k_publicKey key))
                || negb (jstr_eqb (serviceBase sender) (sv_serviceBase env))
                || negb (jstr_eqb (k_algorithm key) (js "ed25519")))
        (OtherError (js "Current PLC state does not authorize the local messaging key"));
  Ok (key, serviceBase recipient).

Definition createSigned (env : service_env) (senderDid recipientDid : jstr)
    (authorization : HailEnvelopeAuthorization) (digestText : jstr) (category : option jstr)
    (replyUntil : option jsnum) (messageId : option jstr) (parent : option HailMessageReference)
    (conversation : option conversation_part) : Act CreatedEnvelope :=
  _ ← meanwhile (sv_others env 1);
  account ← act (fun db => Ok (active_account senderDid db));
  match account with
  | None => service_error "Sender requires public activation"
  | Some account =>
      let now := sv_now env 1 in
      until ← act (fun _ => reply_end replyUntil now);
      digest ← act (fun _ => body_digest digestText);
      _ ← meanwhile (sv_others env 2);
      body ← act (publishedBody senderDid digest);
      match body with
      | None => service_error "Body must exist before envelope signing"
      | Some body =>
          if negb (jstr_eqb (pb_senderAccountId body) account)
          then service_error "Body must exist before envelope signing"
          else
            '(key, recipientBase) ← act (fun _ => signing_key env account senderDid recipientDid);
            message_id ← act (fun _ => match messageId with
                                       | Some id => Ok id
                                       | None => sv_uuidV7 env (now * 1000)
                                       end);
            let d := {|
              dr_sender := senderDid; dr_recipient := recipientDid; dr_authorization := authorization;
              dr_category := category; dr_reply_until := until; dr_message_id := message_id;
              dr_parent := parent; dr_conversation := conversation; dr_now := now; dr_digest := digest;
              dr_size := pb_size body; dr_profile := pb_profile body; dr_token := sv_newBodyToken env |} in
            '(payload, representation) ← act (fun _ => sign_envelope env account key d);
            _ ← meanwhile (sv_others env 3);
            _ ← begin (createSent (of_hail (envelope_value d)) payload representation account
                         (sv_clock env 1)) : Act unit;
            inspected ← act (fun _ => inspectSignedPayload Profiles.envelope representation);
            mret {| cr_payload := payload; cr_representation := representation;
                    cr_digest := sha256 (payloadBytes inspected);
                    cr_destination := recipientBase ++ js "/envelopes" |}
      end
  end.

(** *** What authorizes a message *)

Definition grant_usable (g : SignedGrantRevision) (senderDid : jstr) (now : Z) : bool :=
  bool_decide (sgr_role g = RoleGrantee) && match g_status (sgr_payload g) with grant_active => true | grant_revoked => false end
  && jstr_eqb (g_grantee (sgr_payload g)) senderDid
  && match g_expires_at (sgr_payload g) with None => true | Some t => now <=? t end.

Definition create (env : service_env) (senderDid grantId digestText category : jstr)
    (replyUntil : option jsnum) (messageId : option jstr) : Act CreatedEnvelope :=
  grant ← act (findReceivedForSender grantId senderDid);
  match grant with
  | None => service_error "No active received Grant for this sender"
  | Some g =>
      if negb (grant_usable g senderDid (sv_now env 0))
      then service_error "No active received Grant for this sender"
      else if negb (includes (scope_values (g_scope (sgr_payload g))) category)
      then service_error "Category is outside Grant scope"
      else createSigned env senderDid (g_grantor (sgr_payload g)) (AuthorizedByGrant grantId) digestText
             (match category with [] => None | _ => Some category end) replyUntil messageId None None
  end.

Definition reply_invited (original : HailEnvelope) (senderDid replyTo : jstr)
    (parent : option HailMessageReference) (now : Z) : bool :=
  match e_reply original with ReplyAllowed until => now <=? until + 300 | ReplyDenied => false end
  && negb (jstr_eqb (e_from original) senderDid)
  && match parent with
     | None => true
     | Some p => jstr_eqb (mr_sender p) (e_from original) && jstr_eqb (mr_message_id p) replyTo
     end.

Definition createReply (env : service_env) (senderDid replyTo digestText : jstr)
    (replyUntil : option jsnum) (messageId : option jstr) (parent : option HailMessageReference)
    : Act CreatedEnvelope :=
  original ← act (receivedReplyOpportunity senderDid replyTo (mr_sender <$> parent));
  match original with
  | None => service_error "No unexpired received reply invitation for this sender"
  | Some original =>
      if negb (reply_invited original senderDid replyTo parent (sv_now env 0))
      then service_error "No unexpired received reply invitation for this sender"
      else createSigned env senderDid (e_from original) (AuthorizedByReply replyTo) digestText None
             replyUntil messageId parent None
  end.

(** A message the parent of which was received over the same connection or in a conversation. *)
Definition of_connection (original : HailEnvelope) (connectionId : jstr) (epoch : Z) : bool :=
  match e_authorization original with
  | AuthorizedByConversation _ _ _ => true
  | AuthorizedByConnection connection_id e => jstr_eqb connection_id connectionId && (e =? epoch)
  | _ => false
  end.

Definition createConnection (env : service_env) (senderDid recipientDid connectionId : jstr) (epoch : Z)
    (digestText : jstr) (messageId : option jstr) (parent : option HailMessageReference)
    : Act CreatedEnvelope :=
  connected ← act (connection_live env senderDid recipientDid connectionId epoch);
  if negb connected then service_error "This exact connection is no longer active"
  else
    _ ← match parent with
        | None => mret tt
        | Some p =>
            _ ← meanwhile (sv_others env 0);
            original ← act (receivedReplyOpportunity senderDid (mr_message_id p) (Some (mr_sender p)));
            match original with
            | None => service_error "Reply source does not belong to this connection"
            | Some original =>
                if negb (jstr_eqb (mr_sender p) recipientDid) || negb (of_connection original connectionId epoch)
                then service_error "Reply source does not belong to this connection"
                else mret tt
            end
        end;
    createSigned env senderDid recipientDid (AuthorizedByConnection connectionId epoch) digestText None None
      messageId parent None.

(** The argument [introduction] is a connection with its epoch. *)
Definition createConversationMessage (env : service_env) (senderDid recipientDid creator conversationId
    logicalId digestText messageId : jstr) (parent : option HailMessageReference)
    (introduction : option connection_ref) : Act CreatedEnvelope :=
  let identity := {| Conversations.creator := creator; Conversations.conversationId := conversationId |} in
  stored ← act (conversationForSender senderDid identity (sv_clock env 0));
  match stored with
  | None => service_error "Conversation participation is unavailable"
  | Some stored =>
      let participants := cv_participants (sc_descriptor stored) in
      if negb (sc_active stored) || negb (includes participants recipientDid)
         || jstr_eqb recipientDid senderDid
         || match parent with Some p => negb (includes participants (mr_sender p)) | None => false end
      then service_error "Conversation participation is unavailable"
      else
        introduced ← match introduction with
                     | None => mret true
                     | Some (connection_id, epoch) =>
                         if negb (jstr_eqb senderDid creator) then mret false
                         else
                           _ ← meanwhile (sv_others env 0);
                           act (connection_live env senderDid recipientDid connection_id epoch)
                     end;
        if negb introduced then service_error "Conversation introduction requires an active connection"
        else createSigned env senderDid recipientDid
               (AuthorizedByConversation creator conversationId {| digest_value := sc_descriptor_hash stored |})
               digestText None None (Some messageId) parent
               (Some {| cp_message_id := logicalId;
                        cp_introduction := match introduction with
                          | Some (connection_id, epoch) => Some {|
                              in_descriptor := sc_descriptor_cose stored;
                              in_connection_id := connection_id; in_epoch := epoch |}
                          | None => None
                          end |})
  end.

(** *** [ensureConversation] *)

(** [Array.prototype.sort] of strings: by their UTF-16 code units. *)
Definition sort_texts (l : list jstr) : list jstr := sort_by jstr_le l.

Definition createConversation (descriptor : InspectedHailObject HailConversation) (account : jstr)
    (signingKey : jstr) (fresh : Database -> M unit) (now inserted_at read_at : Z) : Tx bool :=
  let owner := {| o_account_id := account; o_did := cv_from (payload descriptor) |} in
  _ ← lockOwner owner;
  _ ← (fun db => throwing (fresh db) db) : Tx unit;
  admitConversation owner descriptor {| ap_signing_key := signingKey; ap_connection := None |}
    now inserted_at read_at.

Definition ensureConversation (env : service_env) (senderDid id : jstr) (participants : list jstr)
    : Act HailConversation :=
  let members := sort_texts participants in
  let identity := {| Conversations.creator := senderDid; Conversations.conversationId := id |} in
  prior ← act (conversationForSender senderDid identity (sv_clock env 0));
  match prior with
  | Some prior =>
      if bool_decide (cv_participants (sc_descriptor prior) = members) then mret (sc_descriptor prior)
      else service_error "Conversation ID has another roster"
  | None =>
      _ ← meanwhile (sv_others env 1);
      account ← act (fun db => Ok (active_account senderDid db));
      match account with
      | None => service_error "Current account required"
      | Some account =>
          resolved ← act (fun _ => sv_resolve env senderDid);
          key ← act (fun _ => sv_getKey env account (js "hail-messaging"));
          if negb (jstr_eqb (messagingDidKey resolved) (k_publicKey key))
             || negb (jstr_eqb (serviceBase resolved) (sv_serviceBase env))
          then service_error "Current signing authority required"
          else
            let payload := conversation_value id senderDid members (sv_now env 1) in
            signed ← act (fun _ => sign_payload env Profiles.conversation account senderDid key payload);
            verified ← act (fun _ => verifyTyped Profiles.conversation signed
                          (createWebCryptoVerifier (fun _ => ed25519PublicKeyFromDidKey (k_publicKey key)) subtle));
            _ ← meanwhile (sv_others env 2);
            _ ← begin (createConversation verified account (k_publicKey key)
                         (sv_fresh env (resolved_evidence resolved))
                         (sv_clock env 1) (sv_clock env 2) (sv_clock env 3)) : Act bool;
            act (fun _ => typed (Signed Profiles.conversation) payload)
      end
  end.
End service.
