(* ===== verification/ServiceRules.v ===== *)
(** * What sending guarantees

    Typed reading does not see the order of members, so what a provider signs reads as the draft it
    signed; nothing is sent without authority; and another provider receives what was sent. *)

From S2P Require Import Prelude JsString Value Cbor Profiles Validation ValidatePayload Models Base64Url.
From S2P Require Import Soundness ValidationRules Invariance Roundtrip Cose CoseRules WebCrypto Database Typed.
From S2P Require Import ServerBodies Conversations Envelopes Receiver DeliveryRules Status StatusRules Grants Service.
From Stdlib Require Import ZArith.
Open Scope Z_scope.

(** ** Typed reading does not see the order of members *)

Create HintDb readers discriminated.
#[export] Hint Constants Opaque : readers.
#[export] Hint Variables Transparent : readers.

Definition reader {A} (f : hvalue -> option A) : Prop := forall v w, same v w -> f v = f w.

Lemma reader_leaf {A} (f : hvalue -> option A) :
  (forall l, f (HArr l) = None) -> (forall n m, f (HMap n m) = None) -> reader f.
Proof. intros Ha Hm v w Hs. inversion Hs; subst; [done|by rewrite !Ha|by rewrite !Hm]. Qed.

Lemma as_record_same v w : same v w ->
  option_Forall2 rec_same (as_record v) (as_record w).
Proof. intros Hs. destruct v; inversion Hs; subst; by constructor. Qed.

Lemma reader_record {A} (g : HailRecord -> option A) :
  (forall r r', rec_same r r' -> g r = g r') -> reader (fun v => r ← as_record v; g r).
Proof.
  intros Hg v w Hs. pose proof (as_record_same v w Hs) as Hr.
  destruct Hr as [r r' Hrr|]; [|done]. cbn. by apply Hg.
Qed.

Lemma req_same {A} r r' k (f : hvalue -> option A) : reader f -> rec_same r r' -> req r k f = req r' k f.
Proof.
  intros Hf Hs. unfold req. pose proof (rec_same_field r r' k Hs) as Hk.
  destruct Hk as [v w Hv|]; [|done]. cbn. by apply Hf.
Qed.
Lemma optional_same {A} r r' k (f : hvalue -> option A) :
  reader f -> rec_same r r' -> Models.optional r k f = Models.optional r' k f.
Proof.
  intros Hf Hs. unfold Models.optional. pose proof (rec_same_field r r' k Hs) as Hk.
  destruct Hk as [v w Hv|]; [|done]. cbn. by rewrite (Hf v w).
Qed.

Lemma lit_str_same r r' k s : rec_same r r' -> lit_str r k s = lit_str r' k s.
Proof. intros Hs. unfold lit_str. by rewrite (same_is_str (field r k) (field r' k)) by by apply rec_same_field. Qed.
Lemma lit_num_same r r' k z : rec_same r r' -> lit_num r k z = lit_num r' k z.
Proof. intros Hs. unfold lit_num. by rewrite (same_is_num (field r k) (field r' k)) by by apply rec_same_field. Qed.

Lemma reader_string : reader as_string. Proof. by apply reader_leaf. Qed.
Lemma reader_number : reader as_number. Proof. by apply reader_leaf. Qed.
Lemma reader_bytes : reader as_bytes. Proof. by apply reader_leaf. Qed.
Lemma reader_enum {A} (table : list (String.string * A)) : reader (as_enum table).
Proof. by apply reader_leaf. Qed.
#[local] Hint Resolve reader_string reader_number reader_bytes reader_enum : readers.

Lemma bind_same {A B} (m m' : option A) (f f' : A -> option B) :
  m = m' -> (forall a, f a = f' a) -> m ≫= f = m' ≫= f'.
Proof. intros -> Hf. destruct m'; [apply Hf|done]. Qed.
Lemma fmap_same {A B} (f : A -> B) (m m' : option A) : m = m' -> f <$> m = f <$> m'.
Proof. by intros ->. Qed.

(** Read both records member by member. *)
Ltac read_same Hs :=
  repeat first [ reflexivity
    | apply lit_str_same, Hs | apply lit_num_same, Hs
    | apply req_same; [eauto with readers|exact Hs] | apply optional_same; [eauto with readers|exact Hs]
    | apply bind_same; [|intros ?] | apply fmap_same ].

Lemma reader_digest : reader as_HailDigest.
Proof. apply reader_record. intros r r' Hs. read_same Hs. Qed.
#[local] Hint Resolve reader_digest : readers.
Lemma reader_access : reader as_bearer_access.
Proof. apply reader_record. intros r r' Hs. read_same Hs. Qed.
#[local] Hint Resolve reader_access : readers.
Lemma reader_body : reader as_HailBodyDescriptor.
Proof. apply reader_record. intros r r' Hs. read_same Hs. Qed.
Lemma reader_reference : reader as_HailMessageReference.
Proof. apply reader_record. intros r r' Hs. read_same Hs. Qed.
Lemma reader_introduction : reader as_conversation_introduction.
Proof. apply reader_record. intros r r' Hs. read_same Hs. Qed.
Lemma reader_version : reader as_envelope_version.
Proof. by apply reader_leaf. Qed.
Lemma reader_authorization : reader as_HailEnvelopeAuthorization.
Proof. apply reader_record. intros r r' Hs. read_same Hs. repeat case_match; read_same Hs. Qed.
Lemma reader_reply : reader as_HailReplyPermission.
Proof.
  apply reader_record. intros r r' Hs. pose proof (rec_same_field r r' "allowed" Hs) as Hk.
  destruct Hk as [v w Hv|]; [|done]. inversion Hv; subst; [|done..]. repeat case_match; try done. read_same Hs.
Qed.
#[local] Hint Resolve reader_body reader_reference reader_introduction reader_version
  reader_authorization reader_reply : readers.
Lemma reader_envelope : reader as_HailEnvelope.
Proof. apply reader_record. intros r r' Hs. read_same Hs. Qed.

(** ** The payload of a draft *)

(** The envelope a draft describes. *)
Definition envelope_of (d : draft) : HailEnvelope := {|
  e_version := draft_version d;
  e_conversation_message_id := cp_message_id <$> dr_conversation d;
  e_conversation_introduction := dr_conversation d ≫= cp_introduction;
  e_in_reply_to := dr_parent d; e_message_id := dr_message_id d; e_from := dr_sender d;
  e_to := dr_recipient d; e_authorization := dr_authorization d; e_category := dr_category d;
  e_message_type := None; e_created_at := dr_now d; e_expires_at := dr_now d + 7 * 86400;
  e_body := {|
    bd_digest := {| digest_value := dr_digest d |}; bd_size := dr_size d; bd_profile := dr_profile d;
    bd_available_until := available_until d;
    bd_access := {| access_token := dr_token d; access_expires_at := available_until d |} |};
  e_reply := match dr_reply_until d with None => ReplyDenied | Some until => ReplyAllowed until end |}.

Lemma read_envelope d : as_HailEnvelope (envelope_value d) = Some (envelope_of d).
Proof.
  destruct d as [s r a c u m p cv now dg sz pr tk].
  destruct a as [| | |? ? []], c, u, p as [[]|], cv as [[? [[]|]]|], pr; vm_compute; reflexivity.
Qed.

Lemma envelope_value_wf d : hail_wf (envelope_value d) = true.
Proof.
  destruct d as [s r a c u m p cv now dg sz pr tk].
  destruct a as [| | |? ? []], c, u, p as [[]|], cv as [[? [[]|]]|], pr; vm_compute; reflexivity.
Qed.

Lemma only_row {K V} `{Countable K} (f : K * V -> bool) (m : gmap K V) k v :
  List.filter f (map_to_list m) = [(k, v)] -> m !! k = Some v /\ f (k, v) = true.
Proof.
  intros Hf. assert (Hin : In (k, v) [(k, v)]) by by left. rewrite <- Hf in Hin.
  apply filter_In in Hin as [Hin Hc]. split; [|done]. by apply elem_of_map_to_list, list_elem_of_In.
Qed.

Section rules.
Context `{HailEnv} `{CborgSpec} `{Keys}.
#[local] Set Default Proof Using "All".

(** ** What is signed is what is read *)

Lemma signed_reads t v signer rep object : declared (Signed t) v -> hail_wf v = true ->
  signPayload t (of_hail v) signer = Ok rep -> inspectSignedPayload t rep = Ok object ->
  validatePayload (Signed t) (of_hail v) = Ok v /\ same v (payload object) /\
  inspected_keyId object = signer_keyId signer.
Proof.
  intros Ht Hw Hs Hi.
  apply sign_Ok in Hs as (u & s & Ha & Hf & Hval & Hk & Hl & _ & -> & Hlim); [|by rewrite js_wf_of_hail].
  rewrite as_hail_of_hail in Ha. injection Ha as <-.
  unfold inspectSignedPayload in Hi. rewrite parse_build in Hi by done.
  cbn [mbind result_bind] in Hi. apply Ok_eq in Hi as <-. split; [done|]. split; [|done].
  eapply same_trans; [by apply same_canonical|apply structuredClone_same].
Qed.

(** Verification only asks the verifier for its word. *)
Lemma verify_agree t rep verifier verifier' object :
  (forall data signature keyId, verify verifier data signature keyId = Ok true ->
     verify verifier' data signature keyId = Ok true) ->
  verifySignedPayload t rep verifier = Ok object -> verifySignedPayload t rep verifier' = Ok object.
Proof.
  intros Hv Ho. unfold verifySignedPayload in *. apply bind_Ok in Ho as (p & Hp & Ho). rewrite Hp. cbn [mbind result_bind].
  apply bind_Ok in Ho as (s & Hs & Ho). rewrite Hs. cbn [mbind result_bind].
  apply bind_Ok in Ho as (b & Hb & Ho). apply bind_Ok in Ho as ([] & Hn & Ho).
  apply throw_when_Ok, negb_false_iff in Hn as ->. by rewrite (Hv _ _ _ Hb).
Qed.

Lemma messaging_agrees owner key data signature kid :
  verify (envelope_verifier owner key) data signature kid = Ok true ->
  verify (messaging_verifier owner key) data signature kid = Ok true.
Proof. cbn. by destruct (negb (jstr_eqb kid _)). Qed.

Lemma sign_envelope_Ok env account key d e rep : sign_envelope env account key d = Ok (e, rep) ->
  e = envelope_of d /\ envelope_ok e /\ Z.of_nat (length rep) <= 16384 /\ exists object,
    verifyTyped Profiles.envelope rep (messaging_verifier (dr_sender d) (k_publicKey key)) = Ok object /\
    payload object = e.
Proof.
  unfold sign_envelope. intros (rep' & Hs & (o & Hv & ([] & Hl%throw_if_Ok & (p & Hp & [= <- <-])%bind_Ok)%bind_Ok)%bind_Ok)%bind_Ok.
  apply Z.ltb_ge in Hl. unfold typed in Hp. cbn [as_payload] in Hp. rewrite read_envelope in Hp. apply Ok_eq in Hp as <-.
  unfold sign_payload in Hs. apply bind_Ok in Hs as (secret & _ & Hs). apply bind_Ok in Hs as (private & _ & Hs).
  apply bind_Ok in Hs as (signer & _ & Hs).
  pose proof (verifySigned_inspects _ _ _ _ Hv) as Hi.
  destruct (signed_reads Profiles.envelope (envelope_value d) signer rep' o ltac:(done) (envelope_value_wf d) Hs Hi) as (Hval & Hsame & _).
  split; [done|]. split.
  { destruct (signed_payload envelope _ _ ltac:(done) Hval) as (n & r & u & q & Hm & Hr & Hq).
    cbn [as_payload] in Hq. pose proof Hq as Hq'. rewrite read_envelope in Hq'. injection Hq' as <-.
    rewrite Hm in Hq. by eapply typed_envelope_rules. }
  split; [done|]. apply (verify_agree _ _ _ _ _ (messaging_agrees _ _)) in Hv.
  unfold verifyTyped. rewrite Hv. cbn [mbind result_bind]. unfold typed. cbn [as_payload].
  rewrite <- (reader_envelope _ _ Hsame), read_envelope. by eexists.
Qed.

Context `{ConnectionFunctions} `{Triggers} `{AccountFences} `{Calendar}.

(** ** Creation *)

(** The envelope says what was asked for. *)
Record as_asked (env : service_env) (senderDid recipientDid : jstr)
    (authorization : HailEnvelopeAuthorization) (digestText : jstr) (category : option jstr)
    (replyUntil : option jsnum) (messageId : option jstr) (parent : option HailMessageReference)
    (conversation : option conversation_part) (e : HailEnvelope) : Prop := {
  aa_from : e_from e = senderDid;
  aa_to : e_to e = recipientDid;
  aa_authorization : e_authorization e = authorization;
  aa_category : e_category e = category;
  aa_parent : e_in_reply_to e = parent;
  aa_conversation : e_conversation_message_id e = cp_message_id <$> conversation;
  aa_introduction : e_conversation_introduction e = conversation ≫= cp_introduction;
  aa_message_id : forall id, messageId = Some id -> e_message_id e = id;
  aa_created : e_created_at e = sv_now env 1;
  aa_reply : match replyUntil with
    | None => e_reply e = ReplyDenied
    | Some n => exists until, n = JInt until /\ e_reply e = ReplyAllowed until /\ sv_now env 1 < until
    end;
  aa_digest : encodeBase64Url (digest_value (bd_digest (e_body e))) = digestText;
}.

(** What was announced is the published body. *)
Definition body_published (e : HailEnvelope) (db : Database) : Prop :=
  exists body account, db detached_bodies !! (digest_value (bd_digest (e_body e)), account) = Some body /\
    bd_size (e_body e) = Z.of_nat (length (b_bytes body)) /\
    validateBodyBytes (b_bytes body) None = Ok (bd_profile (e_body e)).

(** The key the resolver names for the sender verifies the representation, and it is stored. *)
Record signed_and_stored (env : service_env) (c : CreatedEnvelope) (db db' : Database) : Prop := {
  ss_verified : exists sender recipient object,
    sv_resolve env (e_from (cr_payload c)) = Ok sender /\ sv_resolve env (e_to (cr_payload c)) = Ok recipient /\
    serviceBase sender = sv_serviceBase env /\ cr_destination c = serviceBase recipient ++ js "/envelopes" /\
    verifyTyped Profiles.envelope (cr_representation c)
      (messaging_verifier (e_from (cr_payload c)) (messagingDidKey sender)) = Ok object /\
    payload object = cr_payload c /\ cr_digest c = sha256 (payloadBytes object);
  ss_size : Z.of_nat (length (cr_representation c)) <= 16384;
  ss_stored : exists account, active_account (e_from (cr_payload c)) (sv_others env 1 db) = Some account /\
    sent_effect (cr_payload c) (cr_representation c) account
      (sv_others env 3 (sv_others env 2 (sv_others env 1 db))) db';
}.

Lemma reply_end_Ok replyUntil now until : 0 <= now -> reply_end replyUntil now = Ok until ->
  match replyUntil with
  | None => until = None
  | Some n => exists u, n = JInt u /\ until = Some u /\ now < u
  end.
Proof.
  intros Hnow. unfold reply_end, safe_number. destruct replyUntil as [[z| |]|]; [| |done|by intros [= <-]].
  - destruct (isSafeInteger z); [|done]. destruct (Z.leb_spec z now); intros [=]. eauto.
  - destruct (Z.leb_spec 0 now); [by intros [=]|lia].
Qed.

Lemma body_digest_Ok text digest : body_digest text = Ok digest -> encodeBase64Url digest = text.
Proof.
  intros (b & _ & ([] & [_ Hd%negb_false_iff%jstr_eqb_eq]%throw_if_Ok%orb_false_iff & [= <-])%bind_Ok)%bind_Ok.
  done.
Qed.

Lemma publishedBody_Ok sender digest (db : Database) body : publishedBody sender digest db = Ok (Some body) ->
  exists b, db detached_bodies !! (digest, pb_senderAccountId body) = Some b /\
    pb_size body = Z.of_nat (length (b_bytes b)) /\ validateBodyBytes (b_bytes b) None = Ok (pb_profile body).
Proof.
  unfold publishedBody. destruct (find_row _ _) as [[[dg account] b]|] eqn:Hf; [|done].
  apply find_row_Some in Hf as [Hb Hc]. cbn [fst snd] in Hc.
  apply andb_true_iff in Hc as [->%bool_decide_eq_true _].
  intros (profile & Hp & [= <-])%bind_Ok. by exists b.
Qed.

Lemma signing_key_Ok env account sender recipient key base :
  signing_key env account sender recipient = Ok (key, base) -> exists s r,
    sv_resolve env sender = Ok s /\ sv_resolve env recipient = Ok r /\ base = serviceBase r /\
    messagingDidKey s = k_publicKey key /\ serviceBase s = sv_serviceBase env.
Proof.
  intros (s & Hs & (r & Hr & (k & _ & ([] & Hc%throw_if_Ok & [= <- <-])%bind_Ok)%bind_Ok)%bind_Ok)%bind_Ok.
  apply orb_false_iff in Hc as [[Hk%negb_false_iff%jstr_eqb_eq Hb%negb_false_iff%jstr_eqb_eq]%orb_false_iff _].
  eauto 10.
Qed.

Lemma createSigned_Ok env senderDid recipientDid authorization digestText category replyUntil messageId
    parent conversation (db : Database) c db' : 0 <= sv_now env 1 ->
  createSigned env senderDid recipientDid authorization digestText category replyUntil messageId parent
    conversation db = (Ok c, db') ->
  as_asked env senderDid recipientDid authorization digestText category replyUntil messageId parent
    conversation (cr_payload c) /\
  envelope_ok (cr_payload c) /\
  body_published (cr_payload c) (sv_others env 2 (sv_others env 1 db)) /\
  signed_and_stored env c db db'.
Proof.
  intros Hnow Hc. unfold createSigned in Hc.
  apply bind_Act in Hc as ([] & db1 & [= <-] & Hc).
  apply bind_Act in Hc as (account & db2 & Ha & Hc). apply act_Ok in Ha as [[= Ha] ->].
  destruct account as [account|]; [|discriminate Hc].
  apply bind_Act in Hc as (until & db2 & Hu & Hc). apply act_Ok in Hu as [Hu ->].
  apply bind_Act in Hc as (digest & db2 & Hd & Hc). apply act_Ok in Hd as [Hd%body_digest_Ok ->].
  apply bind_Act in Hc as ([] & db2 & [= <-] & Hc).
  apply bind_Act in Hc as (body & db3 & Hb & Hc). apply act_Ok in Hb as [Hb ->].
  destruct body as [body|]; [|discriminate Hc]. apply publishedBody_Ok in Hb as (b & Hb & Hsize & Hprofile).
  destruct (jstr_eqb _ _) in Hc; [cbn [negb] in Hc|discriminate Hc].
  apply bind_Act in Hc as ([key base] & db3 & Hk & Hc). apply act_Ok in Hk as [Hk ->].
  apply signing_key_Ok in Hk as (s & r & Hs & Hr & -> & Hkey & Hbase).
  apply bind_Act in Hc as (mid & db3 & Hm & Hc). apply act_Ok in Hm as [Hm ->].
  apply bind_Act in Hc as ([e rep] & db3 & Hsign & Hc). apply act_Ok in Hsign as [Hsign ->].
  apply sign_envelope_Ok in Hsign as (-> & Hok & Hlen & object & Hv & Hp).
  cbn [dr_sender] in Hv. set (d := {| dr_sender := senderDid |}) in *.
  apply bind_Act in Hc as ([] & db3 & [= <-] & Hc).
  apply bind_Act in Hc as ([] & db3 & Hsent & Hc). apply begin_Ok, createSent_Ok in Hsent.
  apply bind_Act in Hc as (inspected & db4 & Hi & Hc). apply act_Ok in Hi as [Hi ->].
  injection Hc as <- <-. cbn [cr_payload].
  split; [|split; [done|split]].
  - apply reply_end_Ok in Hu; [|done]. split; try done.
    + intros id ->. by injection Hm as <-.
    + destruct replyUntil as [n|]; [|by subst].
      destruct Hu as (u & -> & -> & Hlt). by exists u.
  - by exists b, (pb_senderAccountId body).
  - split; cbn [cr_payload cr_representation cr_digest cr_destination]; [|done|by exists account].
    exists s, r, object. rewrite Hkey. repeat (split; [done|]).
    apply verifyTyped_inspects in Hv. apply bind_Ok in Hv as (o & Ho & (q & _ & [= <-])%bind_Ok).
    rewrite Hi in Ho. by injection Ho as <-.
Qed.

(** ** What authorizes a message *)

(** The ways to send; only what the rules below speak of is named. *)
Inductive sending :=
| ByGrant (sender grant_id category : jstr)
| ByReply (sender reply_to : jstr) (parent : option HailMessageReference)
| ByConnection (sender recipient connection_id : jstr) (epoch : Z) (parent : option HailMessageReference)
| ByConversation (sender recipient creator conversation_id logical_id : jstr)
    (parent : option HailMessageReference) (introduction : option connection_ref).

Definition send (env : service_env) (how : sending) (digestText : jstr) (replyUntil : option jsnum)
    (messageId : jstr) : Act CreatedEnvelope :=
  match how with
  | ByGrant sender grant_id category =>
      create env sender grant_id digestText category replyUntil (Some messageId)
  | ByReply sender reply_to parent =>
      createReply env sender reply_to digestText replyUntil (Some messageId) parent
  | ByConnection sender recipient connection_id epoch parent =>
      createConnection env sender recipient connection_id epoch digestText (Some messageId) parent
  | ByConversation sender recipient creator conversation_id logical_id parent introduction =>
      createConversationMessage env sender recipient creator conversation_id logical_id digestText
        messageId parent introduction
  end.

(** A message the account received and accepted, as it was signed. *)
Definition was_received (recipient messageId : jstr) (original : HailEnvelope) (db : Database) : Prop :=
  exists k r object, db received_envelopes !! k = Some r /\ k.2 = messageId /\
    r_recipient_did r = recipient /\ r_outcome r = ReceivedAccepted /\
    inspectTyped Profiles.envelope (r_envelope_cose r) = Ok object /\ payload object = original /\
    e_to original = recipient /\ e_message_id original = messageId.

Definition authorized (env : service_env) (how : sending) (db : Database) (e : HailEnvelope) : Prop :=
  match how with
  | ByGrant sender grant_id category => exists g, findReceivedForSender grant_id sender db = Ok (Some g) /\
      sgr_role g = RoleGrantee /\ g_status (sgr_payload g) = grant_active /\
      g_grantee (sgr_payload g) = sender /\
      (forall t, g_expires_at (sgr_payload g) = Some t -> sv_now env 0 <= t) /\
      includes (scope_values (g_scope (sgr_payload g))) category = true /\
      e_authorization e = AuthorizedByGrant grant_id /\ e_to e = g_grantor (sgr_payload g) /\
      e_category e = match category with [] => None | _ => Some category end
  | ByReply sender reply_to parent => exists original until, was_received sender reply_to original db /\
      e_reply original = ReplyAllowed until /\ sv_now env 0 <= until + 300 /\
      e_authorization e = AuthorizedByReply reply_to /\ e_to e = e_from original /\
      e_from original <> sender /\ e_in_reply_to e = parent
  | ByConnection sender recipient connection_id epoch parent =>
      connection_live env sender recipient connection_id epoch db = Ok true /\
      e_authorization e = AuthorizedByConnection connection_id epoch /\ e_to e = recipient /\
      e_in_reply_to e = parent /\
      (forall p, parent = Some p -> mr_sender p = recipient /\ exists original,
         was_received sender (mr_message_id p) original (sv_others env 0 db) /\
         of_connection original connection_id epoch = true)
  | ByConversation sender recipient creator conversation_id logical_id parent introduction =>
      exists c, conversationForSender sender
        {| Conversations.creator := creator; Conversations.conversationId := conversation_id |}
        (sv_clock env 0) db = Ok (Some c) /\
      sc_active c = true /\ includes (cv_participants (sc_descriptor c)) recipient = true /\
      recipient <> sender /\
      e_authorization e = AuthorizedByConversation creator conversation_id
        {| digest_value := sc_descriptor_hash c |} /\
      e_to e = recipient /\ e_conversation_message_id e = Some logical_id /\
      (forall id epoch, introduction = Some (id, epoch) -> sender = creator /\
         connection_live env sender recipient id epoch (sv_others env 0 db) = Ok true)
  end.

Definition sender_of (how : sending) : jstr :=
  match how with
  | ByGrant sender _ _ | ByReply sender _ _ | ByConnection sender _ _ _ _
  | ByConversation sender _ _ _ _ _ _ => sender
  end.

Lemma service_error_Err {A} message (db : Database) (a : A) db' : service_error message db <> (Ok a, db').
Proof. discriminate. Qed.

Lemma receivedReplyOpportunity_Ok recipient messageId sender (db : Database) original :
  receivedReplyOpportunity recipient messageId sender db = Ok (Some original) ->
  was_received recipient messageId original db.
Proof.
  unfold receivedReplyOpportunity. destruct (List.filter _ _) as [|[k r] [|]] eqn:Hf; [done| |done].
  apply only_row in Hf as [Hin Hc].
  intros (object & Ho & Hp)%bind_Ok. destruct (_ && _) eqn:He in Hp; [|done]. injection Hp as <-.
  apply andb_true_iff in He as [He1%jstr_eqb_eq He2%jstr_eqb_eq].
  unfold reply_source in Hc. cbn [fst snd] in Hc.
  apply andb_true_iff in Hc as [[[Hc1%jstr_eqb_eq Hc2%jstr_eqb_eq]%andb_true_iff Hc3]%andb_true_iff _].
  exists k, r, object. repeat split; try done.
  by destruct (r_outcome r).
Qed.

(** A failed step has no result. *)
Ltac no_result Hc := try (exfalso; apply (service_error_Err _ _ _ _ Hc)).

Lemma create_Ok env sender grant_id digestText category replyUntil messageId (db : Database) c db' :
  create env sender grant_id digestText category replyUntil messageId db = (Ok c, db') ->
  exists g, findReceivedForSender grant_id sender db = Ok (Some g) /\ grant_usable g sender (sv_now env 0) = true /\
    includes (scope_values (g_scope (sgr_payload g))) category = true /\
    createSigned env sender (g_grantor (sgr_payload g)) (AuthorizedByGrant grant_id) digestText
      (match category with [] => None | _ => Some category end) replyUntil messageId None None db = (Ok c, db').
Proof.
  intros Hc. apply bind_Act in Hc as (g & db1 & Hg & Hc). apply act_Ok in Hg as [Hg ->].
  destruct g as [g|]; [|no_result Hc]. destruct (grant_usable _ _ _) eqn:Hu; [|no_result Hc].
  cbn [negb] in Hc. destruct (includes _ _) eqn:Hi; [|no_result Hc]. by exists g.
Qed.

Lemma createReply_Ok env sender reply_to digestText replyUntil messageId parent (db : Database) c db' :
  createReply env sender reply_to digestText replyUntil messageId parent db = (Ok c, db') ->
  exists original, was_received sender reply_to original db /\
    reply_invited original sender reply_to parent (sv_now env 0) = true /\
    createSigned env sender (e_from original) (AuthorizedByReply reply_to) digestText None replyUntil
      messageId parent None db = (Ok c, db').
Proof.
  intros Hc. apply bind_Act in Hc as (o & db1 & Ho & Hc). apply act_Ok in Ho as [Ho ->].
  destruct o as [o|]; [|no_result Hc]. apply receivedReplyOpportunity_Ok in Ho.
  destruct (reply_invited _ _ _ _ _) eqn:Hi; [|no_result Hc]. by exists o.
Qed.

(** The database when [createSigned] begins. *)
Definition before_creation (env : service_env) (db db1 : Database) : Prop :=
  db1 = db \/ db1 = sv_others env 0 db.

Lemma createConnection_Ok env sender recipient connection_id epoch digestText messageId parent
    (db : Database) c db' :
  createConnection env sender recipient connection_id epoch digestText messageId parent db = (Ok c, db') ->
  connection_live env sender recipient connection_id epoch db = Ok true /\
  (forall p, parent = Some p -> mr_sender p = recipient /\ exists original,
     was_received sender (mr_message_id p) original (sv_others env 0 db) /\
     of_connection original connection_id epoch = true) /\
  exists db1, before_creation env db db1 /\
    createSigned env sender recipient (AuthorizedByConnection connection_id epoch) digestText None
      None messageId parent None db1 = (Ok c, db').
Proof.
  intros Hc. apply bind_Act in Hc as (live & db1 & Hl & Hc). apply act_Ok in Hl as [Hl ->].
  destruct live; [cbn [negb] in Hc|no_result Hc]. split; [done|].
  apply bind_Act in Hc as ([] & db1 & Hp & Hc).
  destruct parent as [p|]; [|injection Hp as <-; split; [done|exists db; by split; [left|]]].
  apply bind_Act in Hp as ([] & db2 & [= <-] & Hp).
  apply bind_Act in Hp as (o & db2 & Ho & Hp). apply act_Ok in Ho as [Ho ->].
  destruct o as [o|]; [|no_result Hp]. apply receivedReplyOpportunity_Ok in Ho.
  destruct (_ || _) eqn:Hb in Hp; [no_result Hp|]. injection Hp as <-.
  apply orb_false_iff in Hb as [Hs%negb_false_iff%jstr_eqb_eq Hb%negb_false_iff].
  split; [intros ? [= <-]; eauto|]. eexists. by split; [right|].
Qed.

Lemma createConversationMessage_Ok env sender recipient creator conversation_id logical_id digestText
    messageId parent introduction (db : Database) c db' :
  createConversationMessage env sender recipient creator conversation_id logical_id digestText messageId
    parent introduction db = (Ok c, db') ->
  exists stored db1, conversationForSender sender
      {| Conversations.creator := creator; Conversations.conversationId := conversation_id |}
      (sv_clock env 0) db = Ok (Some stored) /\
    sc_active stored = true /\ includes (cv_participants (sc_descriptor stored)) recipient = true /\
    recipient <> sender /\
    (forall id epoch, introduction = Some (id, epoch) -> sender = creator /\
       connection_live env sender recipient id epoch (sv_others env 0 db) = Ok true) /\
    createSigned env sender recipient (AuthorizedByConversation creator conversation_id
      {| digest_value := sc_descriptor_hash stored |}) digestText None None (Some messageId) parent
      (Some {| cp_message_id := logical_id;
               cp_introduction := match introduction with
                 | Some (id, epoch) => Some {| in_descriptor := sc_descriptor_cose stored;
                                               in_connection_id := id; in_epoch := epoch |}
                 | None => None
                 end |}) db1 = (Ok c, db') /\ before_creation env db db1.
Proof.
  intros Hc. apply bind_Act in Hc as (stored & db1 & Hst & Hc). apply act_Ok in Hst as [Hst ->].
  destruct stored as [stored|]; [|no_result Hc]. cbv zeta in Hc.
  destruct (_ || _) eqn:Hb in Hc; [no_result Hc|].
  apply orb_false_iff in Hb as [[[Ha%negb_false_iff Hi%negb_false_iff]%orb_false_iff Hs]%orb_false_iff _].
  apply bind_Act in Hc as (introduced & db1 & Hin & Hc).
  destruct introduced; [cbn [negb] in Hc|no_result Hc].
  exists stored, db1. repeat (split; [done|]). split; [|split; [|split; [done|]]].
  - intros ->. by rewrite jstr_eqb_refl in Hs.
  - intros id epoch ->. destruct (jstr_eqb sender creator) eqn:He; cbn [negb] in Hin; [|discriminate Hin].
    apply jstr_eqb_eq in He as ->. apply bind_Act in Hin as ([] & db2 & [= <-] & Hin).
    by apply act_Ok in Hin as [Hin _].
  - destruct introduction as [[id epoch]|]; [|injection Hin as <-; by left].
    destruct (negb _) in Hin; [discriminate Hin|]. apply bind_Act in Hin as ([] & db2 & [= <-] & Hin).
    apply act_Ok in Hin as [_ ->]. by right.
Qed.

(** Whatever the way, the envelope was created by [createSigned]. *)
Lemma send_creates env how digestText replyUntil messageId (db : Database) c db' :
  send env how digestText replyUntil messageId db = (Ok c, db') ->
  exists recipient authorization category ru parent conversation db1,
    createSigned env (sender_of how) recipient authorization digestText category ru (Some messageId) parent
      conversation db1 = (Ok c, db') /\ before_creation env db db1.
Proof.
  unfold before_creation. destruct how; cbn [send sender_of]; intros Hc.
  - apply create_Ok in Hc as (g & _ & _ & _ & Hc). eauto 12.
  - apply createReply_Ok in Hc as (o & _ & _ & Hc). eauto 12.
  - apply createConnection_Ok in Hc as (_ & _ & db1 & Hb & Hc). eauto 12.
  - apply createConversationMessage_Ok in Hc as (st & db1 & _ & _ & _ & _ & _ & Hc & Hb). eauto 12.
Qed.

Lemma send_authorized_by env how digestText replyUntil messageId (db : Database) c db' : 0 <= sv_now env 1 ->
  send env how digestText replyUntil messageId db = (Ok c, db') -> authorized env how db (cr_payload c).
Proof.
  intros Hnow Hc. destruct how; cbn [send authorized] in *.
  - apply create_Ok in Hc as (g & Hg & Hu & Hi & Hc).
    apply createSigned_Ok in Hc as ([] & _); [|done]. unfold grant_usable in Hu.
    apply andb_true_iff in Hu as [[[Hr Hs]%andb_true_iff Hgr%jstr_eqb_eq]%andb_true_iff He].
    exists g. split; [done|]. split; [by apply bool_decide_eq_true in Hr|]. split; [by destruct (g_status _)|]. split; [done|].
    split; [intros t Ht; rewrite Ht in He; lia|done].
  - apply createReply_Ok in Hc as (o & Ho & Hi & Hc). apply createSigned_Ok in Hc as ([] & _); [|done].
    unfold reply_invited in Hi. apply andb_true_iff in Hi as [[Hr Hf%negb_true_iff]%andb_true_iff _].
    destruct (e_reply o) as [|until] eqn:Hrep; [done|]. exists o, until.
    do 2 (split; [done|]). split; [lia|]. do 2 (split; [done|]). split; [|done].
    intros He. by rewrite He, jstr_eqb_refl in Hf.
  - apply createConnection_Ok in Hc as (Hl & Hp & db1 & _ & Hc). apply createSigned_Ok in Hc as ([] & _); done.
  - apply createConversationMessage_Ok in Hc as (st & db1 & Hst & Ha & Hi & Hne & Hin & Hc & _).
    apply createSigned_Ok in Hc as ([] & _); [|done]. by exists st.
Qed.

(** C20: Nothing is sent without authority: an envelope that is created is signed by a sender's
    provider only under a received active grant whose scope has the category, in answer to an
    invitation that was received and has not run out, over a connection that was live, or by an
    active participant of the conversation to another one; it is addressed to the peer that gave the
    authority, it names that authority, it satisfies every rule of the protocol, and it announces
    exactly the body the account has published. *)
Theorem sending_authorized env how digestText replyUntil messageId (db : Database) c db' : 0 <= sv_now env 1 ->
  send env how digestText replyUntil messageId db = (Ok c, db') ->
  e_from (cr_payload c) = sender_of how /\ e_message_id (cr_payload c) = messageId /\
  authorized env how db (cr_payload c) /\ envelope_ok (cr_payload c) /\
  encodeBase64Url (digest_value (bd_digest (e_body (cr_payload c)))) = digestText /\
  exists db1, before_creation env db db1 /\ body_published (cr_payload c) (sv_others env 2 (sv_others env 1 db1)).
Proof.
  intros Hnow Hc. pose proof (send_authorized_by _ _ _ _ _ _ _ _ Hnow Hc) as Hauth.
  apply send_creates in Hc as (r & a & cat & ru & p & cv & db1 & Hc & Hbefore).
  apply createSigned_Ok in Hc as ([] & Hok & Hb & _); [|done].
  split; [done|]. split; [by apply aa_message_id0|]. split; [done|]. split; [done|]. split; [done|].
  by exists db1.
Qed.

(** ** The other side *)

Context `{EnvelopeAuthority}.

(** A provider that serves the recipient of an envelope, resolves its sender, and has something that
    could authorize it; [rdb'] is its database when the repository decides. *)
Record serves (rv : receiver_env) (e : HailEnvelope) (sender : ResolvedHailDid) (account : jstr)
    (rdb rdb' : Database) : Prop := {
  sv_distinct : e_from e <> e_to e;
  sv_in_time : e_created_at e <= rv_now rv + 300;
  sv_sender : rv_resolve rv (e_from e) = Ok sender;
  sv_recipient : exists r, rv_resolve rv (e_to e) = Ok r /\ serviceBase r = rv_serviceBase rv;
  sv_candidate : exists rdb1 descriptor rdb2 a,
    candidate e (rv_candidate_now rv) (rv_others rv 0 rdb) = Ok (true, rdb1) /\
    introduced_descriptor rv e sender (rv_others rv 1 rdb1) = (Ok (Some descriptor), rdb2) /\
    getAccountByDid (e_to e) (rv_others rv 2 rdb2) = Some (account, a) /\
    a_active a = true /\ a_public a = true /\ rdb' = rv_others rv 3 (rv_others rv 2 rdb2);
}.

Lemma served_decides rv e sender account rep (rdb rdb' : Database) verified :
  serves rv e sender account rdb rdb' -> Z.of_nat (length rep) <= 16384 ->
  verifyTyped Profiles.envelope rep (messaging_verifier (e_from e) (messagingDidKey sender)) = Ok verified ->
  payload verified = e -> exists input, decided_payload input = e /\
    payloadDigest input = sha256 (payloadBytes verified) /\
    signingPublicKey input = messagingDidKey sender /\ localAccountId input = account /\
    receive rv rep rdb =
      match accept input (rv_limits rv) (rv_clock rv) rdb' with
      | (Ok outcome, rdb') => (Ok (Received_ outcome), rdb')
      | (Err _, rdb') => (Ok Ignored, rdb')
      end.
Proof.
  intros [Hne Htime Hs (r & Hr & Hbase) (rdb1 & descriptor & rdb2 & a & Hc & Hd & Ha & Hact & Hpub & ->)] Hlen Hv He.
  exists (decision rv e rep (payloadBytes verified) account sender r descriptor).
  do 4 (split; [done|]). unfold receive, rescue.
  assert (Hdec : decide_envelope rv rep rdb =
    (Ok (Some (decision rv e rep (payloadBytes verified) account sender r descriptor)), rv_others rv 2 rdb2)).
  { pose proof (verifyTyped_inspects _ _ _ _ Hv) as Hi. unfold decide_envelope.
    unfold mbind, Act_bind, act. rewrite Hi.
    cbn [HailPayloadByType] in *. rewrite He.
    assert (out_of_bounds rv e rep = false) as ->.
    { unfold out_of_bounds. rewrite !orb_false_iff, !Z.ltb_ge. split; [split; [|lia]|lia].
      destruct (jstr_eqb _ _) eqn:Hj; [by apply jstr_eqb_eq in Hj|done]. }
    rewrite Hs, Hv. unfold meanwhile, begin. rewrite Hc. cbn [negb]. rewrite Hd, Hr, Hbase, jstr_eqb_refl.
    cbn [negb]. rewrite Ha, Hact, Hpub. done. }
  unfold mbind, Act_bind. rewrite Hdec. unfold meanwhile, fmap, Act_fmap.
  by destruct (accept _ _ _ _) as [[outcome|error] rdb3].
Qed.

(** C21: What one provider sends another one can receive: an envelope that was created, posted to a
    provider that serves its recipient and resolves the sender to the key the sender's own resolver
    named, is not ignored but handed to the repository as it was created: the same payload and digest,
    with the key that signed it; and the outcome is the repository's.  The sender's provider keeps
    exactly what it sent, to post it again. *)
Theorem sent_is_received env how digestText replyUntil messageId (db : Database) c db'
    rv sender account (rdb rdb' : Database) : 0 <= sv_now env 1 ->
  send env how digestText replyUntil messageId db = (Ok c, db') ->
  (exists s, sv_resolve env (sender_of how) = Ok s /\ messagingDidKey s = messagingDidKey sender) ->
  serves rv (cr_payload c) sender account rdb rdb' ->
  sent (sender_of how) messageId db' = Some (cr_representation c) /\
  exists input, decided_payload input = cr_payload c /\ payloadDigest input = cr_digest c /\
    signingPublicKey input = messagingDidKey sender /\ localAccountId input = account /\
    receive rv (cr_representation c) rdb =
      match accept input (rv_limits rv) (rv_clock rv) rdb' with
      | (Ok outcome, rdb') => (Ok (Received_ outcome), rdb')
      | (Err _, rdb') => (Ok Ignored, rdb')
      end.
Proof.
  intros Hnow Hc (s & Hs & Hkey) Hserves.
  apply send_creates in Hc as (r & a & cat & ru & p & cv & db1 & Hc & _).
  apply createSigned_Ok in Hc as ([] & _ & _ & [(s' & r' & object & Hs' & _ & _ & _ & Hv & Hp & Hdigest) Hlen (acc & _ & Hsent)]); [|done].
  rewrite aa_from0 in Hs'. rewrite Hs in Hs'. injection Hs' as <-. rewrite Hkey in Hv. split.
  - destruct Hsent as [_ (o & _ & Hrow) _ _]. unfold sent. rewrite Hrow. tables.
    unfold envelope_key. rewrite aa_from0, (aa_message_id0 _ eq_refl), insert_same. done.
  - rewrite Hdigest. by apply (served_decides rv _ sender account _ rdb rdb').
Qed.
End rules.
