(* ===== verification/ServiceScenario.v ===== *)
(** * An answer is sent and received

    Bob's provider has received the question of [Scenario.v]; Bob answers, his provider signs and
    stores the answer, and Alice's provider receives what was sent.  In [Publication] the final status is
    published, in [Participation] a conversation is admitted, lapses and is revived. *)

From S2P Require Import Prelude JsString Regex Value Rfc8949 Cbor Profiles Validation ValidatePayload.
From S2P Require Import Models ValidationRules Base64Url Roundtrip Cose CoseRules WebCrypto Typed Database.
From S2P Require Import ServerBodies Conversations Envelopes Grants Delivery Receiver DeliveryRules System.
From S2P Require Import Safety Scenario Status Http Publisher PublisherRules.
From S2P Require Import ConversationRules Service ServiceRules.
From Stdlib Require Import ZArith.
Open Scope Z_scope.

#[local] Existing Instance example_env.
#[local] Existing Instance Reference.cborg.
#[local] Existing Instance Reference.cborg_spec.
#[local] Existing Instance example_keys.
#[local] Existing Instance example_connections.
#[local] Existing Instance example_triggers.
#[local] Existing Instance example_fences.
#[local] Existing Instance example_calendar.
#[local] Existing Instance example_authority.

Definition resolve_example (d : jstr) : M ResolvedHailDid := Ok {|
  did := d; identityDidKey := js "did:key:z6Mi"; messagingDidKey := js "did:key:z6Mk";
  serviceBase := if jstr_eqb d alice then js "https://a.example" else js "https://b.example";
  resolved_evidence := {| document := []; data := []; log := [] |} |}.
Definition bob_document : ResolvedHailDid := ltac:(
  let r := eval vm_compute in (resolve_example bob) in match r with Ok ?d => exact d end).

Definition bobs_service : service_env := {|
  sv_getKey := fun _ role => Ok {| k_role := role; k_algorithm := js "ed25519"; k_publicKey := js "did:key:z6Mk" |};
  sv_resolve := resolve_example;
  sv_decrypt := fun _ _ => Ok [x01];
  sv_import := fun _ => Ok (example_key (js "sign"));
  sv_live := None;
  sv_uuidV7 := fun _ => Ok (uuid "9"); sv_newBodyToken := repeat x00 32; sv_fresh := fun _ _ => Ok tt;
  sv_serviceBase := js "https://b.example";
  sv_now := fun _ => 1000; sv_clock := fun _ => seconds 1000; sv_others := fun _ db => db |}.

(** Bob's account, the question he received, and the body he has published. *)
Definition bobs_database : Database :=
  set provider_accounts {[js "account-b" := {| a_did := bob; a_active := true; a_public := true; a_closed := false |}]}
  (set received_envelopes {[(alice, uuid "1") := {|
     r_recipient_did := bob; r_authorization := AuthorizedByGrant (uuid "2");
     r_local_account_id := js "account-b"; r_envelope_cose := question_cose;
     r_envelope_digest := repeat x00 32; r_payload_digest := repeat x00 32;
     r_signing_public_key := js "did:key:z6Mk"; r_outcome := ReceivedAccepted;
     r_accepted_at := Some (seconds 900); r_conversation_message_id := None; r_admission_bytes := 0 |}]}
  (set detached_bodies {[(repeat x00 32, js "account-b") :=
     {| b_bytes := answer_body; b_available_until := None |}]}
  no_rows)).

Definition body_text : jstr := encodeBase64Url (repeat x00 32).
Definition answering : sending := ByReply bob (uuid "1") None.
Definition sending_answer : M CreatedEnvelope * Database :=
  send bobs_service answering body_text None (uuid "3") bobs_database.
Definition created_answer : CreatedEnvelope := ltac:(
  let r := eval vm_compute in sending_answer.1 in match r with Ok ?c => exact c end).

Lemma answer_created : sending_answer.1 = Ok created_answer.
Proof. vm_compute. reflexivity. Qed.
Lemma answer_sent : sending_answer = (Ok created_answer, sending_answer.2).
Proof. rewrite <- answer_created. by destruct sending_answer. Qed.

Definition alices_receiver : receiver_env := {|
  rv_resolve := resolve_example; rv_retain := None; rv_localeCompare := fun _ _ => Eq;
  rv_serviceBase := js "https://a.example"; rv_now := 1001; rv_live := None;
  rv_limits := ENVELOPE_ADMISSION; rv_candidate_now := seconds 1001; rv_clock := at_1000;
  rv_others := fun _ db => db |}.

Lemma alice_serves : serves alices_receiver (cr_payload created_answer) bob_document alice_account asked asked.
Proof.
  split.
  - vm_compute. discriminate.
  - vm_compute. discriminate.
  - vm_compute. reflexivity.
  - eexists. split; vm_compute; reflexivity.
  - exists asked, None, asked, {| a_did := alice; a_active := true; a_public := true; a_closed := false |}.
    repeat (split; [reflexivity|]). reflexivity.
Qed.

Lemma sending_authorized_witness :
  sending_answer.1 = Ok created_answer /\ authorized bobs_service answering bobs_database (cr_payload created_answer).
Proof.
  split; [exact answer_created|].
  apply (sending_authorized bobs_service answering body_text None (uuid "3") bobs_database created_answer
    sending_answer.2).
  - cbn. lia.
  - exact answer_sent.
Defined.

Lemma sent_is_received_witness :
  sending_answer.1 = Ok created_answer /\ exists input,
    decided_payload input = cr_payload created_answer /\
    receive alices_receiver (cr_representation created_answer) asked =
      match accept input ENVELOPE_ADMISSION at_1000 asked with
      | (Ok outcome, rdb') => (Ok (Received_ outcome), rdb')
      | (Err _, rdb') => (Ok Ignored, rdb')
      end.
Proof.
  split; [exact answer_created|].
  destruct (sent_is_received bobs_service answering body_text None (uuid "3") bobs_database created_answer
    sending_answer.2 alices_receiver bob_document alice_account asked asked)
    as (_ & input & Hp & _ & _ & _ & Hr).
  - cbn. lia.
  - exact answer_sent.
  - exists bob_document. split; [vm_compute; reflexivity|reflexivity].
  - exact alice_serves.
  - exists input. split; [exact Hp|exact Hr].
Defined.

(** ** The provider of [Scenario.v] publishes the final status *)

Module Publication.
#[local] Existing Instance example_env.
#[local] Existing Instance Reference.cborg.
#[local] Existing Instance example_keys.
#[local] Existing Instance example_triggers.

(** The key, its resolution and its secret of the recipient of the answer. *)
Definition alice_signer : signer_env := {|
  sg_getKey := fun _ role => Ok {| k_role := role; k_algorithm := js "ed25519"; k_publicKey := js "did:key:z6Mk" |};
  sg_resolve := fun d => Ok {| did := d; identityDidKey := []; messagingDidKey := js "did:key:z6Mk";
    serviceBase := js "https://a.example/hail"; resolved_evidence := {| document := []; data := []; log := [] |} |};
  sg_decrypt := fun _ _ => Ok [];
  sg_import := fun _ => Ok (example_key (js "sign"));
  sg_serviceBase := js "https://a.example/hail"; sg_retain := fun _ => Ok tt; sg_others := fun _ db => db |}.

(** The sender's provider answers with an empty 204. *)
Definition acknowledging : publisher_env := {|
  pb_token := js "lease-2"; pb_locked := ∅; pb_claim_now := seconds 1010;
  pb_signer := alice_signer; pb_resolve := sg_resolve alice_signer; pb_target := fun _ => Ok tt;
  pb_fetch := fun _ _ => Ok {| rs_status := 204; rs_headers := []; rs_body := None |};
  pb_now := fun _ => 1010500; pb_pick := fun _ => 0; pb_date_parse := fun _ => None;
  pb_finish_now := seconds 1011; pb_others := fun db => db |}.

Definition publishing_round : result exn (option PublicationClaim * Database) :=
  claim_publication (pb_token acknowledging) (pb_locked acknowledging) (pb_claim_now acknowledging) (db w_delivered).
Definition answer_publication : PublicationClaim := {|
  pc_senderDid := bob; pc_messageId := uuid "3"; pc_token := js "lease-2"; pc_attempt := 1;
  pc_retryUntil := 2593300000 |}.

Lemma publishing_Ok : publishing_round = Ok (Some answer_publication, database_of publishing_round).
Proof. apply result_of_Ok. vm_compute. reflexivity. Qed.

Definition db_published : Database := (publishOne acknowledging (db w_delivered)).2.

Lemma publication_round_witness : exists o db' p,
  publishOne acknowledging (db w_delivered) = (Ok o, db') /\
  db' terminal_status_publications !! answer_key = Some p /\ round_end acknowledging answer_publication o p.
Proof.
  apply (publication_round acknowledging (db w_delivered) answer_publication (database_of publishing_round)).
  - intros t r d. reflexivity.
  - exact publishing_Ok.
  - reflexivity.
  - reflexivity.
  - intros n Hn. cbn. lia.
Defined.

Lemma ended_publication_final_witness : exists p,
  db_published terminal_status_publications !! answer_key = Some p /\ p_state p = Acknowledged /\
  (publishOne acknowledging db_published).2 terminal_status_publications !! answer_key = Some p.
Proof.
  assert (Hp : exists p, db_published terminal_status_publications !! answer_key = Some p /\ p_state p = Acknowledged)
    by (eexists; split; vm_compute; reflexivity).
  destruct Hp as (p & Hp & Hs). exists p. split; [exact Hp|]. split; [exact Hs|].
  apply (ended_publication_final acknowledging db_published answer_key p).
  - reflexivity.
  - reflexivity.
  - exact Hp.
  - unfold publishing. rewrite Hs. reflexivity.
Defined.
End Publication.

(** ** A conversation is admitted, lapses and is revived

    Bob's conversation with Alice: her provider admits it by a connection, her participation lapses
    after 24 months without activity, and Bob revives it. *)

Module Participation.
#[local] Existing Instance example_env.
#[local] Existing Instance Reference.cborg.
#[local] Existing Instance example_keys.
#[local] Existing Instance example_connections.
#[local] Existing Instance example_triggers.
#[local] Existing Instance example_fences.
#[local] Existing Instance example_calendar.

Definition bob_signer : HailSigner := {|
  signer_keyId := bob ++ js "#hail-messaging";
  sign := fun data => signature ← subtle_sign example_subtle (example_key (js "sign")) data; Ok (JBytes signature) |}.
Definition conversation_cose : bytes :=
  match signPayload Profiles.conversation (of_hail example_conversation) bob_signer with Ok b => b | Err _ => [] end.
Definition conversation_object : InspectedHailObject HailConversation := ltac:(
  let r := eval vm_compute in (inspectTyped Profiles.conversation conversation_cose) in
  match r with Ok ?o => exact o end).

Definition alice_owner : Owner := {| o_account_id := alice_account; o_did := alice |}.
Definition the_conversation : ConversationIdentity :=
  {| creator := bob; conversationId := cv_conversation_id (payload conversation_object) |}.
Definition by_connection : admission_proof := {| ap_signing_key := js "did:key:z6Mk"; ap_connection := Some (js "c", 1) |}.
Definition created : Z := cv_created_at (payload conversation_object).

Definition admitting : result exn (bool * Database) :=
  admitConversation alice_owner conversation_object by_connection (seconds created) (seconds created)
    (seconds created) asked.
Definition db_admitted : Database := database_of admitting.
Lemma admitting_Ok : admitting = Ok (true, db_admitted).
Proof. apply result_of_Ok. vm_compute. reflexivity. Qed.

Lemma admission_preserves_witness :
  admission_effect alice_owner conversation_object true (seconds created) asked db_admitted /\
  alice ∈ cv_participants (payload conversation_object).
Proof.
  destruct (admission_preserves alice_owner conversation_object by_connection (seconds created) (seconds created)
    (seconds created) asked true db_admitted admitting_Ok) as [Ha _].
  split; [exact Ha|]. apply (ae_admitted _ _ _ _ _ _ Ha eq_refl).
Defined.

Definition leaving : result exn (option ConversationState * Database) :=
  changeConversationMembership alice_owner the_conversation ActionLeave (seconds created) (seconds created)
    (seconds created) db_admitted.

Lemma membership_changes_witness : exists s db' m',
  leaving = Ok (s, db') /\
  db' conversation_memberships !! (alice_account, identity_key the_conversation) = Some m' /\
  m_state m' = MemberLeft.
Proof.
  assert (Hl : exists s, result_of leaving = Some s) by (eexists; vm_compute; reflexivity).
  destruct Hl as [s Hl%result_of_Ok]. exists s, (database_of leaving).
  destruct (membership_changes alice_owner the_conversation ActionLeave (seconds created) (seconds created)
    (seconds created) db_admitted s (database_of leaving) Hl) as [(m & m' & _ & Hm' & Hs & _) _ _].
  exists m'. split; [exact Hl|]. split; [exact Hm'|exact Hs].
Defined.

(** Two years later. *)
Definition later : Z := created + 63072000.
Definition revival : InspectedHailObject HailConversationRevival := {|
  inspected_type := conversation_revival; inspected_keyId := bob ++ js "#hail-messaging";
  payload := {| rv_conversation_id := conversationId the_conversation;
                rv_descriptor_hash := {| digest_value := sha256 conversation_cose |};
                rv_from := bob; rv_to := alice; rv_request_id := uuid "9";
                rv_issued_at := later; rv_expires_at := later + 600 |};
  payloadBytes := []; representationBytes := [x07] |}.
Definition reviving (t : Z) (db : Database) : result exn (revival_outcome * Database) :=
  reviveConversation alice_owner revival (js "c", 1) (seconds t) (seconds t) (seconds t) db.

Lemma revival_once_witness : exists db',
  reviving later db_admitted = Ok (RevivalRenewed, db') /\
  revival_effect alice_owner revival RevivalRenewed (seconds later) (seconds later) db_admitted db' /\
  forall o2 db3, reviving (later + 1000000) db' = Ok (o2, db3) -> o2 = RevivalRenewed /\ db3 = db'.
Proof.
  assert (Hr : result_of (reviving later db_admitted) = Some RevivalRenewed) by (vm_compute; reflexivity).
  apply result_of_Ok in Hr. exists (database_of (reviving later db_admitted)). split; [exact Hr|].
  destruct (revival_once alice_owner revival (js "c", 1) (seconds later) (seconds later) (seconds later)
    db_admitted RevivalRenewed (database_of (reviving later db_admitted)) Hr) as [Hnew Hagain].
  split; [apply Hnew; vm_compute; reflexivity|]. intros o2 db3 H2.
  destruct (Hagain revival (js "c", 1) (seconds (later + 1000000)) (seconds (later + 1000000))
    (seconds (later + 1000000)) (database_of (reviving later db_admitted)) db3 o2) as (Ho & Hdb & _);
    [reflexivity|reflexivity|exact H2|]. split; [exact Ho|exact Hdb].
Defined.
End Participation.
