(* ===== verification/GrantService.v ===== *)
(** * Issuing and withdrawing grants (apps/server/src/grants/service.ts)

    The provider of a grantor signs grants with a key it keeps, or accepts grants that a user signed
    elsewhere; either way it verifies the address and the profile of the sender, checks that the profile
    offers what is granted, and gives the repository a signed revision.  To take a permission back needs
    nothing of the sender.

    Other processes may change the database between the statements. *)

From S2P Require Import Prelude JsString Regex Value Rfc8949 Cbor Profiles Validation ValidatePayload Models.
From S2P Require Import Identity Cose WebCrypto Database Typed Conversations Envelopes Receiver Status.
From S2P Require Import Grants GrantReceiver.
From Stdlib Require Import ZArith.
Open Scope Z_scope.

(** A [UserGrantError]. *)
Definition user_error {A} (status : Z) (message : String.string) : M A := Err (StatusError status (js message)).
Arguments user_error {A} status message%_string.
Definition refuse_if (b : bool) (status : Z) (message : String.string) : M unit :=
  if b then user_error status message else Ok tt.
Arguments refuse_if b status message%_string.

(** ** Scopes *)

Definition scope_value (s : HailGrantScope) : hvalue :=
  HMap false [(js "type", HStr (js "categories")); (js "values", HArr (map HStr (scope_values s)))].

Definition text_of (v : hvalue) : option jstr := match v with HStr s => Some s | _ => None end.

(** The selected categories, when the members of the selector are as they should be. *)
Definition selected_categories (m : HailRecord) : option (list jstr) :=
  match field m "type", field m "values" with
  | Some (HStr type), Some (HArr values) =>
      if negb (jstr_eqb type (js "categories")) || negb (length m =? 2)%nat then None
      else
        texts ← mapM text_of values;
        match texts with
        | [] => None
        | _ => if bool_decide (NoDup texts) && forallb (rx_test CATEGORY_PATTERN) texts then Some texts else None
        end
  | _, _ => None
  end.

Definition utf8_le (left right : jstr) : bool := bytes_leb (text_encode left) (text_encode right).

Definition normalizeScope (scope : hvalue) : M HailGrantScope :=
  match scope with
  | HMap _ m =>
      match selected_categories m with
      | Some texts => Ok {| scope_values := sort_by utf8_le texts |}
      | None => user_error 400 "Invalid selected categories"
      end
  | HBytes _ => user_error 400 "Invalid selected categories"
  | _ => user_error 400 "Invalid Grant scope"
  end.

Definition offered (profile : HailSenderProfile) (category : jstr) : bool :=
  includes (map cat_id (sp_categories (profile_base profile))) category.
Definition validateScopeAgainstProfile (scope : HailGrantScope) (profile : HailSenderProfile) : M unit :=
  throw_if (match scope_values scope with [] => true | _ => false end
            || existsb (fun category => negb (offered profile category)) (scope_values scope))
    (OtherError (js "Grant scope contains a category not offered by the grantee Sender Profile")).

(** ** Arguments *)

(** The selector is what a request holds; a caller has checked that the expiry is a safe integer. *)
Record GrantDefinition := { gd_scope : hvalue; gd_expiresAt : option Z }.
Record GrantUpdateDefinition := {
  gu_definition : GrantDefinition; gu_expectedRevision : Z; gu_expectedDigest : bytes;
  gu_refreshConsent : bool; gu_sender : option jstr;
}.

(** An account with its identifier; a row without a DID has the empty one. *)
Notation account_record := (jstr * Account)%type.

(** The collaborators: accounts by address and their keys, the resolver, the decryption and import of
    keys, the verification of addresses and profiles, [assertPublicAuthorityFresh], random bytes; the
    readings of the clock in milliseconds, the clock of the database, and the other processes. *)
Record grant_service_env := {
  gs_getAccountByAddress : jstr -> Database -> M account_record;
  gs_getKey : jstr -> jstr -> M AccountKeyRecord;
  gs_resolve : jstr -> M ResolvedHailDid;
  gs_decrypt : jstr -> AccountKeyRecord -> M bytes;
  gs_import : bytes -> M CryptoKey;
  gs_verifyAddress : jstr -> M VerifiedAddress;
  gs_verifyProfile : jstr -> M VerifiedSenderProfile;
  gs_fresh : PlcResolutionEvidence -> Z -> M unit;
  gs_random : bytes;
  gs_serviceBase : jstr;
  gs_now : nat -> Z;
  gs_started : Z;
  gs_others : nat -> Database -> Database;
}.

Definition seconds_of (ms : Z) : Z := ms / 1000.

(** ** Payloads *)

Definition identity_key_id (did : jstr) : jstr := did ++ js "#hail-identity".

(** The object that is signed. *)
Definition digest_object (d : HailDigest) : hvalue :=
  HMap false [(js "algorithm", HStr (js "sha-256")); (js "value", HBytes (digest_value d))].
Definition consent_object (c : HailConsentContext) : hvalue :=
  HMap false
    [(js "grantee_address", HStr (cc_grantee_address c));
     (js "address_binding_hash", digest_object (cc_address_binding_hash c));
     (js "sender_profile_hash", digest_object (cc_sender_profile_hash c))].
Definition grant_object (g : HailGrant) : hvalue :=
  HMap false
    [(js "type", HStr (js "hail.grant")); (js "version", HNum 1); (js "grant_id", HStr (g_grant_id g));
     (js "revision", HNum (g_revision g));
     (js "previous", match g_previous g with Some bs => HBytes bs | None => HNull end);
     (js "grantor", HStr (g_grantor g)); (js "grantee", HStr (g_grantee g));
     (js "scope", HArr [scope_value (g_scope g)]); (js "status", HStr (enum_text grant_statuses (g_status g)));
     (js "issued_at", HNum (g_issued_at g)); (js "updated_at", HNum (g_updated_at g));
     (js "expires_at", match g_expires_at g with Some t => HNum t | None => HNull end);
     (js "consent_context", consent_object (g_consent_context g)); (js "key_id", HStr (g_key_id g))].

Definition consent_context (a : VerifiedAddress) (p : VerifiedSenderProfile) : HailConsentContext := {|
  cc_grantee_address := va_address a; cc_address_binding_hash := {| digest_value := va_digest a |};
  cc_sender_profile_hash := {| digest_value := vp_digest p |} |}.

(** The first revision. *)
Definition initial_grant (grantId grantor : jstr) (a : VerifiedAddress) (p : VerifiedSenderProfile)
    (scope : HailGrantScope) (expiresAt : option Z) (now : Z) : HailGrant := {|
  g_grant_id := grantId; g_revision := 1; g_previous := None; g_grantor := grantor; g_grantee := va_did a;
  g_scope := scope; g_status := grant_active; g_issued_at := now; g_updated_at := now;
  g_expires_at := expiresAt; g_consent_context := consent_context a p; g_key_id := identity_key_id grantor |}.

(** The revision after [current] with another scope, expiry, status and time. *)
Definition successor (current : SignedGrantRevision) (did : jstr) (scope : HailGrantScope)
    (expiresAt : option Z) (status : grant_status) (updatedAt : Z) : HailGrant :=
  let p := sgr_payload current in {|
  g_grant_id := g_grant_id p; g_revision := g_revision p + 1; g_previous := Some (sgr_digest current);
  g_grantor := g_grantor p; g_grantee := g_grantee p; g_scope := scope; g_status := status;
  g_issued_at := g_issued_at p; g_updated_at := updatedAt; g_expires_at := expiresAt;
  g_consent_context := g_consent_context p; g_key_id := identity_key_id did |}.
Definition revocation_of (current : SignedGrantRevision) (did : jstr) (updatedAt : Z) : HailGrant :=
  successor current did (g_scope (sgr_payload current)) (g_expires_at (sgr_payload current)) grant_revoked updatedAt.

Definition with_consent (g : HailGrant) (c : HailConsentContext) : HailGrant := {|
  g_grant_id := g_grant_id g; g_revision := g_revision g; g_previous := g_previous g; g_grantor := g_grantor g;
  g_grantee := g_grantee g; g_scope := g_scope g; g_status := g_status g; g_issued_at := g_issued_at g;
  g_updated_at := g_updated_at g; g_expires_at := g_expires_at g; g_consent_context := c;
  g_key_id := g_key_id g |}.

(** The address and the profile are of one sender. *)
Definition evidence_agrees (a : VerifiedAddress) (p : VerifiedSenderProfile) : bool :=
  jstr_eqb (vp_did p) (va_did a) && jstr_eqb (vp_serviceBase p) (va_serviceBase a)
  && jstr_eqb (vp_messagingDidKey p) (va_messagingDidKey a).

(** A signed revision of an account of this provider. *)
Definition owned_by (account : jstr) (g : SignedGrantRevision) : bool :=
  bool_decide (sgr_role g = RoleGrantor) && jstr_eqb (sgr_account g) account.
Definition is_active (g : HailGrant) : bool := bool_decide (g_status g = grant_active).

(** ** [GrantService] *)

Section service.
Context `{HailEnv} `{Cborg} `{Keys} `{Triggers} `{GrantAuthority} `{NodeUrl}.
Context (env : grant_service_env).

Definition others (n : nat) : Act unit := meanwhile (gs_others env n).
Definition now (n : nat) : Z := seconds_of (gs_now env n).

Definition localAccount (input : jstr) : Act account_record :=
  if starts_with (js "did:plc:") input then
    account ← act (fun db => Ok (getAccountByDid input db));
    match account with
    | None => act (fun _ => grant_error "Account does not exist")
    | Some account => mret account
    end
  else act (fun db => address ← canonicalizeHailAddress input; gs_getAccountByAddress env address db).

(** Active, publicly verified and with a DID. *)
Definition settled (account : account_record) : bool :=
  a_active account.2 && a_public account.2 && negb (jstr_eqb (a_did account.2) []).

Definition inspectSender (addressInput : jstr) : M (VerifiedAddress * VerifiedSenderProfile) :=
  canonicalAddress ← canonicalizeHailAddress addressInput;
  address ← catch (gs_verifyAddress env canonicalAddress) (fun _ =>
    user_error 409 "The sender's published Hail address could not be verified. Check the address and try again.");
  profile ← catch (gs_verifyProfile env (va_did address)) (fun _ =>
    user_error 409 "The sender's current published Sender Profile could not be retrieved or verified. Ask them to check their profile and try again.");
  _ ← refuse_if (negb (evidence_agrees address profile)) 409 "Sender address and profile evidence disagree";
  Ok (address, profile).

(** The consent that is retained with a grant; [matching]: it is the one the grant names. *)
Definition currentConsent (g : HailGrant) (sender : jstr) (matching : bool) : M GrantConsentEvidence :=
  canonical ← canonicalizeHailAddress sender;
  address ← gs_verifyAddress env canonical;
  profile ← gs_verifyProfile env (va_did address);
  _ ← refuse_if (negb (jstr_eqb (va_did address) (g_grantee g)) || negb (jstr_eqb (vp_did profile) (g_grantee g))
                 || negb (jstr_eqb (vp_serviceBase profile) (va_serviceBase address))
                 || negb (jstr_eqb (vp_messagingDidKey profile) (va_messagingDidKey address))
                 || matching && (negb (jstr_eqb (cc_grantee_address (g_consent_context g)) (va_address address))
                                 || negb (Cbor.equalBytes (binding_hash g) (va_digest address))
                                 || negb (Cbor.equalBytes (profile_hash g) (vp_digest profile))))
        400 "Current consent evidence differs from the signed Grant";
  _ ← catch (validateScopeAgainstProfile (g_scope g) (vp_profile profile)) (fun _ =>
        user_error 400 "Current profile does not offer the selected permission");
  Ok {| address := address; senderProfile := profile |}.

(** *** Signing *)

Definition grant_verifier (did : jstr) (key : M CryptoKey) (message : String.string) : HailVerifier :=
  createWebCryptoVerifier (fun kid =>
    if negb (jstr_eqb kid (identity_key_id did)) then Err (OtherError (js message)) else key) subtle.

Definition signed_revision (account : jstr) (g : HailGrant) (representation : bytes) (key : jstr)
    : SignedGrantRevision := {|
  sgr_account := account; sgr_role := RoleGrantor; sgr_payload := g; sgr_representation := representation;
  sgr_digest := sha256 representation; sgr_signing_key := key |}.

Definition sign (account : account_record) (key : AccountKeyRecord) (g : HailGrant)
    (evidence : PlcResolutionEvidence) (reading : nat) : M SignedGrantRevision :=
  let did := a_did account.2 in
  _ ← (if is_active g then _ ← normalizeScope (scope_value (g_scope g)); Ok tt else Ok tt);
  _ ← throw_if (jstr_eqb did [] || negb (jstr_eqb (k_algorithm key) (js "ed25519")))
        (OtherError (js "Invalid identity signing key"));
  _ ← gs_fresh env evidence (gs_now env reading);
  privateBytes ← gs_decrypt env account.1 key;
  private ← gs_import env privateBytes;
  signer ← createWebCryptoSigner (identity_key_id did) private subtle;
  representation ← signPayload Profiles.grant (of_hail (grant_object g)) signer;
  publicKey ← ed25519PublicKeyFromDidKey (k_publicKey key);
  _ ← verifySignedPayload Profiles.grant representation (grant_verifier did (Ok publicKey) "Unexpected Grant key ID");
  Ok (signed_revision account.1 g representation (k_publicKey key)).

(** *** Proposals that a user signs *)

Definition reviewed (account : account_record) (input : GrantUpdateDefinition) (current : SignedGrantRevision) : bool :=
  owned_by account.1 current && is_active (sgr_payload current)
  && (g_revision (sgr_payload current) =? gu_expectedRevision input)
  && Cbor.equalBytes (sgr_digest current) (gu_expectedDigest input).

(** The proposed revision with its scope, before its consent is considered. *)
Definition proposed_update (account : account_record) (input : GrantUpdateDefinition) (current : SignedGrantRevision)
    : M HailGrant :=
  let updatedAt := Z.max (now 0) (g_updated_at (sgr_payload current) + 1) in
  _ ← refuse_if (now 0 + 300 <? updatedAt) 400 "Grant timestamp is too far ahead";
  scope ← normalizeScope (gd_scope (gu_definition input));
  let proposed := successor current (a_did account.2) scope (gd_expiresAt (gu_definition input))
                    (g_status (sgr_payload current)) updatedAt in
  _ ← validatePayload (Signed Profiles.grant) (of_hail (grant_object proposed));
  Ok proposed.

Definition restriction_retains (input : GrantUpdateDefinition) (current : HailGrant) (restricts : bool)
    : M unit :=
  _ ← refuse_if (restricts && gu_refreshConsent input) 400 "Restrictions retain consent; refresh separately";
  match gu_sender input with
  | Some sender =>
      if restricts then
        canonical ← canonicalizeHailAddress sender;
        refuse_if (negb (jstr_eqb canonical (cc_grantee_address (g_consent_context current))))
          400 "Restrictions cannot change the retained consent address"
      else Ok tt
  | None => Ok tt
  end.

Definition expired_by (expires : option Z) (now : Z) : bool :=
  match expires with Some t => t <=? now | None => false end.

Definition propose_update (account : account_record) (input : GrantUpdateDefinition) (current : SignedGrantRevision)
    : M HailGrant :=
  proposed ← proposed_update account input current;
  let p := sgr_payload current in
  restricts ← restrictsAuthorization p proposed;
  _ ← restriction_retains input p restricts;
  let changed := expandsAuthorization p proposed in
  if changed || gu_refreshConsent input then
    _ ← refuse_if (changed && expired_by (g_expires_at proposed) (now 0)) 400
          "Expanded authorization requires a future expiry";
    consent ← currentConsent proposed
                (default (cc_grantee_address (g_consent_context p)) (gu_sender input)) false;
    Ok (with_consent proposed (consent_context (address consent) (senderProfile consent)))
  else
    _ ← refuse_if (negb restricts) 400 "Unchanged permission requires explicit consent refresh";
    Ok proposed.

Definition prepareUserSignedUpdate (addressInput grantId : jstr) (input : GrantUpdateDefinition) : Act HailGrant :=
  account ← localAccount addressInput;
  _ ← others 0;
  current ← act (findCurrentByGrantId grantId);
  match current with
  | Some current =>
      if negb (settled account) || negb (reviewed account input current)
      then act (fun _ => user_error 409 "Current Grant does not match the reviewed revision")
      else act (fun _ =>
        owner ← gs_resolve env (a_did account.2);
        _ ← refuse_if (negb (jstr_eqb (serviceBase owner) (gs_serviceBase env))
                       || negb (jstr_eqb (identityDidKey owner) (sgr_signing_key current)))
              409 "Historical-key reconciliation is required before changing signer epochs";
        propose_update account input current)
  | None => act (fun _ => user_error 409 "Current Grant does not match the reviewed revision")
  end.

(** The sender to whom a first grant is issued, and what is granted. *)
Definition offered_sender (granteeAddressInput : jstr) (scope : hvalue) (message : String.string)
    : M (GrantConsentEvidence * HailGrantScope) :=
  canonical ← canonicalizeHailAddress granteeAddressInput;
  a ← gs_verifyAddress env canonical;
  profile ← gs_verifyProfile env (va_did a);
  _ ← throw_if (negb (evidence_agrees a profile)) (OtherError (js message));
  scope ← normalizeScope scope;
  _ ← validateScopeAgainstProfile scope (vp_profile profile);
  Ok ({| address := a; senderProfile := profile |}, scope).

Definition prepareUserSignedGrant (grantorAddressInput granteeAddressInput : jstr) (input : GrantDefinition)
    : Act HailGrant :=
  grantor ← localAccount grantorAddressInput;
  if negb (settled grantor)
  then act (fun _ => grant_error "Grantor must be an externally verified active account")
  else
    let did := a_did grantor.2 in
    current ← act (fun _ => gs_resolve env did);
    if negb (jstr_eqb (serviceBase current) (gs_serviceBase env))
    then act (fun _ => grant_error "Current PLC does not name this grantor provider")
    else
      '(consent, scope) ← act (fun _ => offered_sender granteeAddressInput (gd_scope input)
                                          "Grantee Address Binding and Sender Profile disagree");
      if expired_by (gd_expiresAt input) (now 0) then act (fun _ => grant_error "Grant expiry is already past")
      else
        _ ← others 0;
        active ← act (findActiveAuthoritativeByDidPair did (va_did (address consent)));
        match active with
        | Some _ => act (fun _ => grant_error "This DID pair already has an active authoritative Grant")
        | None =>
            grantId ← act (fun _ => uuidV7 (gs_random env) (gs_now env 1));
            mret (initial_grant grantId did (address consent) (senderProfile consent) scope (gd_expiresAt input) (now 0))
        end.

(** *** Accepting what a user signed *)

Definition authenticate_user_grant (grantor : account_record) (representation : bytes) : M SignedGrantRevision :=
  let did := a_did grantor.2 in
  _ ← refuse_if (negb (settled grantor)) 409 "Grantor account is not active and externally verified";
  resolved ← gs_resolve env did;
  _ ← refuse_if (negb (jstr_eqb (serviceBase resolved) (gs_serviceBase env))) 409
        "Grantor provider is no longer current";
  inspected ← inspectTyped Profiles.grant representation;
  let p : HailGrant := payload inspected in
  _ ← refuse_if (negb (jstr_eqb (g_grantor p) did) || negb (jstr_eqb (g_key_id p) (identity_key_id did))) 400
        "User-signed Grant has invalid authority";
  _ ← catch (_ ← verifySignedPayload Profiles.grant representation
                   (grant_verifier did (ed25519PublicKeyFromDidKey (identityDidKey resolved))
                      "Unexpected Grant identity signer"); Ok tt)
        (fun _ => user_error 400 "User-signed Grant signature is invalid");
  _ ← refuse_if ((now 1 + 300 <? g_issued_at p) || (now 1 + 300 <? g_updated_at p)) 400
        "User-signed Grant timestamp is too far ahead";
  Ok (signed_revision grantor.1 p representation (identityDidKey resolved)).

Definition same_bytes (signed g : SignedGrantRevision) : bool :=
  Cbor.equalBytes (sgr_representation g) (sgr_representation signed).

(** After a statement that failed, the revision another process may have stored instead. *)
Definition or_winner (attempt : Act unit) (winner : Act (option SignedGrantRevision))
    (wins : SignedGrantRevision -> bool) (signed : SignedGrantRevision) : Act SignedGrantRevision :=
  result ← caught attempt;
  match result with
  | Ok _ => mret signed
  | Err error =>
      _ ← others 5;
      winner ← winner;
      match winner with
      | Some g => if wins g then mret g else act (fun _ => Err error)
      | None => act (fun _ => Err error)
      end
  end.

Definition follows_with (revision : SignedGrantRevision) (current : SignedGrantRevision)
    (consent : option GrantConsentEvidence) : AuthoritativeGrantUpdate := {|
  gu_revision := revision; gu_expectedCurrentRevision := g_revision (sgr_payload current);
  gu_expectedCurrentDigest := sgr_digest current; gu_consent := consent;
  gu_destination := (fun c => va_serviceBase (address c)) <$> consent |}.

Definition accept_revocation (grantor : account_record) (signed : SignedGrantRevision) (granteeAddressInput : jstr)
    : Act SignedGrantRevision :=
  let p := sgr_payload signed in
  let mismatch {A} : Act A := act (fun _ =>
    user_error 409 "Authoritative Grant or reviewed sender does not match revocation") in
  _ ← others 3;
  current ← act (findCurrentByGrantId (g_grant_id p));
  match current with
  | None => mismatch
  | Some current =>
      let q := sgr_payload current in
      if negb (owned_by grantor.1 current) || negb (jstr_eqb (g_grantor q) (a_did grantor.2)) then mismatch
      else
        reviewed ← act (fun _ => canonicalizeHailAddress granteeAddressInput);
        if negb (jstr_eqb (cc_grantee_address (g_consent_context p)) reviewed) then mismatch
        else if same_bytes signed current then mret current
        else if negb (jstr_eqb (sgr_signing_key current) (sgr_signing_key signed))
        then act (fun _ => user_error 409 "Historical-key reconciliation required before a new signer epoch")
        else if negb (is_active q) || (g_updated_at p <=? g_updated_at q)
                || negb (bool_decide (p = revocation_of current (a_did grantor.2) (g_updated_at p)))
        then act (fun _ => user_error 409 "User-signed Grant revocation conflicts with the current revision")
        else
          _ ← others 4;
          or_winner (begin (appendAuthoritativeRevocation (follows_with signed current None) (gs_started env)))
            (act (findCurrentByGrantId (g_grant_id p)))
            (fun winner => owned_by grantor.1 winner && same_bytes signed winner) signed
  end.

(** The place of an update in its lineage. *)
Definition follows (grantor : account_record) (signed retained : SignedGrantRevision) : bool :=
  let p := sgr_payload signed in
  let q := sgr_payload retained in
  owned_by grantor.1 retained && is_active q && jstr_eqb (sgr_signing_key retained) (sgr_signing_key signed)
  && (g_revision p =? g_revision q + 1) && bool_decide (g_previous p = Some (sgr_digest retained))
  && (g_updated_at q <? g_updated_at p) && (g_issued_at p =? g_issued_at q)
  && jstr_eqb (g_grantor p) (g_grantor q) && jstr_eqb (g_grantee p) (g_grantee q).

(** The consent an update needs, if it needs any. *)
Definition update_consent (p q : HailGrant) (granteeAddressInput : jstr) : M (option GrantConsentEvidence) :=
  restriction ← restrictsAuthorization q p;
  let refreshed := negb (bool_decide (g_consent_context p = g_consent_context q)) in
  _ ← refuse_if (restriction && refreshed) 400 "Restrictions must carry prior consent unchanged";
  let expanded := expandsAuthorization q p in
  _ ← refuse_if (expanded && expired_by (g_expires_at p) (now 1)) 400 "Expanded authorization is expired";
  if expanded || refreshed || negb restriction
  then Some <$> currentConsent p granteeAddressInput true
  else Ok None.

Definition accept_update (grantor : account_record) (signed : SignedGrantRevision)
    (retained : option SignedGrantRevision) (granteeAddressInput : jstr) : Act SignedGrantRevision :=
  let conflict := act (fun _ => user_error 409 "Grant revision or signing epoch conflicts with current state") in
  match retained with
  | None => conflict
  | Some retained =>
      if negb (follows grantor signed retained) then conflict
      else
        consent ← act (fun _ => update_consent (sgr_payload signed) (sgr_payload retained) granteeAddressInput);
        _ ← others 3;
        or_winner (begin (appendAuthoritativeUpdate (follows_with signed retained consent) (gs_started env)))
          (act (findRevision (g_grant_id (sgr_payload signed)) (g_revision (sgr_payload signed))))
          (fun winner => jstr_eqb (sgr_account winner) grantor.1 && same_bytes signed winner) signed
  end.

(** The consent of a first grant is the one that its sender has published. *)
Definition initial_consent (p : HailGrant) (granteeAddressInput : jstr) : M GrantConsentEvidence :=
  canonical ← canonicalizeHailAddress granteeAddressInput;
  a ← gs_verifyAddress env canonical;
  profile ← gs_verifyProfile env (va_did a);
  _ ← refuse_if (negb (jstr_eqb (g_grantee p) (va_did a))
                 || negb (jstr_eqb (cc_grantee_address (g_consent_context p)) (va_address a))
                 || negb (evidence_agrees a profile)
                 || negb (Cbor.equalBytes (binding_hash p) (va_digest a))
                 || negb (Cbor.equalBytes (profile_hash p) (vp_digest profile)))
        400 "Grant consent no longer matches current verified grantee evidence";
  scope ← normalizeScope (scope_value (g_scope p));
  _ ← refuse_if (negb (bool_decide (g_scope p = scope))) 400 "User Grant scope is not canonical";
  _ ← catch (validateScopeAgainstProfile (g_scope p) (vp_profile profile))
        (fun error => Err (StatusError 400 (error_message error)));
  Ok {| address := a; senderProfile := profile |}.

Definition accept_initial (signed : SignedGrantRevision) (retained : option SignedGrantRevision)
    (granteeAddressInput : jstr) : Act SignedGrantRevision :=
  let p := sgr_payload signed in
  if negb (g_revision p =? 1) || negb (bool_decide (g_previous p = None)) || negb (g_updated_at p =? g_issued_at p)
  then act (fun _ => user_error 409 "User-signed initial Grant has invalid authority")
  else if bool_decide (is_Some retained)
  then act (fun _ => user_error 409 "Grant ID is already retained with another signed state")
  else if expired_by (g_expires_at p) (now 1)
  then act (fun _ => user_error 400 "User-signed Grant is stale or expired")
  else
    consent ← act (fun _ => initial_consent p granteeAddressInput);
    _ ← others 3;
    existing ← act (findActiveAuthoritativeByDidPair (g_grantor p) (va_did (address consent)));
    match existing with
    | Some existing =>
        if same_bytes signed existing then mret existing
        else act (fun _ => user_error 409 "An active different Grant already exists for these DIDs")
    | None =>
        _ ← others 4;
        _ ← begin (insertAuthoritativeRevision1 signed consent (va_serviceBase (address consent))
                     (gs_started env)) : Act unit;
        mret signed
    end.

Definition acceptUserSignedGrant (grantorAddressInput granteeAddressInput : jstr) (representation : bytes)
    : Act SignedGrantRevision :=
  let size := Z.of_nat (length representation) in
  if (size <? 1) || (262144 <? size) then act (fun _ => user_error 400 "Grant exceeds its limit")
  else
    grantor ← localAccount grantorAddressInput;
    signed ← act (fun _ => authenticate_user_grant grantor representation);
    let p := sgr_payload signed in
    _ ← others 1;
    retained ← act (findCurrentByGrantId (g_grant_id p));
    _ ← others 2;
    historical ← act (findRevision (g_grant_id p) (g_revision p));
    let known g := owned_by grantor.1 g && same_bytes signed g in
    match List.filter known (option_list retained), List.filter known (option_list historical) with
    | retained :: _, _ => mret retained
    | [], historical :: _ =>
        if negb (existsb (fun g => is_active (sgr_payload g)) (option_list retained))
        then act (fun _ => user_error 409 "Terminal Grant state supersedes this historical revision")
        else mret historical
    | [], [] =>
        if negb (is_active p) then accept_revocation grantor signed granteeAddressInput
        else if 1 <? g_revision p then accept_update grantor signed retained granteeAddressInput
        else accept_initial signed retained granteeAddressInput
    end.

(** *** Grants that the provider signs *)

Definition updateManaged (addressInput : jstr) (g : HailGrant) (signingKey : jstr) : Act SignedGrantRevision :=
  account ← localAccount addressInput;
  if negb (settled account) then act (fun _ => user_error 409 "Active grantor required")
  else
    signed ← act (fun _ =>
      key ← gs_getKey env account.1 (js "hail-identity");
      resolved ← gs_resolve env (a_did account.2);
      _ ← refuse_if (negb (jstr_eqb (k_publicKey key) signingKey)
                     || negb (jstr_eqb (identityDidKey resolved) signingKey)
                     || negb (jstr_eqb (serviceBase resolved) (gs_serviceBase env)))
            409 "Managed signing key/provider changed";
      sign account key g (resolved_evidence resolved) 0);
    _ ← others 0;
    acceptUserSignedGrant addressInput (cc_grantee_address (g_consent_context g)) (sgr_representation signed).

(** The key of the account, when the directory names it and this provider. *)
Definition provider_key (account : account_record) : M (AccountKeyRecord * PlcResolutionEvidence) :=
  key ← gs_getKey env account.1 (js "hail-identity");
  resolved ← gs_resolve env (a_did account.2);
  _ ← throw_if (negb (jstr_eqb (identityDidKey resolved) (k_publicKey key))
                || negb (jstr_eqb (serviceBase resolved) (gs_serviceBase env)))
        (OtherError (js "Current PLC state does not authorize this provider identity key"));
  Ok (key, resolved_evidence resolved).

Definition same_definition (key : AccountKeyRecord) (scope : HailGrantScope) (expiresAt : option Z)
    (consent : GrantConsentEvidence) (existing : SignedGrantRevision) : bool :=
  jstr_eqb (sgr_signing_key existing) (k_publicKey key)
  && bool_decide (g_expires_at (sgr_payload existing) = expiresAt)
  && bool_decide (g_scope (sgr_payload existing) = scope)
  && bool_decide (binding_hash (sgr_payload existing) = va_digest (address consent))
  && bool_decide (profile_hash (sgr_payload existing) = vp_digest (senderProfile consent)).

Definition createOrReuse (grantorAddressInput granteeAddressInput : jstr) (inputDefinition : GrantDefinition)
    : Act SignedGrantRevision :=
  grantor ← localAccount grantorAddressInput;
  if negb (settled grantor) then act (fun _ => grant_error "Grantor account must have public activation evidence")
  else
    let did := a_did grantor.2 in
    '(key, evidence) ← act (fun _ => provider_key grantor);
    '(consent, scope) ← act (fun _ => offered_sender granteeAddressInput (gd_scope inputDefinition)
                                        "Grantee discovery and Sender Profile evidence do not agree");
    let current := now 0 in
    if match gd_expiresAt inputDefinition with Some t => t <? current | None => false end
    then act (fun _ => grant_error "Grant expiry must not precede issuance")
    else
      _ ← others 0;
      existing ← act (findActiveAuthoritativeByDidPair did (va_did (address consent)));
      match existing with
      | Some existing =>
          if same_definition key scope (gd_expiresAt inputDefinition) consent existing then mret existing
          else act (fun _ => grant_error "An active Grant already exists for this grantor and grantee")
      | None =>
          revision ← act (fun _ =>
            grantId ← uuidV7 (gs_random env) (gs_now env 1);
            sign grantor key (initial_grant grantId did (address consent) (senderProfile consent) scope
                                (gd_expiresAt inputDefinition) current) evidence 2);
          _ ← others 1;
          _ ← begin (insertAuthoritativeRevision1 revision consent (va_serviceBase (address consent))
                       (gs_started env)) : Act unit;
          mret revision
      end.

(** [reviewed]: the revision and the digest that were shown before. *)
Definition review_holds (reviewed : option (Z * bytes)) (current : SignedGrantRevision) : bool :=
  match reviewed with
  | Some (revision, digest) =>
      (g_revision (sgr_payload current) =? revision) && Cbor.equalBytes (sgr_digest current) digest
  | None => true
  end.

(** The signed revision that revokes [current]. *)
Definition sign_revocation (grantor : account_record) (current : SignedGrantRevision) : M SignedGrantRevision :=
  let did := a_did grantor.2 in
  key ← gs_getKey env grantor.1 (js "hail-identity");
  resolved ← gs_resolve env did;
  _ ← refuse_if (negb (jstr_eqb (sgr_signing_key current) (k_publicKey key))) 409
        "Historical-key reconciliation required before a new signer epoch";
  _ ← throw_if (negb (jstr_eqb (identityDidKey resolved) (k_publicKey key))
                || negb (jstr_eqb (serviceBase resolved) (gs_serviceBase env)))
        (OtherError (js "Current PLC state does not authorize this provider identity key"));
  let updatedAt := Z.max (now 0) (g_updated_at (sgr_payload current) + 1) in
  _ ← throw_if (now 0 + 300 <? updatedAt) (OtherError (js "Grant timestamp is too far ahead"));
  sign grantor key (revocation_of current did updatedAt) (resolved_evidence resolved) 1.

Definition revoke (grantorAddressInput grantId : jstr) (reviewed : option (Z * bytes)) : Act SignedGrantRevision :=
  grantor ← localAccount grantorAddressInput;
  if negb (settled grantor) then act (fun _ => grant_error "Grantor account must have public activation evidence")
  else
    _ ← others 0;
    current ← act (findCurrentByGrantId grantId);
    match current with
    | None => act (fun _ => grant_error "Authoritative Grant does not exist")
    | Some current =>
        if negb (bool_decide (sgr_role current = RoleGrantor))
           || negb (jstr_eqb (g_grantor (sgr_payload current)) (a_did grantor.2))
        then act (fun _ => grant_error "Authoritative Grant does not exist")
        else if negb (review_holds reviewed current)
        then act (fun _ => user_error 409 "Grant changed after revocation review")
        else if negb (is_active (sgr_payload current)) then mret current
        else
          revision ← act (fun _ => sign_revocation grantor current);
          _ ← others 1;
          _ ← begin (appendAuthoritativeRevocation (follows_with revision current None) (gs_started env)) : Act unit;
          mret revision
    end.
End service.
