(* ===== verification/GrantServiceRules.v ===== *)
(** * What the service of grants guarantees

    Everything the service does is an execution of the machine of [GrantRules], whatever fails on the
    way; what it answers is kept; what it issues is what was asked for and what the sender offers; and
    what it revokes is revoked. *)

From S2P Require Import Prelude JsString Regex Value Rfc8949 Cbor Profiles Validation ValidatePayload Models.
From S2P Require Import Identity Cose CoseRules WebCrypto Database Typed Conversations Envelopes.
From S2P Require Import DeliveryRules Receiver Status Grants GrantRules GrantReceiver GrantExchange GrantService.
From Stdlib Require Import ZArith.
Open Scope Z_scope.

(** A call of the service. *)
Inductive grant_call :=
| CreateOrReuse (grantor grantee : jstr) (definition : GrantDefinition)
| Revoke (grantor grantId : jstr) (reviewed : option (Z * bytes))
| UpdateManaged (grantor : jstr) (payload : HailGrant) (signingKey : jstr)
| AcceptUserSigned (grantor grantee : jstr) (representation : bytes).

Notation execution := (rtc grant_step).

Section rules.
Context `{HailEnv} `{Cborg} `{Keys} `{Triggers} `{GrantAuthority} `{NodeUrl}.
Context (env : grant_service_env).

Definition serve (call : grant_call) : Act SignedGrantRevision :=
  match call with
  | CreateOrReuse grantor grantee definition => createOrReuse env grantor grantee definition
  | Revoke grantor grantId reviewed => revoke env grantor grantId reviewed
  | UpdateManaged grantor payload signingKey => updateManaged env grantor payload signingKey
  | AcceptUserSigned grantor grantee representation => acceptUserSignedGrant env grantor grantee representation
  end.

(** ** What a call does to the database

    It stays in every preorder that the others and the two transactions stay in. *)

Section executions.
Context {R : relation Database} `{!PreOrder R}.
Context (Hothers : forall n db, R db (gs_others env n db)).
Context (Hinsert : forall input consent destination started db db',
  insertAuthoritativeRevision1 input consent destination started db = Ok (tt, db') -> R db db').
Context (Happend : forall u started db db', appendAuthoritativeUpdate u started db = Ok (tt, db') -> R db db').
#[local] Set Default Proof Using "Type*".

Lemma runs_others n : runs R (others env n).
Proof. apply runs_meanwhile. apply Hothers. Qed.
#[local] Hint Extern 0 (runs _ (others _ _)) => apply runs_others : runs.

Lemma runs_account input : runs R (localAccount env input).
Proof. unfold localAccount. destruct (starts_with _ _); auto with runs. apply runs_bind; [auto with runs|]. intros []; auto with runs. Qed.
#[local] Hint Extern 0 (runs _ (localAccount _ _)) => apply runs_account : runs.

Lemma runs_insert input consent destination started :
  runs R (begin (insertAuthoritativeRevision1 input consent destination started)).
Proof. apply runs_begin. intros db [] db' Hi. by eapply Hinsert. Qed.
Lemma runs_append u started : runs R (begin (appendAuthoritativeUpdate u started)).
Proof. apply runs_begin. intros db [] db' Hi. by eapply Happend. Qed.
Lemma runs_revocation u started : runs R (begin (appendAuthoritativeRevocation u started)).
Proof.
  apply runs_begin. intros db [] db' Hi. unfold appendAuthoritativeRevocation in Hi.
  destruct (bool_decide _); [by eapply Happend|discriminate Hi].
Qed.
#[local] Hint Extern 0 (runs _ (begin (insertAuthoritativeRevision1 _ _ _ _))) => apply runs_insert : runs.
#[local] Hint Extern 0 (runs _ (begin (appendAuthoritativeUpdate _ _))) => apply runs_append : runs.
#[local] Hint Extern 0 (runs _ (begin (appendAuthoritativeRevocation _ _))) => apply runs_revocation : runs.

Lemma runs_or_winner attempt winner wins signed : runs R attempt -> runs R winner ->
  runs R (or_winner env attempt winner wins signed).
Proof.
  intros Ha Hw. unfold or_winner. apply runs_bind; [by apply runs_caught|]. intros [|e]; auto with runs.
  apply runs_bind; [auto with runs|intros _]. apply runs_bind; [done|]. intros []; auto with runs.
Qed.

Lemma runs_accept grantor grantee representation :
  runs R (acceptUserSignedGrant env grantor grantee representation).
Proof.
  unfold acceptUserSignedGrant. destruct (_ || _); auto with runs.
  apply runs_bind; [auto with runs|intros account]. apply runs_bind; [auto with runs|intros signed].
  apply runs_bind; [auto with runs|intros _]. apply runs_bind; [auto with runs|intros retained].
  apply runs_bind; [auto with runs|intros _]. apply runs_bind; [auto with runs|intros historical].
  destruct (List.filter _ _) as [|g gs]; [|auto with runs].
  destruct (List.filter _ _) as [|g gs]; [|auto with runs].
  destruct (negb _); [|destruct (_ <? _)].
  - unfold accept_revocation. apply runs_bind; [auto with runs|intros _]. apply runs_bind; [auto with runs|].
    intros [current|]; [|auto with runs]. destruct (_ || _); auto with runs.
    apply runs_bind; [auto with runs|intros reviewed]. destruct (negb _); auto with runs.
    destruct (same_bytes _ _); auto with runs. destruct (negb _); auto with runs. destruct (_ || _); auto with runs.
    apply runs_bind; [auto with runs|intros _]. apply runs_or_winner; auto with runs.
  - unfold accept_update. destruct retained as [retained|]; auto with runs. destruct (negb _); auto with runs.
    apply runs_bind; [auto with runs|intros consent]. apply runs_bind; [auto with runs|intros _].
    apply runs_or_winner; auto with runs.
  - unfold accept_initial. destruct (_ || _); auto with runs. destruct (bool_decide _); auto with runs.
    destruct (expired_by _ _); auto with runs.
    apply runs_bind; [auto with runs|intros consent]. apply runs_bind; [auto with runs|intros _].
    apply runs_bind; [auto with runs|]. intros [existing|]; auto with runs.
Qed.

Lemma serve_runs call : runs R (serve call).
Proof.
  destruct call as [grantor grantee definition|grantor grantId reviewed|grantor payload key|grantor grantee rep]; cbn [serve].
  - unfold createOrReuse. apply runs_bind; [auto with runs|intros account]. destruct (negb _); auto with runs.
    apply runs_bind; [auto with runs|intros [key evidence]]. apply runs_bind; [auto with runs|intros [consent scope]].
    match goal with |- runs _ (if ?late then _ else _) => destruct late end; auto with runs.
    apply runs_bind; [auto with runs|intros _]. apply runs_bind; [auto with runs|]. intros [existing|]; auto with runs.
  - unfold revoke. apply runs_bind; [auto with runs|intros account]. destruct (negb _); auto with runs.
    apply runs_bind; [auto with runs|intros _]. apply runs_bind; [auto with runs|]. intros [current|]; auto with runs.
    destruct (_ || _); auto with runs. destruct (negb _); auto with runs.
  - unfold updateManaged. apply runs_bind; [auto with runs|intros account]. destruct (negb _); auto with runs.
    apply runs_bind; [auto with runs|intros signed]. apply runs_bind; [auto with runs|intros _]. apply runs_accept.
  - apply runs_accept.
Qed.
End executions.

Lemma serve_executes call : (forall n db, execution db (gs_others env n db)) -> runs execution (serve call).
Proof.
  intros Hothers. apply serve_runs; [done|..].
  - intros input consent destination started db db' Hi. apply rtc_once. by eapply step_begin.
  - intros u started db db' Hi. apply rtc_once. by eapply step_update.
Qed.

(** ** Runs that return *)

(** The account a call names. *)
Definition names_account (input : jstr) (account : account_record) (db : Database) : Prop :=
  if starts_with (js "did:plc:") input then getAccountByDid input db = Some account
  else exists address, canonicalizeHailAddress input = Ok address /\
    gs_getAccountByAddress env address db = Ok account.

Lemma localAccount_Ok input (db : Database) account db' :
  localAccount env input db = (Ok account, db') -> db' = db /\ names_account input account db.
Proof.
  unfold localAccount, names_account. destruct (starts_with _ _).
  - intros Ha. apply bind_Act in Ha as (a & db1 & Hx & Ha). apply act_Ok in Hx as [[= Hx] ->].
    destruct a as [a|]; [|discriminate Ha]. injection Ha as <- <-. by rewrite Hx.
  - intros [Ha ->]%act_Ok. apply bind_Ok in Ha as (address & Hc & Ha). eauto.
Qed.

Lemma others_Ok n (db : Database) u db' : others env n db = (Ok u, db') -> db' = gs_others env n db.
Proof. by intros [= _ <-]. Qed.

Lemma refuse_Ok b status message u : refuse_if b status message = Ok u -> b = false.
Proof. by destruct b. Qed.
Lemma user_error_Ok {A} status message (a : A) : user_error status message <> Ok a.
Proof. discriminate. Qed.

Lemma catch_Ok {A} (m : M A) h a : (forall e, h e <> Ok a) -> catch m h = Ok a -> m = Ok a.
Proof. intros Hh. destruct m as [b|e]; cbn; [done|]. by intros Hc%Hh. Qed.

Lemma or_winner_Ok attempt winner wins signed (db : Database) g db' :
  or_winner env attempt winner wins signed db = (Ok g, db') ->
  (attempt db = (Ok tt, db') /\ g = signed) \/
  exists e db1, attempt db = (Err e, db1) /\ winner (gs_others env 5 db1) = (Ok (Some g), db') /\ wins g = true.
Proof.
  unfold or_winner. intros Hr. apply bind_Act in Hr as (r & db1 & Ha%caught_Ok & Hr).
  destruct r as [[]|e]; [injection Hr as <- <-; by left|right].
  apply bind_Act in Hr as ([] & db2 & ->%others_Ok & Hr). apply bind_Act in Hr as (w & db2 & Hw & Hr).
  destruct w as [w|]; [|discriminate Hr]. destruct (wins w) eqn:E; [|discriminate Hr].
  injection Hr as <- <-. eauto.
Qed.

Lemma revocation_append u started (db : Database) x db' :
  appendAuthoritativeRevocation u started db = Ok (x, db') ->
  appendAuthoritativeUpdate u started db = Ok (x, db') /\ g_status (sgr_payload (gu_revision u)) = grant_revoked.
Proof. unfold appendAuthoritativeRevocation. case_bool_decide; [done|discriminate]. Qed.

(** *** Signing *)

(** What a signature of an account verifies under. *)
Definition verifies (did key : jstr) (representation : bytes) : Prop := exists message object,
  verifySignedPayload Profiles.grant representation
    (grant_verifier did (ed25519PublicKeyFromDidKey key) message) = Ok object.

Lemma grant_signed_Ok account key p evidence n g : GrantService.sign env account key p evidence n = Ok g ->
  g = signed_revision account.1 p (sgr_representation g) (k_publicKey key) /\
  verifies (a_did account.2) (k_publicKey key) (sgr_representation g).
Proof.
  intros ([] & _ & ([] & _ & ([] & _ & (secret & _ & (private & _ & (signer & _ & (rep & Hs & Hg)%bind_Ok)%bind_Ok)%bind_Ok)%bind_Ok)%bind_Ok)%bind_Ok)%bind_Ok.
  apply bind_Ok in Hg as (public & Hp & (object & Hv & [= <-])%bind_Ok).
  split; [done|]. cbn. eexists _, object. rewrite Hp. exact Hv.
Qed.

(** *** Revisions that are found *)

Lemma current_found id (db : Database) g : findCurrentByGrantId id db = Ok (Some g) ->
  g_grant_id (sgr_payload g) = id /\ exists n, findRevision id n db = Ok (Some g).
Proof.
  intros Hc. pose proof Hc as (l & r & Hl & Hr & Hg)%find_current_Ok.
  apply grantFromRow_Ok in Hg as (_ & _ & _ & _ & _ & _ & _ & Hid & _).
  split; [done|]. unfold findCurrentByGrantId in Hc. rewrite Hl in Hc. eauto.
Qed.

Lemma revision_found id n (db : Database) g : findRevision id n db = Ok (Some g) -> exists l r,
  db grant_lineages !! id = Some l /\ db grant_revisions !! (id, n) = Some r /\ grantFromRow id n l r = Ok g.
Proof.
  unfold findRevision. destruct (db grant_lineages !! id) as [l|] eqn:Hl; [|done].
  destruct (db grant_revisions !! (id, n)) as [r|] eqn:Hr; [|done]. intros (g' & Hg & [= <-])%fmap_Ok. eauto.
Qed.

Lemma active_pair_found grantor grantee (db : Database) g :
  findActiveAuthoritativeByDidPair grantor grantee db = Ok (Some g) -> exists id,
  findCurrentByGrantId id db = Ok (Some g) /\ sgr_role g = RoleGrantor /\ exists l,
    db grant_lineages !! id = Some l /\ l_active l = true /\ l_grantor_did l = grantor /\ l_grantee_did l = grantee.
Proof.
  unfold findActiveAuthoritativeByDidPair. destruct (find_row _ _) as [[id l]|] eqn:Hf; [|done].
  apply find_row_Some in Hf as [Hl Hb]. rewrite !andb_true_iff in Hb.
  destruct Hb as [[[Hrole Hgr%jstr_eqb_eq] Hge%jstr_eqb_eq] Ha]. intros Hc. exists id. split; [done|].
  apply find_current_Ok in Hc as (l' & r & Hl' & _ & Hg). cbn [fst snd] in *.
  pose proof (eq_trans (eq_sym Hl) Hl') as [= <-]. split; [|eauto 10].
  apply grantFromRow_Ok in Hg as (_ & _ & _ & _ & _ & _ & Hr & _). by rewrite Hrole in Hr.
Qed.

(** *** Revocation by the provider *)

Lemma revoke_Ok input id reviewed (db : Database) g db' : revoke env input id reviewed db = (Ok g, db') ->
  exists account current, names_account input account db /\ settled account = true /\
  findCurrentByGrantId id (gs_others env 0 db) = Ok (Some current) /\
  sgr_role current = RoleGrantor /\ g_grantor (sgr_payload current) = a_did account.2 /\
  review_holds reviewed current = true /\
  ((g_status (sgr_payload current) = grant_revoked /\ g = current /\ db' = gs_others env 0 db) \/
   (g_status (sgr_payload current) = grant_active /\ sign_revocation env account current = Ok g /\
    appendAuthoritativeUpdate (follows_with g current None) (gs_started env)
      (gs_others env 1 (gs_others env 0 db)) = Ok (tt, db'))).
Proof.
  unfold revoke. intros Hr. apply bind_Act in Hr as (account & db1 & Hx & Hr). apply localAccount_Ok in Hx as [-> Hacc].
  destruct (settled account) eqn:Hs; cbn [negb] in Hr; [|discriminate Hr].
  apply bind_Act in Hr as ([] & db1 & ->%others_Ok & Hr).
  apply bind_Act in Hr as (current & db1 & Hc & Hr). apply act_Ok in Hc as [Hc ->].
  destruct current as [current|]; [|discriminate Hr].
  destruct (_ || _) eqn:Hb in Hr; [discriminate Hr|].
  apply orb_false_iff in Hb as [Hrole%negb_false_iff%bool_decide_eq_true Hg%negb_false_iff%jstr_eqb_eq].
  destruct (review_holds reviewed current) eqn:Hv; cbn [negb] in Hr; [|discriminate Hr].
  exists account, current. repeat (split; [done|]).
  destruct (is_active _) eqn:Ha in Hr; cbn [negb] in Hr; unfold is_active in Ha.
  - right. apply bool_decide_eq_true in Ha. apply bind_Act in Hr as (g' & db1 & Hsign & Hr). apply act_Ok in Hsign as [Hsign ->].
    apply bind_Act in Hr as ([] & db1 & ->%others_Ok & Hr). apply bind_Act in Hr as ([] & db1 & Hx%begin_Ok & Hr).
    injection Hr as <- <-. by apply revocation_append in Hx as [Hx _].
  - left. apply bool_decide_eq_false in Ha. injection Hr as <- <-. by destruct (g_status _).
Qed.

Lemma sign_revocation_Ok account current g : sign_revocation env account current = Ok g -> exists key resolved updatedAt,
  gs_resolve env (a_did account.2) = Ok resolved /\ identityDidKey resolved = k_publicKey key /\
  serviceBase resolved = gs_serviceBase env /\ sgr_signing_key current = k_publicKey key /\
  g = signed_revision account.1 (revocation_of current (a_did account.2) updatedAt) (sgr_representation g) (k_publicKey key) /\
  verifies (a_did account.2) (k_publicKey key) (sgr_representation g).
Proof.
  intros (key & _ & (resolved & Hr & ([] & Hk%refuse_Ok%negb_false_iff%jstr_eqb_eq & ([] & Hb%throw_if_Ok & ([] & _ & Hs)%bind_Ok)%bind_Ok)%bind_Ok)%bind_Ok)%bind_Ok.
  apply orb_false_iff in Hb as [Hi%negb_false_iff%jstr_eqb_eq Hbase%negb_false_iff%jstr_eqb_eq].
  apply grant_signed_Ok in Hs as [Hg Hv]. eexists key, resolved, _. repeat (split; [done|]). done.
Qed.

(** *** Issuing by the provider *)

Definition wanted_grant (account : account_record) (consent : GrantConsentEvidence) (scope : HailGrantScope)
    (definition : GrantDefinition) (grantId : jstr) : HailGrant :=
  initial_grant grantId (a_did account.2) (address consent) (senderProfile consent) scope
    (gd_expiresAt definition) (GrantService.now env 0).

Lemma createOrReuse_Ok input sender definition (db : Database) g db' :
  createOrReuse env input sender definition db = (Ok g, db') ->
  exists account key evidence consent scope message, names_account input account db /\ settled account = true /\
  provider_key env account = Ok (key, evidence) /\
  offered_sender env sender (gd_scope definition) message = Ok (consent, scope) /\
  let db0 := gs_others env 0 db in
  ((findActiveAuthoritativeByDidPair (a_did account.2) (va_did (address consent)) db0 = Ok (Some g) /\
    same_definition key scope (gd_expiresAt definition) consent g = true /\ db' = db0) \/
   exists grantId n,
    GrantService.sign env account key (wanted_grant account consent scope definition grantId) evidence n = Ok g /\
    insertAuthoritativeRevision1 g consent (va_serviceBase (address consent)) (gs_started env)
      (gs_others env 1 db0) = Ok (tt, db')).
Proof.
  unfold createOrReuse. intros Hr. apply bind_Act in Hr as (account & db1 & Hx & Hr). apply localAccount_Ok in Hx as [-> Hacc].
  destruct (settled account) eqn:Hs; cbn [negb] in Hr; [|discriminate Hr].
  apply bind_Act in Hr as ([key evidence] & db1 & Hk & Hr). apply act_Ok in Hk as [Hk ->].
  apply bind_Act in Hr as ([consent scope] & db1 & Ho & Hr). apply act_Ok in Ho as [Ho ->].
  match type of Hr with (if ?late then _ else _) _ = _ => destruct late; [discriminate Hr|] end.
  apply bind_Act in Hr as ([] & db1 & ->%others_Ok & Hr).
  apply bind_Act in Hr as (existing & db1 & He & Hr). apply act_Ok in He as [He ->].
  eexists account, key, evidence, consent, scope, _. repeat (split; [eassumption|]). cbn zeta.
  destruct existing as [existing|].
  - destruct (same_definition _ _ _ _ _) eqn:Hd; [|discriminate Hr]. injection Hr as <- <-. left. done.
  - right. apply bind_Act in Hr as (g' & db1 & Hg & Hr). apply act_Ok in Hg as [Hg ->].
    apply bind_Ok in Hg as (grantId & _ & Hg).
    apply bind_Act in Hr as ([] & db1 & ->%others_Ok & Hr). apply bind_Act in Hr as ([] & db1 & Hx%begin_Ok & Hr).
    injection Hr as <- <-. by exists grantId, 2%nat.
Qed.

(** *** What a user signed *)

Record authentic_grant (account : account_record) (rep : bytes) (signed : SignedGrantRevision) : Prop := {
  ag_signed : signed = signed_revision account.1 (sgr_payload signed) rep (sgr_signing_key signed);
  ag_settled : settled account = true;
  ag_payload_read : exists object, inspectTyped Profiles.grant rep = Ok object /\ payload object = sgr_payload signed;
  ag_grantor : g_grantor (sgr_payload signed) = a_did account.2;
  ag_resolved : exists resolved, gs_resolve env (a_did account.2) = Ok resolved /\
    serviceBase resolved = gs_serviceBase env /\ identityDidKey resolved = sgr_signing_key signed;
  ag_verifies : verifies (a_did account.2) (sgr_signing_key signed) rep;
}.

Lemma authenticate_user_Ok account rep signed : authenticate_user_grant env account rep = Ok signed ->
  authentic_grant account rep signed.
Proof.
  intros ([] & Hs%refuse_Ok%negb_false_iff & (resolved & Hr & ([] & Hb%refuse_Ok%negb_false_iff%jstr_eqb_eq & Ha)%bind_Ok)%bind_Ok)%bind_Ok.
  apply bind_Ok in Ha as (object & Ho & ([] & Hg%refuse_Ok & ([] & Hv & ([] & _ & [= <-])%bind_Ok)%bind_Ok)%bind_Ok).
  apply orb_false_iff in Hg as [Hg%negb_false_iff%jstr_eqb_eq _].
  apply catch_Ok in Hv; [|intros e; apply user_error_Ok]. apply bind_Ok in Hv as (o & Hv & _).
  split; cbn; try done; [by exists object|by exists resolved|by eexists _, o].
Qed.

(** What a statement that was tried leads to: it was committed, or another process stored the same. *)
Definition committed_or_won (tx : Tx unit) (winner : Database -> M (option SignedGrantRevision))
    (signed : SignedGrantRevision) (db : Database) (g : SignedGrantRevision) (db' : Database) : Prop :=
  (tx db = Ok (tt, db') /\ g = signed) \/
  (db' = gs_others env 5 db /\ winner db' = Ok (Some g) /\ sgr_representation g = sgr_representation signed).

Lemma same_bytes_eq signed g : same_bytes signed g = true -> sgr_representation g = sgr_representation signed.
Proof. apply Cbor.equalBytes_eq. Qed.

Lemma tried_Ok (tx : Tx unit) winner wins signed (db : Database) g db' :
  (forall w, wins w = true -> same_bytes signed w = true) ->
  or_winner env (begin tx) (act winner) wins signed db = (Ok g, db') ->
  committed_or_won tx winner signed db g db'.
Proof.
  intros Hw [[Hb%begin_Ok ->]|(e & db1 & Hb & [Hf ->]%act_Ok & Hs%Hw%same_bytes_eq)]%or_winner_Ok; [by left|right].
  unfold begin in Hb. destruct (tx db) as [[[] db2]|e']; [done|]. injection Hb as _ <-. done.
Qed.

Lemma accept_revocation_Ok account signed sender (db : Database) g db' :
  accept_revocation env account signed sender db = (Ok g, db') ->
  let id := g_grant_id (sgr_payload signed) in let db0 := gs_others env 3 db in
  exists current, findCurrentByGrantId id db0 = Ok (Some current) /\
  ((g = current /\ sgr_representation g = sgr_representation signed /\ db' = db0) \/
   committed_or_won (appendAuthoritativeUpdate (follows_with signed current None) (gs_started env))
     (findCurrentByGrantId id) signed (gs_others env 4 db0) g db').
Proof.
  unfold accept_revocation. cbn zeta. intros Hr. apply bind_Act in Hr as ([] & db1 & ->%others_Ok & Hr).
  apply bind_Act in Hr as (current & db1 & Hc & Hr). apply act_Ok in Hc as [Hc ->].
  destruct current as [current|]; [|discriminate Hr]. exists current. split; [done|].
  destruct (_ || _) in Hr; [discriminate Hr|].
  apply bind_Act in Hr as (reviewed & db1 & Hx & Hr). apply act_Ok in Hx as [_ ->].
  destruct (negb _) in Hr; [discriminate Hr|].
  destruct (same_bytes signed current) eqn:Hs in Hr; [injection Hr as <- <-; left; by apply same_bytes_eq in Hs|right].
  destruct (negb _) in Hr; [discriminate Hr|]. destruct (_ || _) in Hr; [discriminate Hr|].
  apply bind_Act in Hr as ([] & db1 & ->%others_Ok & Hr). apply tried_Ok in Hr; [|by intros w [_ Hw]%andb_true_iff].
  destruct Hr as [[Ht Hg]|Hw]; [left|by right]. by apply revocation_append in Ht as [Ht _].
Qed.

Lemma accept_update_Ok account signed retained sender (db : Database) g db' :
  accept_update env account signed retained sender db = (Ok g, db') -> exists current consent,
  retained = Some current /\ follows account signed current = true /\
  update_consent env (sgr_payload signed) (sgr_payload current) sender = Ok consent /\
  committed_or_won (appendAuthoritativeUpdate (follows_with signed current consent) (gs_started env))
    (findRevision (g_grant_id (sgr_payload signed)) (g_revision (sgr_payload signed))) signed
    (gs_others env 3 db) g db'.
Proof.
  unfold accept_update. intros Hr. destruct retained as [current|]; [|discriminate Hr].
  destruct (follows account signed current) eqn:Hf; cbn [negb] in Hr; [|discriminate Hr].
  apply bind_Act in Hr as (consent & db1 & Hc & Hr). apply act_Ok in Hc as [Hc ->].
  apply bind_Act in Hr as ([] & db1 & ->%others_Ok & Hr). apply tried_Ok in Hr; [|by intros w [_ Hw]%andb_true_iff].
  by exists current, consent.
Qed.

Lemma accept_initial_Ok signed retained sender (db : Database) g db' :
  accept_initial env signed retained sender db = (Ok g, db') -> exists consent,
  initial_consent env (sgr_payload signed) sender = Ok consent /\ let db0 := gs_others env 3 db in
  ((findActiveAuthoritativeByDidPair (g_grantor (sgr_payload signed)) (va_did (address consent)) db0 = Ok (Some g) /\
    sgr_representation g = sgr_representation signed /\ db' = db0) \/
   (g = signed /\ insertAuthoritativeRevision1 signed consent (va_serviceBase (address consent)) (gs_started env)
      (gs_others env 4 db0) = Ok (tt, db'))).
Proof.
  unfold accept_initial. intros Hr. destruct (_ || _) in Hr; [discriminate Hr|].
  destruct (bool_decide _) in Hr; [discriminate Hr|]. destruct (expired_by _ _) in Hr; [discriminate Hr|].
  apply bind_Act in Hr as (consent & db1 & Hc & Hr). apply act_Ok in Hc as [Hc ->]. exists consent. split; [done|]. cbn zeta.
  apply bind_Act in Hr as ([] & db1 & ->%others_Ok & Hr).
  apply bind_Act in Hr as (existing & db1 & He & Hr). apply act_Ok in He as [He ->].
  destruct existing as [existing|].
  - destruct (same_bytes _ _) eqn:Hs in Hr; [|discriminate Hr]. injection Hr as <- <-. left.
    by apply same_bytes_eq in Hs.
  - apply bind_Act in Hr as ([] & db1 & ->%others_Ok & Hr). apply bind_Act in Hr as ([] & db1 & Hx%begin_Ok & Hr).
    injection Hr as <- <-. by right.
Qed.

Lemma known_In account signed (o : option SignedGrantRevision) g gs :
  List.filter (fun g => owned_by account g && same_bytes signed g) (option_list o) = g :: gs ->
  o = Some g /\ sgr_representation g = sgr_representation signed.
Proof.
  destruct o as [g'|]; [|done]. cbn. destruct (owned_by _ _ && _) eqn:Hk; [|done]. intros [= -> _].
  by apply andb_true_iff in Hk as [_ Hs%same_bytes_eq].
Qed.

(** What was read, between the statements of the others; then one of the ways above. *)
Lemma accept_Ok input sender rep (db : Database) g db' :
  acceptUserSignedGrant env input sender rep db = (Ok g, db') -> exists account signed,
  names_account input account db /\ authentic_grant account rep signed /\
  let id := g_grant_id (sgr_payload signed) in
  let db1 := gs_others env 1 db in let db2 := gs_others env 2 db1 in
  (sgr_representation g = rep /\ db' = db2 /\
   (findCurrentByGrantId id db1 = Ok (Some g) \/
    findRevision id (g_revision (sgr_payload signed)) db2 = Ok (Some g))) \/
  (g_status (sgr_payload signed) = grant_revoked /\ accept_revocation env account signed sender db2 = (Ok g, db')) \/
  (g_status (sgr_payload signed) = grant_active /\ exists retained, findCurrentByGrantId id db1 = Ok retained /\
   (accept_update env account signed retained sender db2 = (Ok g, db') \/
    accept_initial env signed retained sender db2 = (Ok g, db'))).
Proof.
  unfold acceptUserSignedGrant. intros Hr. destruct (_ || _) in Hr; [discriminate Hr|].
  apply bind_Act in Hr as (account & db1 & Hx & Hr). apply localAccount_Ok in Hx as [-> Hacc].
  apply bind_Act in Hr as (signed & db1 & Hs & Hr). apply act_Ok in Hs as [Hs%authenticate_user_Ok ->].
  apply bind_Act in Hr as ([] & db1 & ->%others_Ok & Hr).
  apply bind_Act in Hr as (retained & db1 & Hret & Hr). apply act_Ok in Hret as [Hret ->].
  apply bind_Act in Hr as ([] & db1 & ->%others_Ok & Hr).
  apply bind_Act in Hr as (historical & db1 & Hhist & Hr). apply act_Ok in Hhist as [Hhist ->].
  exists account, signed. do 2 (split; [done|]). cbn zeta.
  assert (Hrep : sgr_representation signed = rep) by (by rewrite (ag_signed _ _ _ Hs)).
  destruct (List.filter _ (option_list retained)) as [|g' gs] eqn:Hk in Hr.
  2: { injection Hr as <- <-. apply known_In in Hk as [-> Hk]. left. rewrite Hk. auto. }
  destruct (List.filter _ (option_list historical)) as [|g' gs] eqn:Hk' in Hr.
  2: { destruct (negb _) in Hr; [discriminate Hr|]. injection Hr as <- <-. apply known_In in Hk' as [-> Hk']. left. rewrite Hk'. auto. }
  right. destruct (is_active _) eqn:Ha in Hr; cbn [negb] in Hr; unfold is_active in Ha.
  - right. apply bool_decide_eq_true in Ha. split; [done|]. exists retained. split; [done|].
    destruct (1 <? _); [by left|by right].
  - left. apply bool_decide_eq_false in Ha. by destruct (g_status _).
Qed.
(** ** What justifies a new revision *)

(** The consent of a sender: its address and profile were verified, are of one sender, are the ones the
    grant names, and the profile offers every category that is granted. *)
Record consented (g : HailGrant) (c : GrantConsentEvidence) : Prop := {
  cs_address : exists canonical, gs_verifyAddress env canonical = Ok (address c);
  cs_profile : gs_verifyProfile env (va_did (address c)) = Ok (senderProfile c);
  cs_sender : va_did (address c) = g_grantee g;
  cs_agrees : evidence_agrees (address c) (senderProfile c) = true;
  cs_named : g_consent_context g = consent_context (address c) (senderProfile c);
  cs_offered : scope_values (g_scope g) <> [] /\
    Forall (fun category => offered (vp_profile (senderProfile c)) category = true) (scope_values (g_scope g));
}.

(** A revision that permits no more than the one before, for the same consent. *)
Definition narrows (q p : HailGrant) : Prop :=
  g_consent_context p = g_consent_context q /\
  (g_status p = grant_revoked \/
   (forall category, includes (scope_values (g_scope p)) category = true ->
      includes (scope_values (g_scope q)) category = true) /\
   forall t, g_expires_at q = Some t -> exists t', g_expires_at p = Some t' /\ t' <= t).

Lemma restricts_narrows q p : restrictsAuthorization q p = Ok true -> g_consent_context q = g_consent_context p ->
  narrows q p.
Proof.
  unfold restrictsAuthorization, expandsAuthorization. intros Hr Hc. split; [done|].
  destruct (g_status p) eqn:Hs; [right|by left].
  destruct (existsb _ _ || _) eqn:He; [done|]. apply orb_false_iff in He as [Hscope Hexp]. split.
  - intros category Hin. apply not_false_iff_true. intros Hno.
    assert (Hbad : existsb (fun value => negb (includes (scope_values (g_scope q)) value)) (scope_values (g_scope p)) = true).
    { apply existsb_exists in Hin as (c & Hin & ->%jstr_eqb_eq). apply existsb_exists. exists c. by rewrite Hno. }
    by rewrite Hbad in Hscope.
  - intros t Ht. rewrite Ht in Hexp. destruct (g_expires_at p) as [t'|]; [|done]. exists t'. split; [done|]. lia.
Qed.

Lemma scope_offered scope profile u : validateScopeAgainstProfile scope profile = Ok u ->
  scope_values scope <> [] /\ Forall (fun category => offered profile category = true) (scope_values scope).
Proof.
  intros [He Ho]%throw_if_Ok%orb_false_iff. split; [by destruct (scope_values scope)|].
  apply Forall_forall. intros c Hin. apply not_false_iff_true. intros Hno.
  assert (Hbad : existsb (fun category => negb (offered profile category)) (scope_values scope) = true).
  { apply existsb_exists. exists c. rewrite Hno. split; [by apply list_elem_of_In|done]. }
  by rewrite Hbad in Ho.
Qed.

Lemma named_consent g a p : cc_grantee_address (g_consent_context g) = va_address a ->
  binding_hash g = va_digest a -> profile_hash g = vp_digest p -> g_consent_context g = consent_context a p.
Proof.
  unfold binding_hash, profile_hash, consent_context. destruct (g_consent_context g) as [x [y] [z]]. cbn. by intros -> -> ->.
Qed.

Lemma evidence_agrees_true a p : vp_did p = va_did a -> vp_serviceBase p = va_serviceBase a ->
  vp_messagingDidKey p = va_messagingDidKey a -> evidence_agrees a p = true.
Proof. unfold evidence_agrees. intros -> -> ->. by rewrite !jstr_eqb_refl. Qed.

Lemma currentConsent_Ok g sender c : currentConsent env g sender true = Ok c -> consented g c.
Proof.
  intros (canonical & _ & (a & Ha & (p & Hp & ([] & Hc%refuse_Ok & ([] & Hs & [= <-])%bind_Ok)%bind_Ok)%bind_Ok)%bind_Ok)%bind_Ok.
  apply catch_Ok in Hs; [|intros e; apply user_error_Ok]. apply scope_offered in Hs.
  rewrite !orb_false_iff in Hc. destruct Hc as [[[[H1'%negb_false_iff%jstr_eqb_eq H2'%negb_false_iff%jstr_eqb_eq]
    H3'%negb_false_iff%jstr_eqb_eq] H4'%negb_false_iff%jstr_eqb_eq] [[H5'%negb_false_iff%jstr_eqb_eq
    H6'%negb_false_iff%Cbor.equalBytes_eq]%orb_false_iff H7'%negb_false_iff%Cbor.equalBytes_eq]%orb_false_iff].
  split; cbn [address senderProfile]; try done; [by exists canonical|by apply evidence_agrees_true; congruence|].
  by apply named_consent.
Qed.

Lemma initial_consent_Ok g sender c : initial_consent env g sender = Ok c -> consented g c.
Proof.
  intros (canonical & _ & (a & Ha & (p & Hp & ([] & Hc%refuse_Ok & Hr)%bind_Ok)%bind_Ok)%bind_Ok)%bind_Ok.
  apply bind_Ok in Hr as (scope & _ & ([] & _ & ([] & Hs & [= <-])%bind_Ok)%bind_Ok).
  apply catch_Ok in Hs; [|done]. apply scope_offered in Hs. rewrite !orb_false_iff in Hc.
  destruct Hc as [[[[H1'%negb_false_iff%jstr_eqb_eq H2'%negb_false_iff%jstr_eqb_eq] H3'%negb_false_iff]
    H4'%negb_false_iff%Cbor.equalBytes_eq] H5'%negb_false_iff%Cbor.equalBytes_eq].
  split; cbn [address senderProfile]; try done; [by exists canonical|]. by apply named_consent.
Qed.

Lemma offered_sender_Ok sender scope message c s : offered_sender env sender scope message = Ok (c, s) ->
  normalizeScope scope = Ok s /\
  forall g, g_grantee g = va_did (address c) -> g_scope g = s ->
    g_consent_context g = consent_context (address c) (senderProfile c) -> consented g c.
Proof.
  intros (canonical & _ & (a & Ha & (p & Hp & ([] & He%throw_if_Ok%negb_false_iff & Hr)%bind_Ok)%bind_Ok)%bind_Ok)%bind_Ok.
  apply bind_Ok in Hr as (s' & Hn & ([] & Ho%scope_offered & [= <- <-])%bind_Ok).
  split; [done|]. intros g Hg Hs Hc. split; cbn [address senderProfile] in *; try done; [by exists canonical|].
  by rewrite Hs.
Qed.

Definition justified (g : SignedGrantRevision) (db : Database) : Prop :=
  (exists c, consented (sgr_payload g) c) \/
  (exists q, findCurrentByGrantId (g_grant_id (sgr_payload g)) db = Ok (Some q) /\
     narrows (sgr_payload q) (sgr_payload g)).

(** Signed by the key that the directory names for the grantor, whom this provider serves. *)
Record authorized_by_grantor (g : SignedGrantRevision) : Prop := {
  ab_resolved : exists resolved, gs_resolve env (g_grantor (sgr_payload g)) = Ok resolved /\
    serviceBase resolved = gs_serviceBase env /\ identityDidKey resolved = sgr_signing_key g;
  ab_verifies : verifies (g_grantor (sgr_payload g)) (sgr_signing_key g) (sgr_representation g);
}.

(** A revision that a call stores, with authority and for a reason. *)
Record newly_stored (g : SignedGrantRevision) (db1 db2 : Database) : Prop := {
  ns_stored : begins g db1 db2 \/ advanced g db1 db2;
  ns_authority : authorized_by_grantor g;
  ns_justified : justified g db1;
}.

(** The revision that the transaction of an update finds. *)
Lemma update_predecessor u started (db : Database) x db' : appendAuthoritativeUpdate u started db = Ok (x, db') ->
  exists q, findCurrentByGrantId (g_grant_id (sgr_payload (gu_revision u))) db = Ok (Some q) /\
    check_update u (Some q) = Ok tt.
Proof.
  unfold appendAuthoritativeUpdate. intros Hi.
  apply bind_Tx in Hi as ([] & db1 & Hc & Hi). apply throwing_Tx in Hc as [_ ->].
  apply bind_Tx in Hi as ([] & db1 & Hf & Hi). apply throwing_Tx in Hf as [_ ->].
  apply bind_Tx in Hi as (current & db1 & Hx & Hi). apply throwing_read in Hx as [Hcur ->].
  apply bind_Tx in Hi as ([] & db1 & Hx & Hi). apply throwing_Tx in Hx as [Hck _].
  destruct current as [q|]; [|discriminate Hck]. by exists q.
Qed.

Lemma update_justified u started (db : Database) x db' : appendAuthoritativeUpdate u started db = Ok (x, db') ->
  (forall c, gu_consent u = Some c -> consented (sgr_payload (gu_revision u)) c) -> justified (gu_revision u) db.
Proof.
  intros (q & Hq & Hck)%update_predecessor Hcons. unfold check_update in Hck.
  apply bind_Ok in Hck as ([] & _ & ([] & _ & (restricts & Hr & ([] & _ & Hck)%bind_Ok)%bind_Ok)%bind_Ok).
  destruct (gu_consent u) as [c|]; [left; eauto|right].
  apply throw_if_Ok, orb_false_iff in Hck as [->%negb_false_iff Hsame%negb_false_iff%bool_decide_eq_true].
  exists q. split; [done|]. by apply restricts_narrows.
Qed.

Lemma update_stores u started (db : Database) x db' : appendAuthoritativeUpdate u started db = Ok (x, db') ->
  (forall c, gu_consent u = Some c -> consented (sgr_payload (gu_revision u)) c) ->
  authorized_by_grantor (gu_revision u) -> newly_stored (gu_revision u) db db'.
Proof.
  intros Hu Hc Ha. split; [right; by eapply appendAuthoritativeUpdate_change|done|by eapply update_justified].
Qed.

Lemma insert_stores g c destination started (db : Database) x db' :
  insertAuthoritativeRevision1 g c destination started db = Ok (x, db') ->
  consented (sgr_payload g) c -> authorized_by_grantor g -> newly_stored g db db'.
Proof.
  intros Hi Hc Ha. split; [left; by eapply insertAuthoritativeRevision1_change|done|left; by exists c].
Qed.

Lemma authentic_authority account rep signed : authentic_grant account rep signed -> authorized_by_grantor signed.
Proof.
  intros [Hs _ _ Hg Hr Hv]. split; rewrite Hg; [done|]. by rewrite Hs.
Qed.

(** ** What a call answers *)

(** It was found, or it was stored by the call, between executions of others. *)
Definition outcome (g : SignedGrantRevision) (db db' : Database) : Prop :=
  exists db1 db2, execution db db1 /\ execution db2 db' /\
  ((db1 = db2 /\ exists n, findRevision (g_grant_id (sgr_payload g)) n db1 = Ok (Some g)) \/
   newly_stored g db1 db2).

Section outcomes.
Context (Hothers : forall n db, execution db (gs_others env n db)).
#[local] Set Default Proof Using "Hothers".

Lemma found_outcome id n g (db db1 : Database) : findRevision id n db1 = Ok (Some g) -> execution db db1 ->
  outcome g db db1.
Proof using Type.
  intros Hf Hs. exists db1, db1. split; [done|]. split; [apply rtc_refl|]. left. split; [done|].
  pose proof Hf as (l & r & _ & _ & Hg)%revision_found.
  apply grantFromRow_Ok in Hg as (_ & _ & _ & _ & _ & _ & _ & -> & _). by exists n.
Qed.

Lemma current_outcome id g (db db1 : Database) : findCurrentByGrantId id db1 = Ok (Some g) -> execution db db1 ->
  outcome g db db1.
Proof using Type. intros [_ [n Hf]]%current_found. by apply (found_outcome _ _ _ _ _ Hf). Qed.

Lemma outcome_before g (db0 db db' : Database) : execution db0 db -> outcome g db db' -> outcome g db0 db'.
Proof using Type.
  intros Hs (db1 & db2 & H1' & H2' & Hc). exists db1, db2. split; [by etransitivity|done].
Qed.

Lemma stored_outcome g (db db1 db' : Database) : execution db db1 -> newly_stored g db1 db' -> outcome g db db'.
Proof using Type. intros Hs Hn. exists db1, db'. split; [done|]. split; [apply rtc_refl|by right]. Qed.

Lemma tried_outcome u winner signed (db : Database) g db' :
  committed_or_won (appendAuthoritativeUpdate u (gs_started env)) winner signed db g db' -> gu_revision u = signed ->
  (forall c, gu_consent u = Some c -> consented (sgr_payload signed) c) -> authorized_by_grantor signed ->
  (forall d w, winner d = Ok (Some w) -> exists id n, findRevision id n d = Ok (Some w)) -> outcome g db db'.
Proof.
  intros Hc <- Hcons Ha Hw. destruct Hc as [[Ht ->]|(-> & (id & n & Hf)%Hw & _)].
  - eapply stored_outcome; [apply rtc_refl|]. by eapply update_stores.
  - eapply found_outcome; [exact Hf|apply Hothers].
Qed.

Lemma current_is_revision id (db : Database) w : findCurrentByGrantId id db = Ok (Some w) ->
  exists id n, findRevision id n db = Ok (Some w).
Proof using Type. intros [_ [n Hf]]%current_found. eauto. Qed.

Lemma update_consented p q sender consent : update_consent env p q sender = Ok consent ->
  forall c, consent = Some c -> consented p c.
Proof using Type.
  intros (restriction & _ & ([] & _ & ([] & _ & Hc)%bind_Ok)%bind_Ok)%bind_Ok c ->.
  destruct (_ || _) in Hc; [|done]. apply fmap_Ok in Hc as (c' & Hc & [= <-]). by apply currentConsent_Ok in Hc.
Qed.

Lemma accept_outcome input sender rep (db : Database) g db' :
  acceptUserSignedGrant env input sender rep db = (Ok g, db') -> outcome g db db'.
Proof.
  intros (account & signed & _ & Hauth & Hcases)%accept_Ok. cbn zeta in Hcases.
  apply authentic_authority in Hauth as Ha.
  set (db1 := gs_others env 1 db) in *. set (db2 := gs_others env 2 db1) in *.
  assert (H1' : execution db db1) by apply Hothers. assert (H2' : execution db1 db2) by apply Hothers.
  assert (H02 : execution db db2) by (by etransitivity).
  destruct Hcases as [(_ & -> & [Hf|Hf])|[[_ Hr]|(_ & retained & _ & [Hr|Hr])]].
  - destruct (current_outcome _ _ _ _ Hf H1') as (x & y & Hx & Hy & Hc). exists x, y.
    split; [done|]. split; [by etransitivity|done].
  - by eapply found_outcome.
  - apply accept_revocation_Ok in Hr as (current & Hcur & [(-> & _ & ->)|Hr]).
    + eapply current_outcome; [exact Hcur|]. etransitivity; [exact H02|apply Hothers].
    + eapply outcome_before; [|eapply tried_outcome; [exact Hr|done|by intros c [=]|done|]].
      * etransitivity; [exact H02|]. etransitivity; apply Hothers.
      * intros d w Hw. by eapply current_is_revision.
  - apply accept_update_Ok in Hr as (current & consent & _ & _ & Hc & Hr).
    eapply outcome_before; [|eapply tried_outcome; [exact Hr|done|by eapply update_consented|done|]].
    + etransitivity; [exact H02|apply Hothers].
    + intros d w Hw. eauto.
  - apply accept_initial_Ok in Hr as (consent & Hc%initial_consent_Ok & [(Hf & _ & ->)|(-> & Hi)]).
    + apply active_pair_found in Hf as (id & Hf & _). eapply current_outcome; [exact Hf|].
      etransitivity; [exact H02|apply Hothers].
    + eapply stored_outcome; [|by eapply insert_stores]. etransitivity; [exact H02|]. etransitivity; apply Hothers.
Qed.

Lemma serve_outcome call (db : Database) g db' : serve call db = (Ok g, db') -> outcome g db db'.
Proof.
  destruct call as [input sender definition|input id reviewed|input p signingKey|input sender rep]; cbn [serve].
  - intros (account & key & evidence & consent & scope & message & _ & _ & Hk & Ho & Hc)%createOrReuse_Ok. cbn zeta in Hc.
    destruct Hc as [(Hf & _ & ->)|(grantId & n & [Hg Hv]%grant_signed_Ok & Hi)].
    + apply active_pair_found in Hf as (id & Hf & _). eapply current_outcome; [exact Hf|apply Hothers].
    + eapply stored_outcome; [etransitivity; apply Hothers|]. eapply insert_stores; [exact Hi|..]; rewrite Hg; cbn.
      * by apply (proj2 (offered_sender_Ok _ _ _ _ _ Ho)).
      * apply bind_Ok in Hk as (k & _ & (resolved & Hr & ([] & Hb%throw_if_Ok & [= <- <-])%bind_Ok)%bind_Ok).
        apply orb_false_iff in Hb as [Hi'%negb_false_iff%jstr_eqb_eq Hb%negb_false_iff%jstr_eqb_eq].
        split; cbn; [by exists resolved|done].
  - intros (account & current & _ & _ & Hcur & _ & Hgr & _ & [(_ & -> & ->)|(_ & Hs & Hu)])%revoke_Ok.
    + eapply current_outcome; [exact Hcur|apply Hothers].
    + apply sign_revocation_Ok in Hs as (key & resolved & updatedAt & Hr & Hk & Hb & _ & Hg & Hv).
      eapply stored_outcome; [etransitivity; apply Hothers|]. change g with (gu_revision (follows_with g current None)).
      eapply update_stores; [exact Hu|by intros c [=]|]. cbn [gu_revision follows_with]. rewrite Hg.
      split; cbn; rewrite Hgr; [by exists resolved|done].
  - unfold updateManaged. intros Hr. apply bind_Act in Hr as (account & db1 & Hx & Hr). apply localAccount_Ok in Hx as [-> _].
    destruct (settled account); cbn [negb] in Hr; [|discriminate Hr].
    apply bind_Act in Hr as (signed & db1 & Hx & Hr). apply act_Ok in Hx as [_ ->].
    apply bind_Act in Hr as ([] & db1 & ->%others_Ok & Hr).
    eapply outcome_before; [apply Hothers|]. by eapply accept_outcome.
  - apply accept_outcome.
Qed.

Lemma outcome_kept g (db db' : Database) : grants_reachable db -> outcome g db db' -> checked g /\
  keeps_revision (g_grant_id (sgr_payload g)) (g_revision (sgr_payload g)) (sgr_representation g) db'.
Proof using Type.
  intros Hr (db1 & db2 & H1' & H2' & Hc).
  pose proof (reachable_ok _ (grants_reachable_steps _ _ Hr H1')) as Hok1.
  assert (Hkept : checked g /\ grants_ok db2 /\
    keeps_revision (g_grant_id (sgr_payload g)) (g_revision (sgr_payload g)) (sgr_representation g) db2).
  { destruct Hc as [[<- [n Hf]]|[[Hb|Ha] _ _]].
    - apply revision_found in Hf as (l & r & _ & Hrow & Hg).
      apply grantFromRow_Ok in Hg as (o & Ho & Hp & Hcose & Hn & _ & _ & _ & Hd). split.
      + split; [exists o; by rewrite Hcose|done].
      + split; [done|]. exists r. by rewrite Hn.
    - split; [apply Hb|]. split; [by eapply begins_ok|]. destruct Hb as [_ [Hn _] _ _ _ Hrows].
      exists (revision_row g). rewrite Hrows, Hn. tables. split; [apply insert_same|done].
    - split; [apply Ha|]. split; [by eapply advanced_ok|]. destruct Ha as [_ _ _ _ Hrows].
      exists (revision_row g). rewrite Hrows. tables. split; [apply insert_same|done]. }
  destruct Hkept as (Hck & Hok2 & r & Hrow & Hcose). split; [done|]. exists r. split; [|done].
  by apply (steps_history _ _ Hok2 H2').
Qed.
End outcomes.
End rules.

(** ** The guarantees *)

Section guarantees.
Context `{HailEnv} `{Cborg} `{Keys} `{Triggers} `{GrantAuthority} `{NodeUrl}.
Context (env : grant_service_env) (Hothers : forall n db, execution db (gs_others env n db)).
#[local] Set Default Proof Using "Hothers".

(** C29: The service only does what lineages allow: every call, in every state the provider reaches,
    whether it answers or throws and whatever other processes do between its statements, is an execution
    of the transactions of the repository, so that every lineage stays a chain; and the revision that it
    answers is one whose representation decodes to it, with its digest, and that the provider keeps
    under its number as it was signed. *)
Theorem service_refines call db : grants_reachable db ->
  execution db (serve env call db).2 /\ grants_ok (serve env call db).2 /\
  forall g, (serve env call db).1 = Ok g -> checked g /\
    keeps_revision (g_grant_id (sgr_payload g)) (g_revision (sgr_payload g)) (sgr_representation g)
      (serve env call db).2.
Proof.
  intros Hr. pose proof (serve_executes env call Hothers db) as Hs. split; [done|].
  split; [apply reachable_ok; by eapply grants_reachable_steps|].
  intros g Hg. apply (outcome_kept env g db _ Hr). apply (serve_outcome env Hothers call).
  destruct (serve env call db) as [r db']. cbn in Hg |- *. by rewrite Hg.
Qed.

(** No authority without a reason: a revision that a call answers was stored already, or the call
    stored it in a transaction; then it is signed by the key that the directory names for its grantor,
    whom this provider serves, and either the sender's address and profile were verified, are of one
    sender, are the ones the grant names, and the profile offers every category that is granted, or the
    revision keeps the consent of its predecessor in the lineage and permits no more than it does. *)
Theorem authority_justified call db g db' : serve env call db = (Ok g, db') ->
  exists db1 db2, execution db db1 /\ execution db2 db' /\
  ((db1 = db2 /\ exists n, findRevision (g_grant_id (sgr_payload g)) n db1 = Ok (Some g)) \/
   ((begins g db1 db2 \/ advanced g db1 db2) /\ authorized_by_grantor env g /\
    ((exists c, consented env (sgr_payload g) c) \/
     (exists q, findCurrentByGrantId (g_grant_id (sgr_payload g)) db1 = Ok (Some q) /\
        narrows (sgr_payload q) (sgr_payload g))))).
Proof.
  intros (db1 & db2 & H1' & H2' & Hc)%(serve_outcome env Hothers). exists db1, db2.
  do 2 (split; [done|]). destruct Hc as [Hf|[Hst Ha Hj]]; [by left|by right].
Qed.

(** ** What is issued *)

(** The categories a request selects. *)
Definition selects (scope : hvalue) (texts : list jstr) : Prop := exists n m,
  scope = HMap n m /\ field m "type" = Some (HStr (js "categories")) /\ length m = 2%nat /\
  field m "values" = Some (HArr (map HStr texts)) /\ texts <> [] /\ NoDup texts /\
  Forall (fun category => rx_test CATEGORY_PATTERN category = true) texts.

Lemma normalizeScope_Ok scope s : normalizeScope scope = Ok s -> exists texts,
  selects scope texts /\ scope_values s = sort_by utf8_le texts.
Proof using Type.
  unfold normalizeScope. destruct scope as [| | | | | |n m]; try done.
  destruct (selected_categories m) as [texts|] eqn:Hs; [|done]. intros [= <-]. unfold selected_categories in Hs.
  destruct (field m "type") as [[| | |type| | |]|] eqn:Ht; try done.
  destruct (field m "values") as [[| | | | |values|]|] eqn:Hv; try done.
  destruct (_ || _) eqn:Hb in Hs; [done|].
  apply orb_false_iff in Hb as [->%negb_false_iff%jstr_eqb_eq Hlen%negb_false_iff%Nat.eqb_eq].
  apply bind_Some in Hs as (ts & Hts & Hs). destruct ts as [|t ts]; [done|].
  destruct (_ && _) eqn:Hb in Hs; [|done]. injection Hs as <-.
  apply andb_true_iff in Hb as [Hnd%bool_decide_eq_true Hf].
  exists (t :: ts). split; [|done]. exists n, m. repeat (split; [done|]). split.
  { rewrite Hv. do 2 f_equal. clear - Hts. revert values Hts. generalize (t :: ts). induction l as [|x l IH]; intros values Hts.
    - apply mapM_Some_1, Forall2_length in Hts. by destruct values.
    - destruct values as [|v values]; [done|]. cbn in Hts. apply bind_Some in Hts as (y & Hy & Hts).
      apply bind_Some in Hts as (l' & Hl & [= -> ->]). destruct v; try done. injection Hy as ->.
      cbn. f_equal. by apply IH. }
  split; [done|]. split; [done|].
  apply Forall_forall. intros c Hin%list_elem_of_In. by apply (proj1 (List.forallb_forall _ _) Hf).
Qed.

(** C30: What is issued is what was asked for: when a provider answers the request of an account for a
    permission, then the answer is the current revision of an active lineage from the DID of this
    account to the DID that the sender's verified address names; it permits exactly the categories that
    were selected, in the canonical order, all of which the sender's verified profile offers, until
    exactly the instant that was asked for; and it names the digests of this address and profile. *)
Theorem issued_as_asked input sender definition db g db' : grants_reachable db ->
  createOrReuse env input sender definition db = (Ok g, db') -> exists account c l categories,
  names_account env input account db /\ settled account = true /\
  (exists canonical, gs_verifyAddress env canonical = Ok (address c)) /\
  gs_verifyProfile env (va_did (address c)) = Ok (senderProfile c) /\
  db' grant_lineages !! g_grant_id (sgr_payload g) = Some l /\ l_active l = true /\
  l_current_revision l = g_revision (sgr_payload g) /\ g_status (sgr_payload g) = grant_active /\
  g_grantor (sgr_payload g) = a_did account.2 /\ g_grantee (sgr_payload g) = va_did (address c) /\
  selects (gd_scope definition) categories /\
  scope_values (g_scope (sgr_payload g)) = sort_by utf8_le categories /\
  (forall category, category ∈ categories -> offered (vp_profile (senderProfile c)) category = true) /\
  g_expires_at (sgr_payload g) = gd_expiresAt definition /\
  binding_hash (sgr_payload g) = va_digest (address c) /\
  profile_hash (sgr_payload g) = vp_digest (senderProfile c).
Proof.
  intros Hr (account & key & evidence & c & scope & message & Hacc & Hs & _ & Ho & Hc)%createOrReuse_Ok. cbn zeta in Hc.
  apply offered_sender_Ok in Ho as [Hn Hcons]. exists account, c.
  destruct (Hcons (wanted_grant env account c scope definition []) eq_refl eq_refl eq_refl) as [Ha Hp _ _ _ [_ Hoff]].
  cbn [wanted_grant initial_grant g_scope] in Hoff.
  destruct (normalizeScope_Ok _ _ Hn) as (texts & Hsel & Hsort).
  assert (Hall : forall category, category ∈ texts -> offered (vp_profile (senderProfile c)) category = true).
  { intros category Hin. rewrite Forall_forall in Hoff. apply Hoff. by rewrite Hsort, sort_by_perm. }
  destruct Hc as [(Hf & Hd & ->)|(grantId & n & [Hg _]%grant_signed_Ok & Hi%insertAuthoritativeRevision1_change)].
  - apply active_pair_found in Hf as (id & Hcur & _ & l & Hl & Hact & Hgr & Hge). exists l, texts.
    apply find_current_Ok in Hcur as (l' & r & Hl' & Hrow & Hg). pose proof (eq_trans (eq_sym Hl) Hl') as [= <-].
    pose proof (reachable_ok _ (grants_reachable_steps _ _ Hr (Hothers 0%nat db))) as Hok.
    pose proof (go_lineage _ Hok _ _ Hl) as Hlin. destruct (lo_signed _ _ _ Hlin _ _ Hrow) as (i & Hck & Hri & _ & _ & Hig & Hie).
    destruct (lo_last _ _ _ Hlin _ Hrow) as [_ Hst]. rewrite Hact in Hst. symmetry in Hst. apply bool_decide_eq_true in Hst.
    apply grantFromRow_Ok in Hg as (o & Hobj & Hpay & _ & Hrev & _ & _ & Hid & _).
    assert (Hsame : sgr_payload g = sgr_payload i).
    { destruct Hck as [(o' & Ho' & Hp') _]. rewrite Hri in Hobj. cbn [revision_row gr_cose] in Hobj.
      rewrite Ho' in Hobj. apply Ok_eq in Hobj as <-. congruence. }
    unfold same_definition in Hd. rewrite !andb_true_iff in Hd.
    destruct Hd as [[[[_ He%bool_decide_eq_true] Hsc%bool_decide_eq_true] Hbh%bool_decide_eq_true] Hph%bool_decide_eq_true].
    rewrite Hid. repeat (split; [done|]). split; [by rewrite Hsame; rewrite Hri in Hst|]. split; [congruence|].
    split; [congruence|]. split; [done|]. split; [by rewrite Hsc|]. repeat (split; [done|]). done.
  - destruct Hi as [_ _ _ _ Hlin _]. rewrite Hg in Hlin |- *. cbn [signed_revision sgr_payload] in *.
    exists (lineage_row g), texts. repeat (split; [done|]). rewrite Hlin. tables. rewrite Hg. split; [apply insert_same|]. done.
Qed.
End guarantees.
