(* ===== verification/GrantWithdrawal.v ===== *)
(** * Permissions can be withdrawn

    What a provider signs reads as the grant it signed; a revocation that is answered has ended the
    lineage; and as long as the account's key signs, a revocation succeeds, whatever the provider of the
    sender does. *)

From S2P Require Import Prelude JsString Regex Value Rfc8949 Cbor Profiles Validation ValidatePayload Models.
From S2P Require Import Invariance Identity Cose CoseRules WebCrypto Database Typed Conversations Envelopes.
From S2P Require Import DeliveryRules Receiver Status Grants GrantRules GrantReceiver PublisherRules GrantExchange.
From S2P Require Import GrantArrival ServiceRules GrantService GrantServiceRules.
From Stdlib Require Import ZArith.
Open Scope Z_scope.

(** ** Typed reading of a grant *)

#[local] Hint Resolve reader_string reader_number reader_bytes reader_enum reader_digest : readers.

Lemma reader_nullable {A} (f : hvalue -> option A) : reader f -> reader (as_nullable f).
Proof.
  intros Hf v w Hs. pose proof (Hf _ _ Hs) as He. inversion Hs as [u| |]; subst; [done|by cbn; rewrite He..].
Qed.
Lemma reader_list {A} (f : hvalue -> option A) : reader f -> reader (as_list f).
Proof.
  intros Hf v w Hs. inversion Hs as [|l l' Hl|]; subst; [done| |done]. cbn.
  induction Hl as [|x y l l' Hxy _ IH]; [done|]. cbn. rewrite (Hf _ _ Hxy).
  destruct (f y); cbn; [|done]. rewrite IH; [done|]. inversion Hs as [|? ? Hl'|]; subst; [done|].
  constructor. by inversion Hl'.
Qed.
Lemma reader_singleton {A} (f : hvalue -> option A) : reader f -> reader (as_singleton f).
Proof. intros Hf v w Hs. unfold as_singleton. by rewrite (reader_list f Hf _ _ Hs). Qed.
#[local] Hint Resolve reader_nullable reader_list reader_singleton : readers.

Lemma reader_scope : reader as_HailGrantScope.
Proof. apply reader_record. intros r r' Hs. read_same Hs. Qed.
Lemma reader_consent : reader as_HailConsentContext.
Proof. apply reader_record. intros r r' Hs. read_same Hs. Qed.
#[local] Hint Resolve reader_scope reader_consent : readers.
Lemma reader_grant : reader as_HailGrant.
Proof. apply reader_record. intros r r' Hs. read_same Hs. Qed.

Lemma read_texts texts : as_list as_string (HArr (map HStr texts)) = Some texts.
Proof. unfold as_list. induction texts as [|t texts IH]; [done|]. cbn in *. by rewrite IH. Qed.

Lemma read_scope s : as_HailGrantScope (scope_value s) = Some s.
Proof.
  destruct s as [vs]. unfold as_HailGrantScope, scope_value. cbn [as_record mbind option_bind scope_values].
  change (req [(js "type", HStr (js "categories")); (js "values", HArr (map HStr vs))] "values" (as_list as_string))
    with (as_list as_string (HArr (map HStr vs))).
  by rewrite read_texts.
Qed.

Lemma read_grant g : as_HailGrant (grant_object g) = Some g.
Proof.
  destruct g as [id n prev gr ge s st i u e [ca [cb] [cp]] k].
  assert (Hs : as_singleton as_HailGrantScope (HArr [scope_value s]) = Some s).
  { unfold as_singleton, as_list. cbn [mapM]. by rewrite read_scope. }
  unfold as_HailGrant, grant_object. cbn [as_record mbind option_bind g_scope].
  match goal with |- context [req ?r "scope" ?f] => change (req r "scope" f) with (f (HArr [scope_value s])) end.
  rewrite Hs. by destruct prev, st, e.
Qed.

Lemma grant_object_wf g : hail_wf (grant_object g) = true.
Proof.
  destruct g as [id n prev gr ge [vs] st i u e [ca [cb] [cp]] k].
  assert (Hs : hail_wf (HArr [scope_value {| scope_values := vs |}]) = true).
  { cbn. rewrite bool_decide_eq_true_2 by (repeat constructor; set_solver). rewrite andb_true_r. cbn [andb].
    rewrite andb_true_r. by induction vs. }
  unfold grant_object. cbn [hail_wf g_scope]. apply andb_true_iff. split; [vm_compute; reflexivity|].
  cbn [forallb snd]. rewrite Hs. by destruct prev, st, e.
Qed.

Section withdrawal.
Context `{HailEnv} `{CborgSpec} `{Keys} `{Triggers} `{GrantAuthority} `{NodeUrl}.
#[local] Set Default Proof Using "Type*".

(** What a provider signs reads as the grant it signed. *)
Lemma sign_checked env account key p evidence n g : GrantService.sign env account key p evidence n = Ok g ->
  checked g /\ sgr_payload g = p.
Proof.
  intros Hs. pose proof Hs as [Hg _]%grant_signed_Ok. split; [|by rewrite Hg].
  apply bind_Ok in Hs as ([] & _ & ([] & _ & ([] & _ & (secret & _ & (private & _ & (signer & _ & (rep & Hs & Hv)%bind_Ok)%bind_Ok)%bind_Ok)%bind_Ok)%bind_Ok)%bind_Ok).
  apply bind_Ok in Hv as (public & _ & (object & Hv & [= Hr])%bind_Ok).
  pose proof (verifySigned_inspects _ _ _ _ Hv) as Hi.
  destruct (signed_reads Profiles.grant (grant_object p) signer rep object ltac:(done) (grant_object_wf p) Hs Hi) as (_ & Hsame & _).
  rewrite <- Hr. split; [|done]. cbn [signed_revision sgr_representation sgr_payload]. unfold inspectTyped. rewrite Hi.
  cbn [mbind result_bind]. unfold typed. cbn [as_payload].
  rewrite <- (reader_grant _ _ Hsame), read_grant. by eexists.
Qed.

(** ** A revocation that is answered *)

(** What was reviewed is what the revocation follows, or the revocation itself. *)
Definition follows_review (reviewed : option (Z * bytes)) (g : SignedGrantRevision) : Prop :=
  forall n digest, reviewed = Some (n, digest) ->
    (g_revision (sgr_payload g) = n /\ sgr_digest g = digest) \/
    (g_revision (sgr_payload g) = n + 1 /\ g_previous (sgr_payload g) = Some digest).

Lemma review_holds_Ok reviewed current : review_holds reviewed current = true -> forall n digest,
  reviewed = Some (n, digest) -> g_revision (sgr_payload current) = n /\ sgr_digest current = digest.
Proof using Type.
  unfold review_holds. intros Hr n digest ->. by apply andb_true_iff in Hr as [->%Z.eqb_eq ->%Cbor.equalBytes_eq].
Qed.

Lemma revoke_ends env input id reviewed db g db' : (forall n d, execution d (gs_others env n d)) ->
  grants_reachable db -> revoke env input id reviewed db = (Ok g, db') ->
  g_grant_id (sgr_payload g) = id /\ g_status (sgr_payload g) = grant_revoked /\ follows_review reviewed g /\
  exists account l, names_account env input account db /\ settled account = true /\
    db' grant_lineages !! id = Some l /\ l_active l = false /\ l_grantor_did l = a_did account.2 /\
    l_current_revision l = g_revision (sgr_payload g) /\ l_current_digest l = sgr_digest g /\
    keeps_revision id (g_revision (sgr_payload g)) (sgr_representation g) db'.
Proof.
  intros Hothers Hr (account & current & Hacc & Hset & Hcur & Hrole & Hgr & Hrev & Hc)%revoke_Ok.
  pose proof (reachable_ok _ (grants_reachable_steps _ _ Hr (Hothers 0%nat db))) as Hok.
  pose proof (review_holds_Ok _ _ Hrev) as Hrev'. pose proof Hcur as (l & r & Hl & Hrow & Hg)%find_current_Ok.
  pose proof (go_lineage _ Hok _ _ Hl) as Hlin. destruct (lo_last _ _ _ Hlin _ Hrow) as [Hdig Hact].
  destruct (lo_signed _ _ _ Hlin _ _ Hrow) as (i & Hck & Hri & _ & _ & Hig & _).
  apply grantFromRow_Ok in Hg as (o & Ho & Hp & Hcose & Hn & Hd & _ & Hid & _).
  assert (Hsame : sgr_payload current = sgr_payload i).
  { destruct Hck as [(o' & Ho' & Hp') _]. rewrite Hri in Ho. cbn [revision_row gr_cose] in Ho.
    rewrite Ho' in Ho. apply Ok_eq in Ho as <-. congruence. }
  assert (Hstatus : gr_status r = g_status (sgr_payload current)) by (by rewrite Hsame, Hri).
  destruct Hc as [(Hst & -> & ->)|(Hst & Hs & Hu)].
  - repeat (split; [done|]). split; [intros n digest Hx; left; by apply Hrev'|].
    exists account, l. repeat (split; [done|]). split; [by rewrite Hact, Hstatus, Hst|].
    split; [congruence|]. repeat (split; [congruence|]). exists r. by rewrite Hn.
  - apply sign_revocation_Ok in Hs as (key & resolved & updatedAt & _ & _ & _ & _ & Hg & _).
    pose proof (appendAuthoritativeUpdate_change _ _ _ _ _ Hu) as [_ (l1 & c1 & Hl1 & _ & Hgl & _) _ Hlins Hrows].
    cbn [gu_revision follows_with] in *. rewrite Hg in Hlins, Hrows, Hl1, Hgl |- *.
    cbn [signed_revision sgr_payload sgr_representation sgr_digest revocation_of successor g_grant_id g_revision g_status
      g_previous g_grantor] in *.
    split; [done|]. split; [done|]. split.
    { intros n digest Hx. right. destruct (Hrev' _ _ Hx) as [<- <-]. done. }
    exists account. eexists. repeat (split; [done|]). rewrite Hlins. rewrite Hid in *. tables. split.
    { rewrite update_same, Hl1. reflexivity. }
    cbn. split; [done|]. split; [congruence|]. repeat (split; [done|]).
    eexists. rewrite Hrows. tables. split; [apply insert_same|]. done.
Qed.

(** C31: What is answered as revoked is revoked: when a provider answers the request of an account to take
    a permission back, then the lineage of this identifier, which the account's DID granted, is not
    active any more; the answer is its last revision, which says so, is kept as it was signed, and
    follows the revision the account had reviewed (or is that revision). *)
Theorem withdrawn env input id reviewed db g db' : (forall n d, execution d (gs_others env n d)) ->
  grants_reachable db -> revoke env input id reviewed db = (Ok g, db') ->
  g_grant_id (sgr_payload g) = id /\ g_status (sgr_payload g) = grant_revoked /\ follows_review reviewed g /\
  exists account l, names_account env input account db /\ settled account = true /\
    db' grant_lineages !! id = Some l /\ l_active l = false /\ l_grantor_did l = a_did account.2 /\
    l_current_revision l = g_revision (sgr_payload g) /\ l_current_digest l = sgr_digest g /\
    keeps_revision id (g_revision (sgr_payload g)) (sgr_representation g) db'.
Proof. apply revoke_ends. Qed.
End withdrawal.

(** ** A revocation succeeds *)

Section availability.
Context `{HailEnv} `{CborgSpec} `{Keys} `{Triggers} `{GrantAuthority} `{NodeUrl}.
#[local] Set Default Proof Using "Type*".
Context (Hfree : unrefused) (Hretain : forall input consent db, retainPublicGrantAuthority input consent db = Ok tt).

Definition revocation_time (env : grant_service_env) (current : SignedGrantRevision) : Z :=
  Z.max (GrantService.now env 0) (g_updated_at (sgr_payload current) + 1).

(** What withdrawing a permission takes: the account and its active grant, a key that the directory names
    and that signs, a clock that is at most five minutes behind the grant, and that no digest collides. *)
Record can_withdraw (env : grant_service_env) (input id : jstr) (account : account_record)
    (current : SignedGrantRevision) (db : Database) : Prop := {
  cw_quiet n d : gs_others env n d = d;
  cw_account : names_account env input account db;
  cw_settled : settled account = true;
  cw_current : findCurrentByGrantId id db = Ok (Some current);
  cw_own : owned_by account.1 current = true;
  cw_active : g_status (sgr_payload current) = grant_active;
  cw_grantor : g_grantor (sgr_payload current) = a_did account.2;
  cw_clock : g_updated_at (sgr_payload current) + 1 <= GrantService.now env 0 + 300;
  cw_key : exists key resolved g, gs_getKey env account.1 (js "hail-identity") = Ok key /\
    sgr_signing_key current = k_publicKey key /\ gs_resolve env (a_did account.2) = Ok resolved /\
    identityDidKey resolved = k_publicKey key /\ serviceBase resolved = gs_serviceBase env /\
    GrantService.sign env account key (revocation_of current (a_did account.2) (revocation_time env current))
      (resolved_evidence resolved) 1 = Ok g /\
    forall n r, db grant_revisions !! (id, n) = Some r -> gr_digest r <> sgr_digest g;
  cw_scope : is_ok (encodeDeterministic DEFAULT_HAIL_RESOURCE_LIMITS (of_hail (scope_array (sgr_payload current)))) = true;
  cw_published : is_Some (first_publication id db);
  cw_unpublished : db grant_publications !! (id, g_revision (sgr_payload current) + 1) = None;
}.

Lemma local_account_named env input account (db : Database) : names_account env input account db ->
  localAccount env input db = (Ok account, db).
Proof using Type.
  unfold names_account, localAccount. destruct (starts_with _ _).
  - intros Ha. unfold mbind, Act_bind, act. by rewrite Ha.
  - intros (address & Hc & Ha). unfold act. rewrite Hc. cbn [mbind result_bind]. by rewrite Ha.
Qed.

Lemma revocation_restricts current did t :
  is_ok (encodeDeterministic DEFAULT_HAIL_RESOURCE_LIMITS (of_hail (scope_array (sgr_payload current)))) = true ->
  restrictsAuthorization (sgr_payload current) (revocation_of current did t) = Ok true.
Proof using Type.
  intros He. unfold restrictsAuthorization, expandsAuthorization, equalGrantValue. cbn [revocation_of successor g_status].
  change (scope_array (revocation_of current did t)) with (scope_array (sgr_payload current)).
  destruct (encodeDeterministic _ _) as [bs|]; [|done]. cbn [mbind result_bind g_expires_at].
  rewrite bool_decide_eq_true_2 by done. by rewrite orb_true_r.
Qed.

(** The revocation is stored and queued. *)
Lemma append_revocation account current did key t g started (db : Database) : grants_ok db ->
  findCurrentByGrantId (g_grant_id (sgr_payload current)) db = Ok (Some current) ->
  owned_by account current = true -> g_status (sgr_payload current) = grant_active ->
  g_updated_at (sgr_payload current) < t -> sgr_signing_key current = key ->
  is_ok (encodeDeterministic DEFAULT_HAIL_RESOURCE_LIMITS (of_hail (scope_array (sgr_payload current)))) = true ->
  checked g -> g = signed_revision account (revocation_of current did t) (sgr_representation g) key ->
  (forall n r, db grant_revisions !! (g_grant_id (sgr_payload current), n) = Some r -> gr_digest r <> sgr_digest g) ->
  is_Some (first_publication (g_grant_id (sgr_payload current)) db) ->
  db grant_publications !! (g_grant_id (sgr_payload current), g_revision (sgr_payload current) + 1) = None ->
  exists db', appendAuthoritativeUpdate (follows_with g current None) started db = Ok (tt, db') /\
    is_Some (db' grant_publications !! (g_grant_id (sgr_payload current), g_revision (sgr_payload current) + 1)).
Proof.
  intros Hok Hcur Hown Hst Ht Hkey Henc Hck Hg Hdig [f Hf] Hpub. set (id := g_grant_id (sgr_payload current)) in *.
  apply andb_true_iff in Hown as [Hrole%bool_decide_eq_true Hacc%jstr_eqb_eq].
  pose proof Hcur as (l & r & Hl & Hrow & Hgr)%find_current_Ok. pose proof (go_lineage _ Hok _ _ Hl) as Hlin.
  destruct (lo_last _ _ _ Hlin _ Hrow) as [Hld Hact].
  destruct (lo_signed _ _ _ Hlin _ _ Hrow) as (i & Hcki & -> & Hidi & Hni & Hig & Hie).
  assert (Hrowi : grantFromRow id (l_current_revision l) l (revision_row i) = Ok {|
      sgr_account := l_local_account_id l; sgr_role := if l_grantor_role l then RoleGrantor else RoleGrantee;
      sgr_payload := sgr_payload i; sgr_representation := sgr_representation i; sgr_digest := sgr_digest i;
      sgr_signing_key := sgr_signing_key i |}) by (rewrite <- Hidi, <- Hni; by apply grantFromRow_row).
  rewrite Hrowi in Hgr. apply Ok_eq in Hgr.
  assert (Hpi : sgr_payload current = sgr_payload i) by by rewrite <- Hgr.
  assert (Hdi : sgr_digest current = sgr_digest i) by by rewrite <- Hgr.
  assert (Hli : l_local_account_id l = account) by by rewrite <- Hacc, <- Hgr.
  assert (Hlr : l_grantor_role l = true) by (rewrite <- Hgr in Hrole; cbn in Hrole; by destruct (l_grantor_role l)).
  clear Hgr Hrowi. cbn [revision_row gr_status gr_digest] in Hact, Hld. rewrite <- Hpi in Hidi, Hni, Hig, Hie, Hact. rewrite <- Hdi in Hld. set (p := sgr_payload g) in *.
  assert (Hp : p = revocation_of current did t) by (unfold p; by rewrite Hg).
  assert (Hid : g_grant_id p = id) by by rewrite Hp.
  assert (Hn : g_revision p = g_revision (sgr_payload current) + 1) by by rewrite Hp.
  assert (Haccg : sgr_account g = account) by by rewrite Hg.
  assert (Hroleg : sgr_role g = RoleGrantor) by by rewrite Hg.
  assert (Hkeyg : sgr_signing_key g = key) by by rewrite Hg.
  clear Hg.
  set (db1 := set grant_lineages (update_row id (advance_lineage g) (db grant_lineages)) db).
  set (db2 := set grant_revisions (<[(id, g_revision p) := revision_row g]> (db1 grant_revisions)) db1).
  assert (Hnext : db grant_revisions !! (id, g_revision p) = None).
  { apply eq_None_not_Some. intros Hs%(lo_rows _ _ _ Hlin). lia. }
  assert (Hrev : insertRevision g db1 = Ok (tt, db2)).
  { unfold db2. rewrite <- Hid. apply (insertRevision_fresh Hfree); fold p; rewrite Hid.
    - intros n r. unfold db1. rewrite set_ne by done. apply Hdig.
    - unfold db1. by rewrite set_ne. }
  assert (Hfirst : first_publication id db2 = Some f).
  { unfold first_publication, db2, db1. rewrite !set_ne by done. exact Hf. }
  assert (Hexp : expected_lineage (follows_with g current None) db l = true).
  { unfold expected_lineage. cbn [follows_with gu_revision gu_expectedCurrentRevision gu_expectedCurrentDigest].
    fold p. rewrite Hid, Hrow, Haccg, Hli, Hlr, Hact, Hst, Hld, Hni, Hp. cbn [revocation_of successor g_grantor g_grantee g_updated_at].
    rewrite <- Hig, <- Hie, !jstr_eqb_refl, Z.eqb_refl, !bool_decide_eq_true_2 by done. cbn [andb revision_row gr_updated_at].
    rewrite <- Hpi. lia. }
  assert (Hcheck : check_update (follows_with g current None) (Some current) = Ok tt).
  { unfold check_update. cbn [follows_with gu_revision gu_consent]. fold p.
    rewrite Haccg, Hacc, Hrole, Hst, Hkeyg, Hkey, Hp, !jstr_eqb_refl.
    cbn [revocation_of successor g_issued_at g_consent_context]. rewrite Z.eqb_refl, !bool_decide_eq_true_2 by done.
    cbn [negb orb throw_if mbind result_bind].
    change (successor _ _ _ _ _ _) with (revocation_of current did t). rewrite revocation_restricts by done.
    done. }
  eexists. split.
  - unfold appendAuthoritativeUpdate. cbn [follows_with gu_revision gu_expectedCurrentRevision gu_expectedCurrentDigest gu_consent gu_destination].
    fold p. apply bind_Tx. exists tt, db. split; [by rewrite checkedInput_role|].
    apply bind_Tx. exists tt, db. split.
    { apply throwing_Tx. split; [|done]. rewrite Hn, Z.eqb_refl, Hp. cbn [revocation_of successor g_previous].
      by rewrite bool_decide_eq_true_2. }
    rewrite Hid. apply bind_Tx. exists (Some current), db. split; [by rewrite Hcur|].
    apply bind_Tx. exists tt, db. split; [apply throwing_Tx; split; [exact Hcheck|done]|].
    apply bind_Tx. exists true, db. split; [apply query_Tx; split; [by rewrite Hl|done]|]. cbn [negb].
    apply bind_Tx. exists tt, db1. split; [unfold write; by rewrite Hfree|].
    apply bind_Tx. exists tt, db2. split; [exact Hrev|].
    apply bind_Tx. exists tt, db2. split; [by rewrite Hretain|].
    apply bind_Tx. exists tt, db2. split; [done|].
    apply bind_Tx. exists (Some f), db2. split; [apply query_Tx; split; [by rewrite Hfirst|done]|].
    unfold insertPublication. apply (insert_unique_fresh Hfree). rewrite Hid, Hn. unfold db2, db1. by rewrite !set_ne.
  - rewrite set_eq. tables. rewrite Hid, Hn, insert_same. by eexists.
Qed.

(** C32: A permission can always be taken back: if an account has an active grant and its key still signs,
    then its request to revoke the grant succeeds in every state the provider reaches, whatever the
    provider of the sender publishes, and whether it can be reached at all; the lineage has ended with
    the revocation, and the revocation is queued for that provider. *)
Theorem withdrawal_available env input id account current db : grants_reachable db ->
  can_withdraw env input id account current db -> exists g db' l,
  revoke env input id None db = (Ok g, db') /\ g_status (sgr_payload g) = grant_revoked /\
  g_revision (sgr_payload g) = g_revision (sgr_payload current) + 1 /\
  db' grant_lineages !! id = Some l /\ l_active l = false /\ l_current_digest l = sgr_digest g /\
  is_Some (db' grant_publications !! (id, g_revision (sgr_payload g))).
Proof.
  intros Hr [Hq Hacc Hset Hcur Hown Hact Hgr Hclock (key & resolved & g & Hk & Hsk & Hres & Hik & Hbase & Hs & Hdig) Henc Hpub Hunpub].
  pose proof (reachable_ok _ Hr) as Hok. destruct (current_found _ _ _ Hcur) as [Hid _].
  set (t := revocation_time env current) in *. assert (Ht : t = Z.max (GrantService.now env 0) (g_updated_at (sgr_payload current) + 1)) by done.
  pose proof (sign_checked _ _ _ _ _ _ _ Hs) as [Hck Hp].
  pose proof (proj1 (grant_signed_Ok _ _ _ _ _ _ _ Hs)) as Hg. rewrite <- Hid in *.
  destruct (append_revocation account.1 current (a_did account.2) (k_publicKey key) t g (gs_started env) db Hok Hcur Hown Hact) as (db' & Hu & Hq');
    try done; [lia|].
  pose proof (appendAuthoritativeUpdate_change _ _ _ _ _ Hu) as [_ (l & c & Hl & _) _ Hlins _].
  cbn [gu_revision follows_with] in *. rewrite Hp in Hl, Hlins. cbn [revocation_of successor g_grant_id] in Hl, Hlins.
  exists g, db', (advance_lineage g l). split.
  - unfold revoke, others, mbind, Act_bind, act, meanwhile. rewrite (local_account_named _ _ _ _ Hacc), Hset. cbn [negb].
    rewrite !Hq, Hcur. apply andb_true_iff in Hown as [Hrole _]. rewrite Hrole, Hgr, jstr_eqb_refl. cbn [negb orb review_holds].
    unfold is_active. rewrite bool_decide_eq_true_2 by done. cbn [negb].
    assert (Hsr : sign_revocation env account current = Ok g).
    { unfold sign_revocation. rewrite Hk. cbn [mbind result_bind]. rewrite Hres. cbn [mbind result_bind].
      rewrite Hsk, Hik, Hbase, !jstr_eqb_refl. cbn [negb orb refuse_if throw_if mbind result_bind]. rewrite <- Ht.
      destruct (Z.ltb_spec (GrantService.now env 0 + 300) t); [lia|]. exact Hs. }
    assert (Hrevoked : appendAuthoritativeRevocation (follows_with g current None) (gs_started env) db = Ok (tt, db')).
    { unfold appendAuthoritativeRevocation. rewrite bool_decide_eq_true_2; [exact Hu|]. cbn [follows_with gu_revision]. by rewrite Hp. }
    rewrite Hsr, !Hq. unfold begin. by rewrite Hrevoked.
  - rewrite Hp. cbn [revocation_of successor g_status g_revision]. do 2 (split; [done|]). split.
    { rewrite Hlins. tables. rewrite update_same, Hl. reflexivity. }
    cbn [advance_lineage l_active l_current_digest]. rewrite Hp. done.
Qed.
End availability.

