(* ===== verification/GrantServiceScenario.v ===== *)
(** * A permission is issued and taken back

    Alice's provider issues a grant to Bob, whose profile offers news, and revokes it.  In [Exchange] the
    grant of [GrantScenario.v] travels from Alice's provider to Bob's. *)

From S2P Require Import Prelude JsString Regex Value Rfc8949 Cbor Profiles Validation ValidatePayload.
From S2P Require Import Models Cose CoseRules WebCrypto Identity Typed Database ServerBodies Conversations.
From S2P Require Import Envelopes Grants Receiver GrantRules Scenario GrantScenario Status Http.
From S2P Require Import PublisherRules GrantReceiver GrantPublisher GrantExchange GrantArrival GrantService.
From S2P Require Import GrantServiceRules GrantWithdrawal.
From Stdlib Require Import ZArith.
Open Scope Z_scope.

#[local] Existing Instance granting_env.
#[local] Existing Instance Reference.cborg.
#[local] Existing Instance Reference.cborg_spec.
#[local] Existing Instance example_triggers.
#[local] Existing Instance example_grant_authority.
#[local] Instance plain_domains : NodeUrl := fun domain => domain.

(** A signature repeats the sum of the bytes that are signed. *)
Definition sum_signature (data : bytes) : bytes :=
  repeat (byte_of_N (foldr (fun b n => Byte.to_N b + n)%N 0%N data)) 64.
#[local] Instance summing_keys : Keys := {|
  subtle := {|
    subtle_sign := fun _ data => Ok (sum_signature data);
    subtle_verify := fun _ signature data => Ok (bool_decide (signature = sum_signature data)) |};
  ed25519PublicKeyFromDidKey := fun _ => Ok (example_key (js "verify")) |}.

Definition news_profile_cose : bytes := stamped Profiles.sender_profile (bob ++ js "#hail-messaging") x12
  (HMap true
    [(js "type", HStr (js "hail.sender-profile")); (js "version", HNum 1); (js "did", HStr bob);
     (js "revision", HNum 1); (js "display_name", HStr (js "Bob"));
     (js "categories", HArr [HMap true [(js "id", HStr (js "news")); (js "label", HStr (js "News"))]]);
     (js "updated_at", HNum 10); (js "key_id", HStr (bob ++ js "#hail-messaging"))]).
Definition news_profile_object : InspectedHailObject HailSenderProfile := ltac:(
  let r := eval vm_compute in (inspectTyped Profiles.sender_profile news_profile_cose) in match r with Ok ?o => exact o end).

Definition bobs_news_profile : VerifiedSenderProfile := {|
  vp_did := bob; vp_serviceBase := js "https://b.example/hail"; vp_messagingDidKey := js "did:key:z6Mk";
  vp_profile := payload news_profile_object; vp_representation := news_profile_cose;
  vp_digest := sha256 news_profile_cose |}.

Definition alices_key : AccountKeyRecord := {|
  k_role := js "hail-identity"; k_algorithm := js "ed25519"; k_publicKey := js "did:key:z6Mi" |}.
Definition alices_service : grant_service_env := {|
  gs_getAccountByAddress := fun _ _ => Err (OtherError (js "Account does not exist"));
  gs_getKey := fun _ _ => Ok alices_key;
  gs_resolve := fun d => Ok {| did := d; identityDidKey := js "did:key:z6Mi"; messagingDidKey := js "did:key:z6Mk";
    serviceBase := js "https://a.example/hail"; resolved_evidence := {| document := []; data := []; log := [] |} |};
  gs_decrypt := fun _ _ => Ok []; gs_import := fun _ => Ok (example_key (js "sign"));
  gs_verifyAddress := fun _ => Ok (address bobs_consent); gs_verifyProfile := fun _ => Ok bobs_news_profile;
  gs_fresh := fun _ _ => Ok tt; gs_random := repeat xff 16; gs_serviceBase := js "https://a.example/hail";
  gs_now := fun _ => 40000; gs_started := seconds 41; gs_others := fun _ db => db |}.

Lemma alone n db : execution db (gs_others alices_service n db).
Proof. apply rtc_refl. Qed.

Definition news_until_5000 : GrantDefinition := {|
  gd_scope := HMap true [(js "type", HStr (js "categories")); (js "values", HArr [HStr (js "news")])];
  gd_expiresAt := Some 5000 |}.
Definition granting : M SignedGrantRevision * Database :=
  createOrReuse alices_service alice bobs_address news_until_5000 no_grants.
Definition granted_revision : SignedGrantRevision := ltac:(
  let r := eval vm_compute in granting.1 in match r with Ok ?g => exact g end).
Lemma granted_now : createOrReuse alices_service alice bobs_address news_until_5000 no_grants =
  (Ok granted_revision, granting.2).
Proof.
  assert (Hg : granting.1 = Ok granted_revision) by (vm_compute; reflexivity).
  change (granting = (Ok granted_revision, granting.2)).
  destruct granting as [r db]. cbn in Hg |- *. by rewrite Hg.
Qed.

Lemma no_grants_yet : grants_reachable no_grants.
Proof. exists no_grants. do 2 (split; [reflexivity|]). apply rtc_refl. Qed.

Definition granting_call : grant_call := CreateOrReuse alice bobs_address news_until_5000.
Lemma granting_serves : serve alices_service granting_call no_grants = (Ok granted_revision, granting.2).
Proof. unfold serve, granting_call. exact granted_now. Qed.
Lemma granted_reachable : grants_reachable granting.2.
Proof.
  eapply grants_reachable_steps; [exact no_grants_yet|].
  pose proof (serve_executes alices_service granting_call alone no_grants) as Hr. by rewrite granting_serves in Hr.
Qed.

(** ** The theorems along the way *)

Lemma service_refines_witness : grants_ok granting.2 /\ checked granted_revision.
Proof.
  pose proof (service_refines alices_service alone granting_call no_grants no_grants_yet) as Hr.
  rewrite granting_serves in Hr. destruct Hr as (_ & Hok & Hg).
  split; [exact Hok|]. exact (proj1 (Hg granted_revision eq_refl)).
Defined.

Lemma authority_justified_witness : granting.1 = Ok granted_revision /\ exists db1 db2,
  execution no_grants db1 /\ execution db2 granting.2.
Proof.
  split; [exact (f_equal fst granted_now)|].
  destruct (authority_justified alices_service alone granting_call no_grants granted_revision granting.2 granting_serves)
    as (db1 & db2 & H1 & H2 & _). by exists db1, db2.
Defined.

Lemma issued_as_asked_witness : granting.1 = Ok granted_revision /\
  g_expires_at (sgr_payload granted_revision) = Some 5000.
Proof.
  split; [exact (f_equal fst granted_now)|].
  destruct (issued_as_asked alices_service alone alice bobs_address news_until_5000 no_grants granted_revision granting.2
    no_grants_yet granted_now) as (account & c & l & categories & _ & _ & _ & _ & _ & _ & _ & _ & _ & _ & _ & _ & _ & He & _).
  exact He.
Defined.

Definition granted_id : jstr := g_grant_id (sgr_payload granted_revision).
Definition reviewed_revision : option (Z * bytes) := Some (1, sgr_digest granted_revision).
Definition taking_back : M SignedGrantRevision * Database :=
  revoke alices_service alice granted_id reviewed_revision granting.2.
Definition taken_back : SignedGrantRevision := ltac:(
  let r := eval vm_compute in taking_back.1 in match r with Ok ?g => exact g end).
Lemma taken_back_now : revoke alices_service alice granted_id reviewed_revision granting.2 = (Ok taken_back, taking_back.2).
Proof.
  assert (Hg : taking_back.1 = Ok taken_back) by (vm_compute; reflexivity).
  change (taking_back = (Ok taken_back, taking_back.2)).
  destruct taking_back as [r db]. cbn in Hg |- *. by rewrite Hg.
Qed.

Lemma withdrawn_witness : taking_back.1 = Ok taken_back /\ g_status (sgr_payload taken_back) = grant_revoked.
Proof.
  split; [exact (f_equal fst taken_back_now)|].
  destruct (withdrawn alices_service alice granted_id reviewed_revision granting.2 taken_back taking_back.2 alone
    granted_reachable taken_back_now) as (_ & Hs & _).
  exact Hs.
Defined.

Definition alices_row : Account := {| a_did := alice; a_active := true; a_public := true; a_closed := false |}.
Lemma alice_can_withdraw :
  can_withdraw alices_service alice granted_id (alice_account, alices_row) granted_revision granting.2.
Proof.
  split.
  - done.
  - vm_compute. reflexivity.
  - reflexivity.
  - vm_compute. reflexivity.
  - vm_compute. reflexivity.
  - reflexivity.
  - vm_compute. reflexivity.
  - vm_compute. discriminate.
  - eexists _, _, taken_back. split; [reflexivity|]. split; [reflexivity|]. split; [reflexivity|].
    split; [reflexivity|]. split; [reflexivity|]. split; [vm_compute; reflexivity|].
    intros n r Hr. assert (n = 1) as ->.
    { pose proof (reachable_ok _ granted_reachable) as Hok.
      assert (Hl : exists l, granting.2 grant_lineages !! granted_id = Some l /\ l_current_revision l = 1).
      { eexists. split; vm_compute; reflexivity. }
      destruct Hl as (l & Hl & H1). assert (Hs : is_Some (granting.2 grant_revisions !! (granted_id, n))) by by eexists.
      apply (lo_rows _ _ _ (go_lineage _ Hok _ _ Hl)) in Hs. lia. }
    assert (Hd : gr_digest <$> (granting.2 grant_revisions !! (granted_id, 1)) = Some (sgr_digest granted_revision))
      by (vm_compute; reflexivity).
    rewrite Hr in Hd. injection Hd as ->. vm_compute. discriminate.
  - vm_compute. reflexivity.
  - eexists. vm_compute. reflexivity.
  - vm_compute. reflexivity.
Qed.

Lemma withdrawal_available_witness : exists g db' l,
  revoke alices_service alice granted_id None granting.2 = (Ok g, db') /\
  db' grant_lineages !! granted_id = Some l /\ l_active l = false.
Proof.
  destruct (withdrawal_available (fun _ _ _ => eq_refl) (fun _ _ _ => eq_refl) alices_service alice granted_id
    (alice_account, alices_row) granted_revision granting.2 granted_reachable alice_can_withdraw)
    as (g & db' & l & Hr & _ & _ & Hl & Ha & _).
  exists g, db', l. split; [exact Hr|]. split; [exact Hl|exact Ha].
Defined.

(** ** A grant travels

    Alice's provider publishes the grant of [GrantScenario.v] to Bob's, which has no grants yet. *)

Module Exchange.
#[local] Existing Instance granting_env.
#[local] Existing Instance Reference.cborg.
#[local] Existing Instance Reference.cborg_spec.
#[local] Existing Instance example_triggers.
#[local] Existing Instance example_grant_authority.

(** The signatures of the two revisions verify, and nothing else. *)
#[local] Instance stamping_keys : Keys := {|
  subtle := {|
    subtle_sign := fun _ _ => Ok (repeat x01 64);
    subtle_verify := fun _ signature _ => Ok (bool_decide (signature ∈ [repeat x01 64; repeat x02 64])) |};
  ed25519PublicKeyFromDidKey := fun _ => Ok (example_key (js "verify")) |}.

Definition bobs_base : jstr := js "https://b.example/hail".
Definition resolve_both (d : jstr) : M ResolvedHailDid := Ok {|
  did := d; identityDidKey := js "did:key:z6Mi"; messagingDidKey := js "did:key:z6Mk";
  serviceBase := if jstr_eqb d bob then bobs_base else js "https://a.example/hail";
  resolved_evidence := {| document := []; data := []; log := [] |} |}.

Definition bobs_grant_receiver : grant_receiver_env := {|
  gv_resolve := resolve_both; gv_retain := None; gv_localeCompare := fun _ _ => Eq; gv_serviceBase := bobs_base;
  gv_now := 40; gv_others := fun _ db => db |}.

(** The request as Bob's server reads it: one chunk. *)
Definition request_of (put : grant_put) : grant_request := {|
  gq_grant_id := drop (length (bobs_base ++ js "/grants/")) (gpt_url put); gq_conditions := gpt_conditions put;
  gq_content_length := None; gq_body := Some [Some (gpt_body put)] |}.

Definition alices_publisher : grant_publisher_env := {|
  gb_token := js "lease-4"; gb_locked := ∅; gb_claim_now := seconds 40; gb_resolve := resolve_both;
  gb_url := fun url => Ok url; gb_target := fun _ => Ok tt;
  gb_fetch := fun put =>
    if jstr_eqb (take (length (bobs_base ++ js "/grants/")) (gpt_url put)) (bobs_base ++ js "/grants/")
    then (put_grant bobs_grant_receiver bobs_base (request_of put) no_grants).1
    else Err (OtherError (js "Unable to connect"));
  gb_now := fun _ => 41000; gb_jittered := fun base => base * 1000; gb_date_parse := fun _ => None;
  gb_finish_now := fun _ => seconds 41; gb_others := fun db => db |}.

Definition to_bob (url : jstr) : bool :=
  jstr_eqb (take (length (bobs_base ++ js "/grants/")) url) (bobs_base ++ js "/grants/").

Lemma carried put : to_bob (gpt_url put) = true -> carries bobs_base put (request_of put).
Proof.
  intros Hu%jstr_eqb_eq. split; [|done| |done].
  - cbn [request_of gq_grant_id]. rewrite app_assoc. rewrite <- Hu at 1. by rewrite take_drop.
  - exists [gpt_body put]. split; [done|]. cbn. by rewrite app_nil_r.
Qed.

Lemma bob_serves : served alices_publisher bobs_grant_receiver bobs_base no_grants.
Proof.
  intros put r. cbn [alices_publisher gb_fetch]. fold (to_bob (gpt_url put)). destruct (to_bob _) eqn:Hu; [|done].
  intros Hr. exists (request_of put). split; [by apply carried|done].
Qed.

Definition claiming_grant : M (option GrantPublicationClaim) * Database :=
  claimDuePublication (js "lease-4") 30000 ∅ (seconds 40) issued_db.
Definition claimed_grant : GrantPublicationClaim := ltac:(
  let r := eval vm_compute in claiming_grant.1 in match r with Ok (Some ?c) => exact c end).
Lemma grant_claimed : claiming_grant = (Ok (Some claimed_grant), claiming_grant.2).
Proof.
  assert (H : claiming_grant.1 = Ok (Some claimed_grant)) by (vm_compute; reflexivity).
  destruct claiming_grant as [c db]. cbn in H |- *. by rewrite H.
Qed.

Lemma bob_ready : receiver_ready bobs_grant_receiver (sgr_representation (gc_grant claimed_grant))
  (sgr_payload (gc_grant claimed_grant)) bob_account no_grants.
Proof.
  split.
  - done.
  - eexists. split; [reflexivity|]. split; [eexists; vm_compute; reflexivity|].
    eexists. split; [reflexivity|]. split; vm_compute; reflexivity.
  - vm_compute. reflexivity.
  - split.
    + eexists. split; [vm_compute; reflexivity|done].
    + intros n r Hr. vm_compute in Hr. discriminate Hr.
    + split; [reflexivity|]. split; [reflexivity|]. intros id l Hl. vm_compute in Hl. discriminate Hl.
  - intros c Hc. vm_compute in Hc. discriminate Hc.
Qed.

Lemma alice_ready : publisher_ready alices_publisher bobs_grant_receiver bobs_base claimed_grant no_grants.
Proof.
  split.
  - done.
  - eexists. split; vm_compute; reflexivity.
  - split; reflexivity.
  - intros put Hu. exists (request_of put). assert (Hb : to_bob (gpt_url put) = true) by (rewrite Hu; vm_compute; reflexivity).
    split; [by apply carried|]. cbn [alices_publisher gb_fetch]. fold (to_bob (gpt_url put)). by rewrite Hb.
  - vm_compute. reflexivity.
  - vm_compute. discriminate.
Qed.

Lemma unrefused_here : unrefused.
Proof. done. Qed.
Lemma no_grants_reachable : grants_reachable no_grants.
Proof. exists no_grants. do 2 (split; [reflexivity|]). apply rtc_refl. Qed.

(** ** The theorems along the journey *)

Definition initial_conditions : GrantConditions := {| ifMatch := None; ifNoneMatch := Some (js "*") |}.
Definition bob_receiving : M (GrantReceiveError + GrantReceiveResult) * Database :=
  receiveGrant bobs_grant_receiver the_grant first_cose initial_conditions no_grants.
Definition created_grant : GrantReceiveResult :=
  {| gres_status := 201; gres_etag := etag (repeat x01 32); gres_created := true |}.
Lemma bob_received : receiveGrant bobs_grant_receiver the_grant first_cose initial_conditions no_grants =
  (Ok (inr created_grant), bob_receiving.2).
Proof.
  assert (H : bob_receiving.1 = Ok (inr created_grant)) by (vm_compute; reflexivity).
  change (bob_receiving = (Ok (inr created_grant), bob_receiving.2)).
  destruct bob_receiving as [r db]. cbn in H |- *. by rewrite H.
Qed.

Lemma received_grant_kept_witness : bob_receiving.1 = Ok (inr created_grant) /\
  exists revision, keeps_revision the_grant revision first_cose bob_receiving.2.
Proof.
  split; [exact (f_equal fst bob_received)|].
  destruct (received_grant_kept bobs_grant_receiver the_grant first_cose initial_conditions no_grants created_grant
    bob_receiving.2 bob_received) as (object & _ & _ & _ & _ & _ & _ & _ & _ & _ & _ & Hk & _).
  by eexists.
Defined.

Definition publishing_grant : M GrantPublishOutcome * Database := publishGrant alices_publisher issued_db.
Lemma grant_published : publishing_grant = (Ok GrantAcknowledged, publishing_grant.2).
Proof.
  assert (H : publishing_grant.1 = Ok GrantAcknowledged) by (vm_compute; reflexivity).
  destruct publishing_grant as [o db]. cbn in H |- *. by rewrite H.
Qed.

Lemma acknowledged_grant_kept_witness : publishing_grant.1 = Ok GrantAcknowledged /\
  exists c, acknowledged_row c publishing_grant.2.
Proof.
  split; [by rewrite grant_published|].
  destruct (acknowledged_grant_kept alices_publisher bobs_grant_receiver bobs_base issued_db no_grants
    publishing_grant.2 bob_serves grant_published) as (c & _ & _ & _ & _ & _ & _ & _ & Hrow).
  by exists c.
Defined.

Lemma next_revision_arrives_witness : exists db' q,
  publishGrant alices_publisher issued_db = (Ok GrantAcknowledged, db') /\
  keeps_revision (g_grant_id (sgr_payload (gc_grant claimed_grant))) 1 first_cose
    (put_grant bobs_grant_receiver bobs_base q no_grants).2.
Proof.
  destruct (next_revision_arrives unrefused_here (fun _ _ _ => eq_refl) alices_publisher bobs_grant_receiver bobs_base
    claimed_grant bob_account issued_db claiming_grant.2 no_grants) as (db' & q & Hp & _ & Hk).
  - exact no_grants_reachable.
  - exact grant_claimed.
  - exact alice_ready.
  - exact bob_ready.
  - exists db', q. split; [exact Hp|exact Hk].
Defined.
End Exchange.
