(* ===== verification/Permissions.v ===== *)
(** * Approving permissions (apps/server/src/accounts/permissions.ts)

    An account's browser prepares a permission: the provider stores exactly what would be signed, with a
    challenge.  The account approves it with a passkey, and the commit carries out what was stored,
    through the service of grants; a commit that is repeated finds what the first one did.

    The tables of sessions, passkeys and custody are not modelled: what the statements over them find is
    a parameter.  Other processes may change the database between the statements. *)

From S2P Require Import Prelude JsString Regex Value Rfc8949 Cbor Profiles Validation ValidatePayload Models.
From S2P Require Import Base64Url Diagnostic Identity Cose WebCrypto Database Typed Conversations Envelopes.
From S2P Require Import Receiver Status Grants GrantReceiver GrantService.
From Stdlib Require Import ZArith.
Open Scope Z_scope.

Definition UUID : regex :=
  seqs [rep hex_digit 8; lit "-"; rep (seqs [rep hex_digit 4; lit "-"]) 3; rep hex_digit 12].

(** A [PermissionError], with its message or the usual one. *)
Definition permission_error {A} (status : Z) (message : String.string) : M A := Err (StatusError status (js message)).
Arguments permission_error {A} status message%_string.
Definition refused {A} (status : Z) : M A :=
  permission_error status "Permission not changed; retain the original approval and retry".

(** The session of a browser. *)
Record AccountApiSession := {
  se_account_id : jstr; se_credential_id : jstr; se_did : jstr; se_canonical_address : jstr;
  se_serving_generation : option Z; se_passkey_credential_id : option jstr;
}.
Definition generation (session : AccountApiSession) : Z := default 1 (se_serving_generation session).

Record sender_review := {
  sw_address : jstr; sw_did : jstr; sw_addressDigest : jstr; sw_profileDigest : jstr;
  sw_previousDids : list jstr; sw_displayName : jstr; sw_categories : list HailSenderCategory;
}.

Record permission_summary := {
  su_requestId : jstr; su_action : approval_action; su_batch : bool; su_expiresAt : Z; su_approved : bool;
  su_result : option permission_result; su_permissions : list hvalue;
  su_previousScope : option HailGrantScope; su_previousDids : list jstr;
}.

(** The collaborators: the service of grants; what the statements over sessions, passkeys, custody and
    connections find; the assertion of a passkey for a challenge, with the response of the browser; the
    account's custody and its identity key; the advisory lock; random bytes; clocks in milliseconds and
    of the database; the other processes. *)
Record permission_env := {
  pm_service : grant_service_env;
  pm_live : AccountApiSession -> Database -> bool;
  pm_passkey_current : AccountApiSession -> jstr -> Database -> bool;
  pm_approveAction : AccountApiSession -> jstr -> hvalue -> Database -> M jstr;
  pm_identityKey : AccountApiSession -> Database -> M (option jstr);    (** [None]: not managed *)
  pm_previousAddressIdentities : jstr -> jstr -> jstr -> Database -> list jstr;
  pm_locked : bool;
  pm_random : bytes;
  pm_now : nat -> Z;
  pm_clock : nat -> Z;
  pm_others : nat -> Database -> Database;
}.

Definition text_member (m : HailRecord) (k : String.string) : option jstr := field m k ≫= text_of.
Arguments text_member m k%_string.
Definition defined (m : HailRecord) (k : String.string) : bool := bool_decide (is_Some (field m k)).
Arguments defined m k%_string.
(** A member that is a safe integer. *)
Definition integer_member (m : HailRecord) (k : String.string) : option Z :=
  match field m k with Some (HNum z) => if isSafeInteger z then Some z else None | _ => None end.
Arguments integer_member m k%_string.
Definition only_keys (allowed : list String.string) (m : HailRecord) : bool :=
  forallb (fun e => includes (map js allowed) e.1) m.

Definition approval_actions : list (String.string * approval_action) :=
  [("allow", AllowGrant); ("revoke", RevokeGrant); ("restrict", RestrictGrant)]%string.

(** What a request asks for, read from its members. *)
Definition request_action (m : HailRecord) : option approval_action :=
  action ← text_member m "action"; enum approval_actions action.
Definition is_batch (m : HailRecord) (action : approval_action) : bool :=
  match action, field m "grants" with RevokeGrant, Some (HArr _) => true | _, _ => false end.
Definition allowed_keys (action : approval_action) (batch : bool) : list String.string :=
  match action with
  | AllowGrant => ["requestId"; "action"; "sender"; "senderDid"; "addressDigest"; "profileDigest"; "scope"; "expiresAt"]
  | RestrictGrant => ["requestId"; "action"; "grantId"; "revision"; "digest"; "scope"]
  | RevokeGrant => if batch then ["requestId"; "action"; "grants"]
                   else ["requestId"; "action"; "grantId"; "revision"; "digest"]
  end%string.

Definition savedResult (saved : SignedGrantRevision) : saved_result := {|
  sr_grantId := g_grant_id (sgr_payload saved); sr_revision := g_revision (sgr_payload saved);
  sr_status := g_status (sgr_payload saved); sr_digest := encodeBase64Url (sgr_digest saved) |}.

Section permissions.
Context `{HailEnv} `{Cborg} `{Keys} `{Triggers} `{GrantAuthority} `{NodeUrl}.
Context (env : permission_env).

Definition others_run (n : nat) : Act unit := meanwhile (pm_others env n).

Definition live (session : AccountApiSession) (db : Database) : M unit :=
  match se_passkey_credential_id session with
  | None | Some [] => permission_error 403 "Use your account's passkey session to approve permissions"
  | Some _ =>
      if pm_live env session db then Ok tt
      else permission_error 403 "Current managed account access is required; sign in again if necessary"
  end.

(** *** Review *)

Definition review_request (input : HailRecord) : M jstr :=
  match text_member input "sender" with
  | Some sender =>
      if negb (only_keys ["sender"; "senderDid"]%string input) || (254 <? Z.of_nat (length sender))
         || defined input "senderDid"
            && negb match text_member input "senderDid" with Some did => rx_test DID_PATTERN did | None => false end
      then refused 400
      else Ok sender
  | None => refused 400
  end.

Definition review (session : AccountApiSession) (input : HailRecord) : Act sender_review :=
  _ ← act (live session);
  '(address, profile) ← act (fun _ => sender ← review_request input; inspectSender (pm_service env) sender);
  _ ← act (fun _ => if jstr_eqb (va_did address) (se_did session)
                    then permission_error 400 "Choose another sender, not your own account" else Ok tt);
  _ ← act (fun _ => match text_member input "senderDid" with
                    | Some did => if negb (jstr_eqb did (va_did address))
                        then permission_error 409 "This QR identity no longer matches the address. Ask the sender for a current code"
                        else Ok tt
                    | None => Ok tt
                    end);
  _ ← others_run 0;
  act (fun db => Ok {|
    sw_address := va_address address; sw_did := va_did address;
    sw_addressDigest := encodeBase64Url (va_digest address); sw_profileDigest := encodeBase64Url (vp_digest profile);
    sw_previousDids := pm_previousAddressIdentities env (se_account_id session) (va_address address) (va_did address) db;
    sw_displayName := sp_display_name (profile_base (vp_profile profile));
    sw_categories := sp_categories (profile_base (vp_profile profile)) |}).

(** *** The stored approval *)

Definition approval_row (session : AccountApiSession) (id : jstr) (reading : nat) (db : Database) : M Approval :=
  if negb (rx_test UUID id) then refused 400
  else match db account_grant_approvals !! id with
  | Some row =>
      if negb (jstr_eqb (ap_account_id row) (se_account_id session))
         || negb (jstr_eqb (ap_session_id row) (se_credential_id session))
         || negb (ap_serving_generation row =? generation session) then refused 404
      else if bool_decide (ap_result row = None) && (ap_expires_at row / 1000 <=? pm_now env reading)
      then permission_error 410 "Approval expired. Review the current permission again; no renewed authority was issued"
      else Ok row
  | None => refused 404
  end.

(** The payloads with the objects they were decoded from, and whether they are a batch. *)
Definition payloads (row : Approval) : M (list (hvalue * HailGrant) * bool) :=
  decoded ← decodeDeterministic DEFAULT_HAIL_RESOURCE_LIMITS (ap_payload_bytes row);
  let '(values, batch) := match decoded with HArr values => (values, true) | value => ([value], false) end in
  _ ← (if (length values =? 0)%nat || (50 <? length values)%nat
          || batch && negb match ap_action row with RevokeGrant => true | _ => false end
       then refused 409 else Ok tt);
  read ← mapM (fun value =>
    _ ← validatePayload (Signed Profiles.grant) (of_hail value);
    p ← typed (Signed Profiles.grant) value;
    Ok (value, p)) values;
  Ok (read, batch).

(** The scope that a restriction narrows, from the revision before. *)
Definition restricted_scope (row : Approval) (read : list (hvalue * HailGrant)) (batch : bool) (db : Database)
    : M (option HailGrantScope) :=
  let unavailable {A} : M A := permission_error 409 "Restricted Grant history is unavailable" in
  match ap_action row, read with
  | RestrictGrant, (_, p) :: _ =>
      match g_previous p with
      | Some digest =>
          if batch || negb (is_active p) || (g_revision p <? 2) then unavailable
          else
            previous ← findRevision (g_grant_id p) (g_revision p - 1) db;
            match previous with
            | Some g => if Cbor.equalBytes (sgr_digest g) digest then Ok (Some (g_scope (sgr_payload g))) else unavailable
            | None => unavailable
            end
      | None => unavailable
      end
  | RestrictGrant, [] => unavailable
  | _, _ => Ok None
  end.

(** The options of the passkey are for the browser, and not part of the summary here. *)
Definition summary (session : AccountApiSession) (id : jstr) (row : Approval) (db : Database) : M permission_summary :=
  '(read, batch) ← payloads row;
  scope ← restricted_scope row read batch db;
  shown ← mapM (fun e => toDiagnosticJson (Signed Profiles.grant) (of_hail e.1) true) read;
  Ok {| su_requestId := id; su_action := ap_action row; su_batch := batch; su_expiresAt := ap_expires_at row;
        su_approved := bool_decide (is_Some (ap_approved row)); su_result := ap_result row; su_permissions := shown;
        su_previousScope := scope;
        su_previousDids := match ap_action row, read with
          | AllowGrant, (_, p) :: _ => pm_previousAddressIdentities env (se_account_id session)
              (cc_grantee_address (g_consent_context p)) (g_grantee p) db
          | _, _ => []
          end |}.

Definition status (session : AccountApiSession) (id : jstr) : Act permission_summary :=
  _ ← act (live session);
  _ ← others_run 0;
  row ← act (approval_row session id 0);
  _ ← others_run 1;
  act (summary session id row).

(** *** Preparing *)

(** What a request allows, as the service proposes it. *)
Definition prepare_allow (session : AccountApiSession) (input : HailRecord) : Act hvalue :=
  let refusal {A} : Act A := act (fun _ =>
    permission_error 400 "Choose the reviewed sender and an ongoing subscription or a future expiry within one year") in
  let today := pm_now env 1 / 1000 in
  match text_member input "sender", text_member input "senderDid", text_member input "addressDigest",
        text_member input "profileDigest" with
  | Some sender, Some senderDid, Some addressDigest, Some profileDigest =>
      let expiry := match field input "expiresAt" with Some HNull => Some None | _ => Some <$> integer_member input "expiresAt" end in
      match expiry with
      | Some expiresAt =>
          if (254 <? Z.of_nat (length sender)) || negb (rx_test DID_PATTERN senderDid) || jstr_eqb senderDid (se_did session)
             || match expiresAt with Some t => (t <=? today) || (today + 366 * 86400 <? t) | None => false end
          then refusal
          else
            p ← prepareUserSignedGrant (pm_service env) (se_did session) sender
                  {| gd_scope := default HNull (field input "scope"); gd_expiresAt := expiresAt |};
            if negb (jstr_eqb (g_grantee p) senderDid)
               || negb (jstr_eqb (encodeBase64Url (binding_hash p)) addressDigest)
               || negb (jstr_eqb (encodeBase64Url (profile_hash p)) profileDigest)
            then act (fun _ => permission_error 409 "Sender identity or profile changed. Review it again before approving")
            else mret (grant_object p)
      | None => refusal
      end
  | _, _, _, _ => refusal
  end.

(** The grant that was reviewed is the current one of the account, and active. *)
Definition still_current (session : AccountApiSession) (revision : Z) (digest : jstr) (current : SignedGrantRevision) : bool :=
  owned_by (se_account_id session) current && is_active (sgr_payload current)
  && (g_revision (sgr_payload current) =? revision) && jstr_eqb (encodeBase64Url (sgr_digest current)) digest.

(** Fewer categories, at least one, all of them current. *)
Definition narrower (current : HailGrantScope) (next : field_value) : bool :=
  match next with
  | Some (HMap _ m) =>
      match text_member m "type", field m "values" with
      | Some type, Some (HArr values) =>
          match mapM text_of values with
          | Some texts =>
              jstr_eqb type (js "categories") && negb (length texts =? 0)%nat
              && (length texts <? length (scope_values current))%nat
              && forallb (includes (scope_values current)) texts && bool_decide (NoDup texts)
          | None => false
          end
      | _, _ => false
      end
  | _ => false
  end.

Definition prepare_restrict (session : AccountApiSession) (input : HailRecord) : Act hvalue :=
  match text_member input "grantId", integer_member input "revision", text_member input "digest" with
  | Some grantId, Some revision, Some digest =>
      if negb (rx_test UUID grantId) then act (fun _ => permission_error 400 "Choose a current subscription to update")
      else
        current ← act (findCurrentByGrantId grantId);
        match current with
        | Some current =>
            if negb (still_current session revision digest current)
            then act (fun _ => permission_error 409 "Permission changed. Refresh and review the current categories again")
            else if negb (narrower (g_scope (sgr_payload current)) (field input "scope"))
            then act (fun _ => permission_error 400 "Keep at least one currently subscribed category, or unsubscribe from all")
            else
              _ ← others_run 3;
              p ← prepareUserSignedUpdate (pm_service env) (se_canonical_address session) (g_grant_id (sgr_payload current))
                    {| gu_definition := {| gd_scope := default HNull (field input "scope");
                                           gd_expiresAt := g_expires_at (sgr_payload current) |};
                       gu_expectedRevision := g_revision (sgr_payload current);
                       gu_expectedDigest := sgr_digest current; gu_refreshConsent := false; gu_sender := None |};
              mret (grant_object p)
        | None => act (fun _ => permission_error 409 "Permission changed. Refresh and review the current categories again")
        end
  | _, _, _ => act (fun _ => permission_error 400 "Choose a current subscription to update")
  end.

(** One grant that is to be revoked: its current payload. *)
Definition selected_grant (session : AccountApiSession) (batch : bool) (item : hvalue) : Act hvalue :=
  match item with
  | HMap _ m =>
      match text_member m "grantId", integer_member m "revision", text_member m "digest" with
      | Some grantId, Some revision, Some digest =>
          if batch && (negb (length m =? 3)%nat || negb (only_keys ["grantId"; "revision"; "digest"]%string m))
             || negb (rx_test UUID grantId)
          then act (fun _ => refused 400)
          else
            current ← act (findCurrentByGrantId grantId);
            match current with
            | Some current =>
                if still_current session revision digest current then mret (grant_object (sgr_payload current))
                else act (fun _ => permission_error 409 "Permission changed. Review its current revision before revoking")
            | None => act (fun _ => permission_error 409 "Permission changed. Review its current revision before revoking")
            end
      | _, _, _ => act (fun _ => refused 400)
      end
  | _ => act (fun _ => refused 400)
  end.

(** [for (const item of selections)]. *)
Fixpoint selected_grants (session : AccountApiSession) (batch : bool) (items : list hvalue) : Act (list hvalue) :=
  match items with
  | [] => mret []
  | item :: items =>
      p ← selected_grant session batch item;
      _ ← others_run 3;
      ps ← selected_grants session batch items;
      mret (p :: ps)
  end.

(** [new Set(ids).size !== ids.length]: [===] tells identifiers apart. *)
Fixpoint distinct (ids : list field_value) : bool :=
  match ids with
  | [] => true
  | id :: ids => negb (existsb (strict_eq id) ids) && distinct ids
  end.
Definition selection_id (item : hvalue) : field_value :=
  match item with HMap _ m => field m "grantId" | _ => None end.
Definition prepare_revoke (session : AccountApiSession) (input : HailRecord) (batch : bool) : Act hvalue :=
  let selections := if batch then match field input "grants" with Some (HArr items) => items | _ => [] end
                    else [HMap false input] in
  if (50 <? length selections)%nat then act (fun _ => permission_error 413 "Select at most 50 subscriptions")
  else if (length selections =? 0)%nat || negb (distinct (map selection_id selections))
  then act (fun _ => permission_error 400 "Select between 1 and 50 distinct subscriptions")
  else
    ps ← selected_grants session batch selections;
    mret (if batch then HArr ps else match ps with p :: _ => p | [] => HNull end).

Definition new_approval (session : AccountApiSession) (action : approval_action) (digest encoded : bytes)
    (key : jstr) (created : Z) : Approval := {|
  ap_account_id := se_account_id session; ap_session_id := se_credential_id session;
  ap_serving_generation := generation session; ap_action := action; ap_request_digest := digest;
  ap_payload_bytes := encoded; Database.ap_signing_key := key; ap_challenge := encodeBase64Url (pm_random env);
  ap_expires_at := created + seconds 300; ap_approved := None; ap_result := None |}.

(** Approvals of the account that can still be used. *)
Definition unfinished (session : AccountApiSession) (now : Z) (db : Database) : Z :=
  count_rows (fun _ row => jstr_eqb (ap_account_id row) (se_account_id session) && (now <? ap_expires_at row)
                           && bool_decide (ap_result row = None)) (db account_grant_approvals).

Definition prepare_new (session : AccountApiSession) (id : jstr) (action : approval_action) (input : HailRecord)
    (digest : bytes) : Act permission_summary :=
  let batch := is_batch input action in
  proposed ← match action with
             | AllowGrant => prepare_allow session input
             | RestrictGrant => prepare_restrict session input
             | RevokeGrant => prepare_revoke session input batch
             end;
  _ ← others_run 4;
  key ← act (pm_identityKey env session);
  match key with
  | None | Some [] => act (fun _ => refused 403)
  | Some key =>
      encoded ← act (fun _ => encodeDeterministic DEFAULT_HAIL_RESOURCE_LIMITS (of_hail proposed));
      if 16384 <? Z.of_nat (length encoded)
      then act (fun _ => permission_error 413 "Selection is too large. Select fewer subscriptions")
      else
        _ ← others_run 5;
        _ ← begin (write account_grant_approvals
                     (insert_new id (new_approval session action digest encoded key (pm_clock env 1)))) : Act unit;
        _ ← others_run 6;
        row ← act (approval_row session id 2);
        _ ← act (fun _ => if Cbor.equalBytes (ap_request_digest row) digest then Ok tt else refused 409);
        act (summary session id row)
  end.

Definition prepare (session : AccountApiSession) (input : HailRecord) : Act permission_summary :=
  _ ← act (live session);
  match text_member input "requestId", request_action input with
  | Some id, Some action =>
      let allowed := allowed_keys action (is_batch input action) in
      if negb (rx_test UUID id) || negb (length input =? length allowed)%nat || negb (only_keys allowed input)
      then act (fun _ => refused 400)
      else
        encoded ← act (fun _ => encodeDeterministic DEFAULT_HAIL_RESOURCE_LIMITS (of_hail (HMap false input)));
        let digest := sha256 encoded in
        _ ← others_run 0;
        prior ← act (fun db => Ok (db account_grant_approvals !! id));
        match prior with
        | Some _ =>
            _ ← others_run 1;
            row ← act (approval_row session id 0);
            _ ← act (fun _ => if Cbor.equalBytes (ap_request_digest row) digest then Ok tt
                              else permission_error 409 "Approval retry differs from the reviewed intent");
            act (summary session id row)
        | None =>
            _ ← others_run 1;
            pending ← act (fun db => Ok (unfinished session (pm_clock env 0) db));
            if 20 <=? pending
            then act (fun _ => permission_error 429 "Too many unfinished approvals; wait for them to expire")
            else _ ← others_run 2; prepare_new session id action input digest
        end
  | _, _ => act (fun _ => refused 400)
  end.

(** *** Committing *)

(** The exact successor of the reviewed revision: what an earlier attempt has stored. *)
Definition already_revoked (p : HailGrant) (original : bytes) (current : SignedGrantRevision)
    (previous : option SignedGrantRevision) : M bool :=
  match g_status (sgr_payload current), previous with
  | grant_revoked, Some previous =>
      if g_revision (sgr_payload current) =? g_revision p + 1 then
        encoded ← encodeDeterministic DEFAULT_HAIL_RESOURCE_LIMITS (of_hail (grant_object (sgr_payload previous)));
        Ok (Cbor.equalBytes encoded original
            && match g_previous (sgr_payload current) with
               | Some digest => Cbor.equalBytes digest (sgr_digest previous)
               | None => false
               end)
      else Ok false
  | _, _ => Ok false
  end.

Definition revoke_approved (session : AccountApiSession) (row : Approval) (value : hvalue) (p : HailGrant)
    : Act SignedGrantRevision :=
  current ← act (findCurrentByGrantId (g_grant_id p));
  match current with
  | None => act (fun _ => refused 409)
  | Some current =>
      if negb (owned_by (se_account_id session) current)
         || negb (jstr_eqb (sgr_signing_key current) (Database.ap_signing_key row))
      then act (fun _ => refused 409)
      else
        original ← act (fun _ => encodeDeterministic DEFAULT_HAIL_RESOURCE_LIMITS (of_hail value));
        _ ← others_run 7;
        previous ← act (findRevision (g_grant_id p) (g_revision p));
        done ← act (fun _ => already_revoked p original current previous);
        if (done : bool) then mret current
        else
          encoded ← act (fun _ => encodeDeterministic DEFAULT_HAIL_RESOURCE_LIMITS
                                    (of_hail (grant_object (sgr_payload current))));
          if negb (is_active (sgr_payload current)) || negb (Cbor.equalBytes encoded original)
          then act (fun _ => permission_error 409 "Permission changed after review; review the current revision again")
          else match previous with
          | None => act (fun _ => refused 409)
          | Some previous =>
              _ ← others_run 8;
              revoke (pm_service env) (se_did session) (g_grant_id p) (Some (g_revision p, sgr_digest previous))
          end
  end.

(** The items of a batch: only a definite conflict ends an item without ending the batch. *)
Fixpoint revoke_items (session : AccountApiSession) (row : Approval) (read : list (hvalue * HailGrant))
    : Act (list (jstr * option saved_result)) :=
  match read with
  | [] => mret []
  | (value, p) :: read =>
      _ ← others_run 9;
      _ ← act (live session);
      _ ← others_run 10;
      outcome ← caught (revoke_approved session row value p);
      item ← match outcome with
             | Ok saved => mret (g_grant_id p, Some (savedResult saved))
             | Err (StatusError 409 _) => mret (g_grant_id p, None)
             | Err error => act (fun _ => Err error)
             end : Act (jstr * option saved_result);
      items ← revoke_items session row read;
      mret (item :: items)
  end.

(** What the approval is for, carried out. *)
Definition carry_out (session : AccountApiSession) (row : Approval) : Act permission_result :=
  '(read, batch) ← act (fun _ => payloads row);
  if batch : bool then BatchResult <$> revoke_items session row read
  else match read with
  | [] => act (fun _ => refused 409)
  | (value, p) :: _ =>
      _ ← others_run 9;
      saved ← match ap_action row with
              | RevokeGrant => revoke_approved session row value p
              | _ => updateManaged (pm_service env) (se_canonical_address session) p (Database.ap_signing_key row)
              end;
      mret (SavedResult (savedResult saved))
  end.

Definition approved_by (credential : jstr) (now : Z) (row : Approval) : Approval := {|
  ap_account_id := ap_account_id row; ap_session_id := ap_session_id row;
  ap_serving_generation := ap_serving_generation row; ap_action := ap_action row;
  ap_request_digest := ap_request_digest row; ap_payload_bytes := ap_payload_bytes row;
  Database.ap_signing_key := Database.ap_signing_key row; ap_challenge := ap_challenge row;
  ap_expires_at := ap_expires_at row; ap_approved := Some (now, credential); ap_result := ap_result row |}.
Definition with_result (result : permission_result) (row : Approval) : Approval := {|
  ap_account_id := ap_account_id row; ap_session_id := ap_session_id row;
  ap_serving_generation := ap_serving_generation row; ap_action := ap_action row;
  ap_request_digest := ap_request_digest row; ap_payload_bytes := ap_payload_bytes row;
  Database.ap_signing_key := Database.ap_signing_key row; ap_challenge := ap_challenge row;
  ap_expires_at := ap_expires_at row; ap_approved := ap_approved row;
  ap_result := match ap_result row with Some old => Some old | None => Some result end |}.

(** The transaction that records the approval of a passkey. *)
Definition approve (session : AccountApiSession) (id : jstr) (response : hvalue) : Tx unit :=
  _ ← (fun db => throwing (live session db) db) : Tx unit;
  current ← (fun db => throwing (approval_row session id 3 db) db) : Tx Approval;
  credential ← (fun db => throwing (pm_approveAction env session (ap_challenge current) response db) db) : Tx jstr;
  updated ← query (fun db => match db account_grant_approvals !! id with
                             | Some row => bool_decide (ap_approved row = None) && (pm_clock env 2 <? ap_expires_at row)
                             | None => false
                             end);
  if negb updated then throwing (refused 410)
  else write account_grant_approvals (update_row id (approved_by credential (pm_clock env 2))).

Definition finish_commit (session : AccountApiSession) (id : jstr) (row : Approval) : Act permission_summary :=
  _ ← others_run 3;
  _ ← act (live session);
  _ ← others_run 4;
  current ← act (fun db => Ok match ap_approved row with
                              | Some (_, credential) => pm_passkey_current env session credential db
                              | None => false
                              end);
  if negb current then act (fun _ => permission_error 403 "The approving passkey is no longer current")
  else
    result ← carry_out session row;
    _ ← others_run 5;
    _ ← begin (write account_grant_approvals (update_row id (with_result result))) : Act unit;
    _ ← others_run 6;
    row ← act (approval_row session id 5);
    act (summary session id row).

Definition commit (session : AccountApiSession) (id : jstr) (response : option hvalue) : Act permission_summary :=
  _ ← act (live session);
  if negb (rx_test UUID id) then act (fun _ => refused 400)
  else if negb (pm_locked env)
  then act (fun _ => permission_error 409 "Another permission approval is running. Retry this original approval")
  else
    _ ← others_run 0;
    row ← act (approval_row session id 2);
    match ap_result row with
    | Some _ => act (summary session id row)
    | None =>
        match ap_approved row with
        | Some _ => finish_commit session id row
        | None =>
            match response with
            | None => act (fun _ => permission_error 403 "Confirm this exact permission with your passkey")
            | Some response =>
                _ ← others_run 1;
                _ ← begin (approve session id response) : Act unit;
                _ ← others_run 2;
                row ← act (approval_row session id 4);
                finish_commit session id row
            end
        end
    end.
End permissions.
