(* ===== verification/PermissionRules.v ===== *)
(** * What the approval of permissions guarantees

    Without the account's passkey a commit does nothing; and what a commit reports it has carried out is
    what had been reviewed and approved, no more. *)

From S2P Require Import Prelude JsString Regex Value Rfc8949 Cbor Profiles Validation ValidatePayload Models.
From S2P Require Import Base64Url Diagnostic Invariance Roundtrip Identity Cose CoseRules WebCrypto Database Typed.
From S2P Require Import Conversations Envelopes DeliveryRules Receiver Status StatusRules Grants GrantRules GrantReceiver.
From S2P Require Import GrantExchange ServiceRules GrantService GrantServiceRules GrantWithdrawal Permissions.
From Stdlib Require Import ZArith.
Open Scope Z_scope.

(** ** The transactions of grants leave other tables alone *)

Section elsewhere.
Context `{HailEnv} `{Cborg} `{Triggers} `{GrantAuthority}.

Definition grant_tables : list table :=
  [grant_lineages; grant_revisions; grant_consent_evidence; grant_publications].

Lemma insert_elsewhere input consent destination started (db db' : Database) u t : t ∉ grant_tables ->
  insertAuthoritativeRevision1 input consent destination started db = Ok (u, db') -> db' t = db t.
Proof.
  unfold insertAuthoritativeRevision1, grant_tables. intros Ht Hi.
  apply bind_Tx in Hi as ([] & db1 & Hx & Hi). apply throwing_Tx in Hx as [_ ->].
  apply bind_Tx in Hi as ([] & db1 & Hx & Hi). apply throwing_Tx in Hx as [_ ->].
  apply bind_Tx in Hi as ([] & db1 & Hx & Hi). apply throwing_Tx in Hx as [_ ->].
  apply bind_Tx in Hi as ([] & db1 & Hx & Hi). apply bind_Tx in Hx as (r & db2 & Hq & Hx).
  apply query_Tx in Hq as [_ ->]. apply throwing_Tx in Hx as [_ ->].
  apply bind_Tx in Hi as ([] & db1 & Hx & Hi). apply insertLineage_Ok in Hx as (_ & _ & ->).
  apply bind_Tx in Hi as ([] & db1 & Hx & Hi). apply insertRevision_Ok in Hx as [_ ->].
  apply bind_Tx in Hi as ([] & db1 & Hx & Hi). apply throwing_read in Hx as [_ ->].
  apply bind_Tx in Hi as ([] & db1 & Hx & Hi).
  rewrite (insertPublication_Ok _ _ _ _ _ _ Hi), (insertConsent_Ok _ _ _ _ _ _ Hx) by set_solver.
  by rewrite !set_ne by set_solver.
Qed.

Lemma append_elsewhere v started (db db' : Database) u t : t ∉ grant_tables ->
  appendAuthoritativeUpdate v started db = Ok (u, db') -> db' t = db t.
Proof.
  unfold appendAuthoritativeUpdate, grant_tables. intros Ht Hi.
  apply bind_Tx in Hi as ([] & db1 & Hx & Hi). apply throwing_Tx in Hx as [_ ->].
  apply bind_Tx in Hi as ([] & db1 & Hx & Hi). apply throwing_Tx in Hx as [_ ->].
  apply bind_Tx in Hi as (current & db1 & Hx & Hi). apply throwing_read in Hx as [_ ->].
  apply bind_Tx in Hi as ([] & db1 & Hx & Hi). apply throwing_Tx in Hx as [_ ->].
  apply bind_Tx in Hi as (updated & db1 & Hx & Hi). apply query_Tx in Hx as [_ ->].
  destruct updated; cbn [negb] in Hi; [|discriminate Hi].
  apply bind_Tx in Hi as ([] & db1 & Hx & Hi). apply write_Tx in Hx as ->.
  apply bind_Tx in Hi as ([] & db1 & Hx & Hi). apply insertRevision_Ok in Hx as [_ ->].
  apply bind_Tx in Hi as ([] & db1 & Hx & Hi). apply throwing_read in Hx as [_ ->].
  apply bind_Tx in Hi as ([] & db1 & Hx & Hi).
  apply bind_Tx in Hi as (first & db2 & Hy & Hi). apply query_Tx in Hy as [_ ->].
  destruct first as [f|]; [|discriminate Hi]. rewrite (insertPublication_Ok _ _ _ _ _ _ Hi) by set_solver.
  destruct (gu_consent v) as [c|].
  - rewrite (insertConsent_Ok _ _ _ _ _ _ Hx) by set_solver. by rewrite !set_ne by set_solver.
  - apply ret_Tx in Hx as [_ ->]. by rewrite !set_ne by set_solver.
Qed.
End elsewhere.

(** ** Nothing without an approval *)

Section rules.
Context `{HailEnv} `{CborgSpec} `{Keys} `{Triggers} `{GrantAuthority} `{NodeUrl}.
Context (env : permission_env).
#[local] Set Default Proof Using "Type*".

Definition belongs (session : AccountApiSession) (row : Approval) : Prop :=
  ap_account_id row = se_account_id session /\ ap_session_id row = se_credential_id session /\
  ap_serving_generation row = generation session.

Lemma approval_row_Ok session id n (db : Database) row : approval_row env session id n db = Ok row ->
  db account_grant_approvals !! id = Some row /\ belongs session row.
Proof using Type.
  unfold approval_row. destruct (negb _); [done|]. destruct (db account_grant_approvals !! id) as [r|]; [|done].
  destruct (_ || _) eqn:Hb; [done|]. destruct (_ && _); [done|]. intros [= <-]. split; [done|].
  apply orb_false_iff in Hb as [[Ha%negb_false_iff%jstr_eqb_eq Hs%negb_false_iff%jstr_eqb_eq]%orb_false_iff
    Hg%negb_false_iff%Z.eqb_eq]. done.
Qed.

(** C33: Nothing without the passkey: let nothing else happen meanwhile.  If a commit changes anything in
    the database, then the session is live, and the approval it names is stored for this account and
    session, has not been carried out, and either was approved before, or the response of the browser is
    an assertion by a passkey for the challenge of exactly this approval. *)
Theorem commit_needs_approval session id response db t : (forall n d, pm_others env n d = d) ->
  (commit env session id response db).2 t <> db t ->
  live env session db = Ok tt /\ exists row, db account_grant_approvals !! id = Some row /\
    belongs session row /\ ap_result row = None /\
    (is_Some (ap_approved row) \/ exists assertion credential, response = Some assertion /\
       pm_approveAction env session (ap_challenge row) assertion db = Ok credential).
Proof using Type.
  intros Hq Hne. unfold commit, others_run, mbind, Act_bind, act, meanwhile in Hne.
  destruct (live env session db) as [[]|e]; [split; [done|]|done].
  destruct (negb (rx_test UUID id)); [done|]. destruct (negb (pm_locked env)); [done|]. rewrite Hq in Hne.
  destruct (approval_row env session id 2 db) as [row|e] eqn:Hrow; [|done].
  apply approval_row_Ok in Hrow as [Hrow Hown]. exists row. do 2 (split; [done|]).
  destruct (ap_result row) as [result|]; [done|]. split; [done|].
  destruct (ap_approved row) as [approved|]; [left; by eexists|right].
  destruct response as [assertion|]; [|done]. rewrite Hq in Hne. unfold begin in Hne.
  destruct (approve env session id assertion db) as [[[] db1]|e] eqn:Happ; [|done]. unfold approve in Happ.
  apply bind_Tx in Happ as ([] & db2 & Hx & Happ). apply throwing_read in Hx as [_ ->].
  apply bind_Tx in Happ as (current & db2 & Hx & Happ). apply throwing_read in Hx as [Hcur ->].
  apply approval_row_Ok in Hcur as [Hcur _]. pose proof (eq_trans (eq_sym Hrow) Hcur) as [= <-].
  apply bind_Tx in Happ as (credential & db2 & Hx & _). apply throwing_read in Hx as [Hx _].
  by exists assertion, credential.
Qed.

(** ** What is carried out *)

(** A successor of the approved grant that revokes it. *)
Definition revokes (p : HailGrant) (g : SignedGrantRevision) : Prop :=
  g_grant_id (sgr_payload g) = g_grant_id p /\ g_status (sgr_payload g) = grant_revoked /\
  g_revision (sgr_payload g) = g_revision p + 1.

Definition kept (g : SignedGrantRevision) (db : Database) : Prop := checked g /\
  keeps_revision (g_grant_id (sgr_payload g)) (g_revision (sgr_payload g)) (sgr_representation g) db.

(** The result of an approval: for each payload it stored, the revision that is kept for it. *)
Definition carried_out (row : Approval) (result : permission_result) (db : Database) : Prop :=
  exists read batch, payloads row = Ok (read, batch) /\
  match result with
  | SavedResult s => batch = false /\ exists value p g, read = [(value, p)] /\ s = savedResult g /\ kept g db /\
      match ap_action row with RevokeGrant => revokes p g | _ => sgr_payload g = p end
  | BatchResult items => batch = true /\ Forall2 (fun (e : hvalue * HailGrant) item =>
      item.1 = g_grant_id e.2 /\
      forall s, item.2 = Some s -> exists g, s = savedResult g /\ kept g db /\ revokes e.2 g) read items
  end.

(** Two objects with one encoding are one payload. *)
Lemma encoded_same a b bs : hail_wf a = true -> hail_wf b = true ->
  encodeDeterministic DEFAULT_HAIL_RESOURCE_LIMITS (of_hail a) = Ok bs ->
  encodeDeterministic DEFAULT_HAIL_RESOURCE_LIMITS (of_hail b) = Ok bs -> as_HailGrant a = as_HailGrant b.
Proof using Type*.
  intros Ha Hb Hea Heb.
  assert (Hdec : forall v, hail_wf v = true -> encodeDeterministic DEFAULT_HAIL_RESOURCE_LIMITS (of_hail v) = Ok bs ->
    decodeDeterministic DEFAULT_HAIL_RESOURCE_LIMITS bs = Ok (canonical v)).
  { intros v Hv He. apply encode_Ok in He as (w & Hw & _ & Hf & ->); [|apply default_limits_ok|by rewrite js_wf_of_hail].
    rewrite as_hail_of_hail in Hw. injection Hw as <-. by apply decode_fits; [apply default_limits_ok|]. }
  pose proof (Hdec _ Ha Hea) as H1'. rewrite (Hdec _ Hb Heb) in H1'. apply Ok_eq in H1'.
  rewrite (reader_grant _ _ (same_canonical a Ha)), (reader_grant _ _ (same_canonical b Hb)). by rewrite H1'.
Qed.

(** Every payload is the reading of its object, which is well formed. *)
Lemma payloads_read row read batch : payloads row = Ok (read, batch) ->
  Forall (fun e : hvalue * HailGrant => hail_wf e.1 = true /\ as_HailGrant e.1 = Some e.2) read.
Proof using Type*.
  intros (decoded & Hd & Hp)%bind_Ok. apply decode_Ok in Hd as [Hf _]; [|apply default_limits_ok].
  pose proof (fits_wf _ _ Hf) as Hw.
  destruct (match decoded with HArr values => (values, true) | value => ([value], false) end) as [values b] eqn:He.
  assert (Hws : Forall (fun v => hail_wf v = true) values).
  { destruct decoded as [| | | | |l|]; injection He as <- <-; try (by repeat constructor).
    apply Forall_forall. intros v Hin%list_elem_of_In. cbn [hail_wf] in Hw.
    by apply (proj1 (List.forallb_forall _ _) Hw). }
  apply bind_Ok in Hp as ([] & _ & (r & Hr & [= <- <-])%bind_Ok). clear He Hw Hf. revert r Hr.
  induction Hws as [|v values Hv _ IH]; intros r Hr; cbn in Hr; [apply Ok_eq in Hr as <-; constructor|].
  apply bind_Ok in Hr as ([v' p] & Hvp & (rs & Hrs & [= <-])%bind_Ok).
  apply bind_Ok in Hvp as (u & _ & (q & Hq & [= <- <-])%bind_Ok). constructor; [|by apply IH].
  split; [done|]. cbn [fst snd]. unfold typed in Hq. cbn [as_payload] in Hq. destruct (as_HailGrant v); [by injection Hq as ->|done].
Qed.

(** One object is one payload. *)
Lemma payloads_single row value p read : payloads row = Ok ((value, p) :: read, false) -> read = [].
Proof using Type.
  intros (decoded & _ & Hp)%bind_Ok. destruct decoded as [| | | | |l|]; apply bind_Ok in Hp as ([] & _ & (r & Hm & Hp)%bind_Ok);
    apply Ok_eq in Hp; try discriminate Hp; injection Hp as ->; cbn in Hm;
    apply bind_Ok in Hm as (? & _ & Hm); by injection Hm as _ <-.
Qed.

Section outcomes.
Context (id : jstr).

(** Executions of grants by which this approval stays as it is. *)
Record stays (db db' : Database) : Prop := {
  st_execution : execution db db';
  st_approval : db' account_grant_approvals !! id = db account_grant_approvals !! id;
}.
#[local] Instance stays_preorder : PreOrder stays.
Proof using Type.
  split.
  - intros db. by split; [apply rtc_refl|].
  - intros db1 db2 db3 [H1' H2'] [H3' H4']. split; [by etransitivity|by rewrite H4'].
Qed.

Context (Hothers : forall n d, stays d (pm_others env n d)).
Context (Hservice : forall n d, stays d (gs_others (pm_service env) n d)).

Lemma service_stays call : runs stays (serve (pm_service env) call).
Proof.
  apply (serve_runs _ (R := stays)); [exact Hservice|..].
  - intros input consent destination started db db' Hi. split; [apply rtc_once; by eapply step_begin|].
    by rewrite (insert_elsewhere _ _ _ _ _ _ _ account_grant_approvals ltac:(set_solver) Hi).
  - intros u started db db' Hi. split; [apply rtc_once; by eapply step_update|].
    by rewrite (append_elsewhere _ _ _ _ _ account_grant_approvals ltac:(set_solver) Hi).
Qed.

Lemma others_stays n : runs stays (others_run env n).
Proof. apply runs_meanwhile. apply Hothers. Qed.
#[local] Hint Extern 0 (runs _ (others_run _ _)) => apply others_stays : runs.

Lemma revoke_approved_stays session row value p : runs stays (revoke_approved env session row value p).
Proof.
  unfold revoke_approved. apply runs_bind; [auto with runs|]. intros [current|]; [|auto with runs].
  destruct (_ || _); [auto with runs|]. apply runs_bind; [auto with runs|intros original].
  apply runs_bind; [auto with runs|intros _]. apply runs_bind; [auto with runs|intros previous].
  apply runs_bind; [auto with runs|intros done]. destruct done; [auto with runs|].
  apply runs_bind; [auto with runs|intros encoded]. destruct (_ || _); [auto with runs|].
  destruct previous as [previous|]; [|auto with runs]. apply runs_bind; [auto with runs|intros _].
  apply (service_stays (Revoke _ _ _)).
Qed.

Lemma revoke_items_stays session row read : runs stays (revoke_items env session row read).
Proof.
  induction read as [|[value p] read IH]; cbn [revoke_items]; [auto with runs|].
  apply runs_bind; [auto with runs|intros _]. apply runs_bind; [auto with runs|intros _].
  apply runs_bind; [auto with runs|intros _]. apply runs_bind; [apply runs_caught, revoke_approved_stays|intros outcome].
  apply runs_bind.
  - destruct outcome as [saved|[| |n m|]]; auto with runs. repeat case_match; auto with runs.
  - intros item. apply runs_bind; [exact IH|intros items]. auto with runs.
Qed.

Lemma carry_out_stays session row : runs stays (carry_out env session row).
Proof.
  unfold carry_out. apply runs_bind; [auto with runs|intros [read batch]]. destruct batch.
  - apply runs_fmap, revoke_items_stays.
  - destruct read as [|[value p] read]; [auto with runs|]. apply runs_bind; [auto with runs|intros _].
    apply runs_bind; [|intros saved; auto with runs].
    destruct (ap_action row); [apply (service_stays (UpdateManaged _ _ _))|apply revoke_approved_stays|
      apply (service_stays (UpdateManaged _ _ _))].
Qed.

Lemma Hexecution : forall n d, execution d (gs_others (pm_service env) n d).
Proof. intros n d. apply Hservice. Qed.

Lemma kept_later g (db db' : Database) : grants_reachable db -> execution db db' -> kept g db -> kept g db'.
Proof using Type.
  intros Hr Hs [Hck (r & Hrow & Hc)]. split; [done|]. exists r. split; [|done].
  by apply (steps_history _ _ (reachable_ok _ Hr) Hs).
Qed.

Lemma outcome_kept_later g (db db1 db' : Database) : grants_reachable db -> execution db db1 ->
  outcome (pm_service env) g db1 db' -> kept g db'.
Proof using Type.
  intros Hr Hs Ho. apply (outcome_kept (pm_service env) g db1 db'); [|done]. by eapply grants_reachable_steps.
Qed.

(** A revision that is kept is the only one with its number. *)
Lemma kept_unique n g g' (db db' : Database) : grants_reachable db -> execution db db' ->
  findRevision (g_grant_id (sgr_payload g)) n db = Ok (Some g) -> kept g' db' ->
  g_grant_id (sgr_payload g') = g_grant_id (sgr_payload g) -> g_revision (sgr_payload g') = g_revision (sgr_payload g) ->
  sgr_payload g' = sgr_payload g.
Proof using Type.
  intros Hr Hs (l & r & _ & Hrow & Hg)%revision_found [[(o & Ho & Hp) _] (r' & Hrow' & Hc)] Hid Hn.
  apply grantFromRow_Ok in Hg as (o' & Ho' & Hp' & _ & Hrev & _).
  destruct (steps_history _ _ (reachable_ok _ Hr) Hs) as [Hrows _]. pose proof (Hrows _ _ Hrow) as Hrow2.
  rewrite Hid, Hn, Hrev in Hrow'. pose proof (eq_trans (eq_sym Hrow2) Hrow') as [= <-].
  rewrite <- Hc, Ho' in Ho. apply Ok_eq in Ho as <-. congruence.
Qed.

Lemma revoke_approved_Ok session row value p (db : Database) g db' : grants_reachable db ->
  hail_wf value = true -> as_HailGrant value = Some p ->
  revoke_approved env session row value p db = (Ok g, db') -> revokes p g /\ kept g db'.
Proof.
  intros Hr Hw Hp Hx. unfold revoke_approved in Hx.
  apply bind_Act in Hx as (current & db1 & Hc & Hx). apply act_Ok in Hc as [Hc ->].
  destruct current as [current|]; [|discriminate Hx]. destruct (_ || _) in Hx; [discriminate Hx|].
  pose proof (current_found _ _ _ Hc) as [Hid (n & Hfound)].
  apply bind_Act in Hx as (original & db1 & He & Hx). apply act_Ok in He as [He ->].
  apply bind_Act in Hx as ([] & db1 & Hd & Hx). injection Hd as <-.
  destruct (Hothers 7 db) as [H7 _]. set (db1 := pm_others env 7 db) in *.
  apply bind_Act in Hx as (previous & db2 & Hpr & Hx). apply act_Ok in Hpr as [Hpr ->].
  apply bind_Act in Hx as (found & db2 & Hf & Hx). apply act_Ok in Hf as [Hf ->].
  destruct found.
  - injection Hx as <- <-. unfold already_revoked in Hf. destruct (g_status _) eqn:Hs; [done|].
    destruct previous as [previous|]; [|done]. destruct (Z.eqb_spec (g_revision (sgr_payload current)) (g_revision p + 1)) as [Hn|]; [|done].
    split; [by split|]. eapply kept_later; [exact Hr|exact H7|].
    eapply outcome_kept_later; [exact Hr|apply rtc_refl|]. eapply current_outcome; [exact Hc|apply rtc_refl].
  - apply bind_Act in Hx as (encoded & db2 & Hec & Hx). apply act_Ok in Hec as [Hec ->].
    destruct (_ || _) eqn:Hb in Hx; [discriminate Hx|].
    apply orb_false_iff in Hb as [Hact%negb_false_iff%bool_decide_eq_true Hsame%negb_false_iff%Cbor.equalBytes_eq].
    destruct previous as [previous|]; [|discriminate Hx].
    apply bind_Act in Hx as ([] & db2 & Hd & Hx). injection Hd as <-.
    destruct (Hothers 8 db1) as [H8 _]. set (db2 := pm_others env 8 db1) in *.
    assert (Hcp : sgr_payload current = p).
    { rewrite Hsame in Hec. pose proof (encoded_same _ _ _ (grant_object_wf _) Hw Hec He) as Heq.
      rewrite read_grant, Hp in Heq. by injection Heq. }
    assert (H02 : execution db db2) by (by etransitivity).
    pose proof (grants_reachable_steps _ _ Hr H02) as Hr2.
    pose proof (serve_outcome (pm_service env) Hexecution (Revoke (se_did session) (g_grant_id p) (Some (g_revision p, sgr_digest previous))) _ _ _ Hx) as Ho.
    pose proof (outcome_kept_later _ _ _ _ Hr H02 Ho) as Hk.
    assert (Hex : execution db db').
    { etransitivity; [exact H02|]. pose proof (serve_executes (pm_service env) (Revoke (se_did session) (g_grant_id p)
        (Some (g_revision p, sgr_digest previous))) Hexecution db2) as Hs. cbn [serve] in Hs. by rewrite Hx in Hs. }
    destruct (revoke_ends _ _ _ _ _ _ _ Hexecution Hr2 Hx) as (Hgid & Hst & Hrev & _).
    split; [|done]. split; [done|]. split; [done|].
    destruct (Hrev _ _ eq_refl) as [[Hn _]|[Hn _]]; [exfalso|exact Hn].
    rewrite <- Hid in Hfound.
    pose proof (kept_unique _ _ _ _ _ Hr Hex Hfound Hk ltac:(congruence) ltac:(congruence)) as Hsp.
    rewrite Hsp, Hact in Hst. discriminate Hst.
Qed.

(** What the account's provider signed for it reads as the approved payload. *)
Lemma accept_representation input sender rep (db : Database) g db' :
  acceptUserSignedGrant (pm_service env) input sender rep db = (Ok g, db') -> sgr_representation g = rep.
Proof using Type.
  intros (account & signed & _ & Ha & Hc)%accept_Ok. cbn zeta in Hc.
  assert (Hrep : sgr_representation signed = rep) by by rewrite (ag_signed _ _ _ _ Ha).
  destruct Hc as [(Hg & _)|[[_ Hx]|(_ & retained & _ & [Hx|Hx])]]; [done|..].
  - apply accept_revocation_Ok in Hx as (current & _ & [(_ & Hg & _)|[[_ ->]|(_ & _ & Hg)]]); congruence.
  - apply accept_update_Ok in Hx as (current & consent & _ & _ & _ & [[_ ->]|(_ & _ & Hg)]); congruence.
  - apply accept_initial_Ok in Hx as (consent & _ & [(_ & Hg & _)|(-> & _)]); congruence.
Qed.

Lemma updateManaged_payload input p key (db : Database) g db' : checked g ->
  updateManaged (pm_service env) input p key db = (Ok g, db') -> sgr_payload g = p.
Proof using Type*.
  intros Hck Hx. unfold updateManaged in Hx. apply bind_Act in Hx as (account & db1 & _ & Hx).
  destruct (negb _) in Hx; [discriminate Hx|].
  apply bind_Act in Hx as (signed & db2 & Hs & Hx). apply act_Ok in Hs as [Hs ->].
  apply bind_Act in Hx as ([] & db2 & _ & Hx). apply accept_representation in Hx.
  apply bind_Ok in Hs as (k & _ & (resolved & _ & ([] & _ & Hs)%bind_Ok)%bind_Ok).
  apply sign_checked in Hs as [[(o & Ho & Hp) _] <-]. destruct Hck as [(o' & Ho' & Hp') _].
  rewrite Hx, Ho in Ho'. apply Ok_eq in Ho' as <-. congruence.
Qed.

Lemma revoke_items_Ok session row read : Forall (fun e : hvalue * HailGrant => hail_wf e.1 = true /\ as_HailGrant e.1 = Some e.2) read ->
  forall (db : Database) items db', grants_reachable db -> revoke_items env session row read db = (Ok items, db') ->
  Forall2 (fun (e : hvalue * HailGrant) item => item.1 = g_grant_id e.2 /\
    forall s, item.2 = Some s -> exists g, s = savedResult g /\ kept g db' /\ revokes e.2 g) read items.
Proof.
  induction 1 as [|[value p] read [Hw Hp] _ IH]; intros db items db' Hr Hx; cbn [revoke_items] in Hx.
  { injection Hx as <- _. constructor. }
  apply bind_Act in Hx as ([] & db1 & Hd & Hx). injection Hd as <-.
  apply bind_Act in Hx as ([] & db1 & Hd & Hx). apply act_Ok in Hd as [_ ->].
  apply bind_Act in Hx as ([] & db1 & Hd & Hx). injection Hd as <-.
  destruct (Hothers 9 db) as [H9 _]. destruct (Hothers 10 (pm_others env 9 db)) as [H10 _].
  set (db0 := pm_others env 10 (pm_others env 9 db)) in *.
  assert (Hr0 : grants_reachable db0) by (do 2 (eapply grants_reachable_steps; [|eassumption]); done).
  apply bind_Act in Hx as (r & db1 & Ho%caught_Ok & Hx).
  pose proof (revoke_approved_stays session row value p db0) as [Hs1 _]. rewrite Ho in Hs1. cbn [snd] in Hs1.
  pose proof (grants_reachable_steps _ _ Hr0 Hs1) as Hr1.
  apply bind_Act in Hx as (item & db2 & Hi & Hx).
  assert (Hdb2 : db2 = db1 /\ item.1 = g_grant_id p /\ forall s, item.2 = Some s -> exists g, s = savedResult g /\ r = Ok g).
  { destruct r as [g|e]; [injection Hi as <- <-; split; [done|]; split; [done|]; intros s [= <-]; by exists g|].
    destruct e as [| |n m|]; try discriminate Hi. repeat (case_match; try discriminate Hi). injection Hi as <- <-. done. }
  destruct Hdb2 as (-> & Hid & Hitem).
  apply bind_Act in Hx as (rest & db2 & Hrest & Hx). injection Hx as <- <-.
  pose proof (revoke_items_stays session row read db1) as [Hs2 _]. rewrite Hrest in Hs2. cbn [snd] in Hs2.
  constructor; [|by eapply IH].
  split; [done|]. intros s Hs. destruct (Hitem _ Hs) as (g & -> & ->). exists g. split; [done|].
  destruct (revoke_approved_Ok session row value p db0 g db1 Hr0 Hw Hp Ho) as [Hrev Hk].
  split; [by eapply kept_later|done].
Qed.

Lemma carry_out_Ok session row (db : Database) result db' : grants_reachable db ->
  carry_out env session row db = (Ok result, db') -> carried_out row result db'.
Proof.
  intros Hr Hx. unfold carry_out in Hx. apply bind_Act in Hx as ([read batch] & db1 & Hp & Hx). apply act_Ok in Hp as [Hp ->].
  pose proof (payloads_read _ _ _ Hp) as Hread. exists read, batch. split; [done|]. destruct batch.
  - unfold fmap, Act_fmap in Hx. destruct (revoke_items _ _ _ _ _) as [[items|e] db1] eqn:Hi; [|discriminate Hx].
    injection Hx as <- <-. split; [done|]. by eapply revoke_items_Ok.
  - destruct read as [|[value p] read]; [discriminate Hx|].
    apply bind_Act in Hx as ([] & db1 & Hd & Hx). injection Hd as <-.
    destruct (Hothers 9 db) as [H9 _]. pose proof (grants_reachable_steps _ _ Hr H9) as Hr9.
    apply bind_Act in Hx as (g & db1 & Hg & Hx). injection Hx as <- <-. split; [done|].
    assert (Hone : read = []) by exact (payloads_single _ _ _ _ Hp).
    subst read. inversion Hread as [|? ? [Hw Hv] _]; subst. exists value, p, g. do 2 (split; [done|]).
    assert (Hupd : updateManaged (pm_service env) (se_canonical_address session) p (Database.ap_signing_key row)
        (pm_others env 9 db) = (Ok g, db1) -> kept g db1 /\ sgr_payload g = p).
    { intros Hu. pose proof (serve_outcome (pm_service env) Hexecution (UpdateManaged _ p _) _ _ _ Hu) as Ho.
      pose proof (outcome_kept (pm_service env) _ _ _ Hr9 Ho) as Hk. split; [exact Hk|].
      eapply updateManaged_payload; [exact (proj1 Hk)|exact Hu]. }
    destruct (ap_action row); [by apply Hupd| |by apply Hupd].
    destruct (revoke_approved_Ok session row value p _ g db1 Hr9 Hw Hv Hg) as [Hrev Hk]. done.
Qed.

Lemma summary_result session row (db : Database) s : summary env session id row db = Ok s -> su_result s = ap_result row.
Proof using Type.
  intros ([read batch] & _ & (scope & _ & (shown & _ & Hs)%bind_Ok)%bind_Ok)%bind_Ok. by apply Ok_eq in Hs as <-.
Qed.

Lemma approve_Ok session response (db : Database) db' : approve env session id response db = Ok (tt, db') ->
  exists row credential, db account_grant_approvals !! id = Some row /\
    db' = set account_grant_approvals (update_row id (approved_by credential (pm_clock env 2)) (db account_grant_approvals)) db.
Proof using Type.
  unfold approve. intros Happ.
  apply bind_Tx in Happ as ([] & db2 & Hx & Happ). apply throwing_read in Hx as [_ ->].
  apply bind_Tx in Happ as (current & db2 & Hx & Happ). apply throwing_read in Hx as [Hcur ->].
  apply approval_row_Ok in Hcur as [Hcur _].
  apply bind_Tx in Happ as (credential & db2 & Hx & Happ). apply throwing_read in Hx as [_ ->].
  apply bind_Tx in Happ as (updated & db2 & Hx & Happ). apply query_Tx in Hx as [_ ->].
  destruct (negb _) in Happ; [discriminate Happ|]. apply write_Tx in Happ. by exists current, credential.
Qed.

(** Writing to the table of approvals leaves every grant as it is. *)
Lemma approvals_written (f : rows account_grant_approvals -> rows account_grant_approvals) (db : Database) :
  execution db (set account_grant_approvals (f (db account_grant_approvals)) db).
Proof using Type. apply rtc_once, step_else; by rewrite set_ne. Qed.

Lemma row_written f (db : Database) row : db account_grant_approvals !! id = Some row ->
  set account_grant_approvals (update_row id f (db account_grant_approvals)) db account_grant_approvals !! id = Some (f row).
Proof using Type. intros Hrow. rewrite set_eq. tables. by rewrite update_same, Hrow. Qed.

Lemma carried_out_later row result (db db' : Database) : grants_reachable db -> execution db db' ->
  carried_out row result db -> carried_out row result db'.
Proof using Type.
  intros Hr Hs (read & batch & Hp & Hc). exists read, batch. split; [done|]. destruct result as [s|items].
  - destruct Hc as (Hb & value & p & g & H1' & H2' & Hk & Hc). split; [done|]. exists value, p, g.
    do 2 (split; [done|]). split; [by eapply kept_later|done].
  - destruct Hc as [Hb Hc]. split; [done|]. eapply Forall2_impl; [exact Hc|].
    intros e item [Hid Hi]. split; [done|]. intros s Hs'. destruct (Hi s Hs') as (g & H1' & Hk & Hc').
    exists g. split; [done|]. split; [by eapply kept_later|done].
Qed.

(** What a finished commit leaves: the approval with its result, which has been carried out. *)
Definition finished (session : AccountApiSession) (s : permission_summary) (db' : Database) : Prop :=
  exists row result t credential, db' account_grant_approvals !! id = Some row /\ belongs session row /\
    ap_result row = Some result /\ su_result s = Some result /\ ap_approved row = Some (t, credential) /\
    carried_out row result db'.

Lemma finish_commit_Ok session row (db : Database) s db' : grants_reachable db ->
  db account_grant_approvals !! id = Some row -> ap_result row = None ->
  finish_commit env session id row db = (Ok s, db') -> finished session s db'.
Proof.
  intros Hr Hrow Hnone Hx. unfold finish_commit in Hx.
  apply bind_Act in Hx as ([] & db1 & [= <-] & Hx). destruct (Hothers 3 db) as [H3' Ha3].
  apply bind_Act in Hx as ([] & db1 & Hd & Hx). apply act_Ok in Hd as [_ ->].
  apply bind_Act in Hx as ([] & db1 & [= <-] & Hx). destruct (Hothers 4 (pm_others env 3 db)) as [H4' Ha4].
  set (db1 := pm_others env 4 (pm_others env 3 db)) in *.
  apply bind_Act in Hx as (current & db2 & Hc & Hx). apply act_Ok in Hc as [Hc ->]. apply Ok_eq in Hc.
  destruct (ap_approved row) as [[t credential]|] eqn:Happ; [|subst current; discriminate Hx].
  destruct current; cbn [negb] in Hx; [|discriminate Hx].
  assert (Hr1 : grants_reachable db1) by (do 2 (eapply grants_reachable_steps; [|eassumption]); done).
  apply bind_Act in Hx as (result & db2 & Hcar & Hx).
  pose proof (carry_out_stays session row db1) as [Hs2 Ha2]. rewrite Hcar in Hs2, Ha2. cbn [snd] in Hs2, Ha2.
  pose proof (grants_reachable_steps _ _ Hr1 Hs2) as Hr2.
  apply carry_out_Ok in Hcar; [|done].
  apply bind_Act in Hx as ([] & db3 & [= <-] & Hx). destruct (Hothers 5 db2) as [H5' Ha5].
  set (db3 := pm_others env 5 db2) in *. pose proof (grants_reachable_steps _ _ Hr2 H5') as Hr3.
  assert (Hrow3 : db3 account_grant_approvals !! id = Some row) by (unfold db1 in *; congruence).
  apply bind_Act in Hx as ([] & db4 & Hw%begin_Ok%write_Tx & Hx).
  pose proof (approvals_written (update_row id (with_result result)) db3) as H4x. rewrite <- Hw in H4x.
  apply bind_Act in Hx as ([] & db5 & [= <-] & Hx). destruct (Hothers 6 db4) as [H6' Ha6].
  apply bind_Act in Hx as (final & db5 & Hf & Hx). apply act_Ok in Hf as [Hf ->].
  apply act_Ok in Hx as [Hsum ->]. apply approval_row_Ok in Hf as [Hf Hown]. apply summary_result in Hsum.
  assert (Hfinal : final = with_result result row).
  { rewrite Ha6, Hw, (row_written _ _ _ Hrow3) in Hf. by injection Hf. }
  subst final. exists (with_result result row), result, t, credential.
  cbn [with_result ap_result ap_approved] in Hsum |- *. rewrite Hnone in Hsum |- *.
  do 5 (split; [done|]).
  assert (Hc' : carried_out row result (pm_others env 6 db4)).
  { apply (carried_out_later _ _ db2); [done| |done]. etransitivity; [exact H5'|]. by etransitivity. }
  exact Hc'.
Qed.
End outcomes.

(** C34: What was approved, no more: let the other processes run executions of grants that leave this
    approval alone.  If a commit answers, the result it reports is the one stored with the approval, and
    either it was there before, or the approval bears a passkey's credential and the result has been
    carried out: for one payload, a verified revision is kept that has exactly the payload that was
    approved, or, for a revocation, that revokes its grant as the next revision; for a batch, every item
    reported as revoked is such a revocation of the payload in its place. *)
Theorem committed_as_approved session id response (db : Database) s db' :
  (forall n d, stays id d (pm_others env n d)) -> (forall n d, stays id d (gs_others (pm_service env) n d)) ->
  grants_reachable db -> commit env session id response db = (Ok s, db') ->
  (exists row result, db account_grant_approvals !! id = Some row /\ belongs session row /\
     ap_result row = Some result /\ su_result s = Some result /\
     db' account_grant_approvals !! id = db account_grant_approvals !! id) \/
  finished id session s db'.
Proof.
  intros Hothers Hservice Hr Hx. unfold commit in Hx.
  apply bind_Act in Hx as ([] & db1 & Hd & Hx). apply act_Ok in Hd as [_ ->].
  destruct (negb _) in Hx; [discriminate Hx|]. destruct (negb _) in Hx; [discriminate Hx|].
  apply bind_Act in Hx as ([] & db1 & [= <-] & Hx). destruct (Hothers 0%nat db) as [H0' Ha0].
  apply bind_Act in Hx as (row & db1 & Hrow & Hx). apply act_Ok in Hrow as [[Hrow Hown]%approval_row_Ok ->].
  pose proof (grants_reachable_steps _ _ Hr H0') as Hr0.
  destruct (ap_result row) as [result|] eqn:Hres.
  { left. apply act_Ok in Hx as [Hs%summary_result ->]. exists row, result.
    split; [congruence|]. do 2 (split; [done|]). split; [congruence|done]. }
  right. destruct (ap_approved row) eqn:Happ; [by eapply finish_commit_Ok|].
  destruct response as [assertion|]; [|discriminate Hx].
  apply bind_Act in Hx as ([] & db1 & [= <-] & Hx). destruct (Hothers 1%nat (pm_others env 0 db)) as [H1' Ha1].
  set (db1 := pm_others env 1 (pm_others env 0 db)) in *. pose proof (grants_reachable_steps _ _ Hr0 H1') as Hr1.
  apply bind_Act in Hx as ([] & db2 & Hap%begin_Ok & Hx).
  apply approve_Ok in Hap as (row1 & credential & Hrow1 & Hdb2).
  pose proof (approvals_written (update_row id (approved_by credential (pm_clock env 2))) db1) as H2x. rewrite <- Hdb2 in H2x.
  apply bind_Act in Hx as ([] & db3 & [= <-] & Hx). destruct (Hothers 2%nat db2) as [H2' Ha2].
  apply bind_Act in Hx as (final & db3 & Hf & Hx). apply act_Ok in Hf as [[Hf Hown']%approval_row_Ok ->].
  eapply (finish_commit_Ok id Hothers Hservice); [| exact Hf | | exact Hx].
  { eapply grants_reachable_steps; [exact Hr1|]. by etransitivity. }
  rewrite Ha2, Hdb2, (row_written id _ db1 row1 Hrow1) in Hf. injection Hf as <-.
  rewrite Ha1 in Hrow1. by pose proof (eq_trans (eq_sym Hrow1) Hrow) as [= ->].
Qed.
End rules.
