(* ===== verification/PermissionScenario.v ===== *)
(** * A revocation is approved with a passkey

    Alice has allowed Bob; she has reviewed that permission to revoke it, and approves with her passkey. *)

From S2P Require Import Prelude JsString Regex Value Rfc8949 Cbor Profiles Validation ValidatePayload Models.
From S2P Require Import Identity Cose CoseRules WebCrypto Database Typed Conversations Envelopes Receiver Status.
From S2P Require Import Scenario Grants GrantRules GrantScenario GrantReceiver PublisherRules GrantExchange.
From S2P Require Import GrantArrival GrantService GrantServiceRules GrantServiceScenario Permissions PermissionRules.
From Stdlib Require Import ZArith.
Open Scope Z_scope.

#[local] Existing Instance granting_env.
#[local] Existing Instance Reference.cborg.
#[local] Existing Instance Reference.cborg_spec.
#[local] Existing Instance example_triggers.
#[local] Existing Instance example_grant_authority.
#[local] Existing Instance plain_domains.
#[local] Existing Instance summing_keys.

Definition alices_session : AccountApiSession := {|
  se_account_id := alice_account; se_credential_id := js "browser"; se_did := alice;
  se_canonical_address := js "alice@a.example"; se_serving_generation := None;
  se_passkey_credential_id := Some (js "passkey") |}.

Definition alices_permissions : permission_env := {|
  pm_service := alices_service;
  pm_live := fun _ _ => true;
  pm_passkey_current := fun _ credential _ => jstr_eqb credential (js "passkey");
  pm_approveAction := fun _ challenge response _ =>
    match response with
    | HStr answer => if jstr_eqb answer challenge then Ok (js "passkey") else Err (OtherError (js "not verified"))
    | _ => Err (OtherError (js "not verified"))
    end;
  pm_identityKey := fun _ _ => Ok (Some (js "did:key:z6Mi"));
  pm_previousAddressIdentities := fun _ _ _ _ => [];
  pm_locked := true; pm_random := repeat xff 32; pm_now := fun _ => 40000000; pm_clock := fun _ => seconds 40000;
  pm_others := fun _ db => db |}.

Definition approval_id : jstr := js "00000000-0000-7000-8000-000000000001".
Definition reviewed_bytes : bytes := ltac:(
  let r := eval vm_compute in (encodeDeterministic DEFAULT_HAIL_RESOURCE_LIMITS (of_hail (grant_object (sgr_payload granted_revision))))
  in match r with Ok ?b => exact b end).
Definition reviewed_approval : Approval := {|
  ap_account_id := alice_account; ap_session_id := js "browser"; ap_serving_generation := 1; ap_action := RevokeGrant;
  ap_request_digest := []; ap_payload_bytes := reviewed_bytes; Database.ap_signing_key := js "did:key:z6Mi";
  ap_challenge := js "challenge"; ap_expires_at := seconds 40300; ap_approved := None; ap_result := None |}.
Definition reviewed : Database :=
  set account_grant_approvals (<[approval_id := reviewed_approval]> (granting.2 account_grant_approvals)) granting.2.

Lemma reviewed_reachable : grants_reachable reviewed.
Proof.
  eapply grants_reachable_steps; [exact granted_reachable|]. apply rtc_once, step_else; unfold reviewed; by rewrite set_ne.
Qed.

Definition committing : M permission_summary * Database :=
  commit alices_permissions alices_session approval_id (Some (HStr (js "challenge"))) reviewed.
Definition committed : permission_summary := ltac:(
  let r := eval vm_compute in committing.1 in match r with Ok ?s => exact s end).
Lemma committed_now : commit alices_permissions alices_session approval_id (Some (HStr (js "challenge"))) reviewed =
  (Ok committed, committing.2).
Proof.
  assert (Hs : committing.1 = Ok committed) by (vm_compute; reflexivity).
  change (committing = (Ok committed, committing.2)). destruct committing as [r db]. cbn in Hs |- *. by rewrite Hs.
Qed.

Definition approved_credential (db : Database) : option jstr :=
  db account_grant_approvals !! approval_id ≫= fun row => snd <$> ap_approved row.
Lemma commit_changes :
  (commit alices_permissions alices_session approval_id (Some (HStr (js "challenge"))) reviewed).2 account_grant_approvals
  <> reviewed account_grant_approvals.
Proof.
  rewrite committed_now. cbn [snd].
  assert (Hafter : approved_credential committing.2 = Some (js "passkey")) by (vm_compute; reflexivity).
  assert (Hbefore : approved_credential reviewed = None) by (vm_compute; reflexivity).
  intros He. unfold approved_credential in *. rewrite He, Hbefore in Hafter. discriminate Hafter.
Qed.

Lemma left_alone n d : stays approval_id d (pm_others alices_permissions n d).
Proof. split; [apply rtc_refl|reflexivity]. Qed.
Lemma service_left_alone n d : stays approval_id d (gs_others (pm_service alices_permissions) n d).
Proof. split; [apply rtc_refl|reflexivity]. Qed.

Lemma commit_needs_approval_witness : exists row, reviewed account_grant_approvals !! approval_id = Some row /\
  ap_result row = None.
Proof.
  destruct (commit_needs_approval alices_permissions alices_session approval_id (Some (HStr (js "challenge"))) reviewed
    account_grant_approvals (fun _ _ => eq_refl) commit_changes) as (_ & row & Hrow & _ & Hr & _).
  exists row. split; [exact Hrow|exact Hr].
Defined.

Lemma committed_as_approved_witness :
  committing.1 = Ok committed /\ (ap_result reviewed_approval = None -> finished approval_id alices_session committed committing.2).
Proof.
  split; [exact (f_equal fst committed_now)|].
  destruct (committed_as_approved alices_permissions alices_session approval_id (Some (HStr (js "challenge"))) reviewed
    committed committing.2 left_alone service_left_alone reviewed_reachable committed_now)
    as [(row & result & Hrow & _ & Hr & _)|Hf]; [|intros _; exact Hf].
  intros _. exfalso. unfold reviewed in Hrow. rewrite set_eq in Hrow. tables. rewrite lookup_insert in Hrow.
  cbn in Hrow. injection Hrow as <-. discriminate Hr.
Defined.
