(* ===== verification/StrictJson.v ===== *)
(** * JSON without duplicate members (apps/server/src/discovery/strict-json.ts)

    The parser the provider uses for what other parties write, and the texts it is for. *)

From S2P Require Import Prelude JsString Regex Value.
From Stdlib Require Import ZArith SpecFloat.
Open Scope Z_scope.

(** What a text stands for.  A number is an IEEE 754 double; the members of an object are in the order
    of the text, where a JavaScript object lists names that are array indices first: nothing reads the order. *)
Inductive json :=
| JsonNull
| JsonBool (b : bool)
| JsonNumber (f : spec_float)
| JsonString (s : jstr)
| JsonArray (items : list json)
| JsonObject (members : list (jstr * json)).

Definition json_error {A} (message : String.string) : M A := Err (OtherError (js message)).
Arguments json_error {A} message%_string.

(** ** White space *)

Definition is_white (u : N) : bool := existsb (N.eqb u) [0x9; 0xA; 0xD; 0x20]%N.
Fixpoint whitespace (s : jstr) : jstr :=
  match s with
  | u :: rest => if is_white u then whitespace rest else s
  | [] => []
  end.

(** ** Strings *)

Definition quote : N := 34%N.
Definition backslash : N := 92%N.

(** The loop of [string]: from behind the opening quote to the closing one, and what follows. *)
Fixpoint string_end (s : jstr) : option (jstr * jstr) :=
  match s with
  | [] => None
  | u :: rest =>
      if (u =? quote)%N then Some ([], rest)
      else if (u =? backslash)%N then
        match rest with
        | [] => None
        | v :: rest => prod_map (app [u; v]) id <$> string_end rest
        end
      else prod_map (cons u) id <$> string_end rest
  end.

Definition hex_value (u : N) : option N :=
  if (char "0" <=? u)%N && (u <=? char "9")%N then Some (u - char "0")%N
  else if (char "a" <=? u)%N && (u <=? char "f")%N then Some (u - char "a" + 10)%N
  else if (char "A" <=? u)%N && (u <=? char "F")%N then Some (u - char "A" + 10)%N
  else None.

(** The escapes of one character, with what they stand for. *)
Definition escapes : list (N * N) :=
  [(quote, quote); (backslash, backslash); (char "/", char "/"); (char "b", 8%N); (char "f", 12%N);
   (char "n", 10%N); (char "r", 13%N); (char "t", 9%N)].
Definition escaped (u : N) : option N := snd <$> List.find (fun e => (e.1 =? u)%N) escapes.

(** [JSON.parse] of a string literal, without its quotes; [None] when it throws. *)
Fixpoint parse_string (s : jstr) : option jstr :=
  match s with
  | [] => Some []
  | u :: rest =>
      if (u =? backslash)%N then
        match rest with
        | v :: rest' =>
            if (v =? char "u")%N then
              match rest' with
              | a :: b :: c :: d :: rest =>
                  a ← hex_value a; b ← hex_value b; c ← hex_value c; d ← hex_value d;
                  cons (4096 * a + 256 * b + 16 * c + d)%N <$> parse_string rest
              | _ => None
              end
            else w ← escaped v; cons w <$> parse_string rest'
        | [] => None
        end
      else if (u <? 0x20)%N || (u =? quote)%N then None
      else cons u <$> parse_string rest
  end.

Definition string (s : jstr) : M (jstr * jstr) :=
  match s with
  | u :: s =>
      if (u =? quote)%N then
        match string_end s with
        | Some (literal, rest) =>
            match parse_string literal with
            | Some text => Ok (text, rest)
            | None => json_error "JSON Parse error"      (* the engine's own words *)
            end
        | None => json_error "Unterminated JSON string"
        end
      else json_error "Expected JSON string"
  | [] => json_error "Expected JSON string"
  end.

(** ** Numbers *)

(** The parts of a number in the text; the exponent has its letter, its sign and its digits. *)
Record numeral := {
  n_minus : bool;
  n_integer : jstr;
  n_fraction : option jstr;
  n_exponent : option (N * option N * jstr);
}.

Definition numeral_text (n : numeral) : jstr :=
  (if n_minus n then [char "-"] else []) ++ n_integer n
  ++ match n_fraction n with Some f => char "." :: f | None => [] end
  ++ match n_exponent n with
     | Some (e, sign, digits) => e :: option_list sign ++ digits
     | None => []
     end.

Definition is_digit (u : N) : bool := ((char "0" <=? u) && (u <=? char "9"))%N.
Fixpoint span_digits (s : jstr) : jstr * jstr :=
  match s with
  | u :: rest => if is_digit u then prod_map (cons u) id (span_digits rest) else ([], s)
  | [] => ([], [])
  end.

(** The match of the expression for numbers, part by part: a sign, the integer without leading zeros, a
    fraction and an exponent where they are complete. *)
Definition scan_integer (s : jstr) : option (jstr * jstr) :=
  match s with
  | u :: rest =>
      if (u =? char "0")%N then Some ([u], rest)
      else if is_digit u then Some (prod_map (cons u) id (span_digits rest))
      else None
  | [] => None
  end.
Definition scan_fraction (s : jstr) : option jstr * jstr :=
  match s with
  | u :: rest =>
      if (u =? char ".")%N then
        match span_digits rest with ([], _) => (None, s) | (digits, rest) => (Some digits, rest) end
      else (None, s)
  | [] => (None, s)
  end.
Definition scan_sign (s : jstr) : option N * jstr :=
  match s with
  | u :: rest => if (u =? char "+")%N || (u =? char "-")%N then (Some u, rest) else (None, s)
  | [] => (None, s)
  end.
Definition scan_exponent (s : jstr) : option (N * option N * jstr) * jstr :=
  match s with
  | u :: rest =>
      if (u =? char "e")%N || (u =? char "E")%N then
        let '(sign, rest) := scan_sign rest in
        match span_digits rest with ([], _) => (None, s) | (digits, rest) => (Some (u, sign, digits), rest) end
      else (None, s)
  | [] => (None, s)
  end.
Definition scan_minus (s : jstr) : bool * jstr :=
  match s with
  | u :: rest => if (u =? char "-")%N then (true, rest) else (false, s)
  | [] => (false, s)
  end.
Definition scan_number (s : jstr) : option (numeral * jstr) :=
  let '(minus, s) := scan_minus s in
  '(integer, s) ← scan_integer s;
  let '(fraction, s) := scan_fraction s in
  let '(exponent, s) := scan_exponent s in
  Some ({| n_minus := minus; n_integer := integer; n_fraction := fraction; n_exponent := exponent |}, s).

Definition digits_value (s : jstr) : Z := fold_left (fun n u => 10 * n + (Z.of_N u - 48)) s 0.

(** [Number] of the text of a numeral: the double nearest to [± mantissa * 10 ^ exponent]. *)
Definition Number (n : numeral) : spec_float :=
  let fraction := default [] (n_fraction n) in
  let exponent :=
    match n_exponent n with
    | Some (_, sign, digits) => if bool_decide (sign = Some (char "-")) then - digits_value digits else digits_value digits
    | None => 0
    end - Z.of_nat (length fraction) in
  match digits_value (n_integer n ++ fraction) with
  | Zpos mantissa =>
      if 0 <=? exponent then
        binary_normalize 53 1024
          ((if n_minus n then -1 else 1) * (Zpos mantissa * 10 ^ exponent)) 0 (n_minus n)
      else SFdiv 53 1024 (S754_finite (n_minus n) mantissa 0) (S754_finite false (Z.to_pos (10 ^ - exponent)) 0)
  | _ => S754_zero (n_minus n)
  end.

(** ** Values *)

(** A value that is neither a string nor an object nor an array. *)
Definition scalar (s : jstr) : M (json * jstr) :=
  if starts_with (js "true") s then Ok (JsonBool true, drop 4 s)
  else if starts_with (js "false") s then Ok (JsonBool false, drop 5 s)
  else if starts_with (js "null") s then Ok (JsonNull, drop 4 s)
  else match scan_number s with
  | Some (n, rest) => Ok (JsonNumber (Number n), rest)
  | None => json_error "Invalid JSON value"
  end.

Section containers.
Context (value : jstr -> M (json * jstr)).

(** The loop of [array], behind the opening bracket or a comma. *)
Fixpoint elements (fuel : nat) (s : jstr) : M (list json * jstr) :=
  match fuel with
  | O => Err OutOfFuel
  | S fuel =>
      '(v, s) ← value s;
      match whitespace s with
      | u :: s =>
          if (u =? char "]")%N then Ok ([v], s)
          else if (u =? char ",")%N then '(vs, s) ← elements fuel s; Ok (v :: vs, s)
          else json_error "Expected comma in JSON array"
      | [] => json_error "Expected comma in JSON array"
      end
  end.

(** The loop of [object]; [keys] are the names that were read before. *)
Fixpoint members (fuel : nat) (keys : list jstr) (s : jstr) : M (list (jstr * json) * jstr) :=
  match fuel with
  | O => Err OutOfFuel
  | S fuel =>
      '(key, s) ← string (whitespace s);
      _ ← throw_if (includes keys key) (OtherError (js "Duplicate JSON member: " ++ key));
      match whitespace s with
      | u :: s =>
          if (u =? char ":")%N then
            '(v, s) ← value s;
            match whitespace s with
            | u :: s =>
                if (u =? char "}")%N then Ok ([(key, v)], s)
                else if (u =? char ",")%N then '(vs, s) ← members fuel (key :: keys) s; Ok ((key, v) :: vs, s)
                else json_error "Expected comma in JSON object"
            | [] => json_error "Expected comma in JSON object"
            end
          else json_error "Expected colon after JSON member name"
      | [] => json_error "Expected colon after JSON member name"
      end
  end.

Definition array (s : jstr) : M (json * jstr) :=
  match whitespace s with
  | u :: rest =>
      if (u =? char "]")%N then Ok (JsonArray [], rest)
      else '(vs, rest) ← elements (S (length s)) (whitespace s); Ok (JsonArray vs, rest)
  | [] => '(vs, rest) ← elements (S (length s)) []; Ok (JsonArray vs, rest)
  end.
Definition object (s : jstr) : M (json * jstr) :=
  match whitespace s with
  | u :: rest =>
      if (u =? char "}")%N then Ok (JsonObject [], rest)
      else '(ms, rest) ← members (S (length s)) [] (whitespace s); Ok (JsonObject ms, rest)
  | [] => '(ms, rest) ← members (S (length s)) [] []; Ok (JsonObject ms, rest)
  end.
End containers.

(** [value(depth)] with [room = 33 - depth]. *)
Fixpoint value (room : nat) (s : jstr) : M (json * jstr) :=
  match room with
  | O => json_error "JSON nesting is too deep"
  | S room =>
      match whitespace s with
      | u :: rest =>
          if (u =? quote)%N then '(text, rest) ← string (u :: rest); Ok (JsonString text, rest)
          else if (u =? char "{")%N then object (value room) rest
          else if (u =? char "[")%N then array (value room) rest
          else scalar (u :: rest)
      | [] => scalar []
      end
  end.

Definition parseJsonWithoutDuplicateKeys (source : jstr) : M json :=
  '(result, rest) ← value 33 source;
  match whitespace rest with
  | [] => Ok result
  | _ => json_error "Unexpected content after JSON value"
  end.

#[global] Arguments is_white : simpl never.
#[global] Arguments is_digit : simpl never.
#[global] Arguments hex_value : simpl never.
#[global] Arguments escaped : simpl never.

Example parse_example : parseJsonWithoutDuplicateKeys (js " [1, true,{}] ")
  = Ok (JsonArray [JsonNumber (S754_finite false 4503599627370496 (-52)); JsonBool true; JsonObject []]).
Proof. vm_compute. reflexivity. Qed.
Example parse_tenth : parseJsonWithoutDuplicateKeys (js "-0.1e0")
  = Ok (JsonNumber (S754_finite true 7205759403792794 (-56))).
Proof. vm_compute. reflexivity. Qed.
Example parse_large : parseJsonWithoutDuplicateKeys (js "1E400") = Ok (JsonNumber (S754_infinity false)).
Proof. vm_compute. reflexivity. Qed.
Example parse_smallest : parseJsonWithoutDuplicateKeys (js "4.9e-324") = Ok (JsonNumber (S754_finite false 1 (-1074))).
Proof. vm_compute. reflexivity. Qed.
