(* ===== verification/StrictJsonRules.v ===== *)
(** * Which texts the strict parser accepts, and what it makes of them

    The grammar of JSON with distinct member names and bounded nesting, as a relation between texts and
    values; the parser decides it and computes the value. *)

From S2P Require Import Prelude JsString Regex Value StrictJson.
From Stdlib Require Import ZArith ZifyBool ZifyN.
Open Scope Z_scope.

#[local] Arguments char : simpl never.

(** ** The grammar *)

Definition spaces (w : jstr) : Prop := forallb is_white w = true.
Definition all_digits (s : jstr) : Prop := forallb is_digit s = true.

(** The characters between the quotes, and the text they stand for. *)
Inductive string_body : jstr -> jstr -> Prop :=
| body_end : string_body [] []
| body_plain u b t : (0x20 <= u)%N -> u <> quote -> u <> backslash -> string_body b t ->
    string_body (u :: b) (u :: t)
| body_escape v w b t : escaped v = Some w -> string_body b t -> string_body (backslash :: v :: b) (w :: t)
| body_unicode c1 c2 c3 c4 n1 n2 n3 n4 b t :
    hex_value c1 = Some n1 -> hex_value c2 = Some n2 -> hex_value c3 = Some n3 -> hex_value c4 = Some n4 ->
    string_body b t ->
    string_body (backslash :: char "u" :: c1 :: c2 :: c3 :: c4 :: b)
      ((4096 * n1 + 256 * n2 + 16 * n3 + n4)%N :: t).

Definition string_text (b : jstr) : jstr := quote :: b ++ [quote].

(** No leading zeros, and no part without digits. *)
Record numeral_wf (n : numeral) : Prop := {
  nw_integer : n_integer n = [char "0"] \/
    exists u ds, n_integer n = u :: ds /\ is_digit u = true /\ u <> char "0" /\ all_digits ds;
  nw_fraction f : n_fraction n = Some f -> f <> [] /\ all_digits f;
  nw_exponent e sign ds : n_exponent n = Some (e, sign, ds) ->
    (e = char "e" \/ e = char "E") /\ (sign = None \/ sign = Some (char "+") \/ sign = Some (char "-")) /\
    ds <> [] /\ all_digits ds;
}.

(** [denotes room t v]: the text [t], without white space around it, is JSON for [v], and it contains
    nothing that is nested in more than [room - 1] arrays and objects; names of an object are distinct. *)
Inductive denotes : nat -> jstr -> json -> Prop :=
| den_null room : denotes (S room) (js "null") JsonNull
| den_true room : denotes (S room) (js "true") (JsonBool true)
| den_false room : denotes (S room) (js "false") (JsonBool false)
| den_number room n : numeral_wf n -> denotes (S room) (numeral_text n) (JsonNumber (Number n))
| den_string room b t : string_body b t -> denotes (S room) (string_text b) (JsonString t)
| den_empty_array room w : spaces w -> denotes (S room) (char "[" :: w ++ [char "]"]) (JsonArray [])
| den_array room t vs : elements_text room t vs -> denotes (S room) (char "[" :: t ++ [char "]"]) (JsonArray vs)
| den_empty_object room w : spaces w -> denotes (S room) (char "{" :: w ++ [char "}"]) (JsonObject [])
| den_object room t ms : members_text room t ms -> NoDup ms.*1 ->
    denotes (S room) (char "{" :: t ++ [char "}"]) (JsonObject ms)
with elements_text : nat -> jstr -> list json -> Prop :=
| elements_last room w t w' v : spaces w -> spaces w' -> denotes room t v -> elements_text room (w ++ t ++ w') [v]
| elements_more room w t w' v rest vs : spaces w -> spaces w' -> denotes room t v -> elements_text room rest vs ->
    elements_text room (w ++ t ++ w' ++ char "," :: rest) (v :: vs)
with members_text : nat -> jstr -> list (jstr * json) -> Prop :=
| members_last room w b key w1 w2 t w3 v :
    spaces w -> string_body b key -> spaces w1 -> spaces w2 -> spaces w3 -> denotes room t v ->
    members_text room (w ++ string_text b ++ w1 ++ char ":" :: w2 ++ t ++ w3) [(key, v)]
| members_more room w b key w1 w2 t w3 v rest ms :
    spaces w -> string_body b key -> spaces w1 -> spaces w2 -> spaces w3 -> denotes room t v ->
    members_text room rest ms ->
    members_text room (w ++ string_text b ++ w1 ++ char ":" :: w2 ++ t ++ w3 ++ char "," :: rest) ((key, v) :: ms).

(** ** White space *)

Lemma whitespace_split s : exists w, s = w ++ whitespace s /\ spaces w.
Proof.
  induction s as [|u s (w & Hs & Hw)]; [by exists []|]. cbn. destruct (is_white u) eqn:Hu.
  - exists (u :: w). unfold spaces in *. cbn. by rewrite Hu, <- Hs.
  - by exists [].
Qed.

Lemma whitespace_spaces w s : spaces w -> whitespace (w ++ s) = whitespace s.
Proof. unfold spaces. induction w as [|u w IH]; [done|]. cbn. destruct (is_white u); [exact IH|done]. Qed.

Lemma whitespace_text w u s : spaces w -> is_white u = false -> whitespace (w ++ u :: s) = u :: s.
Proof. intros Hw Hu. rewrite whitespace_spaces by done. cbn. by rewrite Hu. Qed.

Lemma whitespace_twice s : whitespace (whitespace s) = whitespace s.
Proof. induction s as [|u s IH]; [done|]. cbn. destruct (is_white u) eqn:Hu; [exact IH|]. cbn. by rewrite Hu. Qed.

Lemma whitespace_end s : whitespace s = [] -> spaces s.
Proof. intros Hs. destruct (whitespace_split s) as (w & He & Hw). by rewrite He, Hs, app_nil_r. Qed.

Lemma whitespace_cons s u r : whitespace s = u :: r -> exists w, s = w ++ u :: r /\ spaces w.
Proof. intros Hs. destruct (whitespace_split s) as (w & He & Hw). rewrite Hs in He. by exists w. Qed.

(** ** Strings *)

Lemma parse_string_body b : forall t, parse_string b = Some t -> string_body b t.
Proof.
  induction b as [b IH] using list_ind_length. intros t Hp. destruct b as [|u rest]; [injection Hp as <-; constructor|].
  cbn [parse_string] in Hp. destruct (N.eqb_spec u backslash) as [->|Hu].
  - destruct rest as [|v rest']; [done|]. destruct (N.eqb_spec v (char "u")) as [->|Hv].
    + destruct rest' as [|a [|b [|c [|d rest]]]]; try done.
      destruct (hex_value a) eqn:Ha; [|done]. destruct (hex_value b) eqn:Hb; [|done].
      destruct (hex_value c) eqn:Hc; [|done]. destruct (hex_value d) eqn:Hd; [|done].
      cbn [mbind option_bind] in Hp. apply fmap_Some in Hp as (x & Hx & ->). apply body_unicode; try done.
      apply IH; [cbn; lia|done].
    + destruct (escaped v) as [w|] eqn:Hw; [|done]. cbn [mbind option_bind] in Hp.
      apply fmap_Some in Hp as (x & Hx & ->). apply body_escape; [done|]. apply IH; [cbn; lia|done].
  - destruct (_ || _) eqn:Hb; [done|]. apply orb_false_iff in Hb as [H1%N.ltb_ge H2%N.eqb_neq].
    apply fmap_Some in Hp as (x & Hx & ->). apply body_plain; try done. apply IH; [cbn; lia|done].
Qed.

Lemma escaped_not_u v w : escaped v = Some w -> (v =? char "u")%N = false.
Proof. intros Hv. destruct (N.eqb_spec v (char "u")) as [->|]; [discriminate Hv|done]. Qed.

Lemma string_body_parse b t : string_body b t -> parse_string b = Some t.
Proof.
  induction 1 as [|u b t H1 H2 H3 _ IH|v w b t Hv _ IH|c1 c2 c3 c4 n1 n2 n3 n4 b t H1 H2 H3 H4 _ IH]; cbn [parse_string].
  - done.
  - rewrite (proj2 (N.eqb_neq _ _) H3), (proj2 (N.eqb_neq _ _) H2), (proj2 (N.ltb_ge _ _) H1). cbn. by rewrite IH.
  - rewrite N.eqb_refl, (escaped_not_u _ _ Hv), Hv. cbn [mbind option_bind]. by rewrite IH.
  - rewrite !N.eqb_refl, H1, H2, H3, H4. cbn [mbind option_bind]. by rewrite IH.
Qed.

Lemma hex_value_plain c n : hex_value c = Some n -> (c =? quote)%N = false /\ (c =? backslash)%N = false.
Proof.
  unfold hex_value, quote, backslash. change (char "0") with 48%N. change (char "9") with 57%N.
  change (char "a") with 97%N. change (char "f") with 102%N. change (char "A") with 65%N. change (char "F") with 70%N.
  intros Hc. rewrite !N.eqb_neq. repeat case_match; try discriminate Hc; lia.
Qed.

Lemma string_end_body b t rest : string_body b t -> string_end (b ++ quote :: rest) = Some (b, rest).
Proof.
  induction 1 as [|u b t H1 H2 H3 _ IH|v w b t Hv _ IH|c1 c2 c3 c4 n1 n2 n3 n4 b t H1 H2 H3 H4 _ IH];
    cbn [string_end app].
  - by rewrite N.eqb_refl.
  - by rewrite (proj2 (N.eqb_neq _ _) H2), (proj2 (N.eqb_neq _ _) H3), IH.
  - change (backslash =? quote)%N with false. rewrite N.eqb_refl. by rewrite IH.
  - change (backslash =? quote)%N with false. rewrite N.eqb_refl.
    apply hex_value_plain in H1 as [-> ->], H2 as [-> ->], H3 as [-> ->], H4 as [-> ->]. by rewrite IH.
Qed.

Lemma string_end_split s : forall b rest, string_end s = Some (b, rest) -> s = b ++ quote :: rest.
Proof.
  induction s as [s IH] using list_ind_length. intros b rest Hs. destruct s as [|u s]; [done|]. cbn [string_end] in Hs.
  destruct (N.eqb_spec u quote) as [->|_]; [by injection Hs as <- <-|]. destruct (N.eqb_spec u backslash) as [->|_].
  - destruct s as [|v s]; [done|]. apply fmap_Some in Hs as ([b' r'] & Hb & [= -> ->]). cbn. do 2 f_equal.
    apply IH; [cbn; lia|done].
  - apply fmap_Some in Hs as ([b' r'] & Hb & [= -> ->]). cbn. f_equal. apply IH; [cbn; lia|done].
Qed.

Lemma string_Ok s t rest : string s = Ok (t, rest) -> exists b, string_body b t /\ s = string_text b ++ rest.
Proof.
  unfold string. destruct s as [|u s]; [done|]. destruct (N.eqb_spec u quote) as [->|]; [|done].
  destruct (string_end s) as [[b r]|] eqn:He; [|done]. destruct (parse_string b) as [x|] eqn:Hp; [|done].
  intros [= -> ->]. exists b. split; [by apply parse_string_body|]. unfold string_text.
  apply string_end_split in He as ->. cbn. by rewrite <- app_assoc.
Qed.

Lemma string_reads b t rest : string_body b t -> string (string_text b ++ rest) = Ok (t, rest).
Proof.
  intros Hb. unfold string, string_text. cbn [app]. rewrite N.eqb_refl, <- app_assoc. cbn [app].
  by rewrite (string_end_body _ _ _ Hb), (string_body_parse _ _ Hb).
Qed.

(** ** Numbers *)

Definition stops (r : jstr) : Prop := match r with u :: _ => is_digit u = false | [] => True end.

Lemma span_digits_split s d r : span_digits s = (d, r) -> s = d ++ r /\ all_digits d /\ stops r.
Proof.
  unfold all_digits. revert d. induction s as [|u s IH]; cbn; intros d; [by intros [= <- <-]|].
  destruct (is_digit u) eqn:Hu; [|by intros [= <- <-]].
  destruct (span_digits s) as [d' r'] eqn:Hs. intros [= <- ->]. destruct (IH _ eq_refl) as (-> & Hd & Hr).
  cbn. by rewrite Hu.
Qed.

Lemma span_digits_reads d r : all_digits d -> stops r -> span_digits (d ++ r) = (d, r).
Proof.
  unfold all_digits. induction d as [|u d IH]; cbn.
  - destruct r as [|u r]; [done|]. cbn. by intros _ ->.
  - destruct (is_digit u) eqn:Hu; [|done]. intros Hd Hr. by rewrite IH.
Qed.

(** What may follow a value: white space, a comma or a closing bracket. *)
Definition follows (r : jstr) : Prop :=
  match r with u :: _ => is_white u = true \/ u = char "," \/ u = char "]" \/ u = char "}" | [] => True end.

Definition followers : list N := [0x9; 0xA; 0xD; 0x20; char ","; char "]"; char "}"]%N.
Lemma follower u : is_white u = true \/ u = char "," \/ u = char "]" \/ u = char "}" -> In u followers.
Proof.
  unfold is_white. intros [(x & Hx & ->%N.eqb_eq)%existsb_exists|Hu]; [|cbn; naive_solver].
  cbn in Hx |- *. naive_solver.
Qed.

Lemma follows_plain r : follows r -> stops r /\ forall u s, r = u :: s ->
  (u =? char ".")%N = false /\ (u =? char "e")%N = false /\ (u =? char "E")%N = false.
Proof.
  destruct r as [|u r]; [by split|]. intros Hin%follower.
  assert (Hall : forallb (fun u => negb (is_digit u) && negb (u =? char ".")%N && negb (u =? char "e")%N
    && negb (u =? char "E")%N) followers = true) by reflexivity.
  apply (proj1 (List.forallb_forall _ _) Hall) in Hin. rewrite !andb_true_iff, !negb_true_iff in Hin.
  destruct Hin as [[[Hd H1] H2] H3]. split; [done|]. by intros ? ? [= <- <-].
Qed.

Lemma scan_integer_Ok s d r : scan_integer s = Some (d, r) -> s = d ++ r /\
  (d = [char "0"] \/ exists u ds, d = u :: ds /\ is_digit u = true /\ u <> char "0" /\ all_digits ds).
Proof.
  destruct s as [|u s]; [done|]. cbn. destruct (N.eqb_spec u (char "0")) as [->|Hu]; [intros [= <- <-]; by split; [|left]|].
  destruct (is_digit u) eqn:Hd; [|done]. destruct (span_digits s) as [d' r'] eqn:Hs. intros [= <- <-].
  apply span_digits_split in Hs as (-> & Hd' & _). split; [done|]. right. by exists u, d'.
Qed.

Lemma fraction_Ok s f r : scan_fraction s = (f, r) ->
  s = match f with Some f => char "." :: f | None => [] end ++ r /\ forall f', f = Some f' -> f' <> [] /\ all_digits f'.
Proof.
  destruct s as [|u s]; [by intros [= <- <-]|]. cbn. destruct (N.eqb_spec u (char ".")) as [->|]; [|by intros [= <- <-]].
  destruct (span_digits s) as [d r'] eqn:Hs. apply span_digits_split in Hs as (-> & Hd & _).
  destruct d as [|x d]; intros [= <- <-]; [done|]. split; [done|]. by intros f' [= <-].
Qed.

Lemma sign_Some s sign r : scan_sign s = (sign, r) -> s = option_list sign ++ r /\
  (sign = None \/ sign = Some (char "+") \/ sign = Some (char "-")).
Proof.
  destruct s as [|u s]; [intros [= <- <-]; auto|]. cbn.
  destruct (N.eqb_spec u (char "+")) as [->|]; [intros [= <- <-]; auto|].
  destruct (N.eqb_spec u (char "-")) as [->|]; intros [= <- <-]; auto.
Qed.

Lemma exponent_Ok s x r : scan_exponent s = (x, r) ->
  s = match x with Some (e, sign, ds) => e :: option_list sign ++ ds | None => [] end ++ r /\
  forall e sign ds, x = Some (e, sign, ds) -> (e = char "e" \/ e = char "E") /\
    (sign = None \/ sign = Some (char "+") \/ sign = Some (char "-")) /\ ds <> [] /\ all_digits ds.
Proof.
  destruct s as [|u s]; [by intros [= <- <-]|]. cbn [scan_exponent].
  destruct (_ || _) eqn:Hu; [|by intros [= <- <-]].
  destruct (scan_sign s) as [sign s1] eqn:Hsign. apply sign_Some in Hsign as [-> Hsign].
  destruct (span_digits s1) as [d r'] eqn:Hs. apply span_digits_split in Hs as (-> & Hd & _).
  destruct d as [|y d]; intros [= <- <-]; [done|]. split; [cbn; by rewrite <- !app_assoc|].
  intros e' sign' ds' [= <- <- <-]. apply orb_true_iff in Hu as [->%N.eqb_eq| ->%N.eqb_eq]; auto.
Qed.

Lemma minus_split s m r : scan_minus s = (m, r) -> s = (if m : bool then [char "-"] else []) ++ r.
Proof.
  destruct s as [|u s]; [by intros [= <- <-]|]. cbn. destruct (N.eqb_spec u (char "-")) as [->|]; by intros [= <- <-].
Qed.

Lemma scan_number_Ok s n r : scan_number s = Some (n, r) -> s = numeral_text n ++ r /\ numeral_wf n.
Proof.
  unfold scan_number. destruct (scan_minus s) as [m s1] eqn:Hm. apply minus_split in Hm as ->.
  destruct (scan_integer s1) as [[d s2]|] eqn:Hi; [|done]. apply scan_integer_Ok in Hi as [-> Hd]. cbn [mbind option_bind].
  destruct (scan_fraction s2) as [f s3] eqn:Hf. apply fraction_Ok in Hf as [-> Hf].
  destruct (scan_exponent s3) as [x s4] eqn:Hx. apply exponent_Ok in Hx as [-> Hx]. intros [= <- <-]. split.
  - unfold numeral_text. cbn. by rewrite <- !app_assoc.
  - split; [done|exact Hf|exact Hx].
Qed.

Lemma exponent_reads x r : follows r ->
  (forall e sign ds, x = Some (e, sign, ds) -> (e = char "e" \/ e = char "E") /\
    (sign = None \/ sign = Some (char "+") \/ sign = Some (char "-")) /\ ds <> [] /\ all_digits ds) ->
  scan_exponent (match x with Some (e, sign, ds) => e :: option_list sign ++ ds | None => [] end ++ r) = (x, r).
Proof.
  intros [Hr Hplain]%follows_plain Hx. destruct x as [[[e sign] ds]|].
  - destruct (Hx _ _ _ eq_refl) as (He & Hs & Hne & Hd). cbn [app scan_exponent].
    assert (Hu : ((e =? char "e") || (e =? char "E"))%N = true) by by destruct He as [->| ->]. rewrite Hu.
    assert (Hsign : scan_sign (option_list sign ++ ds ++ r) = (sign, ds ++ r)).
    { destruct Hs as [->|[->| ->]]; [|done..]. destruct ds as [|y ds]; [done|]. cbn.
      unfold all_digits in Hd. cbn in Hd. apply andb_true_iff in Hd as [Hy _].
      destruct (N.eqb_spec y (char "+")) as [->|]; [discriminate Hy|].
      by destruct (N.eqb_spec y (char "-")) as [->|]; [discriminate Hy|]. }
    rewrite <- app_assoc, Hsign, (span_digits_reads _ _ Hd Hr). by destruct ds.
  - cbn [app]. destruct r as [|u r]; [done|]. destruct (Hplain u r eq_refl) as (_ & He & HE). cbn [scan_exponent].
    by rewrite He, HE.
Qed.

Lemma exponent_stops x r : follows r ->
  (forall e sign ds, x = Some (e, sign, ds) -> e = char "e" \/ e = char "E") ->
  let s := match x with Some (e, sign, ds) => e :: option_list sign ++ ds | None => [] end ++ r in
  stops s /\ forall u s', s = u :: s' -> (u =? char ".")%N = false.
Proof.
  intros [Hr Hplain]%follows_plain Hx. cbn zeta. destruct x as [[[e sign] ds]|]; cbn [app].
  - split.
    + cbn. by destruct (Hx _ _ _ eq_refl) as [->| ->].
    + intros u s' [= <- _]. by destruct (Hx _ _ _ eq_refl) as [->| ->].
  - split; [done|]. intros u s' ->. by apply (Hplain u s').
Qed.

Lemma fraction_reads f s : (forall f', f = Some f' -> f' <> [] /\ all_digits f') -> stops s ->
  (forall u s', s = u :: s' -> (u =? char ".")%N = false) ->
  scan_fraction (match f with Some f => char "." :: f | None => [] end ++ s) = (f, s).
Proof.
  intros Hf Hs Hdot. destruct f as [f|].
  - destruct (Hf _ eq_refl) as [Hne Hd]. cbn [app scan_fraction]. rewrite N.eqb_refl, (span_digits_reads _ _ Hd Hs).
    by destruct f.
  - cbn [app]. destruct s as [|u s]; [done|]. cbn. by rewrite (Hdot u s eq_refl).
Qed.

Lemma fraction_stops f s : stops s -> stops (match f with Some f => char "." :: f | None => [] end ++ s).
Proof. by destruct f. Qed.

Lemma integer_reads d s : stops s ->
  (d = [char "0"] \/ exists u ds, d = u :: ds /\ is_digit u = true /\ u <> char "0" /\ all_digits ds) ->
  scan_integer (d ++ s) = Some (d, s).
Proof.
  intros Hs [->|(u & ds & -> & Hu & H0 & Hds)]; [done|]. cbn.
  by rewrite (proj2 (N.eqb_neq _ _) H0), Hu, (span_digits_reads _ _ Hds Hs).
Qed.

Lemma scan_number_reads n r : numeral_wf n -> follows r -> scan_number (numeral_text n ++ r) = Some (n, r).
Proof.
  intros [Hi Hf Hx] Hr. destruct n as [m d f x]. cbn in *. unfold scan_number, numeral_text. cbn [n_minus n_integer n_fraction n_exponent].
  rewrite <- !app_assoc.
  destruct (exponent_stops x r Hr (fun e sign ds H => proj1 (Hx e sign ds H))) as [Hs Hdot].
  assert (Hminus : forall s, scan_minus ((if m then [char "-"] else []) ++ d ++ s) = (m, d ++ s)).
  { intros s. destruct m; [done|]. cbn [app].
    assert (Hhead : exists u d', d = u :: d' /\ is_digit u = true)
      by (destruct Hi as [->|(u & ds & -> & Hu & _)]; by eexists _, _).
    destruct Hhead as (u & d' & -> & Hu). cbn. by destruct (N.eqb_spec u (char "-")) as [->|]; [discriminate Hu|]. }
  rewrite Hminus, integer_reads; [|by apply fraction_stops|done]. cbn [mbind option_bind].
  rewrite fraction_reads by done. by rewrite exponent_reads.
Qed.

(** ** Texts of values *)

(** The first character of a value. *)
Lemma denotes_head room t v : denotes room t v -> exists u t', t = u :: t' /\ is_white u = false /\
  (u =? char "]")%N = false.
Proof.
  intros [room'|room'|room'|room' n Hn|room' b s Hb|room' w Hw|room' s vs Hs|room' w Hw|room' s ms Hs _];
    try by eexists _, _. 
  destruct n as [[] d f x]; [by eexists _, _|]. destruct Hn as [Hd _ _]. cbn [n_integer] in Hd. unfold numeral_text.
  destruct Hd as [->|(u & ds & -> & Hu & _)]; [by eexists _, _|]. eexists u, _. split; [reflexivity|].
  unfold is_digit, is_white in *. cbn [existsb]. change (char "]") with 93%N. change (char "0") with 48%N in Hu.
  change (char "9") with 57%N in Hu. lia.
Qed.

Lemma value_whitespace room s : value room (whitespace s) = value room s.
Proof. destruct room; [done|]. cbn [value]. by rewrite whitespace_twice. Qed.

Lemma elements_whitespace room fuel s : elements (value room) fuel (whitespace s) = elements (value room) fuel s.
Proof. destruct fuel; [done|]. cbn [elements]. by rewrite value_whitespace. Qed.

Lemma members_whitespace f fuel keys s : members f fuel keys (whitespace s) = members f fuel keys s.
Proof. destruct fuel; [done|]. cbn [members]. by rewrite whitespace_twice. Qed.

Lemma array_unfold room s : array (value room) s =
  match whitespace s with
  | u :: rest => if (u =? char "]")%N then Ok (JsonArray [], rest)
                 else '(vs, rest) ← elements (value room) (S (length s)) s; Ok (JsonArray vs, rest)
  | [] => '(vs, rest) ← elements (value room) (S (length s)) s; Ok (JsonArray vs, rest)
  end.
Proof. rewrite <- (elements_whitespace room _ s). unfold array. by destruct (whitespace s). Qed.

Lemma object_unfold f s : object f s =
  match whitespace s with
  | u :: rest => if (u =? char "}")%N then Ok (JsonObject [], rest)
                 else '(ms, rest) ← members f (S (length s)) [] s; Ok (JsonObject ms, rest)
  | [] => '(ms, rest) ← members f (S (length s)) [] s; Ok (JsonObject ms, rest)
  end.
Proof. rewrite <- (members_whitespace f _ _ s). unfold object. by destruct (whitespace s). Qed.

(** ** What is accepted is JSON *)

Definition value_sound (room : nat) : Prop := forall s v rest, value room s = Ok (v, rest) ->
  exists w t, s = w ++ t ++ rest /\ spaces w /\ denotes room t v.

Lemma elements_sound room fuel : value_sound room -> forall s vs rest,
  elements (value room) fuel s = Ok (vs, rest) ->
  exists t, s = t ++ char "]" :: rest /\ elements_text room t vs.
Proof.
  intros Hv. induction fuel as [|fuel IH]; intros s vs rest He; [done|]. cbn [elements] in He.
  apply bind_Ok in He as ([v s1] & (w & t & -> & Hw & Hd)%Hv & He).
  destruct (whitespace s1) as [|u s2] eqn:Hs1; [done|]. apply whitespace_cons in Hs1 as (w' & -> & Hw').
  destruct (N.eqb_spec u (char "]")) as [->|_].
  - injection He as <- <-. exists (w ++ t ++ w'). rewrite <- !app_assoc. split; [done|]. by constructor.
  - destruct (N.eqb_spec u (char ",")) as [->|_]; [|done].
    apply bind_Ok in He as ([vs' r'] & Hvs & [= <- <-]). destruct (IH _ _ _ Hvs) as (t' & -> & Ht').
    exists (w ++ t ++ w' ++ char "," :: t'). rewrite <- !app_assoc. split; [done|]. by constructor.
Qed.

Lemma members_sound room fuel : value_sound room -> forall keys s ms rest,
  members (value room) fuel keys s = Ok (ms, rest) ->
  exists t, s = t ++ char "}" :: rest /\ members_text room t ms /\ NoDup ms.*1 /\ forall k, k ∈ keys -> k ∉ ms.*1.
Proof.
  intros Hv. induction fuel as [|fuel IH]; intros keys s ms rest He; [done|]. cbn [members] in He.
  destruct (whitespace_split s) as (w & -> & Hw). set (s0 := whitespace s) in *. clearbody s0. clear s.
  apply bind_Ok in He as ([key s1] & (b & Hb & ->)%string_Ok & ([] & Hk%throw_if_Ok & He)%bind_Ok).
  assert (Hkey : key ∉ keys) by (intros Hin%includes_elem; congruence).
  destruct (whitespace s1) as [|u s2] eqn:Hs1; [done|]. apply whitespace_cons in Hs1 as (w1 & -> & Hw1).
  destruct (N.eqb_spec u (char ":")) as [->|_]; [|done].
  apply bind_Ok in He as ([v s3] & (w2 & t & -> & Hw2 & Hd)%Hv & He).
  destruct (whitespace s3) as [|u s4] eqn:Hs3; [done|]. apply whitespace_cons in Hs3 as (w3 & -> & Hw3).
  destruct (N.eqb_spec u (char "}")) as [->|_].
  - injection He as <- <-. exists (w ++ string_text b ++ w1 ++ char ":" :: w2 ++ t ++ w3).
    split; [by repeat (rewrite <- app_assoc; cbn [app])|].
    split; [by constructor|]. split; [by apply NoDup_singleton|]. cbn. set_solver.
  - destruct (N.eqb_spec u (char ",")) as [->|_]; [|done].
    apply bind_Ok in He as ([ms' r'] & Hms & [= <- <-]). destruct (IH _ _ _ _ Hms) as (t' & -> & Ht' & Hnd & Hkeys).
    exists (w ++ string_text b ++ w1 ++ char ":" :: w2 ++ t ++ w3 ++ char "," :: t').
    split; [by repeat (rewrite <- app_assoc; cbn [app])|].
    split; [by constructor|]. cbn. split; [constructor; [apply Hkeys; set_solver|done]|].
    intros k Hin [->|Hin']%elem_of_cons; [done|]. by apply (Hkeys k); [set_solver|].
Qed.

Lemma starts_with_drop p s : starts_with p s = true -> s = p ++ drop (length p) s.
Proof.
  revert s. induction p as [|u p IH]; intros s Hs; [done|]. destruct s as [|v s]; [done|]. cbn in *.
  apply andb_true_iff in Hs as [->%N.eqb_eq Hs]. f_equal. by apply IH.
Qed.

Lemma scalar_sound room s v rest : scalar s = Ok (v, rest) -> exists t, s = t ++ rest /\ denotes (S room) t v.
Proof.
  unfold scalar. destruct (starts_with (js "true") s) eqn:H1.
  { intros [= <- <-]. apply starts_with_drop in H1. exists (js "true"). split; [exact H1|constructor]. }
  destruct (starts_with (js "false") s) eqn:H2.
  { intros [= <- <-]. apply starts_with_drop in H2. exists (js "false"). split; [exact H2|constructor]. }
  destruct (starts_with (js "null") s) eqn:H3.
  { intros [= <- <-]. apply starts_with_drop in H3. exists (js "null"). split; [exact H3|constructor]. }
  destruct (scan_number s) as [[n r]|] eqn:Hn; [|done]. intros [= <- <-]. apply scan_number_Ok in Hn as [-> Hn].
  exists (numeral_text n). split; [done|]. by constructor.
Qed.

Lemma value_is_sound room : value_sound room.
Proof.
  induction room as [|room IH]; intros s v rest Hv; [done|]. cbn [value] in Hv.
  destruct (whitespace_split s) as (w & Hs & Hw). destruct (whitespace s) as [|u s1] eqn:Hs1.
  { apply (scalar_sound room) in Hv as (t & Ht & Hd). exists w, t. by rewrite Hs, <- Ht. }
  rewrite Hs. exists w. clear s Hs Hs1. destruct (N.eqb_spec u quote) as [->|_].
  { apply bind_Ok in Hv as ([t s2] & (b & Hb & Ht)%string_Ok & [= <- <-]). exists (string_text b). rewrite Ht.
    split; [done|]. split; [done|]. by constructor. }
  destruct (N.eqb_spec u (char "{")) as [->|_].
  { rewrite object_unfold in Hv. destruct (whitespace s1) as [|u s2] eqn:Hs1.
    - apply bind_Ok in Hv as ([ms s3] & (t & -> & Ht & Hnd & _)%(members_sound _ _ IH) & [= <- <-]).
      eexists (char "{" :: t ++ [char "}"]). cbn. rewrite <- app_assoc. split; [done|]. split; [done|]. by constructor.
    - destruct (N.eqb_spec u (char "}")) as [->|_].
      + injection Hv as <- <-. apply whitespace_cons in Hs1 as (w' & -> & Hw').
        eexists (char "{" :: w' ++ [char "}"]). cbn. rewrite <- app_assoc. split; [done|]. split; [done|]. by constructor.
      + apply bind_Ok in Hv as ([ms s3] & (t & -> & Ht & Hnd & _)%(members_sound _ _ IH) & [= <- <-]).
        eexists (char "{" :: t ++ [char "}"]). cbn. rewrite <- app_assoc. split; [done|]. split; [done|]. by constructor. }
  destruct (N.eqb_spec u (char "[")) as [->|_].
  { rewrite array_unfold in Hv. destruct (whitespace s1) as [|u s2] eqn:Hs1.
    - apply bind_Ok in Hv as ([vs s3] & (t & -> & Ht)%(elements_sound _ _ IH) & [= <- <-]).
      eexists (char "[" :: t ++ [char "]"]). cbn. rewrite <- app_assoc. split; [done|]. split; [done|]. by constructor.
    - destruct (N.eqb_spec u (char "]")) as [->|_].
      + injection Hv as <- <-. apply whitespace_cons in Hs1 as (w' & -> & Hw').
        eexists (char "[" :: w' ++ [char "]"]). cbn. rewrite <- app_assoc. split; [done|]. split; [done|]. by constructor.
      + apply bind_Ok in Hv as ([vs s3] & (t & -> & Ht)%(elements_sound _ _ IH) & [= <- <-]).
        eexists (char "[" :: t ++ [char "]"]). cbn. rewrite <- app_assoc. split; [done|]. split; [done|]. by constructor. }
  apply (scalar_sound room) in Hv as (t & Ht & Hd). exists t. by rewrite Ht.
Qed.

(** ** JSON is accepted *)

Definition value_complete (room : nat) : Prop := forall w t v rest, spaces w -> denotes room t v -> follows rest ->
  value room (w ++ t ++ rest) = Ok (v, rest).

Lemma spaces_follow w u rest : spaces w -> u ∈ [char ","; char "]"; char "}"] -> follows (w ++ u :: rest).
Proof.
  unfold spaces. destruct w as [|x w]; cbn; [|intros [Hx _]%andb_true_iff _; by left].
  rewrite !elem_of_cons, elem_of_nil. naive_solver.
Qed.

Lemma elements_length room t vs : elements_text room t vs -> (length vs <= S (length t))%nat.
Proof. induction 1; cbn [length]; rewrite ?length_app; cbn [length]; lia. Qed.
Lemma members_length room t ms : members_text room t ms -> (length ms <= S (length t))%nat.
Proof. induction 1; cbn [length]; repeat (rewrite length_app; cbn [length]); lia. Qed.

Lemma value_then room w t w' u rest v : value_complete room -> spaces w -> denotes room t v -> spaces w' ->
  u ∈ [char ","; char "]"; char "}"] -> value room (w ++ t ++ w' ++ u :: rest) = Ok (v, w' ++ u :: rest).
Proof. intros Hv Hw Hd Hw' Hu. apply Hv; [done..|]. by apply spaces_follow. Qed.

Lemma name_reads w b key rest : spaces w -> string_body b key ->
  string (whitespace (w ++ string_text b ++ rest)) = Ok (key, rest).
Proof. intros Hw Hb. unfold string_text at 1. cbn [app]. rewrite whitespace_text by done. by apply (string_reads b). Qed.

(** The characters a loop looks for are not white space and are told apart. *)
Ltac punctuation :=
  repeat first
    [ progress cbn [mbind result_bind]
    | rewrite whitespace_text by done
    | match goal with
      | |- context [(?a =? ?b)%N] => let r := eval vm_compute in (a =? b)%N in change (a =? b)%N with r
      end ].

Lemma elements_reads room t vs rest : value_complete room -> elements_text room t vs ->
  forall fuel, (length vs <= fuel)%nat -> elements (value room) fuel (t ++ char "]" :: rest) = Ok (vs, rest).
Proof.
  intros Hv Ht. induction Ht as [room w t w' v Hw Hw' Hd|room w t w' v r vs Hw Hw' Hd _ IH]; intros fuel Hfuel;
    (destruct fuel as [|fuel]; [cbn in Hfuel; lia|]); cbn [elements];
    repeat (rewrite <- app_assoc; cbn [app]); rewrite (value_then _ _ _ _ _ _ v) by (done || set_solver);
    punctuation; [done|].
  cbn [length] in Hfuel. by rewrite IH by (done || lia).
Qed.

Lemma members_reads room t ms rest : value_complete room -> members_text room t ms ->
  forall fuel keys, (length ms <= fuel)%nat -> NoDup ms.*1 -> (forall k, k ∈ keys -> k ∉ ms.*1) ->
  members (value room) fuel keys (t ++ char "}" :: rest) = Ok (ms, rest).
Proof.
  intros Hv Ht.
  induction Ht as [room w b key w1 w2 t w3 v Hw Hb Hw1 Hw2 Hw3 Hd|room w b key w1 w2 t w3 v r ms Hw Hb Hw1 Hw2 Hw3 Hd _ IH];
    intros fuel keys Hfuel Hnd Hkeys; (destruct fuel as [|fuel]; [cbn in Hfuel; lia|]);
    assert (Hkey : includes keys key = false)
      by (apply not_true_iff_false; intros Hin%includes_elem; apply (Hkeys key Hin); cbn; set_solver);
    cbn [members]; repeat (rewrite <- app_assoc; cbn [app]); rewrite (name_reads _ _ key) by done;
    cbn [mbind result_bind]; rewrite Hkey; cbn [throw_if]; punctuation;
    rewrite (value_then _ _ _ _ _ _ v) by (done || set_solver); punctuation; [done|].
  cbn [length fmap list_fmap fst] in Hfuel, Hnd, Hkeys. apply NoDup_cons in Hnd as [Hnot Hnd].
  rewrite IH; [done..|lia|done|]. intros k [->|Hin]%elem_of_cons; [done|]. intros Hin'. apply (Hkeys k Hin). set_solver.
Qed.

Lemma value_at room w u s : spaces w -> is_white u = false -> value (S room) (w ++ u :: s) =
  if (u =? quote)%N then '(text, rest) ← string (u :: s); Ok (JsonString text, rest)
  else if (u =? char "{")%N then object (value room) s
  else if (u =? char "[")%N then array (value room) s
  else scalar (u :: s).
Proof. intros Hw Hu. cbn [value]. by rewrite whitespace_text. Qed.

(** A digit or a sign is not a letter that begins another scalar. *)
Lemma numeral_head n : numeral_wf n -> exists u t', numeral_text n = u :: t' /\ In u (map char ["-"; "0"; "1"; "2"; "3"; "4"; "5"; "6"; "7"; "8"; "9"]%string).
Proof.
  intros [Hd _ _]. destruct n as [[] d f x]; [eexists _, _; split; [reflexivity|by left]|].
  cbn [n_integer] in Hd. unfold numeral_text. cbn [n_minus n_integer app].
  destruct Hd as [->|(u & ds & -> & Hu & _)]; [eexists _, _; split; [reflexivity|by right; left]|].
  eexists _, _. split; [reflexivity|]. unfold is_digit in Hu. change (char "0") with 48%N in Hu. change (char "9") with 57%N in Hu.
  cbn [map In]. change (char "-") with 45%N.
  assert (u = 48 \/ u = 49 \/ u = 50 \/ u = 51 \/ u = 52 \/ u = 53 \/ u = 54 \/ u = 55 \/ u = 56 \/ u = 57)%N by lia.
  change (char "0") with 48%N. change (char "1") with 49%N. change (char "2") with 50%N. change (char "3") with 51%N.
  change (char "4") with 52%N. change (char "5") with 53%N. change (char "6") with 54%N. change (char "7") with 55%N.
  change (char "8") with 56%N. change (char "9") with 57%N. intuition.
Qed.

Lemma number_reads room w n rest : spaces w -> numeral_wf n -> follows rest ->
  value (S room) (w ++ numeral_text n ++ rest) = Ok (JsonNumber (Number n), rest).
Proof.
  intros Hw Hn Hf. destruct (numeral_head n Hn) as (u & t' & Ht & Hu). pose proof (scan_number_reads n rest Hn Hf) as Hs.
  rewrite Ht in Hs |- *. cbn [app] in Hs |- *.
  assert (Hplain : is_white u = false /\ (u =? quote)%N = false /\ (u =? char "{")%N = false /\ (u =? char "[")%N = false
    /\ forall s, starts_with (js "true") (u :: s) = false /\ starts_with (js "false") (u :: s) = false
                 /\ starts_with (js "null") (u :: s) = false).
  { cbn [map In] in Hu. repeat (destruct Hu as [<-|Hu]; [done|]). done. }
  destruct Hplain as (H1 & H2 & H3 & H4 & Hp). rewrite value_at by done. rewrite H2, H3, H4. unfold scalar.
  destruct (Hp (t' ++ rest)) as (-> & -> & ->). by rewrite Hs.
Qed.

Lemma elements_head room t vs rest : elements_text room t vs -> exists u s,
  whitespace (t ++ rest) = u :: s /\ (u =? char "]")%N = false.
Proof.
  intros [room' w t1 w' v Hw Hw' Hd|room' w t1 w' v r vs' Hw Hw' Hd _];
    destruct (denotes_head _ _ _ Hd) as (u & t' & -> & Hu & Hb); rewrite <- !app_assoc; cbn [app];
    rewrite whitespace_text by done; by eexists _, _.
Qed.
Lemma members_head room t ms rest : members_text room t ms -> exists u s,
  whitespace (t ++ rest) = u :: s /\ (u =? char "}")%N = false.
Proof.
  intros [room' w b key w1 w2 t1 w3 v Hw Hb|room' w b key w1 w2 t1 w3 v r ms' Hw Hb];
    unfold string_text; rewrite <- !app_assoc; cbn [app]; rewrite whitespace_text by done; by eexists _, _.
Qed.

Lemma value_is_complete room : value_complete room.
Proof.
  induction room as [|room IH]; intros w t v rest Hw Hd Hf; [inversion Hd|].
  inversion Hd as [room' E1 E2 E3|room' E1 E2 E3|room' E1 E2 E3|room' n Hn E1 E2 E3|room' b s Hb E1 E2 E3|room' w' Hw' E1 E2 E3
    |room' s vs Hs E1 E2 E3|room' w' Hw' E1 E2 E3|room' s ms Hs Hnd E1 E2 E3]; subst.
  - change (js "null" ++ rest) with (char "n" :: drop 1 (js "null") ++ rest). by rewrite value_at.
  - change (js "true" ++ rest) with (char "t" :: drop 1 (js "true") ++ rest). by rewrite value_at.
  - change (js "false" ++ rest) with (char "f" :: drop 1 (js "false") ++ rest). by rewrite value_at.
  - by apply number_reads.
  - pose proof (string_reads _ _ rest Hb) as Hs. unfold string_text in Hs |- *. cbn [app] in Hs |- *.
    rewrite value_at by done. rewrite N.eqb_refl. by rewrite Hs.
  - cbn [app]. rewrite <- app_assoc, value_at by done. punctuation. rewrite array_unfold. cbn [app]. by punctuation.
  - cbn [app]. rewrite <- app_assoc, value_at by done. punctuation. rewrite array_unfold. cbn [app].
    destruct (elements_head _ _ _ (char "]" :: rest) Hs) as (u & s' & -> & ->).
    rewrite (elements_reads _ _ _ _ IH Hs); [done|]. apply elements_length in Hs. rewrite length_app. lia.
  - cbn [app]. rewrite <- app_assoc, value_at by done. punctuation. rewrite object_unfold. cbn [app]. by punctuation.
  - cbn [app]. rewrite <- app_assoc, value_at by done. punctuation. rewrite object_unfold. cbn [app].
    destruct (members_head _ _ _ (char "}" :: rest) Hs) as (u & s' & -> & ->).
    rewrite (members_reads _ _ _ _ IH Hs); [done| |done|set_solver]. apply members_length in Hs. rewrite length_app. lia.
Qed.

(** ** The fuel of the loops is enough *)

Lemma denotes_length room t v : denotes room t v -> (0 < length t)%nat.
Proof. intros (u & t' & -> & _)%denotes_head. cbn. lia. Qed.

Lemma value_consumes room s v rest : value room s = Ok (v, rest) -> (length rest < length s)%nat.
Proof.
  intros (w & t & -> & _ & Hd%denotes_length)%value_is_sound. rewrite !length_app. lia.
Qed.

Lemma string_consumes s t rest : string s = Ok (t, rest) -> (length rest < length s)%nat.
Proof. intros (b & _ & ->)%string_Ok. unfold string_text. rewrite !length_app. cbn. rewrite length_app. cbn. lia. Qed.

Lemma whitespace_length s : (length (whitespace s) <= length s)%nat.
Proof. destruct (whitespace_split s) as (w & Hs & _). rewrite Hs at 2. rewrite length_app. lia. Qed.

Definition ends {A} (m : M A) : Prop := m <> Err OutOfFuel.

Lemma ends_bind {A B} (m : M A) (f : A -> M B) : ends m -> (forall a, m = Ok a -> ends (f a)) -> ends (m ≫= f).
Proof. unfold ends. destruct m as [a|e]; cbn; [by auto|]. congruence. Qed.

Lemma elements_end room fuel : (forall s, ends (value room s)) -> forall s, (length s < fuel)%nat ->
  ends (elements (value room) fuel s).
Proof.
  intros Hv. induction fuel as [|fuel IH]; intros s Hs; [lia|]. cbn [elements].
  apply ends_bind; [done|]. intros [v r] Hr%value_consumes. pose proof (whitespace_length r) as Hw.
  destruct (whitespace r) as [|u r']; [done|]. destruct (_ =? _)%N; [done|]. destruct (_ =? _)%N; [|done].
  apply ends_bind; [apply IH; cbn in Hw; lia|]. by intros [].
Qed.

Lemma string_ends s : ends (string s).
Proof. unfold string, ends, json_error. by repeat case_match. Qed.

Lemma members_end room fuel : (forall s, ends (value room s)) -> forall keys s, (length s < fuel)%nat ->
  ends (members (value room) fuel keys s).
Proof.
  intros Hv. induction fuel as [|fuel IH]; intros keys s Hs; [lia|]. cbn [members].
  pose proof (whitespace_length s) as Hw0. apply ends_bind; [apply string_ends|]. intros [key s1] H1%string_consumes.
  apply ends_bind; [by destruct (includes _ _)|]. intros _ _. pose proof (whitespace_length s1) as Hw1.
  destruct (whitespace s1) as [|u s2]; [done|]. destruct (_ =? _)%N; [|done].
  apply ends_bind; [done|]. intros [v r] Hr%value_consumes. pose proof (whitespace_length r) as Hw.
  destruct (whitespace r) as [|u' r']; [done|]. destruct (_ =? _)%N; [done|]. destruct (_ =? _)%N; [|done].
  cbn in *. apply ends_bind; [apply IH; lia|]. by intros [].
Qed.

Lemma value_ends room : forall s, ends (value room s).
Proof.
  induction room as [|room IH]; intros s; [done|]. cbn [value].
  assert (Hsc : forall s, ends (scalar s)).
  { intros s'. unfold scalar. repeat (destruct (starts_with _ _); [done|]). by destruct (scan_number s') as [[]|]. }
  destruct (whitespace s) as [|u r]; [apply Hsc|]. destruct (_ =? _)%N.
  { apply ends_bind; [apply string_ends|]. by intros []. }
  destruct (_ =? _)%N; [|destruct (_ =? _)%N; [|apply Hsc]].
  - rewrite object_unfold. assert (Hm : ends ('(ms, rest) ← members (value room) (S (length r)) [] r; Ok (JsonObject ms, rest))).
    { apply ends_bind; [apply members_end; [done|lia]|]. by intros []. }
    destruct (whitespace r); [done|]. by destruct (_ =? _)%N.
  - rewrite array_unfold. assert (Hm : ends ('(vs, rest) ← elements (value room) (S (length r)) r; Ok (JsonArray vs, rest))).
    { apply ends_bind; [apply elements_end; [done|lia]|]. by intros []. }
    destruct (whitespace r); [done|]. by destruct (_ =? _)%N.
Qed.

(** C35: The parser is exact: it always ends with a value or one of its errors, and it returns a value
    exactly when the text is, up to white space around it, JSON for that value in which the names of every
    object are distinct and no value is inside more than 32 arrays and objects. *)
Theorem strict_json_exact source v :
  (parseJsonWithoutDuplicateKeys source = Ok v <->
   exists w t w', source = w ++ t ++ w' /\ spaces w /\ spaces w' /\ denotes 33 t v) /\
  parseJsonWithoutDuplicateKeys source <> Err OutOfFuel.
Proof.
  unfold parseJsonWithoutDuplicateKeys. split; [split|].
  - intros ([v' rest] & (w & t & -> & Hw & Hd)%value_is_sound & Hr)%bind_Ok.
    destruct (whitespace rest) eqn:Hs; [|done]. injection Hr as <-. exists w, t, rest. by apply whitespace_end in Hs.
  - intros (w & t & w' & -> & Hw & Hw' & Hd). rewrite (value_is_complete 33 w t v w' Hw Hd).
    + cbn [mbind result_bind]. by rewrite <- (app_nil_r w'), whitespace_spaces.
    + destruct w' as [|u w']; [done|]. unfold spaces in Hw'. cbn in Hw'. apply andb_true_iff in Hw' as [Hu _]. by left.
  - apply ends_bind; [apply value_ends|]. intros [v' rest] _. by destruct (whitespace rest).
Qed.
