(* ===== verification/SafeFetch.v ===== *)
(** * Requests to other hosts (apps/server/src/discovery/safe-fetch.ts)

    What the provider asks other hosts goes through one transport, but for the reads of the PLC directory
    ([Plc]), which use the platform's [fetch].  The transport refuses targets that are not
    canonical HTTPS names and headers that would leak credentials, resolves the name itself and connects to
    an address it has checked.  The WHATWG URL parser, the classification of IP addresses (ipaddr.js), the
    resolver and the connections are parameters.  Signals and timers only turn an exchange into a failure,
    which an exchange may be anyhow. *)

From S2P Require Import Prelude JsString Regex Value Validation Identity Http.
From Stdlib Require Import ZArith.
Open Scope Z_scope.

(** ** URLs and addresses *)

Record web_url := {
  u_href : jstr; u_protocol : jstr; u_username : jstr; u_password : jstr; u_hostname : jstr; u_port : jstr;
  u_pathname : jstr; u_search : jstr; u_hash : jstr;
}.

(** [new URL(text, base)], [None] when it throws; [searchParams.set] for each pair; [isIP] of node:net. *)
Class WebUrl := {
  new_URL : jstr -> option web_url -> option web_url;
  set_search_params : list (jstr * jstr) -> web_url -> web_url;
  isIP : jstr -> Z;
}.

(** The parts of ipaddr.js that are used; [ip_match a b n] is [a.match(b, n)]. *)
Class IpAddresses := {
  ip : Type;
  ip_parse : jstr -> option ip;
  ip_is_v6 : ip -> bool;
  isIPv4MappedAddress : ip -> bool;
  toIPv4Address : ip -> ip;
  ip_match : ip -> ip -> Z -> bool;
  ip_range : ip -> jstr;
}.

Definition isPublicAddress `{IpAddresses} (address : jstr) : bool :=
  match ip_parse address with
  | None => false
  | Some parsed =>
      let unicast a := jstr_eqb (ip_range a) (js "unicast") in
      if ip_is_v6 parsed then
        if isIPv4MappedAddress parsed then unicast (toIPv4Address parsed)
        else match ip_parse (js "2000::") with
             | Some global => ip_match parsed global 3 && unicast parsed
             | None => false
             end
      else unicast parsed
  end.

(** ** Actions on the network *)

(** A connection of the transport below. *)
Record connection := {
  cn_hostname : jstr; cn_port : Z; cn_path : jstr; cn_method : jstr; cn_headers : list (jstr * jstr);
  cn_body : option bytes; cn_address : jstr; cn_family : Z;
}.

(** A request of the platform's own [fetch], which connects to wherever the URL leads: the transport and
    its checks have no part in it. *)
Record plain_read := { pl_method : jstr; pl_url : jstr; pl_headers : list (jstr * jstr); pl_redirect : jstr }.

(** What was done on the network, latest first; an action may be given another answer every time. *)
Inductive contact := Connected (c : connection) | Asked (q : plain_read).
Definition connected (e : contact) : option connection := match e with Connected c => Some c | Asked _ => None end.
Definition asked (e : contact) : option plain_read := match e with Asked q => Some q | Connected _ => None end.
Definition connections (past : list contact) : list connection := omap connected past.
Definition plain_reads (past : list contact) : list plain_read := omap asked past.

Definition Net (A : Type) : Type := list contact -> M A * list contact.
#[export] Instance Net_ret : MRet Net := fun A a past => (Ok a, past).
#[export] Instance Net_bind : MBind Net := fun A B f m past =>
  match m past with
  | (Ok a, past) => f a past
  | (Err e, past) => (Err e, past)
  end.
Definition net {A} (m : M A) : Net A := fun past => (m, past).

Lemma bind_Net {A B} (m : Net A) (f : A -> Net B) past b past' : (m ≫= f) past = (Ok b, past') ->
  exists a past1, m past = (Ok a, past1) /\ f a past1 = (Ok b, past').
Proof. unfold mbind, Net_bind. destruct (m past) as [[a|e] past1]; [|done]. by exists a, past1. Qed.
Lemma net_Ok {A} (m : M A) past a past' : net m past = (Ok a, past') -> m = Ok a /\ past' = past.
Proof. unfold net. by intros [= -> ->]. Qed.

(** An action of plain reads only: what it comes to, and the reads it makes, in their order. *)
Definition Reading (A : Type) : Type := (M A * list plain_read)%type.
#[export] Instance Reading_bind : MBind Reading := fun A B f m =>
  match m.1 with
  | Ok a => ((f a).1, m.2 ++ (f a).2)
  | Err e => (Err e, m.2)
  end.
Definition reading {A} (m : M A) : Reading A := (m, []).
Definition read_all (reads : list plain_read) : Net unit := fun past => (Ok tt, rev (map Asked reads) ++ past).

Definition fetch_error {A} (message : String.string) : M A := Err (OtherError (js message)).
Arguments fetch_error {A} message%_string.
Definition fail_if (b : bool) (message : String.string) : M unit := throw_if b (OtherError (js message)).
Arguments fail_if b message%_string.

(** ** The transport *)

(** Header names are in lower case, in the order in which [headers.keys()] has them. *)
Record web_request := {
  wr_method : jstr; wr_url : web_url; wr_headers : list (jstr * jstr); wr_body : bytes;
}.
Definition request_header (name : String.string) (r : web_request) : option jstr :=
  snd <$> List.find (fun e => jstr_eqb e.1 (js name)) (wr_headers r).
Arguments request_header name%_string r.

Record transport_env := {
  tr_lookup : list contact -> jstr -> M (list (jstr * Z));
  tr_exchange : list contact -> connection -> M Response;
}.

Definition alphanumerics : list (N * N) := [range "A" "Z"; range "a" "z"; range "0" "9"].
Definition BODY_PATH : regex :=
  seqs [lit "/"; RStar (RSeq (plus (RClass (alphanumerics ++ [one "."; one "_"; one "~"; one "-"]))) (lit "/"));
        lit "bodies/"; rep (RClass (alphanumerics ++ [one "_"; one "-"])) 43].
Definition BEARER : regex := RSeq (lit "Bearer ") (rep (RClass (alphanumerics ++ [one "_"; one "-"])) 43).

Definition is_GET (r : web_request) : bool := jstr_eqb (wr_method r) (js "GET").

(** [for (const name of names) if (...) throw]: the first name that is refused. *)
Definition refuse_first (message : String.string) (names : list jstr) (refused : jstr -> bool) : M unit :=
  match List.find refused names with
  | Some name => Err (OtherError (js message ++ name))
  | None => Ok tt
  end.
Arguments refuse_first message%_string names refused.

Definition forbidden_headers (bodyRetrieval : bool) : list jstr :=
  map js (if bodyRetrieval then ["cookie"; "referer"] else ["cookie"; "referer"; "authorization"])%string.
Definition allowed_headers (bodyRetrieval : bool) (r : web_request) : list jstr :=
  map js (if bodyRetrieval then ["accept"; "accept-encoding"; "authorization"]
          else if is_GET r then ["accept"; "accept-encoding"; "if-none-match"]
          else ["accept-encoding"; "cache-control"; "content-type"; "if-match"; "if-none-match"])%string.

(** Statuses whose responses have no body. *)
Definition bodiless (status : Z) : bool := existsb (Z.eqb status) [101; 204; 205; 304].

Section transport.
Context `{NodeUrl} `{WebUrl} `{IpAddresses}.
Context (env : transport_env).

Definition validateUrl (url : web_url) : M unit :=
  let asciiHostname := domainToASCII (u_hostname url) in
  fail_if (negb (jstr_eqb (u_protocol url) (js "https:")) || negb (jstr_eqb (u_username url) [])
           || negb (jstr_eqb (u_password url) []) || negb (jstr_eqb (u_hash url) [])
           || jstr_eqb asciiHostname [] || negb (jstr_eqb asciiHostname (u_hostname url))
           || bool_decide (last (u_hostname url) = Some (char ".")) || negb (isIP (u_hostname url) =? 0))
    "Discovery target is not a canonical HTTPS DNS URL".

(** What [send] checks before it resolves the name. *)
Definition check_request (bodyRetrieval : bool) (request : web_request) : M unit :=
  _ ← fail_if (negb (includes (map js ["GET"; "PUT"; "POST"]%string) (wr_method request)))
        "Safe HTTPS transport only permits GET, PUT and POST";
  _ ← validateUrl (wr_url request);
  _ ← fail_if (bodyRetrieval && (negb (is_GET request) || negb (rx_test BODY_PATH (u_pathname (wr_url request)))
                                 || negb (jstr_eqb (u_search (wr_url request)) [])))
        "Body retrieval requires the canonical body GET operation";
  _ ← refuse_first "Discovery request must not send " (forbidden_headers bodyRetrieval)
        (fun name => includes (wr_headers request).*1 name);
  _ ← refuse_first "Safe HTTPS request has forbidden header " (wr_headers request).*1
        (fun name => negb (includes (allowed_headers bodyRetrieval request) name));
  fail_if (bodyRetrieval && negb (rx_test BEARER (default [] (request_header "authorization" request))))
    "Body retrieval requires a canonical bearer credential".

Definition checked_address (entry : jstr * Z) : bool :=
  isPublicAddress entry.1 && ((entry.2 =? 4) || (entry.2 =? 6)) && (isIP entry.1 =? entry.2).

Definition connect (request : web_request) (selected : jstr * Z) : connection :=
  let url := wr_url request in {|
  cn_hostname := u_hostname url; cn_port := if jstr_eqb (u_port url) [] then 443 else decimal (u_port url);
  cn_path := u_pathname url ++ u_search url; cn_method := wr_method request; cn_headers := wr_headers request;
  cn_body := if is_GET request then None else Some (wr_body request);
  cn_address := selected.1; cn_family := selected.2 |}.

Definition exchange (c : connection) : Net Response := fun past =>
  ((incoming ← tr_exchange env past c;
    Ok (if bodiless (rs_status incoming)
        then {| rs_status := rs_status incoming; rs_headers := rs_headers incoming; rs_body := None |}
        else incoming)), Connected c :: past).

Definition send (bodyRetrieval : bool) (request : web_request) : Net Response :=
  _ ← net (check_request bodyRetrieval request);
  addresses ← (fun past => (tr_lookup env past (u_hostname (wr_url request)), past)) : Net (list (jstr * Z));
  match addresses with
  | selected :: _ =>
      _ ← net (fail_if (negb (forallb checked_address addresses))
                 "Discovery hostname did not resolve exclusively to public addresses");
      exchange (connect request selected)
  | [] => net (fetch_error "Discovery hostname did not resolve exclusively to public addresses")
  end.
Definition safe_fetch : web_request -> Net Response := send false.
Definition safe_fetchBody : web_request -> Net Response := send true.
End transport.
