(* ===== verification/Discovery.v ===== *)
(** * Verifying an address (apps/server/src/discovery/delegation.ts, verifier.ts)

    From an address to the signed binding that its domain, or the provider its domain delegates to,
    publishes for it, and to the keys the directory has for the bound identity. *)

From S2P Require Import Prelude JsString Regex Value Cbor Profiles Validation ValidatePayload Models.
From S2P Require Import Cose WebCrypto Typed Conversations Envelopes Receiver Http ServerBodies Retriever Identity Grants.
From S2P Require Import StrictJson SafeFetch.
From Stdlib Require Import ZArith.
Open Scope Z_scope.

(** ** Delegation by DNS *)

(** What [resolveTxt] gives; a name without records is an error of its own ([ENODATA], [ENOTFOUND]). *)
Inductive txt_failure := NoRecords | TxtFailure (e : exn).

Definition txt_size (chunks : list jstr) : Z := foldr (fun chunk n => utf8_length chunk + n) 0 chunks.
Definition record_size (records : list (list jstr)) : Z := foldr (fun rr n => txt_size rr + n) 0 records.

Section delegation.
Context `{HailEnv} `{NodeUrl}.
Context (resolveTxt : jstr -> result txt_failure (list (list jstr))).

Definition lookupTxt (name : jstr) : M (list (list jstr)) :=
  match resolveTxt name with
  | Ok records =>
      if (32 <? length records)%nat || (8192 <? record_size records)
      then fetch_error "DNS TXT response exceeds its size limit"
      else Ok records
  | Err NoRecords => Ok []
  | Err (TxtFailure e) => Err e
  end.

Definition PROVIDER_RECORD : regex :=
  RSeq (lit "v=hail1; provider=") (plus (RClass [range "a" "z"; range "0" "9"; one "."; one "-"])).

(** [createProviderDiscovery]. *)
Definition provider_discovery (domain : jstr) : M (option jstr) :=
  records ← lookupTxt (js "_hail-provider." ++ domain);
  match records with
  | [] => Ok None
  | [chunks] =>
      _ ← fail_if (512 <? txt_size chunks) "Hail provider delegation exceeds its size limit";
      let record := concat chunks in
      _ ← fail_if (negb (rx_test PROVIDER_RECORD record)) "Invalid or unsupported Hail provider delegation";
      let hostname := drop (length (js "v=hail1; provider=")) record in
      canonical ← canonicalizeHailAddress (js "discovery@" ++ hostname);
      _ ← fail_if (negb (jstr_eqb canonical (js "discovery@" ++ hostname))) "Hail provider hostname must be canonical";
      Ok (Some hostname)
  | _ => fetch_error "Ambiguous Hail provider delegation"
  end.

(** The provider's own domain needs no delegation. *)
Definition providerDiscoveryForOrigin (nativeDomain domain : jstr) : M (option jstr) :=
  if jstr_eqb domain nativeDomain then Ok None else provider_discovery domain.
End delegation.

(** ** Responses *)

Definition ADDRESS_BINDING_REL : jstr := js "https://racrproto.com/rel/address-binding".
Definition COSE_SIGN1_MEDIA_TYPE : jstr := js "application/cose; cose-type=" ++ [quote] ++ js "cose-sign1" ++ [quote].
Definition MAX_WEBFINGER_BYTES : Z := 65536.
Definition MAX_BINDING_BYTES : Z := 16384.

Definition responseBytes (maximum : Z) (r : Response) : M bytes :=
  _ ← fail_if (match content_length r with
               | Some text => negb (rx_test DIGITS text) || (maximum <? decimal text)
               | None => false
               end) "Discovery response exceeds its size limit";
  match rs_body r with
  | None => Ok []
  | Some reads =>
      match read_body maximum 0 [] reads with
      | Ok chunks => Ok (concat chunks)
      | Err OversizedTransfer => fetch_error "Discovery response exceeds its size limit"
      | Err TransferInterrupted => fetch_error "the read of the body failed"     (* the platform's own words *)
      end
  end.

(** [link.rel] and the like: a member of a parsed value. *)
Definition json_member (k : String.string) (v : json) : M (option json) :=
  match v with
  | JsonNull => fetch_error "null is not an object"
  | JsonObject members => Ok (snd <$> List.find (fun e => jstr_eqb e.1 (js k)) members)
  | _ => Ok None
  end.
Arguments json_member k%_string v.
Definition json_text (v : option json) : option jstr := match v with Some (JsonString s) => Some s | _ => None end.

(** [subject] and [links]. *)
Definition parseJrd (bs : bytes) : M (jstr * list json) :=
  text ← decode_text bs;
  value ← parseJsonWithoutDuplicateKeys text;
  match value with
  | JsonObject _ =>
      subject ← json_member "subject" value;
      links ← json_member "links" value;
      match subject, links with
      | Some (JsonString subject), Some (JsonArray links) => Ok (subject, links)
      | _, _ => fetch_error "WebFinger response has an invalid shape"
      end
  | _ => fetch_error "WebFinger response must be an object"
  end.

(** What is verified of an address beyond what consent retains. *)
Record verified_binding := {
  vb_address : VerifiedAddress; vb_identityDidKey : jstr; vb_evidence : PlcResolutionEvidence; vb_verifiedAt : Z;
}.

(** The collaborators: fetching and the check of targets, the resolver of identities, which answers for a
    DID after reads of its own, the delegation of domains where it is used, whether a response was
    redirected, and a clock in milliseconds. *)
Record discovery_env := {
  dv_fetch : web_request -> Net Response;
  dv_validateTarget : web_url -> M unit;
  dv_resolver : jstr -> Reading ResolvedHailDid;
  dv_discoverProvider : option (jstr -> M (option jstr));
  dv_redirected : Response -> bool;
  dv_now : nat -> Z;
}.
Definition dv_resolve (env : discovery_env) (did : jstr) : M ResolvedHailDid := (dv_resolver env did).1.
Definition dv_reads (env : discovery_env) (did : jstr) : list plain_read := (dv_resolver env did).2.

Section verifier.
Context `{HailEnv} `{Cborg} `{Keys} `{NodeUrl} `{WebUrl}.

Definition validateHttpsUrl (url : web_url) : M unit :=
  fail_if (negb (jstr_eqb (u_protocol url) (js "https:")) || negb (jstr_eqb (u_username url) [])
           || negb (jstr_eqb (u_password url) []) || negb (jstr_eqb (u_hash url) [])
           || negb (isIP (u_hostname url) =? 0)) "Discovery URL is not an allowed HTTPS URL".

(** [parameter.slice(1, -1)] of a parameter in quotes. *)
Definition unquoted (parameter : jstr) : jstr :=
  if bool_decide (head parameter = Some quote) && bool_decide (last parameter = Some quote)
  then take (length parameter - 2) (drop 1 parameter) else parameter.

Definition isCoseSign1MediaType (value : option jstr) : bool :=
  match value with
  | Some value =>
      match map trim (split_on (char ";") value) with
      | [essence; parameter] =>
          jstr_eqb (Validation.toLowerCase essence) (js "application/cose")
          && match first_index (char "=") parameter with
             | None | Some O => false
             | Some separator =>
                 jstr_eqb (Validation.toLowerCase (trim (take separator parameter))) (js "cose-type")
                 && jstr_eqb (Validation.toLowerCase (unquoted (trim (drop (S separator) parameter)))) (js "cose-sign1")
             end
      | _ => false
      end
  | None => false
  end.

Context (env : discovery_env).

Definition parse_web_url (text : jstr) (base : option web_url) : M web_url :=
  match new_URL text base with Some url => Ok url | None => fetch_error "Invalid URL" end.

(** [new Request(url, { headers: { Accept, "Accept-Encoding": "identity" }, redirect: "manual" })]. *)
Definition plain_request (accept : jstr) (url : web_url) : web_request := {|
  wr_method := js "GET"; wr_url := url;
  wr_headers := [(js "accept", accept); (js "accept-encoding", js "identity")]; wr_body := [] |}.

(** The loop over redirects, of which [more] may follow. *)
Fixpoint fetchWebFinger (more : nat) (url : web_url) : Net Response :=
  _ ← net (validateHttpsUrl url);
  _ ← net (dv_validateTarget env url);
  response ← dv_fetch env (plain_request (js "application/jrd+json") url);
  if (rs_status response <? 300) || (400 <=? rs_status response) then mret response
  else match more with
  | O => net (fetch_error "WebFinger exceeded its redirect limit")
  | S more =>
      match header "location" response with
      | None | Some [] => net (fetch_error "WebFinger redirect has no Location header")
      | Some location => url ← net (parse_web_url location (Some url)); fetchWebFinger more url
      end
  end.

(** The links of the wanted relation and type. *)
Definition is_binding_link (link : json) : M bool :=
  rel ← json_member "rel" link;
  if bool_decide (json_text rel = Some ADDRESS_BINDING_REL) then
    type ← json_member "type" link; Ok (isCoseSign1MediaType (json_text type))
  else Ok false.
Fixpoint binding_links (links : list json) : M (list json) :=
  match links with
  | [] => Ok []
  | link :: links =>
      wanted ← is_binding_link link;
      rest ← binding_links links;
      Ok (if (wanted : bool) then link :: rest else rest)
  end.

(** Where the answer to the lookup says the binding is. *)
Definition binding_location (resource : jstr) (response : Response) : M web_url :=
  _ ← fail_if (negb (rs_status response =? 200)) "WebFinger lookup did not return 200";
  _ ← fail_if (negb (bool_decide (header "content-type" response = Some (js "application/jrd+json"))))
        "WebFinger response has the wrong content type";
  _ ← fail_if (bool_decide (is_Some (header "content-encoding" response)))
        "WebFinger response must not use content encoding";
  bs ← responseBytes MAX_WEBFINGER_BYTES response;
  '(subject, links) ← parseJrd bs;
  _ ← fail_if (negb (jstr_eqb subject resource)) "WebFinger subject does not match the address";
  links ← binding_links links;
  match links with
  | [link] =>
      href ← json_member "href" link;
      match json_text href with
      | Some href =>
          bindingUrl ← parse_web_url href None;
          _ ← fail_if (negb (jstr_eqb (u_href bindingUrl) href)) "Address Binding URL must already be canonical";
          _ ← validateHttpsUrl bindingUrl;
          _ ← fail_if (negb (jstr_eqb (u_search bindingUrl) [])) "Address Binding URL must not contain a query";
          Ok bindingUrl
      | None => fetch_error "WebFinger must select exactly one Hail Address Binding"
      end
  | _ => fetch_error "WebFinger must select exactly one Hail Address Binding"
  end.

Definition binding_bytes (response : Response) : M bytes :=
  _ ← fail_if (negb (rs_status response =? 200) || dv_redirected env response)
        "Address Binding retrieval did not return a direct 200 response";
  _ ← fail_if (negb (isCoseSign1MediaType (header "content-type" response)))
        "Address Binding response has the wrong content type";
  _ ← fail_if (bool_decide (is_Some (header "content-encoding" response)))
        "Address Binding response must not use content encoding";
  responseBytes MAX_BINDING_BYTES response.

(** What the callback of the verifier resolves for a key identifier. *)
Definition key_owner (keyId : jstr) : jstr :=
  match first_index (char "#") keyId with
  | Some index => take index keyId
  | None => take (length keyId - 1) keyId
  end.
Definition binding_owner (keyId : jstr) : M ResolvedHailDid :=
  let owner := key_owner keyId in
  resolved ← dv_resolve env owner;
  _ ← fail_if (negb (jstr_eqb keyId (owner ++ js "#hail-identity"))) "Unexpected Address Binding key ID";
  Ok resolved.
Definition binding_verifier : HailVerifier :=
  createWebCryptoVerifier (fun keyId =>
    resolved ← binding_owner keyId; ed25519PublicKeyFromDidKey (identityDidKey resolved)) subtle.

(** The key identifier the callback is called with; [None] when [verifySignedPayload] refuses the
    representation before it calls the verifier. *)
Definition asked_key (representation : bytes) : option jstr :=
  match (parsed ← parseCose address_binding representation;
         _ ← signatureStructure (protectedBytes parsed) (parsed_payloadBytes parsed);
         Ok (keyId parsed)) with
  | Ok keyId => Some keyId
  | Err _ => None
  end.

(** The reads of the resolver when the callback asks it, whatever it then answers. *)
Definition consult (representation : bytes) : Net unit :=
  match asked_key representation with
  | Some keyId => read_all (dv_reads env (key_owner keyId))
  | None => mret tt
  end.

(** The resolution is the one the callback has kept. *)
Definition resolveAndVerifyBinding (address : jstr) (representation : bytes)
    : M (HailAddressBinding * ResolvedHailDid) :=
  inspected ← verifySignedPayload address_binding representation binding_verifier;
  binding ← typed (Signed address_binding) (payload inspected);
  _ ← fail_if (negb (jstr_eqb (ab_address binding) address)) "Address Binding names another address";
  _ ← fail_if (dv_now env 0 / 1000 + 300 <? ab_issued_at binding)
        "Address Binding issuance is too far in the future";
  resolved ← binding_owner (inspected_keyId inspected);
  _ ← fail_if (jstr_eqb (serviceBase resolved) [] || jstr_eqb (messagingDidKey resolved) []
               || jstr_eqb (identityDidKey resolved) []) "PLC state did not resolve complete Hail service state";
  Ok (binding, resolved).

Definition webfinger_url (address : jstr) (domain : jstr) (provider : option jstr) : M web_url :=
  webfinger ← parse_web_url (js "https://" ++ default domain provider ++ js "/.well-known/webfinger") None;
  Ok (set_search_params [(js "resource", js "acct:" ++ address); (js "rel", ADDRESS_BINDING_REL)] webfinger).

(** [AddressVerifier.verify]. *)
Definition verify_address (addressInput : jstr) : Net verified_binding :=
  address ← net (canonicalizeHailAddress addressInput);
  let domain := match first_index (char "@") address with Some i => drop (S i) address | None => address end in
  provider ← net (match dv_discoverProvider env with Some discover => discover domain | None => Ok None end);
  webfinger ← net (webfinger_url address domain provider);
  webfingerResponse ← fetchWebFinger 3 webfinger;
  bindingUrl ← net (binding_location (js "acct:" ++ address) webfingerResponse);
  _ ← net (dv_validateTarget env bindingUrl);
  bindingResponse ← dv_fetch env (plain_request COSE_SIGN1_MEDIA_TYPE bindingUrl);
  representation ← net (binding_bytes bindingResponse);
  _ ← consult representation;
  '(binding, resolved) ← net (resolveAndVerifyBinding address representation);
  mret {| vb_address := {| va_address := address; va_did := ab_did binding; va_serviceBase := serviceBase resolved;
                           va_messagingDidKey := messagingDidKey resolved; va_binding := binding;
                           va_representation := representation; va_digest := sha256 representation |};
          vb_identityDidKey := identityDidKey resolved; vb_evidence := resolved_evidence resolved;
          vb_verifiedAt := dv_now env 1 |}.
End verifier.
