(* ===== verification/Plc.v ===== *)
(** * The PLC directory (apps/server/src/plc/client.ts, plc/resolver.ts)

    What the directory is asked for an identity, and the state of the identity that is read from its
    answers.  The reads use the platform's [fetch]: the directory is the one the provider is configured
    with, and the name in its URL is not checked.  The schemas, the validation of logs and the rendering of
    documents of @did-plc/lib are parameters, and so is the text PostgreSQL keeps of a JSON value.  The
    submission of operations and the auditable log are not modelled. *)

From S2P Require Import Prelude JsString Regex Value Validation Conversations Envelopes Receiver Http ServerBodies Retriever.
From S2P Require Import Identity StrictJson SafeFetch Discovery.
From Stdlib Require Import ZArith SpecFloat.
Open Scope Z_scope.

(** ** The client *)

Definition MAX_PLC_RESPONSE_BYTES : Z := 1048576.

(** [encodeURIComponent] of a text in ASCII. *)
Definition UNRESERVED : list (N * N) :=
  alphanumerics ++ map (fun u => (u, u)) (js "-_.!~*'()").
Definition upper_hex (n : N) : N := (if n <? 10 then 48 + n else 55 + n)%N.
Definition encodeURIComponent (s : jstr) : jstr :=
  s ≫= fun u => if in_ranges UNRESERVED u then [u] else [char "%"; upper_hex (u / 16); upper_hex (u mod 16)].

(** The directory it reads, the bound on answers, and what is answered; a failure is one of the network or
    the deadline. *)
Record plc_client := { pc_baseUrl : jstr; pc_maxResponseBytes : Z; pc_fetch : plain_read -> M Response }.

Section client.
Context (client : plc_client).

Definition didPath (did : jstr) : M jstr :=
  _ ← fail_if (negb (rx_test DID_PATTERN did)) "PLC DID is not canonical";
  Ok (js "/" ++ encodeURIComponent did).

(** [this.baseUrl.replace(/\/$/, "")]. *)
Definition without_slash (s : jstr) : jstr :=
  if bool_decide (last s = Some (char "/")) then take (length s - 1) s else s.

Definition read_request (path : jstr) : plain_read := {|
  pl_method := js "GET"; pl_url := without_slash (pc_baseUrl client) ++ path;
  pl_headers := [(js "Accept", js "application/json")]; pl_redirect := js "error" |}.

Definition response_ok (r : Response) : bool := (200 <=? rs_status r) && (rs_status r <=? 299).
(** [PlcClientError], by its message. *)
Definition returned_http {A} (r : Response) : M A := Err (OtherError (js "PLC returned HTTP " ++ show_Z (rs_status r))).

Definition plc_answer (r : Response) : M json :=
  _ ← fail_if (match content_length r with
               | Some text => negb (rx_test DIGITS text) || (pc_maxResponseBytes client <? decimal text)
               | None => false
               end) "PLC response exceeds its size limit";
  match rs_body r with
  | None => if response_ok r then fetch_error "PLC returned an empty response" else returned_http r
  | Some reads =>
      match read_body (pc_maxResponseBytes client) 0 [] reads with
      | Ok chunks =>
          text ← decode_text (concat chunks);
          if response_ok r then parseJsonWithoutDuplicateKeys text else returned_http r
      | Err OversizedTransfer => fetch_error "PLC response exceeds its size limit"
      | Err TransferInterrupted => fetch_error "the read of the body failed"     (* the platform's own words *)
      end
  end.

Definition read (path : jstr) : Reading json :=
  let request := read_request path in
  (response ← pc_fetch client request; plc_answer response, [request]).

Definition getDocument (did : jstr) : Reading json := path ← reading (didPath did); read path.
Definition getDocumentData (did : jstr) : Reading json := path ← reading (didPath did); read (path ++ js "/data").
Definition getOperationLog (did : jstr) : Reading json := path ← reading (didPath did); read (path ++ js "/log").
End client.

(** ** Values of the directory *)

(** [isDeepStrictEqual] of parsed values: the order of members does not matter. *)
Fixpoint isDeepStrictEqual (a b : json) {struct a} : bool :=
  match a, b with
  | JsonNull, JsonNull => true
  | JsonBool x, JsonBool y => Bool.eqb x y
  | JsonNumber x, JsonNumber y =>
      match x, y with
      | S754_zero s, S754_zero t | S754_infinity s, S754_infinity t => Bool.eqb s t
      | S754_nan, S754_nan => true
      | S754_finite s m e, S754_finite t n f => Bool.eqb s t && (m =? n)%positive && (e =? f)
      | _, _ => false
      end
  | JsonString x, JsonString y => jstr_eqb x y
  | JsonArray x, JsonArray y =>
      (fix items (x y : list json) : bool :=
         match x, y with
         | [], [] => true
         | v :: x, w :: y => isDeepStrictEqual v w && items x y
         | _, _ => false
         end) x y
  | JsonObject x, JsonObject y =>
      (length x =? length y)%nat
      && (fix members (x : list (jstr * json)) : bool :=
            match x with
            | [] => true
            | (k, v) :: x =>
                match List.find (fun e => jstr_eqb e.1 k) y with
                | Some (_, w) => isDeepStrictEqual v w
                | None => false
                end && members x
            end) x
  | _, _ => false
  end.

(** [{ ...value, [k]: v }] of an object that has the member, or not. *)
Definition with_member (k : String.string) (v : json) (value : json) : json :=
  match value with
  | JsonObject members => JsonObject (filter (fun e => negb (jstr_eqb e.1 (js k))) members ++ [(js k, v)])
  | _ => value
  end.
Arguments with_member k%_string v value.

(** Members that the schemas require to be texts and arrays. *)
Definition text_of (k : String.string) (value : json) : M jstr :=
  v ← json_member k value;
  match json_text v with Some text => Ok text | None => fetch_error "a text is missing" end.
Arguments text_of k%_string value.
Definition items_of (k : String.string) (value : json) : M (list json) :=
  v ← json_member k value;
  match v with Some (JsonArray items) => Ok items | _ => fetch_error "an array is missing" end.
Arguments items_of k%_string value.

Fixpoint map_results {A B} (f : A -> M B) (l : list A) : M (list B) :=
  match l with
  | [] => Ok []
  | a :: l => b ← f a; bs ← map_results f l; Ok (b :: bs)
  end.

(** ** The base of the service *)

Section service_base.
Context `{NodeUrl} `{WebUrl}.

Definition PATH_SEGMENT_PATTERN : regex := plus (RClass (alphanumerics ++ [one "."; one "_"; one "~"; one "-"])).

(** [url.origin] of an https URL. *)
Definition u_origin (url : web_url) : jstr :=
  js "https://" ++ u_hostname url ++ match u_port url with [] => [] | port => js ":" ++ port end.

Definition canonicalizeHailServiceBase (input : jstr) : M jstr :=
  _ ← fail_if (negb (rx_test (plus (RClass [(0x21, 0x7e)]%N)) input) || has_char (char "%") input
               || has_char backslash input || bool_decide (drop (length input - 2) input = js "//"))
        "Hail service base contains a forbidden URL form";
  url ← parse_web_url input None;
  let asciiHostname := domainToASCII (u_hostname url) in
  _ ← fail_if (negb (jstr_eqb (u_protocol url) (js "https:")) || negb (jstr_eqb (u_username url) [])
               || negb (jstr_eqb (u_password url) []) || negb (jstr_eqb (u_search url) [])
               || negb (jstr_eqb (u_hash url) []) || jstr_eqb asciiHostname []
               || negb (jstr_eqb asciiHostname (u_hostname url))
               || bool_decide (last (u_hostname url) = Some (char ".")) || negb (isIP (u_hostname url) =? 0))
        "Hail service base is not a canonical HTTPS DNS URL";
  let pathname := if jstr_eqb (u_pathname url) (js "/") then [] else without_slash (u_pathname url) in
  _ ← fail_if (existsb (fun segment => negb (rx_test PATH_SEGMENT_PATTERN segment) || jstr_eqb segment (js ".")
                                       || jstr_eqb segment (js "..")) (drop 1 (split_on (char "/") pathname)))
        "Hail service base contains an invalid path segment";
  Ok (u_origin url ++ pathname).
End service_base.

(** ** The resolver *)

(** What the resolver takes from @did-plc/lib, and the text PostgreSQL keeps of a value. *)
Class PlcLib := {
  documentData_parse : json -> M json;
  compatibleOpOrTombstone_parse : json -> M json;
  didDocument_parse : json -> M json;
  validateOperationLog : jstr -> list json -> M (option json);
  formatDidDoc : json -> M json;
  jsonb_text : json -> bytes;
}.

Definition role_id (did : jstr) (role : String.string) : jstr := did ++ js "#" ++ js role.
Arguments role_id did role%_string.
Definition expand (did id : jstr) : jstr := if starts_with (js "#") id then did ++ id else id.
Definition expand_entry (did : jstr) (entry : json) : M json :=
  id ← text_of "id" entry; Ok (with_member "id" (JsonString (expand did id)) entry).
Definition normalizeDocumentIds (did : jstr) (document : json) : M json :=
  methods ← items_of "verificationMethod" document;
  methods ← map_results (expand_entry did) methods;
  services ← items_of "service" document;
  services ← map_results (expand_entry did) services;
  Ok (with_member "service" (JsonArray services) (with_member "verificationMethod" (JsonArray methods) document)).

(** The context is filled in from the rendered document, which has one. *)
Definition replica_document (raw expected : json) : M json :=
  match raw with
  | JsonObject members =>
      if includes members.*1 (js "@context") then Ok raw
      else context ← json_member "@context" expected;
           Ok match context with Some context => with_member "@context" context raw | None => raw end
  | _ => Ok raw
  end.

(** The entries of an array of the document, under their full identifiers. *)
Definition entries_of (k : String.string) (did : jstr) (document : json) : M (list (jstr * json)) :=
  items ← items_of k document;
  map_results (fun entry => id ← text_of "id" entry; Ok (expand did id, entry)) items.
Arguments entries_of k%_string did document.

(** [data[group][name]]. *)
Definition data_entry (group name : String.string) (data : json) : M (option json) :=
  v ← json_member group data;
  match v with Some v => json_member name v | None => fetch_error "undefined is not an object" end.
Arguments data_entry (group name)%_string data.

Definition is_text (k : String.string) (text : jstr) (value : json) : M bool :=
  v ← json_member k value; Ok (bool_decide (json_text v = Some text)).
Arguments is_text k%_string text value.

Definition DID_KEY_PREFIX : jstr := js "did:key:".
Definition without_did_key (didKey : jstr) : jstr :=
  if starts_with DID_KEY_PREFIX didKey then drop (length DID_KEY_PREFIX) didKey else didKey.

(** One turn of the loop over the roles. *)
Definition authorizes (did : jstr) (methods : list (jstr * json)) (role : String.string) (didKey : jstr) : M unit :=
  let refusal {A} : M A := Err (OtherError (js "PLC document does not authorize " ++ js role)) in
  match filter (fun e => jstr_eqb e.1 (role_id did role)) methods with
  | [(_, method)] =>
      multikey ← is_text "type" (js "Multikey") method;
      controlled ← is_text "controller" did method;
      same_key ← is_text "publicKeyMultibase" (without_did_key didKey) method;
      if (multikey && controlled && same_key : bool) then Ok tt else refusal
  | _ => refusal
  end.
Arguments authorizes did methods role%_string didKey.

(** The services of the type of Hail. *)
Fixpoint hail_services (services : list (jstr * json)) : M (list (jstr * json)) :=
  match services with
  | [] => Ok []
  | e :: services =>
      wanted ← is_text "type" (js "HailMessaging") e.2;
      rest ← hail_services services;
      Ok (if (wanted : bool) then e :: rest else rest)
  end.

Section resolver.
Context `{NodeUrl} `{WebUrl} `{PlcLib}.

(** The validated state, with the document that has been compared with its rendering, and the log. *)
Definition validated_state (did : jstr) (rawDocument rawData rawLog : json) : M (json * json * list json) :=
  data ← documentData_parse rawData;
  log ← match rawLog with
        | JsonArray operations => map_results compatibleOpOrTombstone_parse operations
        | _ => fetch_error "rawLog.map is not a function"
        end;
  validated ← validateOperationLog did log;
  expectedDocument ← formatDidDoc data;
  replicaDocument ← replica_document rawDocument expectedDocument;
  document ← didDocument_parse replicaDocument;
  id ← text_of "id" document;
  _ ← fail_if (negb (match validated with Some state => isDeepStrictEqual state data | None => false end)
               || negb (jstr_eqb id did)) "PLC state failed validation";
  rendered ← normalizeDocumentIds did document;
  expected ← normalizeDocumentIds did expectedDocument;
  _ ← fail_if (negb (isDeepStrictEqual rendered expected))
        "PLC rendered document does not match current validated state";
  Ok (data, document, log).

Definition hail_keys (data : json) : M (jstr * jstr) :=
  identity ← data_entry "verificationMethods" "hail-identity" data;
  messaging ← data_entry "verificationMethods" "hail-messaging" data;
  let refusal {A} : M A := fetch_error "PLC state does not contain distinct Hail keys" in
  match json_text identity, json_text messaging with
  | Some identityDidKey, Some messagingDidKey =>
      if jstr_eqb identityDidKey [] || jstr_eqb messagingDidKey [] || jstr_eqb identityDidKey messagingDidKey then refusal
      else Ok (identityDidKey, messagingDidKey)
  | _, _ => refusal
  end.

(** The endpoint of the one service of Hail. *)
Definition hail_endpoint (did : jstr) (data document : json) : M jstr :=
  services ← entries_of "service" did document;
  _ ← fail_if (negb (bool_decide (NoDup services.*1))) "PLC document contains duplicate services";
  hailServices ← hail_services services;
  service ← data_entry "services" "hail" data;
  let refusal {A} : M A := fetch_error "PLC document does not contain the expected Hail service" in
  match hailServices, service with
  | [(id, rendered)], Some service =>
      typed ← is_text "type" (js "HailMessaging") service;
      endpoint ← text_of "endpoint" service;
      same ← is_text "serviceEndpoint" endpoint rendered;
      if (negb (jstr_eqb id (role_id did "hail")) || negb typed || negb same : bool) then refusal else Ok endpoint
  | _, _ => refusal
  end.

Definition resolution (did : jstr) (rawDocument rawData rawLog : json) : M ResolvedHailDid :=
  '(data, document, log) ← validated_state did rawDocument rawData rawLog;
  '(identityDidKey, messagingDidKey) ← hail_keys data;
  methods ← entries_of "verificationMethod" did document;
  _ ← fail_if (negb (bool_decide (NoDup methods.*1))) "PLC document contains duplicate verification methods";
  _ ← authorizes did methods "hail-identity" identityDidKey;
  _ ← authorizes did methods "hail-messaging" messagingDidKey;
  endpoint ← hail_endpoint did data document;
  serviceBase ← canonicalizeHailServiceBase endpoint;
  Ok {| Receiver.did := did; identityDidKey := identityDidKey; messagingDidKey := messagingDidKey;
        serviceBase := serviceBase;
        resolved_evidence := {| document := jsonb_text rawDocument; data := jsonb_text data;
                                log := jsonb_text (JsonArray log) |} |}.

(** [Promise.all]: every read is made; of several failures the first in the order of the list is taken, where
    the platform takes the first in time. *)
Definition all_read (a b c : Reading json) : Reading (json * json * json) :=
  (x ← a.1; y ← b.1; z ← c.1; Ok (x, y, z), a.2 ++ b.2 ++ c.2).

(** [PlcHailDidResolver.resolve]. *)
Definition PlcHailDidResolver (client : plc_client) (did : jstr) : Reading ResolvedHailDid :=
  _ ← reading (fail_if (negb (rx_test DID_PATTERN did)) "DID is not canonical did:plc");
  '(rawDocument, rawData, rawLog) ←
    all_read (getDocument client did) (getDocumentData client did) (getOperationLog client did);
  reading (resolution did rawDocument rawData rawLog).
End resolver.

(** ** What a resolution guarantees *)

Section resolved.
Context `{NodeUrl} `{WebUrl} `{PlcLib}.

(** The state comes from a log that validates for the DID, the keys are two of it, and the document
    authorizes them and has the service once. *)
Record resolved_from (client : plc_client) (did : jstr) (r : ResolvedHailDid) : Prop := {
  rf_did : Receiver.did r = did /\ rx_test DID_PATTERN did = true;
  rf_state : exists log state data endpoint, validateOperationLog did log = Ok (Some state) /\
    isDeepStrictEqual state data = true /\
    hail_keys data = Ok (identityDidKey r, messagingDidKey r) /\ identityDidKey r <> messagingDidKey r /\
    (exists document, hail_endpoint did data document = Ok endpoint) /\
    canonicalizeHailServiceBase endpoint = Ok (serviceBase r);
}.

Lemma hail_keys_Ok data i m : hail_keys data = Ok (i, m) -> i <> [] /\ m <> [] /\ i <> m.
Proof using Type.
  unfold hail_keys. intros (identity & _ & (messaging & _ & Hk)%bind_Ok)%bind_Ok.
  destruct (json_text identity) as [i'|]; [|done]. destruct (json_text messaging) as [m'|]; [|done].
  destruct (_ || _) eqn:Hb; [done|]. injection Hk as -> ->. rewrite !orb_false_iff in Hb.
  destruct Hb as [[H1' H2'] H3]. split_and!; intros ->; by rewrite ?jstr_eqb_refl in *.
Qed.

Lemma PlcHailDidResolver_Ok client did r : (PlcHailDidResolver client did).1 = Ok r -> resolved_from client did r.
Proof using Type.
  unfold PlcHailDidResolver. destruct (fail_if _ _) as [[]|] eqn:Hd; [|done]. unfold fail_if in Hd.
  apply throw_if_Ok, negb_false_iff in Hd.
  unfold mbind at 1, Reading_bind at 1. cbn [fst reading]. unfold mbind at 1, Reading_bind at 1.
  destruct (all_read _ _ _) as [[[[x y] z]|e] l]; cbn [fst]; [|done]. cbn [fst reading].
  intros ([[data document] log] & Hs & ([i m] & Hk & (methods & _ & ([] & _ & ([] & _ & ([] & _ &
    (endpoint & He & (base & Hb & <-%Ok_eq)%bind_Ok)%bind_Ok)%bind_Ok)%bind_Ok)%bind_Ok)%bind_Ok)%bind_Ok)%bind_Ok.
  apply bind_Ok in Hs as (data' & _ & (log' & _ & (validated & Hv & Hs)%bind_Ok)%bind_Ok).
  apply bind_Ok in Hs as (expected & _ & (replica & _ & (document' & _ & (id & _ & ([] & Hc & Hs)%bind_Ok)%bind_Ok)%bind_Ok)%bind_Ok).
  apply bind_Ok in Hs as (rendered & _ & (expected' & _ & ([] & _ & Heq%Ok_eq)%bind_Ok)%bind_Ok). injection Heq as -> -> ->.
  unfold fail_if in Hc. apply throw_if_Ok, orb_false_iff in Hc as [Hc%negb_false_iff _].
  destruct validated as [state|]; [|done]. split; cbn; [done|].
  exists log, state, data, endpoint. split_and!; try done; [|by exists document]. by destruct (hail_keys_Ok _ _ _ Hk) as (_ & _ & Hne).
Qed.
End resolved.

Example didPath_example : didPath example_did = Ok (js "/did%3Aplc%3Aaaaaaaaaaaaaaaaaaaaaaaaa").
Proof. vm_compute. reflexivity. Qed.
