(* ===== verification/DiscoveryRules.v ===== *)
(** * What the verification of an address guarantees

    The verified binding was signed with the identity key the directory names for the identity it binds;
    and whatever other hosts answer, the transport connects to nothing but public addresses on the way, and
    what is read besides is what the resolver asks its directory. *)

From S2P Require Import Prelude JsString Regex Value Rfc8949 Cbor Profiles Validation ValidatePayload Models.
From S2P Require Import Cose CoseRules WebCrypto Typed Conversations Envelopes Receiver Http Identity Grants.
From S2P Require Import StrictJson SafeFetch Discovery Plc.
From Stdlib Require Import ZArith.
Open Scope Z_scope.

(** ** Signatures of identities *)

Section signatures.
Context `{HailEnv} `{CborgSpec} `{Keys}.
#[local] Set Default Proof Using "Type*".

(** A representation of the type that the key verifies, under the key identifier of the identity. *)
Definition signed_with (t : HailSignedPayloadType) (kid key : jstr) (representation : bytes) : Prop :=
  exists public payload signature, ed25519PublicKeyFromDidKey key = Ok public /\
    subtle_verify subtle public signature (signed_bytes t kid payload) = Ok true /\
    representation = representation_of t kid payload signature.

Lemma verified_parts t rep V o : verifySignedPayload t rep V = Ok o -> exists p, parsed_ok t rep p /\
  o = inspectedResult t p /\
  verify V (signed_bytes t (keyId p) (parsed_payloadBytes p)) (signature p) (keyId p) = Ok true.
Proof.
  intros Hv. destruct (parseCose t rep) as [p|] eqn:Hp; [|unfold verifySignedPayload in Hv; by rewrite Hp in Hv].
  pose proof (parse_Ok _ _ _ Hp) as Hok. exists p. split; [done|].
  rewrite (verify_build _ _ _ _ _ Hok eq_refl Hp) in Hv. apply bind_Ok in Hv as ([] & Hvalid & Hv); [|discriminate Hv].
  by apply Ok_eq in Hv as <-.
Qed.

(** A verifier that looks the key up by its identifier. *)
Lemma verified_signed t rep (lookup : jstr -> M CryptoKey) o :
  verifySignedPayload t rep (createWebCryptoVerifier lookup subtle) = Ok o ->
  exists p public, parsed_ok t rep p /\ o = inspectedResult t p /\ lookup (keyId p) = Ok public /\
    subtle_verify subtle public (signature p) (signed_bytes t (keyId p) (parsed_payloadBytes p)) = Ok true.
Proof.
  intros (p & Hok & Ho & Hv)%verified_parts. cbn in Hv.
  apply bind_Ok in Hv as (public & Hl & ([] & _ & Hs)%bind_Ok). by exists p, public.
Qed.

Lemma parsed_signed t rep p key public : parsed_ok t rep p -> ed25519PublicKeyFromDidKey key = Ok public ->
  subtle_verify subtle public (signature p) (signed_bytes t (keyId p) (parsed_payloadBytes p)) = Ok true ->
  signed_with t (keyId p) key rep.
Proof. intros [] Hk Hs. by exists public, (parsed_payloadBytes p), (signature p). Qed.

Lemma clone_get m k : get (map (fun e : jstr * hvalue => (e.1, structuredClone e.2)) m) k = structuredClone <$> get m k.
Proof using Type.
  unfold get. induction m as [|e m IH]; [done|]. cbn. destruct (jstr_eqb e.1 k); [done|exact IH].
Qed.

(** The key identifier of a binding is the one of the identity it binds. *)
Lemma binding_key p rep b : parsed_ok address_binding rep p ->
  typed (Signed address_binding) (payload (inspectedResult address_binding p)) = Ok b ->
  keyId p = ab_did b ++ js "#hail-identity".
Proof using Type.
  intros [] Hb. unfold expectedKeyId in parsed_signer.
  apply bind_Ok in parsed_signer as (r & Hr & (signer & Hs & Hk)%bind_Ok). apply Ok_eq in Hk as <-.
  apply record_Ok in Hr as [n Hr]. injection Hr as Hr. apply did_Ok in Hs as [Hs _].
  unfold typed in Hb. cbn [inspectedResult payload as_payload] in Hb. rewrite Hr in Hb. cbn [structuredClone] in Hb.
  unfold as_HailAddressBinding in Hb. cbn [as_record mbind option_bind] in Hb.
  destruct (lit_str _ _ _); [|done]. destruct (lit_num _ _ _); [|done]. cbn [mbind option_bind] in Hb.
  destruct (req _ "address" _); [|done]. cbn [mbind option_bind] in Hb.
  destruct (req _ "did" as_string) as [owner|] eqn:Ho; [|done]. cbn [mbind option_bind] in Hb.
  destruct (req _ "issued_at" _); [|done]. cbn [mbind option_bind] in Hb. destruct (req _ "key_id" _); [|done].
  injection Hb as <-. cbn [ab_did]. unfold req, field in Ho. rewrite clone_get in Ho.
  change (signerField (SIGNED_PROFILES address_binding)) with (js "did") in Hs. rewrite Hs in Ho. cbn in Ho.
  by injection Ho as <-.
Qed.
End signatures.

(** ** Addresses *)

Section addresses.
Context `{HailEnv} `{CborgSpec} `{Keys} `{NodeUrl} `{WebUrl}.
Context (env : discovery_env).
#[local] Set Default Proof Using "Type*".

Lemma fail_if_Ok b message u : fail_if b message = Ok u -> b = false.
Proof using Type. by intros ?%throw_if_Ok. Qed.

Lemma first_index_split c s i : first_index c s = Some i -> s = take i s ++ c :: drop (S i) s.
Proof using Type.
  revert i. induction s as [|u s IH]; intros i Hi; [done|]. cbn in Hi. destruct (N.eqb_spec u c) as [->|_].
  - by injection Hi as <-.
  - apply fmap_Some in Hi as (j & Hj & ->). cbn. f_equal. by apply IH.
Qed.

Lemma binding_owner_Ok kid resolved did : binding_owner env kid = Ok resolved -> kid = did ++ js "#hail-identity" ->
  key_owner kid = did /\ dv_resolve env did = Ok resolved.
Proof using Type.
  intros (r & Hr & ([] & Hk%fail_if_Ok%negb_false_iff%jstr_eqb_eq & [= ->])%bind_Ok)%bind_Ok Hkid.
  set (owner := key_owner kid) in *.
  rewrite Hkid in Hk at 1. apply app_inj_2 in Hk as [-> _]; done.
Qed.

Record address_verified (input : jstr) (v : verified_binding) : Prop := {
  av_canonical : canonicalizeHailAddress input = Ok (va_address (vb_address v));
  av_resolved : exists resolved, dv_resolve env (va_did (vb_address v)) = Ok resolved /\
    va_serviceBase (vb_address v) = serviceBase resolved /\
    va_messagingDidKey (vb_address v) = messagingDidKey resolved /\ vb_identityDidKey v = identityDidKey resolved;
  av_signed : signed_with address_binding (va_did (vb_address v) ++ js "#hail-identity") (vb_identityDidKey v)
    (va_representation (vb_address v));
  av_read : exists object, inspectTyped address_binding (va_representation (vb_address v)) = Ok object /\
    payload object = va_binding (vb_address v);
  av_names : ab_address (va_binding (vb_address v)) = va_address (vb_address v) /\
    ab_did (va_binding (vb_address v)) = va_did (vb_address v);
  av_time : ab_issued_at (va_binding (vb_address v)) <= dv_now env 0 / 1000 + 300;
  av_digest : va_digest (vb_address v) = sha256 (va_representation (vb_address v));
}.

Lemma verify_address_Ok input past v past' : verify_address env input past = (Ok v, past') -> address_verified input v.
Proof.
  intros Hv. unfold verify_address in Hv. apply bind_Net in Hv as (address & past1 & Ha & Hv). apply net_Ok in Ha as [Ha ->].
  apply bind_Net in Hv as (provider & past1 & _ & Hv). apply bind_Net in Hv as (webfinger & past2 & _ & Hv).
  apply bind_Net in Hv as (response & past3 & _ & Hv). apply bind_Net in Hv as (url & past4 & _ & Hv).
  apply bind_Net in Hv as ([] & past5 & _ & Hv). apply bind_Net in Hv as (response' & past6 & _ & Hv).
  apply bind_Net in Hv as (rep & past7 & _ & Hv). apply bind_Net in Hv as ([] & past8 & _ & Hv).
  apply bind_Net in Hv as ([b resolved] & past9 & Hb & Hv).
  injection Hv as <- _. apply net_Ok in Hb as [Hb _]. unfold resolveAndVerifyBinding in Hb.
  apply bind_Ok in Hb as (o & Ho & (b' & Hb' & ([] & Haddr%fail_if_Ok%negb_false_iff%jstr_eqb_eq & Hb)%bind_Ok)%bind_Ok).
  apply bind_Ok in Hb as ([] & Htime%fail_if_Ok%Z.ltb_ge & (r & Hr & ([] & _ & Hb)%bind_Ok)%bind_Ok). injection Hb as -> ->.
  pose proof Ho as (p & public & Hok & -> & Hl & Hs)%verified_signed.
  pose proof (binding_key _ _ _ Hok Hb') as Hkid. cbn [inspectedResult inspected_keyId] in Hr.
  pose proof (binding_owner_Ok _ _ _ Hr Hkid) as [_ Hres].
  assert (Hkey : ed25519PublicKeyFromDidKey (identityDidKey resolved) = Ok public).
  { apply bind_Ok in Hl as (resolved' & Hr' & Hl). rewrite Hr in Hr'. by injection Hr' as <-. }
  split; cbn; try done.
  - by exists resolved.
  - rewrite <- Hkid. by eapply parsed_signed.
  - unfold inspectTyped. rewrite (verifySigned_inspects _ _ _ _ Ho). cbn [mbind result_bind]. rewrite Hb'. by eexists.
Qed.
End addresses.

(** ** Connections *)

Section connections.
Context `{NodeUrl} `{WebUrl} `{IpAddresses}.
Context (transport : transport_env).

(** A canonical name over HTTPS, without credentials in the URL. *)
Record target_ok (url : web_url) : Prop := {
  tk_https : u_protocol url = js "https:";
  tk_plain : u_username url = [] /\ u_password url = [] /\ u_hash url = [];
  tk_name : u_hostname url <> [] /\ domainToASCII (u_hostname url) = u_hostname url /\
    last (u_hostname url) <> Some (char ".") /\ isIP (u_hostname url) = 0;
}.

(** A connection to an address that was found for the name and, with all that were found, is public; what
    is sent has only headers that are allowed for it. *)
Record confined (bodyRetrieval : bool) (c : connection) : Prop := {
  cf_target : exists url, target_ok url /\ cn_hostname c = u_hostname url;
  cf_found : exists past addresses, tr_lookup transport past (cn_hostname c) = Ok addresses /\
    (cn_address c, cn_family c) ∈ addresses /\
    forall e, e ∈ addresses -> isPublicAddress e.1 = true /\ (e.2 = 4 \/ e.2 = 6) /\ isIP e.1 = e.2;
  cf_method : cn_method c = js "GET" \/ bodyRetrieval = false /\ (cn_method c = js "PUT" \/ cn_method c = js "POST");
  cf_headers name : name ∈ (cn_headers c).*1 -> name <> js "cookie" /\ name <> js "referer" /\
    (name = js "authorization" -> bodyRetrieval = true);
}.

Lemma validateUrl_Ok url u : validateUrl url = Ok u -> target_ok url.
Proof.
  unfold validateUrl. intros Hv%fail_if_Ok. rewrite !orb_false_iff in Hv.
  destruct Hv as [[[[[[[X1%negb_false_iff%jstr_eqb_eq X2%negb_false_iff%jstr_eqb_eq] X3%negb_false_iff%jstr_eqb_eq]
    X4%negb_false_iff%jstr_eqb_eq] X5] X6%negb_false_iff%jstr_eqb_eq] X7%bool_decide_eq_false] X8%negb_false_iff%Z.eqb_eq].
  split; [done..|]. split; [|done]. intros He. rewrite X6, He in X5. by rewrite jstr_eqb_refl in X5.
Qed.

Lemma refuse_first_Ok message names refused u : refuse_first message names refused = Ok u ->
  forall name, name ∈ names -> refused name = false.
Proof.
  unfold refuse_first. destruct (List.find _ _) eqn:Hf; [done|]. intros _ name Hin%list_elem_of_In.
  by apply (List.find_none _ _ Hf).
Qed.

Lemma send_confined body request past r past' : send transport body request past = (r, past') ->
  past' = past \/ exists c, past' = Connected c :: past /\ confined body c /\
    cn_hostname c = u_hostname (wr_url request) /\ cn_headers c = wr_headers request /\ cn_method c = wr_method request.
Proof.
  unfold send, mbind, Net_bind, net at 1. destruct (check_request body request) as [[]|e] eqn:Hc; [|intros [= _ <-]; by left].
  destruct (tr_lookup transport past _) as [addresses|e] eqn:Hl; [|intros [= _ <-]; by left].
  destruct addresses as [|selected addresses]; [intros [= _ <-]; by left|]. unfold net.
  destruct (fail_if _ _) as [[]|e] eqn:Hp; [|intros [= _ <-]; by left]. intros [= _ <-]. right.
  exists (connect request selected). split; [done|]. split; [|done].
  apply fail_if_Ok, negb_false_iff in Hp. unfold check_request in Hc.
  apply bind_Ok in Hc as ([] & Hm%fail_if_Ok%negb_false_iff & ([] & Hu%validateUrl_Ok & ([] & Hb%fail_if_Ok & Hc)%bind_Ok)%bind_Ok).
  apply bind_Ok in Hc as ([] & Hf & ([] & _ & _)%bind_Ok). pose proof (refuse_first_Ok _ _ _ _ Hf) as Hno.
  split; cbn [connect cn_hostname cn_address cn_family cn_method cn_headers].
  - by exists (wr_url request).
  - exists past, (selected :: addresses). split; [done|]. split; [by destruct selected; left|].
    intros e Hin%list_elem_of_In. apply (proj1 (List.forallb_forall _ _) Hp) in Hin. unfold checked_address in Hin.
    rewrite !andb_true_iff, orb_true_iff, !Z.eqb_eq in Hin. naive_solver.
  - apply includes_elem in Hm. apply andb_false_iff in Hb.
    assert (Hmethod : wr_method request = js "GET" \/ wr_method request = js "PUT" \/ wr_method request = js "POST")
      by (cbn [map] in Hm; rewrite !elem_of_cons, elem_of_nil in Hm; naive_solver).
    destruct Hb as [->|Hb]; [naive_solver|]. left. rewrite !orb_false_iff in Hb. destruct Hb as [[Hg _] _].
    unfold is_GET in Hg. by apply negb_false_iff, jstr_eqb_eq in Hg.
  - intros name Hin. assert (Hnot : name ∉ forbidden_headers body).
    { intros Hforb. specialize (Hno _ Hforb). cbn in Hno. apply not_true_iff_false in Hno. apply Hno. by apply includes_elem. }
    unfold forbidden_headers in Hnot. destruct body; cbn [map] in Hnot; set_solver.
Qed.
End connections.

(** ** What an action asks of others *)

(** At most [n] connections, each of which [P] holds of, and plain reads of which [Q] holds with what the
    action comes to. *)
Definition asks (n : nat) (P : connection -> Prop) {A} (Q : M A -> list plain_read -> Prop) (m : Net A) : Prop :=
  forall past r past', m past = (r, past') -> exists made, past' = made ++ past /\
    (length (connections made) <= n)%nat /\ Forall P (connections made) /\ Q r (plain_reads made).
(** Connections only. *)
Definition connects (n : nat) (P : connection -> Prop) {A} (m : Net A) : Prop := asks n P (fun _ reads => reads = []) m.

Section asks.
Context (P : connection -> Prop).

Lemma asks_net {A} (m : M A) n (Q : M A -> list plain_read -> Prop) : Q m [] -> asks n P Q (net m).
Proof. intros HQ past r past' [= <- <-]. exists []. split; [done|]. split; [cbn; lia|]. by split; [constructor|]. Qed.
Lemma connects_net {A} (m : M A) n : connects n P (net m).
Proof. by apply asks_net. Qed.
Lemma connects_ret {A} (a : A) n : connects n P (mret a : Net A).
Proof. exact (connects_net (Ok a) n). Qed.

Lemma asks_bind {A B} (m : Net A) (f : A -> Net B) n k (Q : M B -> list plain_read -> Prop) : connects n P m ->
  (forall e, Q (Err e) []) -> (forall a, asks k P Q (f a)) -> asks (n + k) P Q (m ≫= f).
Proof.
  intros Hm He Hf past r past'. unfold mbind, Net_bind. destruct (m past) as [[a|e] past1] eqn:E;
    destruct (Hm _ _ _ E) as (made & -> & Hn & Hall & Hr).
  - intros (made' & -> & Hk & Hall' & HQ)%Hf. exists (made' ++ made).
    unfold connections, plain_reads in *. rewrite !omap_app, Hr, app_nil_r, length_app, <- app_assoc.
    split; [done|]. split; [lia|]. by split; [apply Forall_app|].
  - intros [= <- <-]. exists made. rewrite Hr. split; [done|]. split; [lia|done].
Qed.
Lemma connects_bind {A B} (m : Net A) (f : A -> Net B) n k : connects n P m -> (forall a, connects k P (f a)) ->
  connects (n + k) P (m ≫= f).
Proof. intros Hm Hf. by apply asks_bind. Qed.
(** A step that asks nothing of others. *)
Lemma asks_step {A B} (m : M A) (f : A -> Net B) k (Q : M B -> list plain_read -> Prop) : (forall e, Q (Err e) []) ->
  (forall a, asks k P Q (f a)) -> asks k P Q (net m ≫= f).
Proof. intros He Hf. by apply (asks_bind (net m) f 0 k); [apply connects_net| |]. Qed.
Lemma connects_step {A B} (m : M A) (f : A -> Net B) k : (forall a, connects k P (f a)) -> connects k P (net m ≫= f).
Proof. intros Hf. by apply asks_step. Qed.

(** What asks nothing of others at all. *)
Lemma asks_nothing {A} (m : Net A) n (Q : M A -> list plain_read -> Prop) :
  (forall past, exists r, m past = (r, past) /\ Q r []) -> asks n P Q m.
Proof.
  intros Hm past r past' Hr. destruct (Hm past) as (r' & Hr' & HQ). rewrite Hr' in Hr. injection Hr as -> <-.
  exists []. split; [done|]. split; [cbn; lia|]. by split; [constructor|].
Qed.

Lemma read_contacts reads : connections (rev (map Asked reads)) = [] /\ plain_reads (rev (map Asked reads)) = rev reads.
Proof.
  rewrite <- map_rev. unfold connections, plain_reads.
  induction (rev reads) as [|q l [IH1 IH2]]; [done|]. cbn. by rewrite IH1, IH2.
Qed.
Lemma asks_reads {A} reads (m : Net A) n (Q : M A -> list plain_read -> Prop) :
  asks n P (fun r later => Q r (later ++ rev reads)) m -> asks n P Q (_ ← read_all reads; m).
Proof.
  intros Hm past r past' (made & -> & Hn & Hall & HQ)%Hm. exists (made ++ rev (map Asked reads)).
  destruct (read_contacts reads) as [Hc Hr]. unfold connections, plain_reads in *.
  by rewrite !omap_app, Hc, Hr, app_nil_r, <- app_assoc.
Qed.
End asks.

(** ** What the directory is asked *)

Section directory.
Context `{NodeUrl} `{WebUrl} `{PlcLib}.
Context (client : plc_client).

(** One of the three resources of an identity, by a GET that accepts JSON and follows no redirect: the base
    is the one of the client, and nothing of the identifier can leave its segment of the path. *)
Record directory_read (q : plain_read) : Prop := {
  dq_method : pl_method q = js "GET";
  dq_headers : pl_headers q = [(js "Accept", js "application/json")];
  dq_redirect : pl_redirect q = js "error";
  dq_url : exists id resource, length id = 24%nat /\
    Forall (fun u => in_ranges [range "a" "z"; range "2" "7"] u = true) id /\
    resource ∈ map js [""; "/data"; "/log"]%string /\
    pl_url q = without_slash (pc_baseUrl client) ++ js "/did%3Aplc%3A" ++ id ++ resource;
}.

Lemma did_parts did : rx_test DID_PATTERN did = true -> exists id, did = js "did:plc:" ++ id /\ length id = 24%nat /\
  Forall (fun u => in_ranges [range "a" "z"; range "2" "7"] u = true) id.
Proof using Type.
  unfold DID_PATTERN, lit. intros (a & b & -> & ->%matches_lit_units & Hb%matches_rep_class)%rx_test_spec%seq_spec%matches_seq_inv.
  by exists b.
Qed.

Lemma encode_unreserved s : Forall (fun u => in_ranges UNRESERVED u = true) s -> encodeURIComponent s = s.
Proof using Type. induction 1 as [|u s Hu _ IH]; [done|]. unfold encodeURIComponent in *. by rewrite bind_cons, Hu, IH. Qed.

Lemma base32_unreserved u : in_ranges [range "a" "z"; range "2" "7"] u = true -> in_ranges UNRESERVED u = true.
Proof using Type.
  intros Hu. unfold UNRESERVED, alphanumerics. cbn [in_ranges existsb app range] in *.
  rewrite !orb_true_iff, !andb_true_iff, !N.leb_le in *.
  change (char "a") with 97%N in *. change (char "z") with 122%N in *. change (char "2") with 50%N in *.
  change (char "7") with 55%N in *. change (char "0") with 48%N. change (char "9") with 57%N.
  destruct Hu as [Hu|[Hu|Hu]]; [|right; right; left; lia|done]. right; left. lia.
Qed.

Lemma didPath_Ok did path : didPath did = Ok path -> exists id, path = js "/did%3Aplc%3A" ++ id /\
  length id = 24%nat /\ Forall (fun u => in_ranges [range "a" "z"; range "2" "7"] u = true) id.
Proof using Type.
  intros ([] & (id & -> & Hl & Hf)%fail_if_Ok%negb_false_iff%did_parts & <-%Ok_eq)%bind_Ok. exists id. split; [|done].
  unfold encodeURIComponent. rewrite bind_app.
  pose proof (encode_unreserved id (Forall_impl _ _ _ Hf base32_unreserved)) as He. unfold encodeURIComponent in He.
  by rewrite He.
Qed.

(** A path of an identity is read once, or not at all. *)
Lemma path_reads did (f : jstr -> jstr) resource : (forall path, f path = path ++ resource) ->
  resource ∈ map js [""; "/data"; "/log"]%string ->
  let reads := (path ← reading (didPath did); read client (f path)).2 in
  (length reads <= 1)%nat /\ Forall directory_read reads.
Proof using Type.
  intros Hf Hr. cbv zeta. unfold mbind, Reading_bind, reading. destruct (didPath did) as [path|e] eqn:Hp; cbn; [|by split; [lia|]].
  split; [lia|]. constructor; [|done]. apply didPath_Ok in Hp as (id & -> & Hl & Hid). split; [done..|].
  exists id, resource. split; [done|]. split; [done|]. split; [done|]. cbn. by rewrite Hf, <- !app_assoc.
Qed.

Lemma quiet_bind {A B} (m : Reading A) (f : A -> Reading B) : (forall a, (f a).2 = []) -> (m ≫= f).2 = m.2.
Proof using Type.
  intros Hf. unfold mbind, Reading_bind. destruct m as [[a|e] l]; [|done]. cbn. by rewrite Hf, app_nil_r.
Qed.

Lemma resolver_reads did : let reads := (PlcHailDidResolver client did).2 in
  (length reads <= 3)%nat /\ Forall directory_read reads.
Proof using Type.
  cbv zeta.
  destruct (path_reads did id [] (fun path => eq_sym (app_nil_r path)) ltac:(set_solver)
    : (length (getDocument client did).2 <= 1)%nat /\ Forall directory_read (getDocument client did).2) as [Hn1 Hf1].
  destruct (path_reads did (fun path => path ++ js "/data") (js "/data") (fun path => eq_refl) ltac:(set_solver)
    : (length (getDocumentData client did).2 <= 1)%nat /\ Forall directory_read (getDocumentData client did).2) as [Hn2 Hf2].
  destruct (path_reads did (fun path => path ++ js "/log") (js "/log") (fun path => eq_refl) ltac:(set_solver)
    : (length (getOperationLog client did).2 <= 1)%nat /\ Forall directory_read (getOperationLog client did).2) as [Hn3 Hf3].
  assert (Hall : (PlcHailDidResolver client did).2 = [] \/ (PlcHailDidResolver client did).2 =
    (getDocument client did).2 ++ (getDocumentData client did).2 ++ (getOperationLog client did).2).
  { unfold PlcHailDidResolver. destruct (fail_if _ _); [|by left]. right.
    apply (quiet_bind (all_read _ _ _)). by intros [[x y] z]. }
  destruct Hall as [-> | ->]; [by split; [cbn; lia|]|]. rewrite !length_app, !Forall_app. split; [lia|done].
Qed.
End directory.

Section confinement.
Context `{HailEnv} `{CborgSpec} `{Keys} `{NodeUrl} `{WebUrl} `{IpAddresses}.
Context (env : discovery_env) (transport : transport_env).
Context (Hfetch : dv_fetch env = safe_fetch transport).

(** The connections of a lookup: confined, and they ask for a resource without saying who asks. *)
Definition anonymous (c : connection) : Prop :=
  confined transport false c /\ cn_method c = js "GET" /\ (cn_headers c).*1 = map js ["accept"; "accept-encoding"]%string.

Lemma fetch_connects accept url : connects 1 anonymous (dv_fetch env (plain_request accept url)).
Proof using Type*.
  intros past r past'. rewrite Hfetch. intros [->|(c & -> & Hc & _ & Hh & Hm)]%send_confined.
  - exists []. split; [done|]. split; [cbn; lia|]. by split; [constructor|].
  - exists [Connected c]. split; [done|]. split; [done|]. split; [|done]. constructor; [|constructor].
    split; [done|]. by rewrite Hh, Hm.
Qed.

Lemma fetchWebFinger_connects more url : connects (S more) anonymous (fetchWebFinger env more url).
Proof using Type*.
  revert url. induction more as [|more IH]; intros url; cbn [fetchWebFinger]; do 2 (apply connects_step; intros []).
  - apply (connects_bind _ _ _ 1 0); [apply fetch_connects|intros response].
    destruct (_ || _); [apply connects_ret|apply connects_net].
  - apply (connects_bind _ _ _ 1 (S more)); [apply fetch_connects|intros response].
    destruct (_ || _); [apply connects_ret|]. destruct (header _ _) as [[|u l]|]; [apply connects_net| |apply connects_net].
    apply connects_step. exact IH.
Qed.

(** When the callback is not called, the representation is refused whatever it would have resolved. *)
Lemma unasked rep V : asked_key rep = None -> exists e, verifySignedPayload address_binding rep V = Err e.
Proof using Type.
  unfold asked_key, verifySignedPayload. destruct (parseCose address_binding rep) as [p|e]; [|by exists e].
  cbn. destruct (signatureStructure _ _) as [structure|e]; [done|by exists e].
Qed.
(** When the binding is verified, the callback was called for the identity it binds. *)
Lemma asked_bound address rep b resolved : resolveAndVerifyBinding env address rep = Ok (b, resolved) ->
  exists kid, asked_key rep = Some kid /\ key_owner kid = ab_did b.
Proof using Type*.
  intros (o & Ho & (b' & Hb & ([] & _ & ([] & _ & (r & Hr & ([] & _ & [= <- <-])%bind_Ok)%bind_Ok)%bind_Ok)%bind_Ok)%bind_Ok)%bind_Ok.
  destruct (parseCose address_binding rep) as [p|] eqn:Hp; [|unfold verifySignedPayload in Ho; by rewrite Hp in Ho].
  pose proof (parse_Ok _ _ _ Hp) as Hok. destruct (verified_parts _ _ _ _ Ho) as (p' & Hok' & -> & _).
  exists (keyId p'). split.
  - unfold asked_key, verifySignedPayload in *. rewrite Hp in *. cbn in Ho |- *.
    destruct (signatureStructure _ _) as [structure|e]; [|done]. cbn in Ho |- *.
    apply bind_Ok in Ho as (valid & _ & ([] & _ & Ho)%bind_Ok). apply Ok_eq in Ho. by injection Ho as ->.
  - pose proof (binding_key _ _ _ Hok' Hb) as Hkid. cbn [inspectedResult inspected_keyId] in Hr.
    by apply (binding_owner_Ok env _ _ _ Hr).
Qed.

(** The plain reads of a lookup: none, and then it fails, or those of one resolution, of the identity that is
    bound when it succeeds. *)
Definition resolves_once (r : M verified_binding) (reads : list plain_read) : Prop :=
  reads = [] /\ (exists e, r = Err e) \/
  exists did, reads = rev (dv_reads env did) /\ forall v, r = Ok v -> did = va_did (vb_address v).

Lemma verify_asks input : asks 5 anonymous resolves_once (verify_address env input).
Proof using Type*.
  assert (Hnone : forall e, resolves_once (Err e) []) by (intros e; left; split; [done|by exists e]).
  unfold verify_address. apply asks_step; [done|intros address]. do 2 (apply asks_step; [done|intros ?]).
  apply (asks_bind _ _ _ 4 1); [apply fetchWebFinger_connects|done|intros response].
  do 2 (apply asks_step; [done|intros ?]). apply (asks_bind _ _ _ 1 0); [apply fetch_connects|done|intros response'].
  apply asks_step; [done|intros rep]. unfold consult. destruct (asked_key rep) as [kid|] eqn:Hk.
  - apply asks_reads, asks_nothing. intros past. unfold mbind at 1, Net_bind at 1, net.
    destruct (resolveAndVerifyBinding _ _ _) as [[b resolved]|e] eqn:Hb; eexists; (split; [done|]);
      right; exists (key_owner kid); (split; [done|]); intros v [= <-].
    apply asked_bound in Hb as (kid' & Hk' & Ho). rewrite Hk in Hk'. by injection Hk' as <-.
  - apply asks_nothing. intros past. unfold mbind, Net_bind, net, mret, Net_ret.
    assert (exists e, resolveAndVerifyBinding env address rep = Err e) as [e ->]; [|by eexists].
    unfold resolveAndVerifyBinding. destruct (unasked rep (binding_verifier env) Hk) as [e ->]. by exists e.
Qed.
End confinement.

(** ** The guarantees *)

Section guarantees.
Context `{HailEnv} `{CborgSpec} `{Keys} `{NodeUrl} `{WebUrl}.

(** C36: A verified address is its owner's: the canonical address is named by a binding that was signed with
    the key the directory has for the identity key of the bound DID, the service and the messaging key are
    the directory's for that DID, the binding is what the representation says and not from the future, and
    the digest is the one of the representation. *)
Theorem verified_address_authentic env input past v past' : verify_address env input past = (Ok v, past') ->
  address_verified env input v.
Proof using Type*. apply verify_address_Ok. Qed.

(** C37: Looking up an address is confined: whatever the answers are and whether it succeeds or fails, a
    verification makes at most five connections through the transport, each with a GET that carries no
    credentials, for a canonical HTTPS name of a target without credentials, to an address the resolver of
    names gave for that name when all the addresses it gave were public.  Beside them it makes only the
    reads of the directory that resolve one identity, and none when it is refused before; these go where
    the provider has configured them, public or not.  After a success the identity is the one that is bound;
    with the PLC resolver they are at most three, each for the document, the state or the log of a DID
    under the configured base, whatever the binding names.  Queries of the DNS are not connections here. *)
Theorem discovery_confined `{IpAddresses} `{PlcLib} env transport input past r past' :
  dv_fetch env = safe_fetch transport -> verify_address env input past = (r, past') ->
  exists made, past' = made ++ past /\
    (length (connections made) <= 5)%nat /\ Forall (anonymous transport) (connections made) /\
    (plain_reads made = [] /\ (exists e, r = Err e) \/
     exists did, plain_reads made = rev (dv_reads env did) /\ forall v, r = Ok v -> did = va_did (vb_address v)) /\
    (forall client, dv_resolver env = PlcHailDidResolver client ->
       (length (plain_reads made) <= 3)%nat /\ Forall (directory_read client) (plain_reads made)).
Proof using Type*.
  intros Hf (made & -> & Hn & Hc & Hr)%(verify_asks env transport Hf input past r past'). exists made.
  do 4 (split; [done|]). intros client Hplc. destruct Hr as [[-> _]|(did & -> & _)]; [by split; [cbn; lia|]|].
  unfold dv_reads. rewrite Hplc, length_rev. destruct (resolver_reads client did) as [Hl Hd].
  split; [done|by apply Forall_rev].
Qed.
End guarantees.
