(* ===== verification/MediaType.v ===== *)
(** * Media types (apps/server/src/http/media-type.ts)

    Reading a media type with its parameters, and what a client accepts. *)

From S2P Require Import Prelude JsString Regex Value Validation Identity StrictJson.
From Stdlib Require Import ZArith.
Open Scope Z_scope.

Record ParsedMediaType := { mt_type : jstr; mt_subtype : jstr; mt_parameters : list (jstr * jstr) }.

Definition PARAMETER_NAME : regex :=
  plus (RClass [range "a" "z"; range "0" "9"; one "!"; one "#"; one "$"; one "&"; one "^"; one "_"; one "."; one "+"; one "-"]).
(** A quoted text without quotes and backslashes in it. *)
Definition QUOTED : regex :=
  seqs [RClass [(quote, quote)]; RStar (RNot [(quote, quote); (backslash, backslash)]); RClass [(quote, quote)]].

Definition parameter_value (parameters : list (jstr * jstr)) (name : jstr) : option jstr :=
  snd <$> List.find (fun e => jstr_eqb e.1 name) parameters.

Section media_types.
Context `{HailEnv}.

(** The loop over the parts behind the essence. *)
Fixpoint parse_parameters (parts : list jstr) (parameters : list (jstr * jstr)) : option (list (jstr * jstr)) :=
  match parts with
  | [] => Some parameters
  | raw :: parts =>
      match first_index (char "=") raw with
      | None | Some O => None
      | Some equals =>
          let name := toLowerCase (trim (take equals raw)) in
          let parameter := trim (drop (S equals) raw) in
          if negb (rx_test PARAMETER_NAME name) || includes parameters.*1 name then None
          else
            value ← (if bool_decide (head parameter = Some quote) || bool_decide (last parameter = Some quote)
                     then if rx_test QUOTED parameter then Some (take (length parameter - 2) (drop 1 parameter)) else None
                     else Some parameter);
            match value with
            | [] => None
            | _ => parse_parameters parts (parameters ++ [(name, toLowerCase value)])
            end
      end
  end.

Definition parse_media_type (value : jstr) : option ParsedMediaType :=
  match split_on (char ";") value with
  | first :: parts =>
      let essence := toLowerCase (trim first) in
      match first_index (char "/") essence with
      | None | Some O => None
      | Some separator =>
          if (separator =? length essence - 1)%nat then None
          else
            parameters ← parse_parameters parts [];
            Some {| mt_type := take separator essence; mt_subtype := drop (S separator) essence;
                    mt_parameters := parameters |}
      end
  | [] => None
  end.

Definition isCoseSign1MediaType (value : option jstr) : bool :=
  match value ≫= parse_media_type with
  | Some parsed =>
      jstr_eqb (mt_type parsed) (js "application") && jstr_eqb (mt_subtype parsed) (js "cose")
      && (length (mt_parameters parsed) =? 1)%nat
      && bool_decide (parameter_value (mt_parameters parsed) (js "cose-type") = Some (js "cose-sign1"))
  | None => false
  end.

(** A quality in thousandths: the expression admits at most three decimals. *)
Definition QUALITY : regex :=
  RAlt (RSeq (lit "0") (opt (RSeq (lit ".") (rep_upto (RClass [range "0" "9"]) 3))))
       (RSeq (lit "1") (opt (RSeq (lit ".") (rep_upto (lit "0") 3)))).
Definition quality (value : option jstr) : option Z :=
  match value with
  | None => Some 1000
  | Some value =>
      if rx_test QUALITY value then
        Some (1000 * digits_value (take 1 value) + digits_value (take 3 (drop 2 value ++ js "000")))
      else None
  end.

(** What one item offers: how specific it is and its quality; [None] when it does not match. *)
Definition offered_by (item : jstr) : option (Z * Z) :=
  parsed ← parse_media_type item;
  q ← quality (parameter_value (mt_parameters parsed) (js "q"));
  let parameters := filter (fun e => negb (jstr_eqb e.1 (js "q"))) (mt_parameters parsed) in
  let any_type := jstr_eqb (mt_type parsed) (js "*") in
  let any_subtype := jstr_eqb (mt_subtype parsed) (js "*") in
  if negb (any_type || jstr_eqb (mt_type parsed) (js "application"))
     || negb (any_subtype || jstr_eqb (mt_subtype parsed) (js "cose")) then None
  else
    let coseType := parameter_value parameters (js "cose-type") in
    let size := match coseType with None => 0 | Some _ => 1 end in
    if (size <? Z.of_nat (length parameters))
       || match coseType with Some value => negb (jstr_eqb value (js "cose-sign1")) | None => false end then None
    else Some ((if any_type then 0 else if any_subtype then 1 else 2) + size, q).

(** The loop: the best quality of the most specific items. *)
Definition better (best : Z * Z) (offer : Z * Z) : Z * Z :=
  if best.1 <? offer.1 then offer
  else if offer.1 =? best.1 then (best.1, Z.max best.2 offer.2) else best.
Definition acceptsCoseSign1 (value : option jstr) : bool :=
  match value with
  | None => true
  | Some value =>
      let best := fold_left better (omap offered_by (split_on (char ",") value)) (-1, 0) in
      (0 <=? best.1) && (0 <? best.2)
  end.
End media_types.
