(* ===== verification/SenderProfiles.v ===== *)
(** * Verifying sender profiles (apps/server/src/profiles/verifier.ts, profiles/routes.ts)

    A profile is fetched from the provider the directory names for its sender, verified with the sender's
    messaging key and kept; what was kept before, here or by the caller, guards against an older or a
    different profile.  The table of kept profiles is part of the repository of onboarding
    (onboarding/repository.ts).  The retained evidence of the directory is not a column of the model. *)

From S2P Require Import Prelude JsString Regex Value Cbor Profiles Validation ValidatePayload Models Base64Url Diagnostic.
From S2P Require Import Cose WebCrypto Database Typed Conversations Envelopes Receiver Http ServerBodies Retriever.
From S2P Require Import Identity Grants StrictJson SafeFetch MediaType Discovery.
From Stdlib Require Import ZArith.
Open Scope Z_scope.

(** [VerifiedSenderProfile], with the object its payload is read from. *)
Record verified_profile := {
  vf_profile : VerifiedSenderProfile; vf_object : hvalue; vf_etag : jstr; vf_verifiedAt : Z;
}.
Definition profile_of (v : verified_profile) : HailSenderProfileBase := profile_base (vp_profile (vf_profile v)).
Definition vf_representation (v : verified_profile) : bytes := vp_representation (vf_profile v).

(** ** The profiles that are kept *)

Section store.
Context `{HailEnv} `{Triggers}.

Definition verifiedSenderProfileFromRow (did : jstr) (revision : Z) (row : ProfileRow) : M verified_profile :=
  object ← fromDiagnosticJson (Signed sender_profile) (of_hail (pr_payload row));
  p ← typed (Signed sender_profile) object;
  _ ← fail_if (negb (isSafeInteger (pr_updated_at row))) "Sender Profile timestamp is unsafe";
  let base := profile_base p in
  _ ← fail_if (negb (jstr_eqb (sp_did base) did) || negb (sp_revision base =? revision)
               || negb (sp_updated_at base =? pr_updated_at row)
               || negb (Cbor.equalBytes (sha256 (pr_cose row)) (pr_digest row)))
        "Retained Sender Profile metadata does not match its representation";
  Ok {| vf_profile := {| vp_did := did; vp_serviceBase := pr_service_base row;
                         vp_messagingDidKey := pr_messaging_key row; vp_profile := p;
                         vp_representation := pr_cose row; vp_digest := pr_digest row |};
        vf_object := object; vf_etag := encodeBase64Url (pr_digest row); vf_verifiedAt := pr_verified_at row |}.

(** [WHERE did = ... ORDER BY revision DESC LIMIT 1]. *)
Definition newer (did : jstr) (e : (jstr * Z) * ProfileRow) (best : option (Z * ProfileRow)) : option (Z * ProfileRow) :=
  if jstr_eqb e.1.1 did then
    match best with
    | Some (revision, _) => if revision <? e.1.2 then Some (e.1.2, e.2) else best
    | None => Some (e.1.2, e.2)
    end
  else best.
Definition latest_profile (did : jstr) (m : gmap (jstr * Z) ProfileRow) : option (Z * ProfileRow) :=
  foldr (newer did) None (map_to_list m).
Definition latest_row (did : jstr) (db : Database) : option (Z * ProfileRow) :=
  latest_profile did (db verified_sender_profiles).

Definition getLatestVerifiedSenderProfile (did : jstr) (db : Database) : M (option verified_profile) :=
  match latest_row did db with
  | Some (revision, row) => Some <$> verifiedSenderProfileFromRow did revision row
  | None => Ok None
  end.

(** The row of a profile that is verified. *)
Definition new_row (v : verified_profile) : M ProfileRow :=
  let p := vf_profile v in
  payload ← toDiagnosticJson (Signed sender_profile) (of_hail (vf_object v)) true;
  Ok {| pr_updated_at := sp_updated_at (profile_of v); pr_payload := payload; pr_cose := vp_representation p;
        pr_digest := vp_digest p; pr_service_base := vp_serviceBase p; pr_messaging_key := vp_messagingDidKey p;
        pr_verified_at := vf_verifiedAt v |}.
Definition verified_again (v : verified_profile) (row : ProfileRow) : ProfileRow := {|
  pr_updated_at := pr_updated_at row; pr_payload := pr_payload row; pr_cose := pr_cose row; pr_digest := pr_digest row;
  pr_service_base := vp_serviceBase (vf_profile v); pr_messaging_key := vp_messagingDidKey (vf_profile v);
  pr_verified_at := vf_verifiedAt v |}.

Definition retainVerifiedSenderProfile (v : verified_profile) : Tx unit :=
  let did := vp_did (vf_profile v) in
  let revision := sp_revision (profile_of v) in
  let insert : Tx unit :=
    row ← throwing (new_row v);
    taken ← query (fun db => bool_decide (is_Some (db verified_sender_profiles !! (did, revision))));
    _ ← throwing (throw_if (taken : bool) unique_violation);
    write verified_sender_profiles (<[(did, revision) := row]>) in
  retained ← (fun db => throwing (getLatestVerifiedSenderProfile did db) db) : Tx (option verified_profile);
  match retained with
  | Some retained =>
      if revision <? sp_revision (profile_of retained)
      then throw_error "Sender Profile revision rollback detected"
      else if revision =? sp_revision (profile_of retained) then
        if negb (Cbor.equalBytes (vf_representation v) (vf_representation retained))
        then throw_error "Sender Profile revision conflicts with retained evidence"
        else write verified_sender_profiles (update_row (did, revision) (verified_again v))
      else if sp_updated_at (profile_of v) <=? sp_updated_at (profile_of retained)
      then throw_error "Sender Profile updated_at did not advance"
      else insert
  | None => insert
  end.
End store.

(** ** Verification *)

Definition STRONG_ETAG : regex := seqs [RClass [(quote, quote)]; rep (RClass (alphanumerics ++ [one "_"; one "-"])) 43; RClass [(quote, quote)]].
Definition MAX_PROFILE_BYTES : Z := 65536.

(** The collaborators: the resolver at each of the three places where it is asked, the check of targets and
    fetching, whether a response was redirected, the clock in milliseconds, whether profiles are kept, and
    the other processes. *)
Record profile_env := {
  pf_resolve : nat -> jstr -> M ResolvedHailDid;
  pf_validateTarget : web_url -> M unit;
  pf_fetch : nat -> web_request -> M Response;
  pf_redirected : Response -> bool;
  pf_now : nat -> Z;
  pf_store : bool;
  pf_others : nat -> Database -> Database;
}.

Section verifier.
Context `{HailEnv} `{Cborg} `{Keys} `{Triggers} `{WebUrl}.
Context (env : profile_env).

Definition profile_bytes (r : Response) : M bytes :=
  _ ← fail_if (match content_length r with
               | Some text => negb (rx_test DIGITS text) || (MAX_PROFILE_BYTES <? decimal text)
               | None => false
               end) "Sender Profile exceeds its size limit";
  match rs_body r with
  | None => Ok []
  | Some reads =>
      match read_body MAX_PROFILE_BYTES 0 [] reads with
      | Ok chunks => Ok (concat chunks)
      | Err OversizedTransfer => fetch_error "Sender Profile exceeds its size limit"
      | Err TransferInterrupted => fetch_error "the read of the body failed"     (* the platform's own words *)
      end
  end.

Definition parseEtag (value : option jstr) : M jstr :=
  let refusal {A} : M A := fetch_error "Sender Profile response has an invalid ETag" in
  match value with
  | Some value =>
      if rx_test STRONG_ETAG value then
        let tag := take 43 (drop 1 value) in
        match decodeBase64Url tag None with
        | Ok bs => if (length bs =? 32)%nat then Ok tag else refusal
        | Err _ => refusal
        end
      else refusal
  | None => refusal
  end.

Definition quoted_etag (tag : jstr) : jstr := quote :: tag ++ [quote].

Definition profile_request (url : web_url) (retained : option verified_profile) : web_request := {|
  wr_method := js "GET"; wr_url := url;
  wr_headers := [(js "accept", COSE_SIGN1_MEDIA_TYPE); (js "accept-encoding", js "identity")]
                ++ match retained with Some r => [(js "if-none-match", quoted_etag (vf_etag r))] | None => [] end;
  wr_body := [] |}.

Definition fetch_profile (attempt : nat) (resolved : ResolvedHailDid) (did : jstr) (retained : option verified_profile)
    : M Response :=
  url ← parse_web_url (serviceBase resolved ++ js "/profiles/" ++ did) None;
  _ ← pf_validateTarget env url;
  pf_fetch env attempt (profile_request url retained).

(** The sender may have moved to another provider. *)
Definition moved (status : Z) : bool :=
  (300 <=? status) && (status <? 400) && negb (status =? 304)
  || (status =? 404) || (status =? 410) || (status =? 421).
Definition returned_status {A} (status : Z) : M A :=
  Err (OtherError (js "Sender Profile retrieval returned " ++ show_Z status)).

Definition profile_response (did : jstr) (retained : option verified_profile) : M (ResolvedHailDid * Response) :=
  resolved ← pf_resolve env 0 did;
  '(resolved, response) ←
    match fetch_profile 0 resolved did retained with
    | Ok response => Ok (resolved, response)
    | Err error =>
        refreshed ← pf_resolve env 1 did;
        if jstr_eqb (serviceBase refreshed) (serviceBase resolved) then Err error
        else response ← fetch_profile 1 refreshed did retained; Ok (refreshed, response)
    end;
  if moved (rs_status response) then
    refreshed ← pf_resolve env 2 did;
    if jstr_eqb (serviceBase refreshed) (serviceBase resolved) then returned_status (rs_status response)
    else response ← fetch_profile 2 refreshed did retained; Ok (refreshed, response)
  else Ok (resolved, response).

Definition profile_verifier (did : jstr) (publicKey : CryptoKey) : HailVerifier :=
  createWebCryptoVerifier (fun keyId =>
    if negb (jstr_eqb keyId (did ++ js "#hail-messaging")) then fetch_error "Unexpected Sender Profile key ID"
    else Ok publicKey) subtle.

(** A retained profile is not older and not different at its revision. *)
Definition check_retained (p : HailSenderProfileBase) (representation : bytes) (retained : option verified_profile) : M unit :=
  match retained with
  | None => Ok tt
  | Some r =>
      let q := profile_of r in
      _ ← fail_if (sp_revision p <? sp_revision q) "Sender Profile revision rollback detected";
      _ ← fail_if ((sp_revision p =? sp_revision q) && negb (Cbor.equalBytes representation (vf_representation r)))
            "Sender Profile revision conflicts with retained evidence";
      fail_if ((sp_revision q <? sp_revision p) && (sp_updated_at p <=? sp_updated_at q))
        "Sender Profile updated_at did not advance"
  end.

Definition verifyRepresentation (resolved : ResolvedHailDid) (did : jstr) (representation : bytes)
    (retained : option verified_profile) : M verified_profile :=
  publicKey ← ed25519PublicKeyFromDidKey (messagingDidKey resolved);
  verified ← verifySignedPayload sender_profile representation (profile_verifier did publicKey);
  p ← typed (Signed sender_profile) (payload verified);
  let base := profile_base p in
  _ ← fail_if (negb (jstr_eqb (sp_did base) did)) "Sender Profile names another DID";
  _ ← fail_if (pf_now env 0 / 1000 + 300 <? sp_updated_at base) "Sender Profile timestamp is too far in the future";
  _ ← check_retained base representation retained;
  let digest := sha256 representation in
  Ok {| vf_profile := {| vp_did := did; vp_serviceBase := serviceBase resolved;
                         vp_messagingDidKey := messagingDidKey resolved; vp_profile := p;
                         vp_representation := representation; vp_digest := digest |};
        vf_object := payload verified; vf_etag := encodeBase64Url digest; vf_verifiedAt := pf_now env 1 |}.

(** What a response of 304 confirms, or one of 200 brings. *)
Definition profile_result (did : jstr) (retained : option verified_profile) (resolved : ResolvedHailDid)
    (response : Response) : M verified_profile :=
  if rs_status response =? 304 then
    match retained with
    | Some r =>
        if negb (jstr_eqb (vp_did (vf_profile r)) did)
        then fetch_error "Sender Profile returned 304 without retained evidence"
        else
          responseEtag ← parseEtag (header "etag" response);
          _ ← fail_if (negb (jstr_eqb responseEtag (vf_etag r))) "Sender Profile 304 ETag does not match retained evidence";
          result ← verifyRepresentation resolved did (vf_representation r) retained;
          _ ← fail_if (negb (jstr_eqb (vf_etag result) responseEtag))
                "Sender Profile 304 ETag does not match retained representation";
          Ok result
    | None => fetch_error "Sender Profile returned 304 without retained evidence"
    end
  else
    _ ← (if rs_status response =? 200 then Ok tt else returned_status (rs_status response));
    _ ← fail_if (pf_redirected env response) "Sender Profile retrieval must not redirect";
    _ ← fail_if (negb (MediaType.isCoseSign1MediaType (header "content-type" response)))
          "Sender Profile response has the wrong content type";
    _ ← fail_if (bool_decide (is_Some (header "content-encoding" response)))
          "Sender Profile response must not use content encoding";
    representation ← profile_bytes response;
    result ← verifyRepresentation resolved did representation retained;
    tag ← parseEtag (header "etag" response);
    _ ← fail_if (negb (jstr_eqb tag (vf_etag result))) "Sender Profile ETag does not match its representation";
    Ok result.

(** [SenderProfileVerifier.verify]. *)
Definition verify_profile (did : jstr) (suppliedRetained : option verified_profile) : Act verified_profile :=
  _ ← act (fun _ => fail_if (negb (rx_test DID_PATTERN did)) "Sender Profile DID is not canonical");
  _ ← act (fun _ => fail_if (match suppliedRetained with
                             | Some r => negb (jstr_eqb (vp_did (vf_profile r)) did)
                             | None => false
                             end) "Retained Sender Profile belongs to another DID");
  retained ← match suppliedRetained with
             | Some r => mret (Some r)
             | None => if pf_store env then act (getLatestVerifiedSenderProfile did) else mret None
             end : Act (option verified_profile);
  result ← act (fun _ => '(resolved, response) ← profile_response did retained;
                         profile_result did retained resolved response);
  _ ← meanwhile (pf_others env 0);
  _ ← (if pf_store env then begin (retainVerifiedSenderProfile result) else mret tt) : Act unit;
  mret result.
End verifier.

(** ** Serving profiles *)

Inductive profile_answer :=
| ProfileProblem (status : Z)
| ProfileUnchanged (etag : jstr)
| ProfileServed (etag : jstr) (cose : bytes).

(** A tag to compare with, [None] for a header that is no tag. *)
Definition parseIfNoneMatch (value : jstr) : option jstr :=
  match parseEtag (Some value) with Ok tag => Some tag | Err _ => None end.

Section route.
Context `{HailEnv}.

(** The handler behind the path: the method, whether there is a query, the two headers, and what
    [findCurrentByDid] gives: the representation and its digest. *)
Definition get_profile (GET query : bool) (accept ifNoneMatch : option jstr) (found : option (bytes * bytes))
    : profile_answer :=
  if query then ProfileProblem 404
  else if negb GET then ProfileProblem 405
  else if negb (acceptsCoseSign1 accept) then ProfileProblem 406
  else match ifNoneMatch, ifNoneMatch ≫= parseIfNoneMatch with
  | Some _, None => ProfileProblem 400
  | _, requestedEtag =>
      match found with
      | None => ProfileProblem 404
      | Some (cose, digest) =>
          let etagValue := encodeBase64Url digest in
          if bool_decide (requestedEtag = Some etagValue) then ProfileUnchanged etagValue
          else ProfileServed etagValue cose
      end
  end.
End route.
