(* ===== verification/ProfileRules.v ===== *)
(** * What the verification of sender profiles guarantees

    A verified profile was signed with the messaging key of its sender; the provider never goes back to an
    older profile and never keeps two at one revision.  With the service of grants it follows that what a
    new grant names, its grantee has signed. *)

From S2P Require Import Prelude JsString Regex Value Rfc8949 Cbor Profiles Validation ValidatePayload.
From S2P Require Import Models Base64Url Diagnostic Cose CoseRules WebCrypto Identity Typed Database.
From S2P Require Import Conversations Envelopes Grants Receiver DeliveryRules GrantRules StatusRules Http.
From S2P Require Import GrantExchange ServiceRules GrantService GrantServiceRules StrictJson SafeFetch.
From S2P Require Import Discovery DiscoveryRules MediaType SenderProfiles.
From Stdlib Require Import ZArith.
Open Scope Z_scope.

(** ** The latest row *)

Lemma latest_spec (did : jstr) (m : gmap (jstr * Z) ProfileRow) :
  match latest_profile did m with
  | Some (n, row) => m !! (did, n) = Some row /\ forall k r, m !! (did, k) = Some r -> k <= n
  | None => forall k, m !! (did, k) = None
  end.
Proof.
  unfold latest_profile.
  assert (Hl : forall l, match foldr (newer did) None l with
    | Some (n, row) => ((did, n), row) ∈ l /\ forall k r, ((did, k), r) ∈ l -> k <= n
    | None => forall k r, ((did, k), r) ∉ l
    end).
  { induction l as [|[[d k] r] l IH]; cbn [foldr]; [set_solver|]. unfold newer at 1. cbn [fst snd].
    destruct (jstr_eqb d did) eqn:Hd.
    - apply jstr_eqb_eq in Hd as ->. destruct (foldr _ _ l) as [[n row]|].
      + destruct IH as [Hin Hmax]. destruct (Z.ltb_spec n k).
        * split; [by left|]. intros k' r' [[= -> ->]|Hin']%elem_of_cons; [lia|]. apply Hmax in Hin'. lia.
        * split; [by right|]. intros k' r' [[= -> ->]|Hin']%elem_of_cons; [lia|]. by apply Hmax in Hin'.
      + split; [by left|]. intros k' r' [[= -> ->]|Hin']%elem_of_cons; [lia|]. by apply IH in Hin'.
    - assert (Hne : d <> did) by (intros ->; by rewrite jstr_eqb_refl in Hd).
      destruct (foldr _ _ l) as [[n row]|].
      + destruct IH as [Hin Hmax]. split; [by right|]. intros k' r' [[= -> ->]|Hin']%elem_of_cons; [done|]. by apply Hmax in Hin'.
      + intros k' r' [[= -> ->]|Hin']%elem_of_cons; [done|]. by apply IH in Hin'. }
  specialize (Hl (map_to_list m)). destruct (foldr _ _ _) as [[n row]|].
  - destruct Hl as [Hin Hmax]. split; [by apply elem_of_map_to_list|]. intros k r Hr. apply (Hmax k r). by apply elem_of_map_to_list.
  - intros k. destruct (m !! (did, k)) as [r|] eqn:Hr; [|done]. exfalso. apply (Hl k r). by apply elem_of_map_to_list.
Qed.

(** ** What is kept *)

Section kept.
Context `{HailEnv} `{Cborg} `{Triggers}.

(** The representation is of a profile of this DID, revision and instant. *)
Definition represents (did : jstr) (revision updated_at : Z) (representation : bytes) : Prop :=
  exists object, inspectTyped sender_profile representation = Ok object /\
    let p := profile_base (payload object) in
    sp_did p = did /\ sp_revision p = revision /\ sp_updated_at p = updated_at.
Definition represented (v : verified_profile) : Prop :=
  represents (vp_did (vf_profile v)) (sp_revision (profile_of v)) (sp_updated_at (profile_of v)) (vf_representation v).

(** Rows are what was verified, and later revisions are of later instants. *)
Record profiles_ok (db : Database) : Prop := {
  po_read did n r : db verified_sender_profiles !! (did, n) = Some r -> represents did n (pr_updated_at r) (pr_cose r);
  po_order did n m r r' : db verified_sender_profiles !! (did, n) = Some r ->
    db verified_sender_profiles !! (did, m) = Some r' -> n < m -> pr_updated_at r < pr_updated_at r';
}.

(** A kept profile stays, at most verified again; what is new is later than what was kept. *)
Record profiles_later (db db' : Database) : Prop := {
  pl_rows did n r : db verified_sender_profiles !! (did, n) = Some r -> exists r',
    db' verified_sender_profiles !! (did, n) = Some r' /\ pr_cose r' = pr_cose r /\ pr_digest r' = pr_digest r /\
    pr_payload r' = pr_payload r /\ pr_updated_at r' = pr_updated_at r;
  pl_new did n m r r' : db' verified_sender_profiles !! (did, n) = Some r' ->
    db verified_sender_profiles !! (did, n) = None -> db verified_sender_profiles !! (did, m) = Some r -> m < n;
}.

Lemma profiles_later_refl db : profiles_later db db.
Proof. split; [|congruence]. intros did n r Hr. by exists r. Qed.
Lemma profiles_later_trans db1 db2 db3 : profiles_later db1 db2 -> profiles_later db2 db3 -> profiles_later db1 db3.
Proof.
  intros [R1 N1] [R2 N2]. split.
  - intros did n r (r2 & Hr2 & H1' & H2' & H3' & H4')%R1. apply R2 in Hr2 as (r3 & Hr3 & H5' & H6' & H7' & H8').
    exists r3. by rewrite H5', H6', H7', H8'.
  - intros did n m r r3 H3' H1' Hm. destruct (db2 verified_sender_profiles !! (did, n)) as [r2|] eqn:H2'.
    + by eapply N1.
    + apply R1 in Hm as (r2 & Hr2 & _). by eapply N2.
Qed.

Lemma from_row did n row v : verifiedSenderProfileFromRow did n row = Ok v ->
  vp_did (vf_profile v) = did /\ sp_did (profile_of v) = did /\ sp_revision (profile_of v) = n /\
  sp_updated_at (profile_of v) = pr_updated_at row /\ vf_representation v = pr_cose row /\
  vp_digest (vf_profile v) = pr_digest row /\ pr_digest row = sha256 (pr_cose row).
Proof.
  intros (object & _ & (p & _ & ([] & _ & ([] & Hb%fail_if_Ok & [= <-])%bind_Ok)%bind_Ok)%bind_Ok)%bind_Ok.
  rewrite !orb_false_iff in Hb. destruct Hb as [[[H1'%negb_false_iff%jstr_eqb_eq H2'%negb_false_iff%Z.eqb_eq]
    H3'%negb_false_iff%Z.eqb_eq] H4'%negb_false_iff%Cbor.equalBytes_eq]. done.
Qed.

Lemma latest_Ok did (db : Database) v : getLatestVerifiedSenderProfile did db = Ok v ->
  match v with
  | Some v => exists row, db verified_sender_profiles !! (did, sp_revision (profile_of v)) = Some row /\
      verifiedSenderProfileFromRow did (sp_revision (profile_of v)) row = Ok v /\
      forall k r, db verified_sender_profiles !! (did, k) = Some r -> k <= sp_revision (profile_of v)
  | None => forall k, db verified_sender_profiles !! (did, k) = None
  end.
Proof.
  unfold getLatestVerifiedSenderProfile, latest_row. pose proof (latest_spec did (db verified_sender_profiles)) as Hl.
  destruct (latest_profile did _) as [[n row]|]; [|by intros [= <-]].
  intros (v' & Hv & ->)%fmap_Ok. destruct Hl as [Hrow Hmax].
  pose proof (from_row _ _ _ _ Hv) as (_ & _ & -> & _). by exists row.
Qed.

(** What keeping a profile does. *)
Lemma retain_Ok v (db : Database) u db' : retainVerifiedSenderProfile v db = Ok (u, db') ->
  let did := vp_did (vf_profile v) in let n := sp_revision (profile_of v) in
  (exists row, db verified_sender_profiles !! (did, n) = Some row /\ pr_cose row = vf_representation v /\
     (forall k r, db verified_sender_profiles !! (did, k) = Some r -> k <= n) /\
     db' = set verified_sender_profiles (update_row (did, n) (verified_again v) (db verified_sender_profiles)) db) \/
  (exists row, new_row v = Ok row /\ db verified_sender_profiles !! (did, n) = None /\
     (forall k r, db verified_sender_profiles !! (did, k) = Some r ->
        k < n /\ exists m r', db verified_sender_profiles !! (did, m) = Some r' /\ k <= m /\
          pr_updated_at r' < sp_updated_at (profile_of v)) /\
     db' = set verified_sender_profiles (<[(did, n) := row]> (db verified_sender_profiles)) db).
Proof.
  unfold retainVerifiedSenderProfile. cbn zeta. intros Hx.
  apply bind_Tx in Hx as (retained & db1 & Hl & Hx). apply throwing_read in Hl as [Hl%latest_Ok ->].
  assert (Hinsert : forall (ins : Tx unit), ins = (
      row ← throwing (new_row v);
      taken ← query (fun db => bool_decide (is_Some (db verified_sender_profiles !! (vp_did (vf_profile v), sp_revision (profile_of v)))));
      _ ← throwing (throw_if (taken : bool) unique_violation);
      write verified_sender_profiles (<[(vp_did (vf_profile v), sp_revision (profile_of v)) := row]>)) ->
    ins db = Ok (u, db') -> exists row, new_row v = Ok row /\
      db verified_sender_profiles !! (vp_did (vf_profile v), sp_revision (profile_of v)) = None /\
      db' = set verified_sender_profiles (<[(vp_did (vf_profile v), sp_revision (profile_of v)) := row]> (db verified_sender_profiles)) db).
  { intros ins -> Hi. apply bind_Tx in Hi as (row & db1 & Hn & Hi). apply throwing_Tx in Hn as [Hn ->].
    apply bind_Tx in Hi as (taken & db1 & Hq & Hi). apply query_Tx in Hq as [-> ->].
    apply bind_Tx in Hi as ([] & db1 & Ht & Hi). apply throwing_Tx in Ht as [Ht%throw_if_Ok ->]. apply write_Tx in Hi.
    exists row. split; [done|]. split; [|done]. apply bool_decide_eq_false in Ht. by apply eq_None_not_Some. }
  destruct retained as [r|].
  - destruct Hl as (row & Hrow & Hr & Hmax). pose proof (from_row _ _ _ _ Hr) as (_ & _ & _ & Hu & Hrep & _).
    destruct (Z.ltb_spec (sp_revision (profile_of v)) (sp_revision (profile_of r))) as [|Hle]; [discriminate Hx|].
    destruct (Z.eqb_spec (sp_revision (profile_of v)) (sp_revision (profile_of r))) as [He|Hne].
    + destruct (negb _) eqn:Hb in Hx; [discriminate Hx|]. apply negb_false_iff, Cbor.equalBytes_eq in Hb.
      apply write_Tx in Hx. left. exists row. rewrite He. split; [done|]. split; [congruence|]. split; [done|]. by rewrite <- He.
    + destruct (Z.leb_spec (sp_updated_at (profile_of v)) (sp_updated_at (profile_of r))) as [|Hlt]; [discriminate Hx|].
      right. apply (Hinsert _ eq_refl) in Hx as (row' & Hn & Hno & ->). exists row'. do 2 (split; [done|]). split; [|done].
      intros k r' Hk. apply Hmax in Hk as Hkm. split; [lia|]. exists (sp_revision (profile_of r)), row. split; [done|]. split; [lia|].
      by rewrite <- Hu.
  - right. apply (Hinsert _ eq_refl) in Hx as (row' & Hn & Hno & ->). exists row'. do 2 (split; [done|]). split; [|done].
    intros k r' Hk. by rewrite Hl in Hk.
Qed.

Lemma retain_step v (db : Database) u db' : represented v -> profiles_ok db ->
  retainVerifiedSenderProfile v db = Ok (u, db') -> profiles_ok db' /\ profiles_later db db'.
Proof.
  intros Hv [Hread Ho] [(row & Hrow & Hc & Hmax & ->)|(row & Hn & Hno & Hlt & ->)]%retain_Ok; cbn zeta in *.
  - set (k0 := (vp_did (vf_profile v), sp_revision (profile_of v))) in *.
    assert (Hrows : forall k r', set verified_sender_profiles (update_row k0 (verified_again v) (db verified_sender_profiles)) db
      verified_sender_profiles !! k = Some r' -> exists r, db verified_sender_profiles !! k = Some r /\
        pr_updated_at r' = pr_updated_at r /\ pr_cose r' = pr_cose r).
    { intros k r'. rewrite set_eq. tables. intros Hr. apply update_cases in Hr as [(-> & r & Hr & ->)|[_ Hr]]; by exists r + exists r'. }
    split.
    + split.
      * intros did n r (x & Hx & -> & ->)%Hrows. by apply Hread.
      * intros did n m r r' (x & Hx & -> & _)%Hrows (y & Hy & -> & _)%Hrows Hnm. by eapply Ho.
    + split.
      * intros did n r Hr. rewrite set_eq. tables. destruct (decide ((did, n) = k0)) as [He|Hne].
        -- exists (verified_again v r). rewrite He in *. rewrite update_same, Hr. done.
        -- exists r. by rewrite update_other.
      * intros did n m r r' (x & Hx & _)%Hrows Hnone _. pose proof (eq_trans (eq_sym Hx) Hnone) as [=].
  - set (k0 := (vp_did (vf_profile v), sp_revision (profile_of v))) in *.

    assert (Hrows : forall k r', set verified_sender_profiles (<[k0 := row]> (db verified_sender_profiles)) db
      verified_sender_profiles !! k = Some r' -> (k = k0 /\ r' = row) \/ (k <> k0 /\ db verified_sender_profiles !! k = Some r')).
    { intros k r'. rewrite set_eq. tables. apply insert_cases. }
    assert (Hupd : pr_updated_at row = sp_updated_at (profile_of v) /\ pr_cose row = vf_representation v).
    { apply bind_Ok in Hn as (payload & _ & Hn). by apply Ok_eq in Hn as <-. }
    destruct Hupd as [Hupd Hcose]. split.
    + split; [intros did n r [[En ->]|[_ Hr]]%Hrows; [|by apply Hread]; unfold k0 in En; injection En as -> ->;
               rewrite Hupd, Hcose; exact Hv|].
      intros did n m r r' [[En ->]|[Nn Hr]]%Hrows [[Em ->]|[Nm Hr']]%Hrows Hnm.
      * unfold k0 in *. injection En as _ ->. injection Em as _ ->. lia.
      * unfold k0 in *. injection En as -> ->. apply Hlt in Hr' as [Hk _]. lia.
      * unfold k0 in *. injection Em as -> ->. apply Hlt in Hr as Hk. destruct Hk as (_ & k & x & Hx & Hkx & Hux).
        rewrite Hupd. destruct (Z.eq_dec n k) as [->|Hne].
        -- pose proof (eq_trans (eq_sym Hr) Hx) as [= ->]. done.
        -- pose proof (Ho _ _ _ _ _ Hr Hx ltac:(lia)). lia.
      * by eapply Ho.
    + split.
      * intros did n r Hr. exists r. split; [|done]. rewrite set_eq. tables. rewrite insert_other; [done|].
        intros He. unfold k0 in He. injection He as -> ->. pose proof (eq_trans (eq_sym Hr) Hno) as [=].
      * intros did n m r r' [[En ->]|[Nn Hr']]%Hrows Hnone Hm;
          [|pose proof (eq_trans (eq_sym Hr') Hnone) as [=]].
        unfold k0 in *. injection En as -> ->. by apply Hlt in Hm as [Hk _].
Qed.
End kept.

(** ** Histories *)

Section history.
Context `{HailEnv} `{Cborg} `{Triggers}.

(** The table changes only when a profile is kept; everything else leaves it alone. *)
Inductive profile_step : Database -> Database -> Prop :=
| step_retain v (db db' : Database) : represented v -> retainVerifiedSenderProfile v db = Ok (tt, db') -> profile_step db db'
| step_elsewhere (db db' : Database) : db' verified_sender_profiles = db verified_sender_profiles -> profile_step db db'.

Lemma profile_steps (db db' : Database) : rtc profile_step db db' -> profiles_ok db -> profiles_ok db' /\ profiles_later db db'.
Proof.
  induction 1 as [|db1 db2 db3 Hs _ IH]; intros Hok; [split; [done|apply profiles_later_refl]|].
  assert (Hone : profiles_ok db2 /\ profiles_later db1 db2).
  { destruct Hs as [v db db' Hv Hr|db db' He]; [by eapply retain_step|]. destruct Hok as [Hread Ho]. split.
    - split; rewrite He; [exact Hread|exact Ho].
    - split; rewrite He; [intros did n r Hr; by exists r|congruence]. }
  destruct Hone as [Hok2 Hl]. destruct (IH Hok2) as [Hok3 Hl']. split; [done|]. by eapply profiles_later_trans.
Qed.
End history.

(** ** What is verified *)

Section verified.
Context `{HailEnv} `{CborgSpec} `{Keys} `{Triggers} `{WebUrl}.
Context (env : profile_env).
#[local] Set Default Proof Using "Type*".

Record profile_verified (did : jstr) (v : verified_profile) : Prop := {
  fv_did : vp_did (vf_profile v) = did /\ sp_did (profile_of v) = did;
  fv_resolved : exists n resolved, pf_resolve env n did = Ok resolved /\
    vp_serviceBase (vf_profile v) = serviceBase resolved /\
    vp_messagingDidKey (vf_profile v) = messagingDidKey resolved;
  fv_signed : signed_with sender_profile (did ++ js "#hail-messaging") (vp_messagingDidKey (vf_profile v))
    (vf_representation v);
  fv_read : exists object, inspectTyped sender_profile (vf_representation v) = Ok object /\
    payload object = vp_profile (vf_profile v);
  fv_time : sp_updated_at (profile_of v) <= pf_now env 0 / 1000 + 300;
  fv_digest : vp_digest (vf_profile v) = sha256 (vf_representation v) /\
    vf_etag v = encodeBase64Url (vp_digest (vf_profile v));
}.

(** Nothing older and nothing else at its revision. *)
Definition succeeds (r v : verified_profile) : Prop :=
  sp_revision (profile_of r) <= sp_revision (profile_of v) /\
  (sp_revision (profile_of r) = sp_revision (profile_of v) -> vf_representation r = vf_representation v) /\
  (sp_revision (profile_of r) < sp_revision (profile_of v) -> sp_updated_at (profile_of r) < sp_updated_at (profile_of v)).

Lemma check_retained_Ok p rep r u : check_retained p rep (Some r) = Ok u ->
  sp_revision (profile_of r) <= sp_revision p /\
  (sp_revision (profile_of r) = sp_revision p -> vf_representation r = rep) /\
  (sp_revision (profile_of r) < sp_revision p -> sp_updated_at (profile_of r) < sp_updated_at p).
Proof using Type.
  intros ([] & X1%fail_if_Ok%Z.ltb_ge & ([] & X2%fail_if_Ok & X3%fail_if_Ok)%bind_Ok)%bind_Ok.
  split; [done|]. split.
  - intros He. rewrite <- He, Z.eqb_refl in X2. cbn in X2. symmetry. by apply negb_false_iff, Cbor.equalBytes_eq in X2.
  - intros Hlt%Z.ltb_lt. rewrite Hlt in X3. cbn in X3. by apply Z.leb_gt in X3.
Qed.

Lemma verifyRepresentation_Ok resolved did rep retained v n : pf_resolve env n did = Ok resolved ->
  verifyRepresentation env resolved did rep retained = Ok v ->
  profile_verified did v /\ vf_representation v = rep /\ forall r, retained = Some r -> succeeds r v.
Proof.
  intros Hres (public & Hk & (o & Ho & (p & Hp & Hv)%bind_Ok)%bind_Ok)%bind_Ok.
  apply bind_Ok in Hv as ([] & Hd%fail_if_Ok%negb_false_iff%jstr_eqb_eq & ([] & Ht%fail_if_Ok%Z.ltb_ge & Hv)%bind_Ok).
  apply bind_Ok in Hv as ([] & Hc & Hv). apply Ok_eq in Hv as <-. split; [|split; [done|]].
  - split; cbn; try done; [by exists n, resolved| |].
    + pose proof Ho as (q & public' & Hok & -> & Hl & Hs)%verified_signed.
      destruct (negb _) eqn:Hkid in Hl; [discriminate Hl|]. apply negb_false_iff, jstr_eqb_eq in Hkid.
      injection Hl as <-. rewrite <- Hkid. by eapply parsed_signed.
    + unfold inspectTyped. rewrite (verifySigned_inspects _ _ _ _ Ho). cbn [mbind result_bind]. rewrite Hp. by eexists.
  - intros r ->. exact (check_retained_Ok _ _ _ _ Hc).
Qed.

Lemma profile_result_Ok did retained resolved response v n : pf_resolve env n did = Ok resolved ->
  profile_result env did retained resolved response = Ok v ->
  profile_verified did v /\ forall r, retained = Some r -> succeeds r v.
Proof.
  intros Hres Hv. unfold profile_result in Hv. destruct (rs_status response =? 304).
  - destruct retained as [r|]; [|done]. destruct (negb _); [done|].
    apply bind_Ok in Hv as (tag & _ & ([] & _ & (v' & Hv & ([] & _ & [= ->])%bind_Ok)%bind_Ok)%bind_Ok).
    by apply (verifyRepresentation_Ok _ _ _ _ _ _ Hres) in Hv as (? & _ & ?).
  - apply bind_Ok in Hv as ([] & _ & ([] & _ & ([] & _ & ([] & _ & (rep & _ & Hv)%bind_Ok)%bind_Ok)%bind_Ok)%bind_Ok).
    apply bind_Ok in Hv as (v' & Hv & (tag & _ & ([] & _ & [= ->])%bind_Ok)%bind_Ok).
    by apply (verifyRepresentation_Ok _ _ _ _ _ _ Hres) in Hv as (? & _ & ?).
Qed.

Lemma profile_response_Ok did retained resolved response : profile_response env did retained = Ok (resolved, response) ->
  exists n, pf_resolve env n did = Ok resolved.
Proof using Type.
  intros (r0 & Hr0 & ([r1 response1] & H1' & Hr)%bind_Ok)%bind_Ok.
  assert (Hr1 : exists n, pf_resolve env n did = Ok r1).
  { destruct (fetch_profile _ _ _ _ _) as [x|e].
    - injection H1' as <- _. by exists 0%nat.
    - apply bind_Ok in H1' as (r & Hr' & Hx). destruct (jstr_eqb _ _); [done|].
      apply bind_Ok in Hx as (x & _ & [= <- _]). by exists 1%nat. }
  destruct (moved _); [|by injection Hr as <- _].
  apply bind_Ok in Hr as (r & Hr' & Hx). destruct (jstr_eqb _ _); [done|].
  apply bind_Ok in Hx as (x & _ & [= <- _]). by exists 2%nat.
Qed.

(** The profile is the latest that is kept; what was kept before is not later. *)
Record profile_kept (did : jstr) (v : verified_profile) (db db' : Database) : Prop := {
  fk_row : exists row, db' verified_sender_profiles !! (did, sp_revision (profile_of v)) = Some row /\
    pr_cose row = vf_representation v;
  fk_latest k r : db' verified_sender_profiles !! (did, k) = Some r -> k <= sp_revision (profile_of v);
  fk_before k r : db verified_sender_profiles !! (did, k) = Some r -> k <= sp_revision (profile_of v) /\
    (k = sp_revision (profile_of v) -> pr_cose r = vf_representation v) /\
    (k < sp_revision (profile_of v) -> pr_updated_at r < sp_updated_at (profile_of v));
}.

Lemma verified_represented did v : profile_verified did v -> represented v.
Proof using Type. intros [[<- Hd] _ _ (o & Ho & Hp) _ _]. exists o. split; [done|]. by rewrite Hp. Qed.

Lemma retain_kept v (db : Database) u db' : represented v -> profiles_ok db -> retainVerifiedSenderProfile v db = Ok (u, db') ->
  profile_kept (vp_did (vf_profile v)) v db db'.
Proof using Type.
  intros (o & Ho & Hread) [Hrep Hord] [(row & Hrow & Hc & Hmax & ->)|(row & Hn & Hno & Hlt & ->)]%retain_Ok; cbn zeta in *.
  - destruct (Hrep _ _ _ Hrow) as (o' & Ho' & Hread'). rewrite Hc, Ho in Ho'. apply Ok_eq in Ho' as <-.
    assert (Hupd : pr_updated_at row = sp_updated_at (profile_of v)) by (cbn zeta in *; destruct Hread as (_ & _ & <-); symmetry; apply Hread').
    split.
    + exists (verified_again v row). rewrite set_eq. tables. by rewrite update_same, Hrow.
    + intros k r. rewrite set_eq. tables. intros Hr. apply update_cases in Hr as [([= ->] & _)|[_ Hr]]; [lia|by eapply Hmax].
    + intros k r Hr. apply Hmax in Hr as Hk. split; [done|]. split.
      * intros ->. by pose proof (eq_trans (eq_sym Hr) Hrow) as [= ->].
      * intros Hlt. rewrite <- Hupd. by eapply Hord.
  - assert (Hcose : pr_cose row = vf_representation v).
    { apply bind_Ok in Hn as (payload & _ & Hn). by apply Ok_eq in Hn as <-. }
    split.
    + exists row. rewrite set_eq. tables. split; [apply insert_same|done].
    + intros k r. rewrite set_eq. tables. intros Hr. apply insert_cases in Hr as [([= ->] & _)|[_ Hr]]; [lia|].
      apply Hlt in Hr as [Hk _]. lia.
    + intros k r Hr. apply Hlt in Hr as Hk. destruct Hk as (Hk & m & x & Hx & Hkm & Hu). split; [lia|]. split; [lia|]. intros _.
      destruct (Z.eq_dec k m) as [->|Hne].
      * by pose proof (eq_trans (eq_sym Hr) Hx) as [= ->].
      * pose proof (Hord _ _ _ _ _ Hr Hx ltac:(lia)). lia.
Qed.

Lemma kept_before did v (db db1 db' : Database) : profiles_later db db1 -> profile_kept did v db1 db' -> profile_kept did v db db'.
Proof using Type.
  intros [Hrows _] [Hrow Hlatest Hbefore]. split; [done..|].
  intros k r (r' & Hr' & Hc & _ & _ & Hu)%Hrows. rewrite <- Hc, <- Hu. by apply Hbefore.
Qed.

Lemma verify_profile_Ok did supplied (db : Database) v db' : verify_profile env did supplied db = (Ok v, db') ->
  profile_verified did v /\ (forall r, supplied = Some r -> succeeds r v) /\
  exists u, ((if pf_store env then begin (retainVerifiedSenderProfile v) else mret tt) : Act unit) (pf_others env 0 db) = (Ok u, db').
Proof.
  intros Hv. unfold verify_profile in Hv. apply bind_Act in Hv as ([] & db1 & Hx & Hv). apply act_Ok in Hx as [_ ->].
  apply bind_Act in Hv as ([] & db1 & Hx & Hv). apply act_Ok in Hx as [_ ->].
  apply bind_Act in Hv as (retained & db1 & Hret & Hv).
  assert (Hr : db1 = db /\ forall r, supplied = Some r -> retained = Some r).
  { destruct supplied as [r|]; [injection Hret as <- <-; split; [done|]; by intros r' [= <-]|].
    destruct (pf_store env); [apply act_Ok in Hret as [_ ->]|injection Hret as _ <-]; by split. }
  destruct Hr as [-> Hsup]. apply bind_Act in Hv as (result & db1 & Hx & Hv). apply act_Ok in Hx as [Hx ->].
  apply bind_Ok in Hx as ([resolved response] & Hresp & Hresult). apply profile_response_Ok in Hresp as [n Hn].
  apply (profile_result_Ok _ _ _ _ _ _ Hn) in Hresult as [Hver Hsucc].
  apply bind_Act in Hv as ([] & db1 & Hd & Hv). injection Hd as <-.
  apply bind_Act in Hv as (u & db1 & Hk & Hv). injection Hv as <- <-. split; [done|]. split; [|by exists u].
  intros r Hr. by apply Hsucc, Hsup.
Qed.
End verified.

(** ** The guarantees *)

Section guarantees.
Context `{HailEnv} `{CborgSpec} `{Keys} `{Triggers} `{WebUrl}.

(** C38: Profiles never go back: in every history of a provider that began without profiles, each kept
    profile is what its representation says, a later revision of a sender is of a later instant, and what
    was kept once stays as it was signed, while only later revisions are added. *)
Theorem profile_history (db0 db db' : Database) : db0 verified_sender_profiles = ∅ -> rtc profile_step db0 db ->
  rtc profile_step db db' -> profiles_ok db /\ profiles_later db db'.
Proof using Type.
  intros Hempty H1' H2'. assert (Hok0 : profiles_ok db0).
  { split; rewrite Hempty; intros *; tables; by rewrite lookup_empty. }
  pose proof (profile_steps _ _ H1' Hok0) as [Hok _]. split; [done|]. by apply profile_steps.
Qed.

(** C39: A verified profile is its sender's and the latest: when a verification answers, the profile names
    the DID and was signed with the messaging key that the directory gave for it, it succeeds the profile
    the caller had, and, where profiles are kept, it is kept as the latest of its sender: nothing kept
    before is later, and at its revision nothing else was kept. *)
Theorem verified_profile_authentic env did supplied (db : Database) v db' :
  (forall n d, rtc profile_step d (pf_others env n d)) -> profiles_ok db ->
  verify_profile env did supplied db = (Ok v, db') ->
  profile_verified env did v /\ (forall r, supplied = Some r -> succeeds r v) /\
  (pf_store env = true -> profile_kept did v db db').
Proof using Type*.
  intros Hothers Hok (Hver & Hsucc & u & Hk)%verify_profile_Ok. split; [done|]. split; [done|]. intros Hst. rewrite Hst in Hk.
  apply begin_Ok in Hk. destruct (profile_steps _ _ (Hothers 0%nat db) Hok) as [Hok1 Hl].
  pose proof (verified_represented _ _ _ Hver) as Hrep. destruct (fv_did _ _ _ Hver) as [<- _].
  eapply kept_before; [exact Hl|]. by eapply retain_kept.
Qed.
End guarantees.

(** ** Consent is what the sender signed

    The service of grants with the verifiers of addresses and profiles as they are: the hashes that a new
    grant names are hashes of objects its grantee signed. *)

Section consent.
Context `{HailEnv} `{CborgSpec} `{Keys} `{Triggers} `{GrantAuthority} `{NodeUrl} `{WebUrl}.
Context (env : grant_service_env) (discovery : discovery_env) (profiles : profile_env).
#[local] Set Default Proof Using "Type*".

(** The service asks these verifiers, at whatever time. *)
Record verifies_with : Prop := {
  vw_address a v : gs_verifyAddress env a = Ok v -> exists past b past',
    verify_address discovery a past = (Ok b, past') /\ v = vb_address b;
  vw_profile did p : gs_verifyProfile env did = Ok p -> exists db v db',
    verify_profile profiles did None db = (Ok v, db') /\ p = vf_profile v;
}.

(** What the grant names: an address binding and a profile, each signed by the grantee with the key that
    the directory had for it. *)
Record signed_consent (g : HailGrant) (a : VerifiedAddress) (p : VerifiedSenderProfile) : Prop := {
  sc_address : exists resolved, dv_resolve discovery (g_grantee g) = Ok resolved /\
    signed_with address_binding (g_grantee g ++ js "#hail-identity") (identityDidKey resolved) (va_representation a);
  sc_bound : ab_did (va_binding a) = g_grantee g /\ ab_address (va_binding a) = cc_grantee_address (g_consent_context g) /\
    binding_hash g = sha256 (va_representation a);
  sc_profile : exists n resolved, pf_resolve profiles n (g_grantee g) = Ok resolved /\
    signed_with sender_profile (g_grantee g ++ js "#hail-messaging") (messagingDidKey resolved) (vp_representation p);
  sc_offered : sp_did (profile_base (vp_profile p)) = g_grantee g /\ profile_hash g = sha256 (vp_representation p) /\
    Forall (fun category => offered (vp_profile p) category = true) (scope_values (g_scope g));
}.

Lemma consent_signed g c : verifies_with -> consented env g c -> signed_consent g (address c) (senderProfile c).
Proof.
  intros [Hva Hvp] [[canonical Ha] Hp Hs _ Hn [_ Hoff]].
  apply Hva in Ha as (past & b & past' & Ha%verify_address_Ok & Hb).
  apply Hvp in Hp as (db & v & db' & (Hp & _)%verify_profile_Ok & Hv). rewrite Hs in Hp.
  destruct Ha as [_ (resolved & Hr & _ & _ & Hk) Hsig _ [Haddr Hdid] _ Hdigest]. rewrite <- Hb in *.
  destruct Hp as [[_ Hd] (n & resolved' & Hr' & _ & Hk') Hsig' _ _ [Hdigest' _]].
  unfold profile_of, vf_representation in *. rewrite <- Hv in *. rewrite Hs in *.
  split.
  - exists resolved. split; [done|]. by rewrite <- Hk.
  - split; [done|]. unfold binding_hash. rewrite Hn. split; [exact Haddr|exact Hdigest].
  - exists n, resolved'. split; [done|]. by rewrite <- Hk'.
  - split; [done|]. unfold profile_hash. rewrite Hn. by split.
Qed.

(** C40: Authority goes back to signatures: whatever revision a call of the service answers was stored
    already, or it is stored by the call, signed by the key that the directory names for its grantor, whom
    this provider serves, and either restricts what was granted before on the same consent, or names the
    hash of an address binding and the hash of a profile that its grantee signed, with the identity key and
    the messaging key the directory had for it, and the profile offers everything that is granted. *)
Theorem authority_signed call (db : Database) g db' : (forall n d, rtc grant_step d (gs_others env n d)) -> verifies_with ->
  serve env call db = (Ok g, db') -> exists db1 db2, rtc grant_step db db1 /\ rtc grant_step db2 db' /\
  ((db1 = db2 /\ exists n, findRevision (g_grant_id (sgr_payload g)) n db1 = Ok (Some g)) \/
   ((begins g db1 db2 \/ advanced g db1 db2) /\ authorized_by_grantor env g /\
    ((exists a p, signed_consent (sgr_payload g) a p) \/
     (exists q, findCurrentByGrantId (g_grant_id (sgr_payload g)) db1 = Ok (Some q) /\
        narrows (sgr_payload q) (sgr_payload g))))).
Proof.
  intros Hothers Hw (db1 & db2 & H1' & H2' & Hc)%(serve_outcome env Hothers). exists db1, db2.
  do 2 (split; [done|]). destruct Hc as [Hf|[Hst Ha Hj]]; [by left|right]. do 2 (split; [done|]).
  destruct Hj as [[c Hc]|Hq]; [left|by right]. exists (address c), (senderProfile c). by apply consent_signed.
Qed.
End consent.
