(* ===== verification/DiscoveryScenario.v ===== *)
(** * An address is looked up, a profile kept, and consent given

    Bob's provider publishes his address binding and his profile; Alice's provider looks the address up,
    keeps the profile and issues a grant on them. *)

From S2P Require Import Prelude JsString Regex Value Rfc8949 Cbor Profiles Validation ValidatePayload Models Base64Url.
From S2P Require Import Identity Cose CoseRules WebCrypto Database Typed Conversations Envelopes Receiver Http.
From S2P Require Import Scenario Grants GrantRules GrantScenario GrantReceiver GrantExchange GrantService GrantServiceRules.
From S2P Require Import GrantServiceScenario StrictJson SafeFetch Discovery Plc DiscoveryRules MediaType SenderProfiles.
From S2P Require Import ProfileRules.
From Stdlib Require Import ZArith.
Open Scope Z_scope.

#[local] Existing Instance granting_env.
#[local] Existing Instance Reference.cborg.
#[local] Existing Instance Reference.cborg_spec.
#[local] Existing Instance example_triggers.
#[local] Existing Instance example_grant_authority.
#[local] Existing Instance plain_domains.
#[local] Existing Instance summing_keys.

(** ** The network *)

(** URLs of the form [https://host/path]. *)
Definition https_url (text : jstr) (base : option web_url) : option web_url :=
  if bool_decide (take 8 text = js "https://") then
    let rest := drop 8 text in
    let '(host, path) := match first_index (char "/") rest with
                         | Some i => (take i rest, drop i rest)
                         | None => (rest, js "/")
                         end in
    Some {| u_href := text; u_protocol := js "https:"; u_username := []; u_password := []; u_hostname := host;
            u_port := []; u_pathname := path; u_search := []; u_hash := [] |}
  else None.
Definition bobs_host : jstr := js "203.0.113.7".
#[local] Instance plain_urls : WebUrl := {|
  new_URL := https_url;
  set_search_params := fun pairs url => {|
    u_href := u_href url; u_protocol := u_protocol url; u_username := u_username url; u_password := u_password url;
    u_hostname := u_hostname url; u_port := u_port url; u_pathname := u_pathname url;
    u_search := js "?" ++ concat (map (fun p => p.1 ++ js "=" ++ p.2 ++ js "&") pairs); u_hash := u_hash url |};
  isIP := fun text => if jstr_eqb text bobs_host then 4 else 0 |}.
#[local] Instance plain_addresses : IpAddresses := {|
  ip := jstr; ip_parse := fun text => Some text; ip_is_v6 := fun _ => false; isIPv4MappedAddress := fun _ => false;
  toIPv4Address := fun a => a; ip_match := fun _ _ _ => true; ip_range := fun _ => js "unicast" |}.

(** ** What Bob's provider publishes *)

Definition signed_cose (t : HailSignedPayloadType) (key_id : jstr) (v : hvalue) : bytes :=
  let payload := encode_item (item_of_hail v) in
  representation_of t key_id payload (sum_signature (signed_bytes t key_id payload)).
Definition bobs_binding : bytes := Eval vm_compute in signed_cose Profiles.address_binding (bob ++ js "#hail-identity")
  (HMap true
    [(js "type", HStr (js "hail.address-binding")); (js "version", HNum 2);
     (js "address", HStr bobs_address); (js "did", HStr bob); (js "issued_at", HNum 10);
     (js "key_id", HStr (bob ++ js "#hail-identity"))]).
Definition bobs_profile : bytes := Eval vm_compute in signed_cose Profiles.sender_profile (bob ++ js "#hail-messaging")
  (HMap true
    [(js "type", HStr (js "hail.sender-profile")); (js "version", HNum 1); (js "did", HStr bob);
     (js "revision", HNum 1); (js "display_name", HStr (js "Bob"));
     (js "categories", HArr [HMap true [(js "id", HStr (js "news")); (js "label", HStr (js "News"))]]);
     (js "updated_at", HNum 10); (js "key_id", HStr (bob ++ js "#hail-messaging"))]).

(** JSON with the quotes written as apostrophes. *)
Definition json_source (text : String.string) : jstr :=
  map (fun c => if N.eqb c (char "'") then quote else c) (js text).
Arguments json_source text%_string.
Definition webfinger_text : jstr :=
  json_source "{'subject':'acct:bob@b.example','links':[{'rel':'https://racrproto.com/rel/address-binding',"
  ++ json_source "'type':'application/cose; cose-type=cose-sign1','href':'https://b.example/hail/bindings/bob'}]}".

Definition answer (content_type : jstr) (extra : list (jstr * jstr)) (body : bytes) : Response := {|
  rs_status := 200; rs_headers := (js "content-type", content_type) :: extra; rs_body := Some [Some body] |}.
Definition bobs_provider (past : list contact) (c : connection) : M Response :=
  if bool_decide (take 23 (cn_path c) = js "/.well-known/webfinger?")
  then Ok (answer (js "application/jrd+json") [] (map byte_of_N webfinger_text))
  else if jstr_eqb (cn_path c) (js "/hail/bindings/bob") then Ok (answer COSE_SIGN1_MEDIA_TYPE [] bobs_binding)
  else if jstr_eqb (cn_path c) (js "/hail/profiles/" ++ bob)
  then Ok (answer COSE_SIGN1_MEDIA_TYPE [(js "etag", quoted_etag (encodeBase64Url (sha256 bobs_profile)))] bobs_profile)
  else Err (OtherError (js "not found")).
Definition the_network : transport_env := {|
  tr_lookup := fun _ _ => Ok [(bobs_host, 4)]; tr_exchange := bobs_provider |}.

Definition directory (d : jstr) : M ResolvedHailDid := Ok {|
  did := d; identityDidKey := js "did:key:z6Mi"; messagingDidKey := js "did:key:z6Mk";
  serviceBase := js "https://b.example/hail"; resolved_evidence := {| document := []; data := []; log := [] |} |}.

(** The PLC directory, which is on a private network: it renders the state of Bob's identity, and its log has
    the state as an operation. *)
Definition bobs_state : jstr :=
  json_source "{'verificationMethods':{'hail-identity':'did:key:z6Mi','hail-messaging':'did:key:z6Mk'},"
  ++ json_source "'services':{'hail':{'type':'HailMessaging','endpoint':'https://b.example/hail'}}}".
Definition rendered_method (role key : String.string) : jstr :=
  json_source "{'id':'" ++ role_id bob role ++ json_source "','type':'Multikey','controller':'" ++ bob
  ++ json_source "','publicKeyMultibase':'" ++ js key ++ json_source "'}".
Arguments rendered_method (role key)%_string.
Definition bobs_document : jstr :=
  json_source "{'@context':[],'id':'" ++ bob ++ json_source "','verificationMethod':["
  ++ rendered_method "hail-identity" "z6Mi" ++ json_source "," ++ rendered_method "hail-messaging" "z6Mk"
  ++ json_source "],'service':[{'serviceEndpoint':'https://b.example/hail','type':'HailMessaging','id':'#hail'}]}".
#[local] Instance plain_plc : PlcLib := {|
  documentData_parse := fun v => Ok v; compatibleOpOrTombstone_parse := fun v => Ok v; didDocument_parse := fun v => Ok v;
  validateOperationLog := fun _ log => Ok (last log);
  formatDidDoc := fun _ => parseJsonWithoutDuplicateKeys bobs_document; jsonb_text := fun _ => [] |}.
Definition private_directory : plc_client := {|
  pc_baseUrl := js "http://plc:2582/"; pc_maxResponseBytes := MAX_PLC_RESPONSE_BYTES;
  pc_fetch := fun q =>
    let url := js "http://plc:2582" ++ js "/" ++ encodeURIComponent bob in
    if jstr_eqb (pl_url q) url then Ok (answer (js "application/json") [] (map byte_of_N bobs_document))
    else if jstr_eqb (pl_url q) (url ++ js "/data") then Ok (answer (js "application/json") [] (map byte_of_N bobs_state))
    else if jstr_eqb (pl_url q) (url ++ js "/log")
    then Ok (answer (js "application/json") [] (map byte_of_N (js "[" ++ bobs_state ++ js "]")))
    else Err (OtherError (js "not found")) |}.
Example directory_reads : (PlcHailDidResolver private_directory bob).1 = directory bob.
Proof. vm_compute. reflexivity. Qed.

Definition discovery : discovery_env := {|
  dv_fetch := safe_fetch the_network; dv_validateTarget := validateUrl; dv_resolver := PlcHailDidResolver private_directory;
  dv_discoverProvider := None; dv_redirected := fun _ => false; dv_now := fun _ => 40000 |}.
Definition profiles : profile_env := {|
  pf_resolve := fun _ => directory; pf_validateTarget := validateUrl;
  pf_fetch := fun _ request => (safe_fetch the_network request []).1; pf_redirected := fun _ => false;
  pf_now := fun _ => 40000; pf_store := true; pf_others := fun _ db => db |}.

(** ** The lookups *)

Definition looking_up : M verified_binding * list contact := verify_address discovery bobs_address [].
Definition found_binding : verified_binding := ltac:(
  let r := eval vm_compute in looking_up.1 in match r with Ok ?v => exact v end).
Definition made : list contact := looking_up.2.
Lemma looked_up : verify_address discovery bobs_address [] = (Ok found_binding, made).
Proof.
  assert (Hv : looking_up.1 = Ok found_binding) by (vm_compute; reflexivity).
  change (looking_up = (Ok found_binding, looking_up.2)). destruct looking_up as [r past]. cbn in Hv |- *. by rewrite Hv.
Qed.

Definition verifying : M verified_profile * Database := verify_profile profiles bob None no_grants.
Definition found_profile : verified_profile := ltac:(
  let r := eval vm_compute in verifying.1 in match r with Ok ?v => exact v end).
Definition kept_db : Database := verifying.2.
Lemma verified_now : verify_profile profiles bob None no_grants = (Ok found_profile, kept_db).
Proof.
  assert (Hv : verifying.1 = Ok found_profile) by (vm_compute; reflexivity).
  change (verifying = (Ok found_profile, verifying.2)). destruct verifying as [r db]. cbn in Hv |- *. by rewrite Hv.
Qed.

Lemma nothing_kept_yet : profiles_ok no_grants.
Proof.
  assert (Hempty : no_grants verified_sender_profiles = ∅) by reflexivity.
  split; rewrite Hempty; intros *; tables; by rewrite lookup_empty.
Qed.
Lemma undisturbed n db : rtc profile_step db (pf_others profiles n db).
Proof. apply rtc_refl. Qed.

Lemma keeping_step : rtc profile_step no_grants kept_db.
Proof.
  pose proof verified_now as (Hver & _ & [] & Hk)%verify_profile_Ok.
  apply rtc_once, (step_retain found_profile); [by eapply verified_represented|]. exact (begin_Ok _ _ _ _ Hk).
Qed.

(** The grant that Alice's provider issues on what it has looked up. *)
Definition checking_service : grant_service_env := {|
  gs_getAccountByAddress := gs_getAccountByAddress alices_service; gs_getKey := gs_getKey alices_service;
  gs_resolve := gs_resolve alices_service; gs_decrypt := gs_decrypt alices_service;
  gs_import := gs_import alices_service;
  gs_verifyAddress := fun a => vb_address <$> (verify_address discovery a []).1;
  gs_verifyProfile := fun d => vf_profile <$> (verify_profile profiles d None no_grants).1;
  gs_fresh := gs_fresh alices_service; gs_random := gs_random alices_service;
  gs_serviceBase := gs_serviceBase alices_service; gs_now := gs_now alices_service;
  gs_started := gs_started alices_service; gs_others := gs_others alices_service |}.
Lemma checking_alone n db : execution db (gs_others checking_service n db).
Proof. apply rtc_refl. Qed.
Lemma checking_verifies : verifies_with checking_service discovery profiles.
Proof.
  split.
  - intros a v Hv. cbn [gs_verifyAddress checking_service] in Hv. exists [].
    destruct (verify_address discovery a []) as [[b|e] past]; [|discriminate Hv].
    cbn in Hv. injection Hv as <-. by exists b, past.
  - intros d p Hp. cbn [gs_verifyProfile checking_service] in Hp. exists no_grants.
    destruct (verify_profile profiles d None no_grants) as [[v|e] db]; [|discriminate Hp].
    cbn in Hp. injection Hp as <-. by exists v, db.
Qed.

Definition consenting : M SignedGrantRevision * Database := serve checking_service granting_call no_grants.
Definition consented_revision : SignedGrantRevision := ltac:(
  let r := eval vm_compute in consenting.1 in match r with Ok ?g => exact g end).
Definition consented_db : Database := consenting.2.
Lemma consented_now : serve checking_service granting_call no_grants = (Ok consented_revision, consented_db).
Proof.
  assert (Hg : consenting.1 = Ok consented_revision) by (vm_compute; reflexivity).
  change (consenting = (Ok consented_revision, consenting.2)).
  destruct consenting as [r db]. cbn in Hg |- *. by rewrite Hg.
Qed.

(** ** The theorems along the way *)

Lemma verified_address_authentic_witness : looking_up.1 = Ok found_binding /\ va_did (vb_address found_binding) = bob /\
  address_verified discovery bobs_address found_binding.
Proof.
  split; [exact (f_equal fst looked_up)|]. split; [reflexivity|].
  exact (verified_address_authentic discovery bobs_address [] found_binding made looked_up).
Defined.

Lemma discovery_confined_witness : length (connections made) = 2%nat /\ length (plain_reads made) = 3%nat /\
  exists made', made = made' ++ [] /\ (length (connections made') <= 5)%nat /\
    Forall (anonymous the_network) (connections made') /\ Forall (directory_read private_directory) (plain_reads made').
Proof.
  split; [vm_compute; reflexivity|]. split; [vm_compute; reflexivity|].
  destruct (discovery_confined discovery the_network bobs_address [] (Ok found_binding) made eq_refl looked_up)
    as (made' & Hm & Hn & Hc & _ & Hplc).
  exists made'. exact (conj Hm (conj Hn (conj Hc (proj2 (Hplc private_directory eq_refl))))).
Defined.

Lemma verified_profile_authentic_witness : verifying.1 = Ok found_profile /\
  profile_verified profiles bob found_profile /\ profile_kept bob found_profile no_grants kept_db.
Proof.
  split; [exact (f_equal fst verified_now)|].
  destruct (verified_profile_authentic profiles bob None no_grants found_profile kept_db undisturbed nothing_kept_yet
    verified_now) as (Hv & _ & Hk).
  split; [exact Hv|]. exact (Hk eq_refl).
Defined.

Lemma profile_history_witness : profiles_ok kept_db /\ profiles_later no_grants kept_db.
Proof.
  exact (conj (proj1 (profile_history no_grants kept_db kept_db eq_refl keeping_step (rtc_refl _ _)))
              (proj2 (profile_history no_grants no_grants kept_db eq_refl (rtc_refl _ _) keeping_step))).
Defined.

Lemma authority_signed_witness : consenting.1 = Ok consented_revision /\ exists db1 db2,
  rtc grant_step no_grants db1 /\ rtc grant_step db2 consented_db.
Proof.
  split; [exact (f_equal fst consented_now)|].
  destruct (authority_signed checking_service discovery profiles granting_call no_grants consented_revision consented_db
    checking_alone checking_verifies consented_now) as (db1 & db2 & H1' & H2' & _).
  exists db1, db2. exact (conj H1' H2').
Defined.
